(* ===== verification/_CoqProject ===== *)
-Q . S2P
Prelude.v
CppStd.v
RespValue.v
RespParser.v
StringTable.v
HashTable.v
LRU.v
KVStore.v
Snapshot.v
AOF.v
Socket.v
Setup.v
ThreadPool.v
Ring.v
Cluster.v
Utils.v
RaftNode.v
RaftSystem.v
Server.v
Handler.v
Heartbeat.v
Locks.v
Membership.v
Recovery.v
Invariant.v
EventLoop.v
Lifecycle.v
Gossip.v
Join.v
Process.v
Figures.v
Client.v
Redirect.v
Main.v
