(* ===== verification/Prelude.v ===== *)
(** * kvjet: a verification development

    kvjet is a distributed in-memory key-value store: clients speak RESP to a
    node; a node keeps its pairs in sharded hash tables with recency lists,
    writes a log and snapshots, finds a key's owner by consistent hashing, learns
    of other nodes by gossip, and runs small Raft groups beside the store.  Paths
    below are under [src/src/].

    ** How the model is built

    Every method is an executable definition named after it.  Fallible code
    returns [res]: [Ok], [Throw] of an exception, [UB] for undefined behaviour,
    [OutOfFuel] for a loop that was cut (with a theorem that the fuel given is
    enough, or that none is).  A method of a class is a computation [M S A] on the
    record [S] of its members: when it throws, the members keep what they had.
    Where the code asks for memory that its input announces (the parser), what the
    allocator gives is a parameter, [RespParser.Memory], and a refusal throws
    [BadAlloc]; the other components use the 47-bit address space of a process.
    Machine integers are [Z] with their wrap-around written out ([u16], [u64],
    [i32]), bytes are [ascii], [std::string] is a list of them, [std::map] its
    in-order traversal.  What the program gets from outside (clocks, random
    numbers, the answers of system calls, the schedule of threads) is a parameter
    or a step of a relation, never fixed.

    ** The files, from the bottom

    - [Prelude]: bytes, integers, results, the monads, their lemmas and tactics.
    - [CppStd]: [std::to_string], [std::stoull], stream extraction, [std::map].
    - [RespValue] (resp/RespValue, resp/RespEncoder): values and encoders.
    - [RespParser] (resp/RespParser): the incremental parser, one step per byte.
    - [StringTable]: the class by which [LRU] and [KVStore] use a hash table, and
      its laws; [HashTable] (kvstore/HashTable) implements it: linear probing,
      tombstones, rehash.
    - [LRU] (kvstore/LRU): list, iterators and index, over any [StringTable].
    - [KVStore] (kvstore/KVStore): sixteen shards, each a table and a recency
      list; [Snapshot]: the snapshot files, written and read.
    - [AOF] (kvstore/AOF): the log and its buffer; [Recovery]: replaying it, the
      constructor of the server and a round of [snapshotLoop].
    - [Socket] (util/Socket): who owns and closes which descriptor; the loops of
      [Server::send], [Server::recv] and [Socket::accept] over the kernel's
      answers.
    - [Setup]: the calls to the kernel of the server's constructor and
      destructor, of [bind], [connect], [listen], [accept], [joinCluster] and
      [bindToCPU], with the kernel as a parameter.
    - [ThreadPool] (util/ThreadPool): queue, flag, workers and condition variable
      as a transition system over all interleavings.
    - [Ring] and [Cluster] (util/Cluster): the hash ring; the topology,
      connection, heartbeat and gossip tables.
    - [Utils] (util/Utils and [Handler::GETNETWORK]): the network reply.
    - [RaftNode] (raft/RaftNode): a member of a group with its messages and log
      file; [RaftSystem]: members and a network that loses, delays, duplicates
      and reorders, as a step relation.
    - [Server] (server/Server): the members of the server, its Raft groups, data
      migration; [Handler] (server/Handler): every command; [Membership]: what
      the commands do together when nodes join and leave.
    - [Heartbeat] (util/Cluster, server/Server): [start], [stop] and the loop of
      the heartbeat thread, with the callbacks into the server's queue.
    - [Locks]: the locks that every operation takes and releases, in order, and
      the threads of a server that run through them in any interleaving.
    - [Invariant]: what is always true of a server, kept by every command.
    - [EventLoop]: [epoll_step] with its sockets, message queues, ticks and
      applies, [connect], and the tasks of the workers; [Lifecycle]:
      [joinCluster], [run], [gracefulShutdown].
    - [Gossip]: announcements between several servers; [Join]: a server that joins,
      message by message through the handlers of its bootstrap node, and what that
      node sends it of its data.
    - [Process]: the whole server process, its main thread, workers, heartbeat
      and snapshot threads, signals and destructor, as one step relation.
    - [Figures] (client/Client): the figures of the benchmarks in IEEE doubles;
      [Client]: commands, routing, topology, the interactive loop and the
      benchmarks; [Redirect]: a client whose topology is behind.
    - [Main] (server_main.cpp, client_main.cpp): command lines, start, exit codes, the
      figures of several client threads.

    The components meet as in the code: [EventLoop.handle_client] feeds the
    parser of a socket and queues tasks, [EventLoop.worker_step] runs
    [Handler.Handler_handle] on a task, the handler calls [KVStore], [AOF],
    [Cluster] and, through [Server.on_group], [RaftNode]; replies, gossip and Raft
    messages go through [out_queue] back to [EventLoop.drain_queue].  [Process]
    runs all of them side by side, from a start by [Main.server_main] to the end
    of the destructor.  One step of [Process] is what a thread does between two
    points at which it waits: a round of the loop, a task, a heartbeat round;
    the finer interleavings, at each lock, are those of [Locks].

    ** What is shown

    - Wire format: values survive encoding, any cutting into chunks, and parsing;
      no encoding is a prefix of another; every outcome of the parser on any input
      is known; requests of the command line are readable by the server.
    - Storage: table, recency list and store refine a finite map and an abstract
      recency order (two levels: operations, and runs of operations) as long as
      the tables have an empty bucket left; snapshot and log restore the contents;
      where the code departs from a map (saturation by tombstones, evicted keys)
      the departure is a theorem.
    - Concurrency: the pool starts tasks in order, each once, loses no wakeup and
      always lets a shutdown return; descriptors are closed exactly once; workers
      and heartbeat thread never deadlock among themselves, nor with the main
      thread while the membership stays and nothing is sent for Raft; where the
      code does deadlock (connecting
      or timing out against the heartbeat, applying against a migration, ticking
      against a Raft message), the two threads wait for ever.
    - The process: started on a log of insertions and no snapshot or a restorable
      one ([Recovery.restorable]: those of stores without tombstones are), in every
      state that the threads can reach the server is well formed, keeps its
      identity, and its log file can be read back; every readable request ends,
      and is undefined exactly in the cases of [Invariant.undefined_request];
      behind [gracefulShutdown] the process always gets out, and the log is
      flushed.
    - Between servers: an announcement reaches every server that connections
      lead to, and then nothing more is sent; a server that joins ends up with the
      ring and the topology of its bootstrap node ([Join.join_end_to_end]).
    - Placement: joins and leaves move only the keys they must; the ring does not
      depend on the order of joins; replicas are distinct, and the walk that
      looks for them ends exactly when there are enough nodes.
    - Raft: messages never lower terms and leave what is applied; what becomes of
      the log when entries match is known exactly ([RaftNode.merge_log]); committed entries are applied once and in order, a single member is durable;
      a group with peers never gets a leader, because of how flags are encoded.
    - Commands and event loop: over any rounds of the loop requests become tasks in
      the order of each client's stream, and queued replies are given to the kernel
      in the order of the queue; [SET], [GET], [EXIST] do to the store
      and the log what they say; other nodes' keys are redirected; announcements
      are acted on once and dialled at the announced address; joining, the end of
      synchronisation and the hand-over at shutdown.
    - Client and servers: a client that starts computes every key's owner as the
      server it asked; a [SET] typed at it, from the first connection to the
      printed reply; one that is redirected, refreshed and repeated; the
      percentiles of the latency benchmark are those of the measurements.
    - Defects, each as a theorem about the code as it is: what is undefined (a
      lock taken twice, [DEL], the last node's shutdown, a blank line), what stops
      the server (one malformed byte, an unreachable peer, a value of two words on
      a single node), what is lost (the keys that move to a joining node,
      writes during a snapshot), what blocks for ever (the lock orders above),
      what is used after its end (the members of the server by its workers).

    ** Fuel

    Recursion is structural wherever the code's loop consumes something (bytes,
    queue entries, answers of the kernel; running out of answers is a call that
    does not return).  [ring_queryReplicas] takes the length of the ring plus
    one, enough by [ring_replicas_distinct]; [ring_replicas_diverge] covers the
    other case.  [drain], [read_blocks] and [accept_loop] take the length of what
    they consume.  The table's probe loop takes the number of buckets.

    ** Not modelled

    - The data races: [raft_groups] and the flags are read and cleared without a
      lock, which is undefined in C++; the model takes such accesses as steps.  A
      fork in the middle of another thread's update is taken as before or after.
    - [heartbeatInit], which has no caller.  Failures of [fcntl] and of the
      registration with epoll are in [Setup] and taken to succeed in [EventLoop].
    - Logging output and what goes to the error stream, the result lines of the
      benchmarks beyond their figures, how a figure is cut to two digits when
      printed, and the tests.  What the client prints otherwise is recorded.
    - Constants of [Config] that only size what the model leaves open: the number
      of workers, events of a round, received bytes of a call, file names, the
      interval of snapshots.  [SERVER_PORT] and [HEARTBEAT_PORT] have no use. *)
From Stdlib Require Import ZArith Ascii String Lia.
From stdpp Require Import base numbers list strings gmap.
Local Open Scope Z_scope.

(** ** Bytes and strings

    [std::string] is a list of [char]s; a C++ string literal is written
    [str "..."]. *)
#[warnings="-notation-for-abbreviation"] Notation bytes := (list ascii).
Definition str (s : string) : bytes := String.list_ascii_of_string s.
Arguments str s : simpl never.
Definition CR : ascii := Ascii.ascii_of_nat 13.
Definition LF : ascii := Ascii.ascii_of_nat 10.
Definition CRLF : bytes := [CR; LF].

(** ** Machine integers

    A [w]-bit unsigned integer is a [Z] in [0, 2^w); the conversions below are
    the ones C++ performs implicitly (reduction modulo [2^w], two's complement
    for signed targets).  [char] is signed on the target (x86-64 Linux). *)
Definition u16 (z : Z) : Z := z mod 2 ^ 16.
Definition u32 (z : Z) : Z := z mod 2 ^ 32.
Definition u64 (z : Z) : Z := z mod 2 ^ 64.
Definition i32 (z : Z) : Z := (z + 2 ^ 31) mod 2 ^ 32 - 2 ^ 31.

Definition is_u16 (z : Z) : Prop := 0 <= z < 2 ^ 16.
Definition is_u32 (z : Z) : Prop := 0 <= z < 2 ^ 32.
Definition is_u64 (z : Z) : Prop := 0 <= z < 2 ^ 64.
Definition is_i64 (z : Z) : Prop := - 2 ^ 63 <= z < 2 ^ 63.

Definition uchar (c : ascii) : Z := Z.of_N (N_of_ascii c).
Definition schar (c : ascii) : Z := if uchar c <? 128 then uchar c else uchar c - 256.
Definition char_of (z : Z) : ascii := ascii_of_N (Z.to_N z).

(** ** Outcomes of C++ code

    A call returns a value, throws, or reaches undefined behaviour.
    [OutOfFuel] is the outcome of a modelled loop whose fuel ran out; it is
    never an outcome of the C++ code. *)
Inductive exn :=
  | RuntimeError (what : string)
  | InvalidArgument
  | LengthError
  | BadAlloc
  | OutOfRange.

Inductive res (A : Type) :=
  | Ok (a : A)
  | Throw (e : exn)
  | UB
  | OutOfFuel.
Arguments Ok {A} a.
Arguments Throw {A} e.
Arguments UB {A}.
Arguments OutOfFuel {A}.

#[global] Instance res_ret : MRet res := λ A a, Ok a.
#[global] Instance res_bind : MBind res := λ A B f m,
  match m with
  | Ok a => f a
  | Throw e => Throw e
  | UB => UB
  | OutOfFuel => OutOfFuel
  end.
#[global] Instance res_fmap : FMap res := λ A B f m,
  match m with
  | Ok a => Ok (f a)
  | Throw e => Throw e
  | UB => UB
  | OutOfFuel => OutOfFuel
  end.

#[global] Instance exn_eq_dec : EqDecision exn.
Proof. solve_decision. Defined.
#[global] Instance res_eq_dec `{EqDecision A} : EqDecision (res A).
Proof. solve_decision. Defined.

Definition is_ok {A} (r : res A) : bool := match r with Ok _ => true | _ => false end.

(** ** State and exceptions

    A method of a class with state [S] is a computation [M S A].  When it
    throws, the members keep the values they had at the throw. *)
Definition M (S A : Type) : Type := S → res A * S.

#[global] Instance M_ret {S} : MRet (M S) := λ A a s, (Ok a, s).
#[global] Instance M_bind {S} : MBind (M S) := λ A B f m s,
  match m s with
  | (Ok a, s') => f a s'
  | (Throw e, s') => (Throw e, s')
  | (UB, s') => (UB, s')
  | (OutOfFuel, s') => (OutOfFuel, s')
  end.

Definition mget {S} : M S S := λ s, (Ok s, s).
Definition mput {S} (s' : S) : M S unit := λ _, (Ok tt, s').
Definition mmodify {S} (f : S → S) : M S unit := λ s, (Ok tt, f s).
Definition mthrow {S A} (e : exn) : M S A := λ s, (Throw e, s).
Definition mub {S A} : M S A := λ s, (UB, s).
Definition mlift {S A} (r : res A) : M S A := λ s, (r, s).

(** Run a method of a member object: [g] reads the member, [p] writes it back. *)
Definition mzoom {S T A} (g : S → T) (p : T → S → S) (m : M T A) : M S A :=
  λ s, let '(r, t) := m (g s) in (r, p t s).

(** [for (x : l) body(x)] *)
Fixpoint mfor {S A} (l : list A) (body : A → M S unit) : M S unit :=
  match l with
  | [] => mret tt
  | x :: l' => body x ≫= λ _, mfor l' body
  end.

Section monad.
Context {S A B : Type}.
Implicit Types (m : M S A) (f : A → M S B) (s : S).

Lemma M_bind_Ok m f s a s' : m s = (Ok a, s') → (m ≫= f) s = f a s'.
Proof. intros H. unfold mbind, M_bind. by rewrite H. Qed.

Lemma M_bind_Throw m f s e s' : m s = (Throw e, s') → (m ≫= f) s = (Throw e, s').
Proof. intros H. unfold mbind, M_bind. by rewrite H. Qed.

Lemma M_bind_UB m f s s' : m s = (UB, s') → (m ≫= f) s = (UB, s').
Proof. intros H. unfold mbind, M_bind. by rewrite H. Qed.

Lemma M_bind_inv m f s b s' :
  (m ≫= f) s = (Ok b, s') → ∃ a s1, m s = (Ok a, s1) ∧ f a s1 = (Ok b, s').
Proof.
  unfold mbind, M_bind. destruct (m s) as [[a| | |] s1] eqn:E; intros H;
    try discriminate. eauto.
Qed.

Lemma res_bind_inv (r : res A) (f : A → res B) b :
  (r ≫= f) = Ok b → ∃ a, r = Ok a ∧ f a = Ok b.
Proof. destruct r; intros H; try discriminate. eauto. Qed.

Lemma M_bind_fst_UB (m : M S A) (f : A → M S B) s : (m s).1 = UB → ((m ≫= f) s).1 = UB.
Proof. destruct (m s) as [r s'] eqn:E. simpl. intros ->. by rewrite (M_bind_UB _ _ _ _ E). Qed.

Lemma lift_Ok (r : res A) a (f : A → M S B) s : r = Ok a → (mlift r ≫= f) s = f a s.
Proof. by intros ->. Qed.

Lemma bind_not_ok (m : M S A) (f : A → M S B) b s :
  (∀ a s1, (f a s1).1 ≠ Ok b) → ((m ≫= f) s).1 ≠ Ok b.
Proof. intros Hf. unfold mbind, M_bind. by destruct (m s) as [[a| | |] s1]; try apply Hf. Qed.
End monad.

Lemma mfor_app {S A} (l1 l2 : list A) (f : A → M S unit) s s1 :
  mfor l1 f s = (Ok tt, s1) → mfor (l1 ++ l2) f s = mfor l2 f s1.
Proof.
  revert s. induction l1 as [|x l1 IH]; intros s H; [by injection H as ->|]. cbn [mfor app] in *.
  apply M_bind_inv in H as ([] & s2 & H1 & H2). rewrite (M_bind_Ok _ _ _ _ _ H1). by apply IH.
Qed.

(** ** Invariants of computations

    [after ub I m s]: run from [s], the call [m] leaves a state of [I], whatever
    its outcome, and returns or throws unless [ub] allows undefined
    behaviour. *)
Definition defined {A} (r : res A) : Prop := match r with Ok _ | Throw _ => True | UB | OutOfFuel => False end.

Definition after {S A} (ub : bool) (I : S → Prop) (m : M S A) (s : S) : Prop :=
  (ub = false → defined (m s).1) ∧ I (m s).2.

Section after.
Context {S : Type} (ub : bool) (I : S → Prop).
Implicit Types s : S.

Lemma after_ret {A} (a : A) s : I s → after ub I (mret a) s.
Proof. done. Qed.
Lemma after_throw {A} e s : I s → after ub I (mthrow (A := A) e) s.
Proof. done. Qed.
Lemma after_ub {A} s : ub = true → I s → after ub I (mub (A := A)) s.
Proof. intros -> ?. split; [done|]. done. Qed.
Lemma after_put s s' : I s' → after ub I (mput s') s.
Proof. done. Qed.
Lemma after_modify (f : S → S) s : I (f s) → after ub I (mmodify f) s.
Proof. done. Qed.
Lemma after_lift {A} (r : res A) s : (ub = false → defined r) → I s → after ub I (mlift r) s.
Proof. done. Qed.

Lemma after_bind {A B} (m : M S A) (f : A → M S B) s :
  after ub I m s → (∀ a s', m s = (Ok a, s') → I s' → after ub I (f a) s') → after ub I (m ≫= f) s.
Proof.
  intros [Hd Hi] Hf. unfold after, mbind, M_bind. destruct (m s) as [[a| | |] s'] eqn:E; simpl in *; try done.
  by apply Hf.
Qed.

Lemma after_get {B} (f : S → M S B) s : after ub I (f s) s → after ub I (mget ≫= f) s.
Proof. done. Qed.

(** A value that is looked up and cannot fail. *)
Lemma after_lift_bind {A B} (r : res A) (f : A → M S B) s :
  (ub = false → defined r) → I s → (∀ a, r = Ok a → after ub I (f a) s) → after ub I (mlift r ≫= f) s.
Proof.
  intros Hd Hi Hf. apply after_bind; [by apply after_lift|]. intros a s' [= -> <-] _. by apply Hf.
Qed.

Lemma after_mfor {A} (l : list A) (body : A → M S unit) s :
  (∀ x s, x ∈ l → I s → after ub I (body x) s) → I s → after ub I (mfor l body) s.
Proof.
  intros Hb. revert s. induction l as [|x l IH]; intros s Hs; [done|]. cbn [mfor]. apply after_bind.
  - apply Hb; [left|done].
  - intros _ s' _ Hs'. apply IH; [|done]. intros y s0 Hy. apply Hb. by right.
Qed.
End after.

Lemma after_weaken {S A} ub (I : S → Prop) (m : M S A) s : after false I m s → after ub I m s.
Proof. intros [Hd Hi]. split; [by intros _; apply Hd|done]. Qed.

Lemma after_mono {S A} ub (I J : S → Prop) (m : M S A) s : (∀ s, I s → J s) → after ub I m s → after ub J m s.
Proof. intros HIJ [Hd Hi]. split; [done|by apply HIJ]. Qed.

(** A call on a member. *)
Lemma after_zoom {S T A} ub (I : S → Prop) (J : T → Prop) (g : S → T) (p : T → S → S) (m : M T A) s :
  (∀ t, J t → I (p t s)) → after ub J m (g s) → after ub I (mzoom g p m) s.
Proof.
  intros HIJ [Hd Hi]. unfold after, mzoom. destruct (m (g s)) as [r t]. simpl in *. split; [done|by apply HIJ].
Qed.

Lemma i32_small z : - 2 ^ 31 <= z < 2 ^ 31 → i32 z = z.
Proof. intros H. unfold i32. rewrite Z.mod_small; lia. Qed.

(** ** Tactics of the development *)

(** Unfold the monads and compute the next steps of a method body. *)
Ltac mrun :=
  repeat (unfold mbind, M_bind, mret, M_ret, res_bind, res_ret, mget, mput, mmodify,
    mthrow, mub, mlift, mzoom in *; cbn -[Z.modulo Z.pow Z.mul Z.add Z.sub Nat.modulo] in *).

(** Take apart every [bind] hypothesis that ends in [Ok]. *)
Ltac minv :=
  repeat match goal with
  | H : (?m ≫= ?f) _ = (Ok _, _) |- _ =>
      let a := fresh "a" in let s1 := fresh "s" in let E := fresh "E" in
      apply M_bind_inv in H as (a & s1 & E & H)
  | H : (?r ≫= ?f) = Ok _ |- _ =>
      let a := fresh "a" in let E := fresh "E" in
      apply res_bind_inv in H as (a & E & H)
  end.

Ltac deex :=
  repeat match goal with
  | H : ∃ x, _ |- _ => let x' := fresh x in destruct H as [x' H]
  end.

(** Reflect the boolean comparisons of [Z] and [nat] in the context. *)
Ltac breflect :=
  repeat match goal with
  | H : _ && _ = true |- _ => apply andb_true_iff in H as [? ?]
  | H : _ || _ = false |- _ => apply orb_false_iff in H as [? ?]
  | H : (_ <? _) = true |- _ => apply Z.ltb_lt in H
  | H : (_ <? _) = false |- _ => apply Z.ltb_ge in H
  | H : (_ <=? _) = true |- _ => apply Z.leb_le in H
  | H : (_ <=? _) = false |- _ => apply Z.leb_gt in H
  | H : (_ =? _) = true |- _ => apply Z.eqb_eq in H
  | H : (_ =? _) = false |- _ => apply Z.eqb_neq in H
  | H : (_ <? _)%nat = true |- _ => apply Nat.ltb_lt in H
  | H : (_ <? _)%nat = false |- _ => apply Nat.ltb_ge in H
  | H : (_ =? _)%nat = true |- _ => apply Nat.eqb_eq in H
  | H : (_ =? _)%nat = false |- _ => apply Nat.eqb_neq in H
  end.

(** ** Hint database of the development *)
Create HintDb kvjet.
Create Rewrite HintDb kvjet.

(** ** Generic lemmas: machine integers *)

Lemma u64_range z : is_u64 (u64 z).
Proof. apply Z.mod_pos_bound. lia. Qed.
Lemma u32_range z : is_u32 (u32 z).
Proof. apply Z.mod_pos_bound. lia. Qed.
Lemma u64_id z : is_u64 z → u64 z = z.
Proof. intros. by apply Z.mod_small. Qed.
Lemma u32_id z : is_u32 z → u32 z = z.
Proof. intros. by apply Z.mod_small. Qed.
Lemma u16_id z : is_u16 z → u16 z = z.
Proof. intros. by apply Z.mod_small. Qed.
#[export] Hint Resolve u64_range u32_range : kvjet.
#[export] Hint Rewrite u64_id u32_id u16_id using (solve [eauto with kvjet]) : kvjet.

Lemma uchar_range c : 0 <= uchar c < 256.
Proof. unfold uchar. pose proof (N_ascii_bounded c). lia. Qed.

Lemma char_of_uchar c : char_of (uchar c) = c.
Proof. unfold char_of, uchar. rewrite N2Z.id. apply ascii_N_embedding. Qed.

Lemma uchar_char_of z : 0 <= z < 256 → uchar (char_of z) = z.
Proof. intros H. unfold uchar, char_of. rewrite N_ascii_embedding; lia. Qed.

Lemma uchar_inj c d : uchar c = uchar d → c = d.
Proof. intros H. rewrite <- (char_of_uchar c), <- (char_of_uchar d). by rewrite H. Qed.

(** ** Generic lemmas: lists *)

Lemma foldl_app_snoc {A B} (f : A → B → A) l x a :
  foldl f a (l ++ [x]) = f (foldl f a l) x.
Proof. by rewrite foldl_app. Qed.

Lemma length_zero_Z {A} (l : list A) : Z.of_nat (length l) = 0 → l = [].
Proof. destruct l; simpl; [done | lia]. Qed.

Lemma list_filter_all {A} (P : A → Prop) `{!∀ x, Decision (P x)} (l : list A) :
  Forall P l → filter P l = l.
Proof.
  induction 1 as [|x l Hx _ IH]; [done|]. rewrite filter_cons, decide_True by done. by rewrite IH.
Qed.

Lemma elem_of_flat_map {A B} (f : A → list B) (l : list A) y :
  y ∈ flat_map f l ↔ ∃ i x, l !! i = Some x ∧ y ∈ f x.
Proof.
  induction l as [|a l IH]; simpl.
  - rewrite elem_of_nil. split; [done|]. by intros (i & x & Hi & _).
  - rewrite elem_of_app, IH. split.
    + intros [Hy|(i & x & Hi & Hy)]; [by exists 0%nat, a|by exists (S i), x].
    + intros ([|i] & x & Hi & Hy); simplify_eq/=; [by left|right; eauto].
Qed.

(** Pairwise disjoint duplicate-free pieces make a duplicate-free list. *)
Lemma NoDup_flat_map {A B} (f : A → list B) (l : list A) :
  (∀ i x, l !! i = Some x → NoDup (f x)) →
  (∀ i j x x' y, l !! i = Some x → l !! j = Some x' → y ∈ f x → y ∈ f x' → i = j) →
  NoDup (flat_map f l).
Proof.
  induction l as [|a l IH]; intros Hd Hu; simpl; [constructor|].
  apply NoDup_app. split_and!.
  - by apply (Hd 0%nat).
  - intros y Hy Hin. apply elem_of_flat_map in Hin as (j & x' & Hj & Hy').
    by discriminate (Hu 0%nat (S j) a x' y eq_refl Hj Hy Hy').
  - apply IH; [intros i x Hi; by apply (Hd (S i))|].
    intros i j x x' y Hi Hj Hy Hy'. by injection (Hu (S i) (S j) x x' y Hi Hj Hy Hy').
Qed.

Lemma Forall_filter_sub {A} (Q P : A → Prop) `{!∀ x, Decision (P x)} (l : list A) :
  Forall Q l → Forall Q (filter P l).
Proof.
  rewrite !Forall_forall. intros HQ x Hx. apply list_elem_of_filter in Hx as [_ Hx]. by apply HQ.
Qed.

Lemma forallb_map_Forall {A B} (f : A → B) (p : B → bool) (l : list A) :
  Forall (λ x, p (f x) = true) l → forallb p (map f l) = true.
Proof. induction 1 as [|x l Hx _ IH]; simpl; [done|]. by rewrite Hx, IH. Qed.
