(* ===== verification/CppStd.v ===== *)
(** * The parts of the C++ standard library the program computes with

    Decimal conversions ([std::to_string], [std::stoull]), whitespace-separated
    extraction ([operator>>] on a string stream) and [std::map], an ordered
    association whose iteration order the program relies on. *)
From Stdlib Require Import ZArith Ascii String Lia Sorted.
From stdpp Require Import base numbers list strings.
From S2P Require Import Prelude.
Local Open Scope Z_scope.

(** ** Decimal digits *)

Definition digit (d : Z) : ascii := char_of (48 + d).
Definition is_digit (c : ascii) : bool := (48 <=? uchar c) && (uchar c <=? 57).
(** [c - '0'] *)
Definition digit_val (c : ascii) : Z := uchar c - 48.

Fixpoint digits_aux (fuel : nat) (z : Z) (acc : bytes) : bytes :=
  match fuel with
  | O => acc
  | S f =>
      if z <? 10 then digit z :: acc
      else digits_aux f (z / 10) (digit (z mod 10) :: acc)
  end.

(** The decimal digits of [z >= 0]; [log2 z + 1] steps suffice because every
    step divides by ten. *)
Definition digits (z : Z) : bytes := digits_aux (S (Z.to_nat (Z.log2 z))) z [].

(** [std::to_string] of an integer. *)
Definition to_string (z : Z) : bytes :=
  if z <? 0 then str "-" ++ digits (- z) else digits z.

(** The number a digit string denotes, continuing from [acc]. *)
Definition dec_val (acc : Z) (s : bytes) : Z :=
  foldl (λ a c, a * 10 + digit_val c) acc s.

(** ** [std::stoull] (base 10) *)

Definition is_space (c : ascii) : bool :=
  (uchar c =? 32) || ((9 <=? uchar c) && (uchar c <=? 13)).

Fixpoint skip_spaces (s : bytes) : bytes :=
  match s with
  | c :: s' => if is_space c then skip_spaces s' else s
  | [] => []
  end.

Fixpoint take_digits (s : bytes) : bytes :=
  match s with
  | c :: s' => if is_digit c then c :: take_digits s' else []
  | [] => []
  end.

Definition ULLONG_MAX : Z := 2 ^ 64 - 1.

Definition stoull (s : bytes) : res Z :=
  let s := skip_spaces s in
  let '(neg, s) :=
    match s with
    | c :: s' =>
        if uchar c =? 45 then (true, s')
        else if uchar c =? 43 then (false, s') else (false, s)
    | [] => (false, [])
    end in
  match take_digits s with
  | [] => Throw InvalidArgument
  | ds =>
      let v := dec_val 0 ds in
      if ULLONG_MAX <? v then Throw OutOfRange
      else Ok (if neg : bool then u64 (- v) else v)
  end.

(** ** Extraction from a stream ([operator>>])

    [None] stands for a stream at its end (after white space): nothing is
    stored. *)

Fixpoint take_word (s : bytes) : bytes :=
  match s with
  | c :: s' => if is_space c then [] else c :: take_word s'
  | [] => []
  end.

Definition extract_word (s : bytes) : option (bytes * bytes) :=
  match skip_spaces s with
  | [] => None
  | s' => Some (take_word s', drop (length (take_word s')) s')
  end.

(** The value stored, whether the stream is still good, and what is left; [w]
    is the width of the unsigned type. *)
Definition extract_unsigned (w : Z) (s : bytes) : option (Z * bool * bytes) :=
  match skip_spaces s with
  | [] => None
  | c :: s' =>
      let '(neg, body) :=
        if uchar c =? 45 then (true, s') else if uchar c =? 43 then (false, s') else (false, c :: s') in
      let ds := take_digits body in
      let rest := drop (length ds) body in
      match ds with
      | [] => Some (0, false, rest)
      | _ =>
          let v := dec_val 0 ds in
          if v <? 2 ^ w then Some (if neg : bool then (- v) mod 2 ^ w else v, true, rest)
          else Some (2 ^ w - 1, false, rest)
      end
  end.

(** ** [while (ss >> tok) tokens.push_back(tok)]

    The maximal runs of non-space characters, in order. *)
Fixpoint tokens_aux (cur : bytes) (s : bytes) : list bytes :=
  match s with
  | [] => match cur with [] => [] | _ => [cur] end
  | c :: s' =>
      if is_space c
      then match cur with [] => tokens_aux [] s' | _ => cur :: tokens_aux [] s' end
      else tokens_aux (cur ++ [c]) s'
  end.
Definition tokens (s : bytes) : list bytes := tokens_aux [] s.

(** ** [std::map<K, V>] with integer keys, as its in-order traversal *)

Section std_map.
Context {V : Type}.
Implicit Types (m : list (Z * V)) (k : Z) (v : V).

(** [m.find(k)] *)
Fixpoint map_find k m : option V :=
  match m with
  | [] => None
  | (k', v) :: m' => if k =? k' then Some v else map_find k m'
  end.

(** [m[k] = v] *)
Fixpoint map_assign k v m : list (Z * V) :=
  match m with
  | [] => [(k, v)]
  | (k', v') :: m' =>
      if k <? k' then (k, v) :: m
      else if k =? k' then (k, v) :: m'
      else (k', v') :: map_assign k v m'
  end.

(** [m.emplace(k, v)]: no effect when the key is present. *)
Definition map_emplace k v m : list (Z * V) :=
  match map_find k m with Some _ => m | None => map_assign k v m end.

(** [m.erase(k)] *)
Fixpoint map_erase k m : list (Z * V) :=
  match m with
  | [] => []
  | (k', v') :: m' => if k =? k' then m' else (k', v') :: map_erase k m'
  end.

(** The suffix of the traversal that starts at [m.lower_bound(k)]. *)
Fixpoint map_lower_bound k m : list (Z * V) :=
  match m with
  | [] => []
  | (k', v') :: m' => if k <=? k' then m else map_lower_bound k m'
  end.

(** Keys strictly increase. *)
Definition map_sorted m : Prop := StronglySorted Z.lt m.*1.
End std_map.

(** ** Lemmas: digits *)

Lemma uchar_digit d : 0 <= d < 10 → uchar (digit d) = 48 + d.
Proof. intros. apply uchar_char_of. lia. Qed.

Lemma digit_val_digit d : 0 <= d < 10 → digit_val (digit d) = d.
Proof. intros. unfold digit_val. rewrite uchar_digit by done. lia. Qed.

Lemma is_digit_digit d : 0 <= d < 10 → is_digit (digit d) = true.
Proof.
  intros. unfold is_digit. rewrite uchar_digit by done.
  apply andb_true_iff. split; apply Z.leb_le; lia.
Qed.

Lemma is_digit_val c : is_digit c = true → 0 <= digit_val c < 10.
Proof. unfold is_digit, digit_val. intros. breflect. lia. Qed.

Lemma digits_aux_acc f z acc : digits_aux f z acc = digits_aux f z [] ++ acc.
Proof.
  revert z acc. induction f as [|f IH]; intros z acc; simpl; [done|].
  destruct (z <? 10); [done|].
  by rewrite IH, (IH _ [_]), <- (assoc_L app).
Qed.

Lemma log2_div10 z : 10 <= z → (Z.to_nat (Z.log2 (z / 10)) < Z.to_nat (Z.log2 z))%nat.
Proof.
  intros H. apply Z2Nat.inj_lt; try apply Z.log2_nonneg.
  apply Z.le_lt_trans with (Z.log2 (z / 2)).
  - apply Z.log2_le_mono. apply Z.div_le_compat_l; lia.
  - rewrite <- Z.div2_div, Z.div2_spec, Z.log2_shiftr by lia.
    pose proof (Z.log2_pos z). lia.
Qed.

Lemma digits_aux_fuel f g z :
  0 <= z → (Z.to_nat (Z.log2 z) < f)%nat → (Z.to_nat (Z.log2 z) < g)%nat →
  digits_aux f z [] = digits_aux g z [].
Proof.
  revert g z. induction f as [|f IH]; intros [|g] z Hz Hf Hg; try lia.
  simpl. destruct (Z.ltb_spec z 10); [done|].
  rewrite (digits_aux_acc f), (digits_aux_acc g).
  pose proof (log2_div10 z ltac:(lia)).
  rewrite (IH g); [done| |lia..]. apply Z.div_pos; lia.
Qed.

Lemma digits_small z : 0 <= z < 10 → digits z = [digit z].
Proof. intros. unfold digits. simpl. destruct (Z.ltb_spec z 10); [done|lia]. Qed.

(** The recursion equation of the decimal expansion. *)
Lemma digits_step z : 10 <= z → digits z = digits (z / 10) ++ [digit (z mod 10)].
Proof.
  intros H. unfold digits at 1. simpl. destruct (Z.ltb_spec z 10); [lia|].
  rewrite digits_aux_acc. f_equal. pose proof (log2_div10 z H).
  apply digits_aux_fuel; [apply Z.div_pos; lia|lia..].
Qed.

(** Induction along the decimal expansion. *)
Lemma digits_ind (P : Z → Prop) :
  (∀ z, 0 <= z < 10 → P z) →
  (∀ z, 10 <= z → P (z / 10) → P z) →
  ∀ z, 0 <= z → P z.
Proof.
  intros Hb Hs. apply Zlt_0_ind. intros z IH Hz.
  destruct (Z.lt_ge_cases z 10); [apply Hb; lia|].
  apply Hs; [lia|]. apply IH.
  split; [apply Z.div_pos; lia | apply Z.div_lt; lia].
Qed.

Lemma digits_nonempty z : 0 <= z → digits z ≠ [].
Proof.
  intros Hz. destruct (Z.lt_ge_cases z 10).
  - by rewrite digits_small.
  - rewrite digits_step by done. intros [? ?]%app_nil. done.
Qed.

Lemma digits_all z : 0 <= z → Forall (λ c, is_digit c = true) (digits z).
Proof.
  revert z. apply digits_ind.
  - intros z Hz. rewrite digits_small by done. constructor; [|done].
    by apply is_digit_digit.
  - intros z Hz IH. rewrite digits_step by done. apply Forall_app. split; [done|].
    constructor; [|done]. apply is_digit_digit. apply Z.mod_pos_bound. lia.
Qed.

Lemma dec_val_app acc s t : dec_val acc (s ++ t) = dec_val (dec_val acc s) t.
Proof. unfold dec_val. by rewrite foldl_app. Qed.

Lemma dec_val_digits z : 0 <= z → dec_val 0 (digits z) = z.
Proof.
  revert z. apply digits_ind.
  - intros z Hz. rewrite digits_small by done. unfold dec_val. cbn [foldl].
    rewrite digit_val_digit by done. lia.
  - intros z Hz IH. rewrite digits_step by done. rewrite dec_val_app, IH.
    unfold dec_val. cbn [foldl]. rewrite digit_val_digit by (apply Z.mod_pos_bound; lia).
    rewrite (Z.div_mod z 10) at 3 by lia. lia.
Qed.

Lemma digits_inj x y : 0 <= x → 0 <= y → digits x = digits y → x = y.
Proof.
  intros Hx Hy H. rewrite <- (dec_val_digits x), <- (dec_val_digits y) by done.
  by rewrite H.
Qed.

(** Reading digits never goes down. *)
Lemma dec_val_mono acc s :
  0 <= acc → Forall (λ c, is_digit c = true) s → acc <= dec_val acc s.
Proof.
  intros Hacc Hs. revert acc Hacc. induction Hs as [|c s Hc Hs IH]; intros acc Hacc.
  - unfold dec_val. simpl. lia.
  - unfold dec_val in *. cbn [foldl]. apply is_digit_val in Hc.
    etransitivity; [|apply IH]; lia.
Qed.

Lemma take_digits_all s t :
  Forall (λ c, is_digit c = true) s →
  match t with c :: _ => is_digit c = false | [] => True end →
  take_digits (s ++ t) = s.
Proof.
  intros Hs Ht. induction Hs as [|c s Hc Hs IH]; simpl.
  - destruct t as [|c t]; simpl; [done|]. by rewrite Ht.
  - by rewrite Hc, IH.
Qed.

Lemma is_digit_not_space c : is_digit c = true → is_space c = false.
Proof.
  unfold is_digit, is_space. intros. breflect.
  apply orb_false_iff. split; [apply Z.eqb_neq; lia|].
  apply andb_false_iff. right. apply Z.leb_gt. lia.
Qed.

(** [std::stoull(std::to_string(z)) == z] for every 64-bit [z]. *)
Lemma stoull_to_string z : is_u64 z → stoull (to_string z) = Ok z.
Proof.
  intros Hz. unfold is_u64 in Hz. unfold to_string.
  destruct (Z.ltb_spec z 0); [lia|].
  pose proof (digits_all z ltac:(lia)) as Hall.
  pose proof (dec_val_digits z ltac:(lia)) as Hval.
  pose proof (take_digits_all (digits z) [] Hall I) as Htake.
  rewrite app_nil_r in Htake.
  unfold stoull.
  destruct (digits z) as [|c s] eqn:E; [by destruct (digits_nonempty z)|].
  apply Forall_cons_1 in Hall as [Hc _].
  unfold skip_spaces. rewrite is_digit_not_space by done.
  assert ((uchar c =? 45) = false) as ->.
  { apply Z.eqb_neq. unfold is_digit in Hc. breflect. lia. }
  assert ((uchar c =? 43) = false) as ->.
  { apply Z.eqb_neq. unfold is_digit in Hc. breflect. lia. }
  rewrite Htake, Hval. unfold ULLONG_MAX.
  destruct (Z.ltb_spec (2 ^ 64 - 1) z); [lia|done].
Qed.

(** ** Lemmas: [std::map] *)

Section std_map_lemmas.
Context {V : Type}.
Implicit Types (m : list (Z * V)) (k j : Z) (v : V).

Lemma map_find_assign j k v m :
  map_find j (map_assign k v m) = if j =? k then Some v else map_find j m.
Proof.
  induction m as [|[k' v'] m IH]; simpl; [done|].
  destruct (Z.ltb_spec k k'); simpl; [done|].
  destruct (Z.eqb_spec k k') as [->|Hk]; simpl.
  - by destruct (j =? k').
  - rewrite IH. destruct (Z.eqb_spec j k'), (Z.eqb_spec j k); subst; done || lia.
Qed.

Lemma map_find_assign_eq k v m : map_find k (map_assign k v m) = Some v.
Proof. by rewrite map_find_assign, Z.eqb_refl. Qed.

Lemma map_find_assign_ne j k v m : j ≠ k → map_find j (map_assign k v m) = map_find j m.
Proof. intros. rewrite map_find_assign. by destruct (Z.eqb_spec j k). Qed.

Lemma map_sorted_inv k v m :
  map_sorted ((k, v) :: m) → map_sorted m ∧ Forall (λ j, k < j) m.*1.
Proof. intros H. apply StronglySorted_inv in H. done. Qed.

Lemma map_sorted_nodup m : map_sorted m → NoDup (map fst m).
Proof.
  unfold map_sorted. change (map fst m) with (m.*1). induction 1 as [|k l _ IH Hk]; constructor; [|done].
  intros Hin. rewrite Forall_forall in Hk. specialize (Hk k Hin). lia.
Qed.

Lemma map_find_None_lt k m : Forall (λ j, k < j) m.*1 → map_find k m = None.
Proof.
  induction m as [|[k' v'] m IH]; simpl; [done|].
  intros [Hk Hm]%Forall_cons. destruct (Z.eqb_spec k k'); [lia|]. auto.
Qed.

Lemma map_find_Some_key k v m : map_find k m = Some v → k ∈ m.*1.
Proof.
  induction m as [|[k' v'] m IH]; simpl; [done|].
  destruct (Z.eqb_spec k k'); intros H; [subst; left | right; auto].
Qed.

Lemma map_find_Some_elem k v m : map_find k m = Some v → (k, v) ∈ m.
Proof.
  induction m as [|[k' v'] m IH]; simpl; [done|].
  destruct (Z.eqb_spec k k'); intros H; simplify_eq; [left | right; auto].
Qed.

Lemma map_find_elem k v m : map_sorted m → (k, v) ∈ m → map_find k m = Some v.
Proof.
  induction m as [|[k' v'] m IH]; intros Hs Hin; [by apply elem_of_nil in Hin|].
  apply map_sorted_inv in Hs as [Hs Hlt]. simpl.
  apply elem_of_cons in Hin as [Heq|Hin].
  - simplify_eq. by rewrite Z.eqb_refl.
  - destruct (Z.eqb_spec k k') as [->|]; [|auto].
    rewrite Forall_forall in Hlt.
    pose proof (Hlt k' (list_elem_of_fmap_2 fst _ _ Hin)) as Hx. simpl in Hx. lia.
Qed.

Lemma map_assign_keys j k v m : j ∈ (map_assign k v m).*1 ↔ j = k ∨ j ∈ m.*1.
Proof.
  induction m as [|[k' v'] m IH]; simpl.
  { rewrite elem_of_cons. naive_solver. }
  destruct (Z.ltb_spec k k'); simpl; [by rewrite !elem_of_cons|].
  destruct (Z.eqb_spec k k') as [->|]; simpl; rewrite !elem_of_cons, ?IH; tauto.
Qed.

Lemma map_assign_sorted k v m : map_sorted m → map_sorted (map_assign k v m).
Proof.
  induction m as [|[k' v'] m IH]; intros Hs; simpl.
  - repeat constructor.
  - pose proof (map_sorted_inv _ _ _ Hs) as [Hs' Hlt].
    destruct (Z.ltb_spec k k'); simpl.
    + constructor; [done|]. constructor; [done|].
      eapply Forall_impl; [apply Hlt|]. intros x Hx. simpl in *. lia.
    + destruct (Z.eqb_spec k k') as [->|]; [by constructor|].
      constructor; [by apply IH|]. apply Forall_forall. intros j Hj.
      apply map_assign_keys in Hj as [->|Hj]; [simpl; lia|].
      by eapply Forall_forall in Hlt.
Qed.

Lemma map_assign_length k v m : (length (map_assign k v m) <= S (length m))%nat.
Proof. induction m as [|[j w] m IH]; simpl; [done|]. repeat case_match; simpl; lia. Qed.

Lemma map_emplace_sorted k v m : map_sorted m → map_sorted (map_emplace k v m).
Proof. intros Hs. unfold map_emplace. case_match; [done|]. by apply map_assign_sorted. Qed.

Lemma map_erase_keys j k m : j ∈ (map_erase k m).*1 → j ∈ m.*1.
Proof.
  induction m as [|[k' v'] m IH]; simpl; [done|].
  destruct (k =? k'); simpl; rewrite !elem_of_cons; tauto.
Qed.

Lemma map_erase_sorted k m : map_sorted m → map_sorted (map_erase k m).
Proof.
  induction m as [|[k' v'] m IH]; intros Hs; simpl; [done|].
  apply map_sorted_inv in Hs as [Hs' Hlt].
  destruct (k =? k'); [done|]. constructor; [by apply IH|].
  apply Forall_forall. intros j Hj%map_erase_keys. by eapply Forall_forall in Hlt.
Qed.

Lemma map_find_erase j k m :
  map_sorted m → map_find j (map_erase k m) = if j =? k then None else map_find j m.
Proof.
  induction m as [|[k' v'] m IH]; intros Hs; simpl; [by destruct (j =? k)|].
  apply map_sorted_inv in Hs as [Hs' Hlt].
  destruct (Z.eqb_spec k k') as [->|Hk]; simpl.
  - destruct (Z.eqb_spec j k') as [->|]; [|done]. by apply map_find_None_lt.
  - rewrite IH by done. destruct (Z.eqb_spec j k'), (Z.eqb_spec j k); subst; done || lia.
Qed.

Lemma map_find_erase_ne j k m : j ≠ k → map_find j (map_erase k m) = map_find j m.
Proof.
  intros Hj. induction m as [|[k' v'] m IH]; simpl; [done|].
  destruct (Z.eqb_spec k k') as [->|]; simpl; [by destruct (Z.eqb_spec j k')|].
  by rewrite IH.
Qed.

(** Two ordered maps with the same lookups are the same traversal. *)
Lemma map_sorted_ext m1 m2 :
  map_sorted m1 → map_sorted m2 → (∀ k, map_find k m1 = map_find k m2) → m1 = m2.
Proof.
  revert m2. induction m1 as [|[k1 v1] m1 IH]; intros [|[k2 v2] m2] H1 H2 Heq; [done| | |].
  - specialize (Heq k2). simpl in Heq. by rewrite Z.eqb_refl in Heq.
  - specialize (Heq k1). simpl in Heq. by rewrite Z.eqb_refl in Heq.
  - apply map_sorted_inv in H1 as [H1 Hlt1]. apply map_sorted_inv in H2 as [H2 Hlt2].
    assert (k1 = k2) as ->.
    { pose proof (Heq k1) as E1. pose proof (Heq k2) as E2. simpl in E1, E2.
      rewrite Z.eqb_refl in E1, E2.
      destruct (Z.eqb_spec k1 k2), (Z.eqb_spec k2 k1); try done; try lia.
      symmetry in E1. apply map_find_Some_key in E1, E2.
      rewrite Forall_forall in Hlt1, Hlt2.
      specialize (Hlt1 _ E2). specialize (Hlt2 _ E1). lia. }
    pose proof (Heq k2) as E. simpl in E. rewrite Z.eqb_refl in E. simplify_eq.
    f_equal. apply IH; [done..|]. intros j. pose proof (Heq j) as Ej. simpl in Ej.
    destruct (Z.eqb_spec j k2) as [Hjk|]; [|done]. subst j.
    by rewrite !map_find_None_lt.
Qed.

Lemma map_lower_bound_sorted k m : map_sorted m → map_sorted (map_lower_bound k m).
Proof.
  induction m as [|[k' v'] m IH]; intros Hs; simpl; [done|].
  destruct (k <=? k'); [done|]. apply map_sorted_inv in Hs as [? ?]. auto.
Qed.

(** [lower_bound] splits the traversal: everything before it is below [k]. *)
Lemma map_lower_bound_split k m :
  ∃ p, m = p ++ map_lower_bound k m ∧ Forall (λ j, j < k) p.*1.
Proof.
  induction m as [|[k' v'] m IH]; simpl; [by exists []|].
  destruct (Z.leb_spec k k'); [by exists []|].
  destruct IH as (p & Hp & Hlt). exists ((k', v') :: p). simpl. split.
  - by rewrite <- Hp.
  - by constructor.
Qed.

Lemma map_lower_bound_head k m k0 v0 r :
  map_lower_bound k m = (k0, v0) :: r → k <= k0.
Proof.
  induction m as [|[k' v'] m IH]; simpl; [done|].
  destruct (Z.leb_spec k k'); intros; simplify_eq; auto.
Qed.
End std_map_lemmas.

#[export] Hint Resolve map_assign_sorted map_erase_sorted : kvjet.

(** The entry of [k] in an assignment, between the smaller and the larger keys. *)
Lemma map_assign_split {V} k (v : V) m :
  map_sorted m →
  ∃ l r, map_assign k v m = l ++ (k, v) :: r ∧ Forall (λ e, e.1 < k) l ∧ Forall (λ e, k < e.1) r ∧
    filter (λ e, e.1 ≠ k) m = l ++ r.
Proof.
  induction m as [|[k' v'] m IH]; intros Hs; simpl.
  { exists [], []. by repeat constructor. }
  apply map_sorted_inv in Hs as [Hs Hlt].
  assert (Forall (λ e : Z * V, k' < e.1) m) as Hlt' by (by rewrite Forall_fmap in Hlt).
  assert (k <= k' → Forall (λ e : Z * V, k < e.1) m ∧ filter (λ e : Z * V, e.1 ≠ k) m = m) as Hgt.
  { intros Hk. assert (Forall (λ e : Z * V, k < e.1) m) as Hm
      by (eapply Forall_impl; [apply Hlt'|simpl; lia]).
    split; [done|]. apply list_filter_all. eapply Forall_impl; [apply Hm|simpl; lia]. }
  rewrite filter_cons. destruct (Z.ltb_spec k k').
  - destruct Hgt as [Hm Hf]; [lia|]. exists [], ((k', v') :: m). rewrite decide_True by (simpl; lia).
    split_and!; [done|constructor|by constructor|by rewrite Hf].
  - destruct (Z.eqb_spec k k') as [->|].
    + destruct Hgt as [Hm Hf]; [lia|]. exists [], m. rewrite decide_False by (simpl; lia).
      split_and!; [done|constructor|done|done].
    + destruct (IH Hs) as (l & r & Ha & Hl & Hr & Hf). exists ((k', v') :: l), r.
      rewrite decide_True by (simpl; lia). rewrite Ha, Hf.
      split_and!; [done|constructor; [simpl; lia|done]|done|done].
Qed.

Lemma map_sorted_filter {V} (P : Z * V → Prop) `{!∀ e, Decision (P e)} m :
  map_sorted m → map_sorted (filter P m).
Proof.
  unfold map_sorted. induction m as [|e m IH]; intros Hs; [constructor|]. simpl in Hs.
  apply StronglySorted_inv in Hs as [Hs Hlt]. rewrite filter_cons. case_decide; [|by apply IH].
  constructor; [by apply IH|]. rewrite Forall_forall in *. intros k Hk.
  apply Hlt. apply list_elem_of_fmap in Hk as (e' & -> & He').
  apply list_elem_of_filter in He' as [_ He']. by apply list_elem_of_fmap_2.
Qed.

Lemma map_find_filter {V} (P : Z * V → Prop) `{!∀ e, Decision (P e)} k m :
  map_sorted m → map_find k (filter P m) = v ← map_find k m; if decide (P (k, v)) then Some v else None.
Proof.
  induction m as [|[k' v'] m IH]; intros Hs; [done|]. apply map_sorted_inv in Hs as [Hs Hlt].
  rewrite filter_cons. simpl. destruct (Z.eqb_spec k k') as [->|Hne].
  - simpl. case_decide; simpl; [by rewrite Z.eqb_refl|]. rewrite IH by done.
    by rewrite map_find_None_lt.
  - case_decide; simpl; [|by apply IH]. destruct (Z.eqb_spec k k'); [done|]. by apply IH.
Qed.

Lemma map_find_middle {V} k (v : V) l r :
  Forall (λ e, e.1 < k) l → map_find k (l ++ (k, v) :: r) = Some v.
Proof.
  induction 1 as [|[k' v'] l Hk _ IH]; simpl; [by rewrite Z.eqb_refl|].
  destruct (Z.eqb_spec k k'); [simpl in *; lia|done].
Qed.

Lemma map_find_larger {V} k (r : list (Z * V)) : Forall (λ e, k < e.1) r → map_find k r = None.
Proof. intros H. apply map_find_None_lt. by rewrite Forall_fmap. Qed.

Lemma map_assign_last {V} k (v : V) m : Forall (λ e, e.1 < k) m → map_assign k v m = m ++ [(k, v)].
Proof.
  induction 1 as [|[k' v'] m Hk _ IH]; simpl in *; [done|].
  destruct (Z.ltb_spec k k'); [lia|]. destruct (Z.eqb_spec k k'); [lia|]. by rewrite IH.
Qed.

(** Assigning the entries of an ordered map in order rebuilds it. *)
Lemma foldl_assign_sorted_map {V W} (f : V → W) m pre :
  map_sorted m → (∀ e e', e ∈ pre → e' ∈ m → e.1 < e'.1) →
  foldl (λ g e, map_assign e.1 (f e.2) g) pre m = pre ++ map (λ e, (e.1, f e.2)) m.
Proof.
  revert pre. induction m as [|[k v] m IH]; intros pre Hs Hlt; simpl; [by rewrite app_nil_r|].
  apply map_sorted_inv in Hs as [Hs Hk]. rewrite Forall_fmap, Forall_forall in Hk.
  rewrite map_assign_last by (apply Forall_forall; intros e He; apply (Hlt e (k, v)); [done|left]).
  rewrite IH, <- (assoc_L app); [done|done|]. intros e e' He He'.
  apply elem_of_app in He as [He|He]; [by apply Hlt; [|right]|].
  apply list_elem_of_singleton in He as ->. by apply (Hk e').
Qed.

Lemma take_digits_digits s : Forall (λ c, is_digit c = true) (take_digits s).
Proof. induction s as [|c s IH]; simpl; [constructor|]. by destruct (is_digit c) eqn:E; constructor. Qed.

Lemma stoull_range s z : stoull s = Ok z → is_u64 z.
Proof.
  unfold stoull. destruct (match skip_spaces s with [] => _ | _ => _ end) as [neg s'].
  pose proof (dec_val_mono 0 (take_digits s') ltac:(lia) (take_digits_digits s')) as Hm.
  destruct (take_digits s') as [|c ds]; [done|].
  destruct (Z.ltb_spec ULLONG_MAX (dec_val 0 (c :: ds))); [done|]. intros [= <-].
  destruct neg; [apply u64_range|]. unfold ULLONG_MAX in *.
  change (is_u64 (dec_val 0 (c :: ds))). unfold is_u64. lia.
Qed.

(** [stoull] returns or throws, nothing else. *)
Lemma stoull_outcome s :
  (∃ z, stoull s = Ok z) ∨ stoull s = Throw InvalidArgument ∨ stoull s = Throw OutOfRange.
Proof.
  unfold stoull. destruct (match skip_spaces s with [] => _ | _ => _ end) as [neg s'].
  destruct (take_digits s'); [auto|]. destruct (_ <? _); eauto.
Qed.
