(* ===== verification/RespValue.v ===== *)
(** * RESP values and their encoder (resp/RespValue.h, resp/RespEncoder.cpp)

    [RespValue] is the variant of the source, one constructor per alternative
    ([std::nullopt] is [None]).  The encoders append to a string passed by
    reference, so the model threads that string; [encodeElement] is the
    dispatch both [encode] and the element loop of [encodeArray] perform. *)
From Stdlib Require Import ZArith Ascii String Lia.
From stdpp Require Import base numbers list strings.
From S2P Require Import Prelude CppStd.
Local Open Scope Z_scope.

Inductive RespValue :=
  | SimpleString (value : bytes)
  | BulkString (value : option bytes)
  | Error (value : bytes)
  | Integer (value : Z)
  | Array (value : option (list RespValue)).

(** The default constructor builds a nil array. *)
Definition RespValue_default : RespValue := Array None.

(** Induction that reaches the elements of arrays. *)
Section RespValue_ind.
Context (P : RespValue → Prop).
Context (HS : ∀ s, P (SimpleString s)) (HB : ∀ o, P (BulkString o))
        (HE : ∀ s, P (Error s)) (HI : ∀ z, P (Integer z))
        (HN : P (Array None)) (HA : ∀ l, Forall P l → P (Array (Some l))).
Fixpoint RespValue_ind' (v : RespValue) : P v :=
  match v with
  | SimpleString s => HS s
  | BulkString o => HB o
  | Error s => HE s
  | Integer z => HI z
  | Array None => HN
  | Array (Some l) =>
      HA l ((fix go l := match l return Forall P l with
                         | [] => Forall_nil_2 P
                         | x :: l' => Forall_cons_2 P x l' (RespValue_ind' x) (go l')
                         end) l)
  end.
End RespValue_ind.

(** ** Decidable equality *)

Fixpoint RespValue_eqb (v w : RespValue) : bool :=
  match v, w with
  | SimpleString s, SimpleString t | Error s, Error t => bool_decide (s = t)
  | BulkString o, BulkString p => bool_decide (o = p)
  | Integer x, Integer y => x =? y
  | Array None, Array None => true
  | Array (Some l), Array (Some k) =>
      (fix go l k := match l, k with
                     | [], [] => true
                     | x :: l', y :: k' => RespValue_eqb x y && go l' k'
                     | _, _ => false
                     end) l k
  | _, _ => false
  end.

Lemma RespValue_eqb_eq v w : RespValue_eqb v w = true ↔ v = w.
Proof.
  revert w. induction v as [s|o|s|z| |l IH] using RespValue_ind'; intros w.
  1-5: destruct w as [| | | |[]]; simpl; try (split; [done|congruence]);
    try (rewrite bool_decide_eq_true; split; congruence);
    try (rewrite Z.eqb_eq; split; congruence); done.
  destruct w as [| | | |[k|]]; simpl; try (split; [done|congruence]).
  transitivity (l = k); [|split; congruence].
  revert k. induction IH as [|x l Hx _ IHl]; intros [|y k]; try (split; done || congruence).
  rewrite andb_true_iff, Hx, IHl. split; [intros [-> ->]; done | intros; by simplify_eq].
Qed.

#[global] Instance RespValue_eq_dec : EqDecision RespValue.
Proof.
  intros v w. destruct (RespValue_eqb v w) eqn:E.
  - left. by apply RespValue_eqb_eq.
  - right. intros H%RespValue_eqb_eq. congruence.
Defined.

(** ** RespEncoder.cpp *)

Definition encodeSimpleString (msg : bytes) (s : bytes) : bytes :=
  s ++ str "+" ++ msg ++ CRLF.

Definition encodeError (msg : bytes) (s : bytes) : bytes :=
  s ++ str "-" ++ msg ++ CRLF.

Definition encodeInteger (num : Z) (s : bytes) : bytes :=
  s ++ str ":" ++ to_string num ++ CRLF.

Definition encodeBulkString (data : option bytes) (s : bytes) : bytes :=
  let s := s ++ str "$" in
  match data with
  | None => s ++ str "-1" ++ CRLF
  | Some d => s ++ to_string (Z.of_nat (length d)) ++ CRLF ++ d ++ CRLF
  end.

(** One element: the [get_if] chain of [encodeArray]'s loop and of [encode],
    with [encodeArray] itself in the last branch. *)
Fixpoint encodeElement (v : RespValue) (s : bytes) : bytes :=
  match v with
  | SimpleString msg => encodeSimpleString msg s
  | Error msg => encodeError msg s
  | Integer num => encodeInteger num s
  | BulkString data => encodeBulkString data s
  | Array None => s ++ str "*-1" ++ CRLF
  | Array (Some elements) =>
      foldl (λ s ptr, encodeElement ptr s)
        (s ++ str "*" ++ to_string (Z.of_nat (length elements)) ++ CRLF) elements
  end.

Definition encodeArray (elements : option (list RespValue)) (s : bytes) : bytes :=
  encodeElement (Array elements) s.

Definition encode (val : RespValue) : bytes := encodeElement val [].

(** ** The encoder only appends *)

Lemma encodeElement_app v s : encodeElement v s = s ++ encode v.
Proof.
  unfold encode. revert s. induction v as [msg|[d|]|msg|z| |l IH] using RespValue_ind';
    intros s; cbn [encodeElement]; try done.
  - unfold encodeBulkString. by rewrite <- (assoc_L app).
  - unfold encodeBulkString. by rewrite <- (assoc_L app).
  - generalize (str "*" ++ to_string (Z.of_nat (length l)) ++ CRLF). intros h.
    rewrite (left_id_L [] app). revert h.
    induction IH as [|x l Hx _ IHl]; intros h; [done|]. cbn [foldl].
    rewrite (Hx (s ++ h)), (Hx h), <- (assoc_L app). apply IHl.
Qed.

(** The encodings of a list of values, one after the other. *)
Definition encode_all (l : list RespValue) : bytes := concat (map encode l).

Lemma encode_array l :
  encode (Array (Some l)) =
    str "*" ++ to_string (Z.of_nat (length l)) ++ CRLF ++ encode_all l.
Proof.
  unfold encode at 1. cbn [encodeElement]. rewrite (left_id_L [] app).
  transitivity ((str "*" ++ to_string (Z.of_nat (length l)) ++ CRLF) ++ encode_all l);
    [|by rewrite <- !(assoc_L app)].
  generalize (str "*" ++ to_string (Z.of_nat (length l)) ++ CRLF). intros h. revert h.
  induction l as [|x l IH]; intros h; unfold encode_all; simpl; [by rewrite app_nil_r|].
  rewrite encodeElement_app, IH. unfold encode_all. by rewrite (assoc_L app).
Qed.

Lemma encode_all_cons v l : encode_all (v :: l) = encode v ++ encode_all l.
Proof. done. Qed.

Lemma encode_all_app l k : encode_all (l ++ k) = encode_all l ++ encode_all k.
Proof. unfold encode_all. by rewrite map_app, concat_app. Qed.

Lemma encode_nonempty v : encode v ≠ [].
Proof.
  destruct v as [s|[d|]|s|z|[l|]]; try done. rewrite encode_array. done.
Qed.
