(* ===== verification/RespParser.v ===== *)
(** * The incremental RESP parser (resp/RespParser.h, resp/RespParser.cpp)

    The parser is a byte-driven state machine: [ParseState] says what the next
    byte means, [node] is the value being read, [stateStack] the arrays still
    missing elements (innermost first) and [message_queue] the values read
    completely.  [RespParser_step] is the body of the loop of [append]. *)
From Stdlib Require Import ZArith Ascii String Lia.
From stdpp Require Import base numbers list strings.
From S2P Require Import Prelude CppStd RespValue.
Local Open Scope Z_scope.

Inductive ParseState :=
  | WaitType | ReadSize | WaitLFSZ | WaitNil | WaitNilCR | ReadLine | WaitLF | ReadBulk.

#[global] Instance ParseState_eq_dec : EqDecision ParseState.
Proof. solve_decision. Defined.

(** [total] is a [size_t]. *)
Record RespState := mkRespState { value : RespValue; total : Z }.
Definition RespState_default : RespState := mkRespState RespValue_default 0.

Record RespParser := mkRespParser {
  state : ParseState;
  node : RespState;
  stateStack : list RespState;
  message_queue : list RespValue
}.

Definition RespParser_init : RespParser := mkRespParser WaitType RespState_default [] [].

Definition set_state (st : ParseState) (p : RespParser) : RespParser :=
  mkRespParser st (node p) (stateStack p) (message_queue p).
Definition set_node (n : RespState) (st : ParseState) (p : RespParser) : RespParser :=
  mkRespParser st n (stateStack p) (message_queue p).
Definition set_queue (q : list RespValue) (p : RespParser) : RespParser :=
  mkRespParser (state p) (node p) (stateStack p) q.

Definition ParserError : exn := RuntimeError "Parser Error!!".
Definition ParserStackError : exn := RuntimeError "Parser Stack Error!!".

(** What the allocator can give out: [can_alloc n] says whether it has [n]
    bytes for a caller. *)
Class Memory := can_alloc : Z → bool.

Section parser.
Context {mem : Memory}.

(** [reserve(n)] throws [std::length_error] above [max_size()], and
    [std::bad_alloc] when the allocator does not have the room; otherwise only the
    capacity changes.  The sizes are libstdc++'s on a 64-bit target: up to 15
    characters are in the string itself, a vector holds pointers. *)
Definition string_max_size : Z := 2 ^ 62 - 1.
Definition vector_max_size : Z := (2 ^ 63 - 1) / 8.
Definition string_bytes (n : Z) : Z := if n <=? 15 then 0 else Z.max n 30 + 1.
Definition vector_bytes (n : Z) : Z := 8 * n.
Definition has_room (bytes : Z) : bool := (bytes =? 0) || can_alloc bytes.
Definition reserve (max_size bytes n : Z) : res unit :=
  if max_size <? n then Throw LengthError
  else if has_room bytes then Ok tt else Throw BadAlloc.
Definition string_reserve (n : Z) : res unit := reserve string_max_size (string_bytes n) n.
Definition vector_reserve (n : Z) : res unit := reserve vector_max_size (vector_bytes n) n.

(** The sizes for which they succeed. *)
Definition string_fits (n : Z) : bool := (n <=? string_max_size) && has_room (string_bytes n).
Definition vector_fits (n : Z) : bool := (n <=? vector_max_size) && has_room (vector_bytes n).

(** [RespParser::push]: a completed value goes to the innermost open array, or
    to the message queue; an array that is complete as a result is pushed in
    turn.  The recursion follows the stack. *)
Fixpoint RespParser_push (st : RespState) (stk : list RespState) (q : list RespValue)
  : res (list RespState * list RespValue) :=
  let deliver :=
    match stk with
    | [] => Ok ([], q ++ [value st])
    | top :: rest =>
        match value top with
        | Array (Some l) =>
            let top' := mkRespState (Array (Some (l ++ [value st]))) (total top) in
            if Z.of_nat (length (l ++ [value st])) =? total top
            then RespParser_push top' rest q
            else Ok (top' :: rest, q)
        | Array None => UB
        | _ => Throw ParserStackError
        end
    end in
  match value st with
  | Array (Some l) =>
      if negb (Z.of_nat (length l) =? total st) then Ok (st :: stk, q) else deliver
  | _ => deliver
  end.

(** [push(std::move(node)); state = WaitType;] the moved-from node is not read
    before [WaitType] overwrites it. *)
Definition push_node (n : RespState) (p : RespParser) : res RespParser :=
  '(stk, q) ← RespParser_push n (stateStack p) (message_queue p);
  Ok (mkRespParser WaitType RespState_default stk q).

#[local] Arguments push_node : simpl never.

(** One more digit of a size, in [size_t] arithmetic. *)
Definition size_digit (tot : Z) (c : ascii) : Z := u64 (u64 (tot * 10) + digit_val c).

(** One more digit of a signed number: signed overflow is undefined. *)
Definition int_digit (it tot : Z) (c : ascii) : res Z :=
  let it1 := it * 10 in
  let it2 := if tot =? 1 then it1 + digit_val c else it1 - digit_val c in
  if (- 2 ^ 63 <=? it1) && (it1 <? 2 ^ 63) && (- 2 ^ 63 <=? it2) && (it2 <? 2 ^ 63)
  then Ok it2 else UB.

Definition RespParser_step (c : ascii) (p : RespParser) : res RespParser :=
  match state p with
  | WaitType =>
      if Ascii.eqb c "+" then Ok (set_node (mkRespState (SimpleString []) 0) ReadLine p)
      else if Ascii.eqb c "-" then Ok (set_node (mkRespState (Error []) 0) ReadLine p)
      else if Ascii.eqb c ":" then Ok (set_node (mkRespState (Integer 0) 0) ReadLine p)
      else if Ascii.eqb c "$" then Ok (set_node (mkRespState (BulkString None) 0) ReadSize p)
      else if Ascii.eqb c "*" then Ok (set_node (mkRespState (Array None) 0) ReadSize p)
      else Throw ParserError
  | ReadSize =>
      if Ascii.eqb c "-" then
        match value (node p) with
        | Array None | BulkString None => Ok (set_state WaitNil p)
        | _ => Throw ParserError
        end
      else if Ascii.eqb c CR then
        match value (node p) with
        | Array None | BulkString None => UB
        | Array (Some _) =>
            _ ← vector_reserve (total (node p)); Ok (set_state WaitLFSZ p)
        | BulkString (Some _) =>
            _ ← string_reserve (total (node p)); Ok (set_state WaitLFSZ p)
        | _ => Throw ParserError
        end
      else if is_digit c then
        let tot := total (node p) in
        match value (node p) with
        | Array o =>
            let o' := if tot =? 0 then Some [] else o in
            Ok (set_node (mkRespState (Array o') (size_digit tot c)) ReadSize p)
        | BulkString o =>
            let o' := if tot =? 0 then Some [] else o in
            Ok (set_node (mkRespState (BulkString o') (size_digit tot c)) ReadSize p)
        | _ => Throw ParserError
        end
      else Throw ParserError
  | WaitLFSZ =>
      if Ascii.eqb c LF then
        match value (node p) with
        | Array _ => push_node (node p) p
        | BulkString _ => Ok (set_state ReadBulk p)
        | _ => Throw ParserError
        end
      else Throw ParserError
  | WaitNil => if Ascii.eqb c "1" then Ok (set_state WaitNilCR p) else Throw ParserError
  | WaitNilCR => if Ascii.eqb c CR then Ok (set_state WaitLF p) else Throw ParserError
  | ReadLine =>
      if Ascii.eqb c CR then Ok (set_state WaitLF p)
      else
        let tot := total (node p) in
        match value (node p) with
        | SimpleString s =>
            Ok (set_node (mkRespState (SimpleString (s ++ [c])) tot) ReadLine p)
        | Error s => Ok (set_node (mkRespState (Error (s ++ [c])) tot) ReadLine p)
        | Integer it =>
            if Ascii.eqb c "-" then
              if tot =? 0
              then Ok (set_node (mkRespState (Integer it) (u64 (-1))) ReadLine p)
              else Throw ParserError
            else if is_digit c then
              let tot' := if tot =? 0 then 1 else tot in
              it' ← int_digit it tot' c;
              Ok (set_node (mkRespState (Integer it') tot') ReadLine p)
            else Throw ParserError
        | _ => Throw ParserError
        end
  | WaitLF => if Ascii.eqb c LF then push_node (node p) p else Throw ParserError
  | ReadBulk =>
      match value (node p) with
      | BulkString (Some s) =>
          if Z.of_nat (length s) =? total (node p) then
            if Ascii.eqb c CR then Ok (set_state WaitLF p) else Throw ParserError
          else
            Ok (set_node (mkRespState (BulkString (Some (s ++ [c]))) (total (node p))) ReadBulk p)
      | BulkString None => UB
      | _ => Throw ParserError
      end
  end.

(** [RespParser::append] *)
Fixpoint RespParser_append (app : bytes) (p : RespParser) : res RespParser :=
  match app with
  | [] => Ok p
  | c :: app' => RespParser_step c p ≫= RespParser_append app'
  end.

(** [RespParser::reset] *)
Definition RespParser_reset (p : RespParser) : RespParser :=
  mkRespParser WaitType RespState_default [] [].

Definition RespParser_hasResult (p : RespParser) : bool :=
  match message_queue p with [] => false | _ => true end.

(** [RespParser::pop] *)
Definition RespParser_pop (p : RespParser) : RespParser :=
  if RespParser_hasResult p then set_queue (tail (message_queue p)) p else p.

(** [RespParser::getResult] *)
Definition RespParser_getResult (p : RespParser) : option RespValue * RespParser :=
  match message_queue p with
  | [] => (None, p)
  | result :: _ => (Some result, RespParser_pop p)
  end.

(** [while (parser.hasResult()) use(parser.getResult().value())]: the values
    handed out, in order.  The fuel is the number of queued values. *)
Fixpoint drain_loop (fuel : nat) (p : RespParser) : list RespValue * RespParser :=
  match fuel with
  | O => ([], p)
  | S f =>
      if RespParser_hasResult p then
        match RespParser_getResult p with
        | (Some v, p') => let '(vs, p'') := drain_loop f p' in (v :: vs, p'')
        | (None, p') => ([], p')
        end
      else ([], p)
  end.
Definition drain (p : RespParser) : list RespValue * RespParser :=
  drain_loop (length (message_queue p)) p.

(** The reading loop of the server, the client and the log: append a chunk,
    then hand out every complete value. *)
Fixpoint feed (chunks : list bytes) (p : RespParser) : res (list RespValue * RespParser) :=
  match chunks with
  | [] => Ok ([], p)
  | chunk :: chunks' =>
      p1 ← RespParser_append chunk p;
      let '(vs, p2) := drain p1 in
      '(vs', p3) ← feed chunks' p2;
      Ok (vs ++ vs', p3)
  end.

(** ** Values the wire format can carry

    Simple strings and errors contain no carriage return, integers are
    [int64_t], and sizes are those of strings and vectors that fit in memory. *)
Definition no_CR (s : bytes) : bool := forallb (λ c, negb (Ascii.eqb c CR)) s.

Fixpoint resp_ok (v : RespValue) : bool :=
  match v with
  | SimpleString s | Error s => no_CR s
  | Integer z => (- 2 ^ 63 <=? z) && (z <? 2 ^ 63)
  | BulkString None | Array None => true
  | BulkString (Some d) => string_fits (Z.of_nat (length d))
  | Array (Some l) => vector_fits (Z.of_nat (length l)) && forallb resp_ok l
  end.

(** ** Appending *)

Lemma fits_reserve max_size bytes n :
  (n <=? max_size) && has_room bytes = true → reserve max_size bytes n = Ok tt.
Proof. intros [H1%Z.leb_le H2]%andb_true_iff. unfold reserve. destruct (Z.ltb_spec max_size n); [lia|]. by rewrite H2. Qed.

(** What [reserve] does with a size. *)
Lemma reserve_cases max_size bytes n :
  (reserve max_size bytes n = Ok tt ∧ (n <=? max_size) && has_room bytes = true) ∨
  (reserve max_size bytes n = Throw LengthError ∧ max_size < n) ∨
  (reserve max_size bytes n = Throw BadAlloc ∧ n <= max_size ∧ can_alloc bytes = false).
Proof.
  unfold reserve, has_room. destruct (Z.ltb_spec max_size n), (Z.leb_spec n max_size); try lia; [by auto|].
  destruct (bytes =? 0); [by auto|]. destruct (can_alloc bytes) eqn:E; auto.
Qed.

Lemma RespParser_append_app s t p :
  RespParser_append (s ++ t) p = RespParser_append s p ≫= RespParser_append t.
Proof.
  revert p. induction s as [|c s IH]; intros p; [done|]. simpl.
  destruct (RespParser_step c p); simpl; [apply IH|done..].
Qed.

Lemma append_cons c s p : RespParser_append (c :: s) p = RespParser_step c p ≫= RespParser_append s.
Proof. done. Qed.

(** Chain a known prefix with the rest of the input. *)
Lemma append_chain s t p p' r :
  RespParser_append s p = Ok p' → RespParser_append t p' = r → RespParser_append (s ++ t) p = r.
Proof. intros H1 H2. by rewrite RespParser_append_app, H1. Qed.

Lemma is_digit_ne c d : is_digit c = true → is_digit d = false → Ascii.eqb c d = false.
Proof. intros. destruct (Ascii.eqb_spec c d); congruence. Qed.

(** *** Sizes *)

Lemma size_digit_next z :
  10 <= z < 2 ^ 64 → size_digit (z / 10) (digit (z mod 10)) = z.
Proof.
  intros Hz. unfold size_digit. pose proof (Z.mod_pos_bound z 10).
  rewrite digit_val_digit by lia.
  assert (z / 10 * 10 + z mod 10 = z) as Hdm by (rewrite (Z.div_mod z 10) at 3; lia).
  rewrite (u64_id (z / 10 * 10)), Hdm by (unfold is_u64; lia).
  apply u64_id. unfold is_u64. lia.
Qed.

Lemma size_digit_first z : 0 <= z < 10 → size_digit 0 (digit z) = z.
Proof.
  intros. unfold size_digit. rewrite digit_val_digit by lia.
  change (u64 (0 * 10)) with 0. apply u64_id. unfold is_u64. lia.
Qed.

(** The two values whose size is read, before and after the first digit. *)
Inductive sized : RespValue → RespValue → Prop :=
  | sized_array : sized (Array None) (Array (Some []))
  | sized_bulk : sized (BulkString None) (BulkString (Some [])).

Lemma append_size v0 v1 p z :
  sized v0 v1 → state p = ReadSize → node p = mkRespState v0 0 → 0 <= z → z < 2 ^ 64 →
  RespParser_append (digits z) p = Ok (set_node (mkRespState v1 z) ReadSize p).
Proof.
  intros Hv Hst Hn. revert z. refine (digits_ind _ _ _).
  - intros z Hz _. rewrite digits_small by done. simpl. unfold RespParser_step.
    rewrite Hst, Hn, !is_digit_ne by (done || by apply is_digit_digit).
    rewrite is_digit_digit by done. simpl. rewrite size_digit_first by done.
    by destruct Hv.
  - intros z Hz IH Hlt. rewrite digits_step by done.
    eapply append_chain; [apply IH, Z.div_lt_upper_bound; lia|].
    pose proof (Z.mod_pos_bound z 10 ltac:(lia)) as Hm. simpl. unfold RespParser_step. simpl.
    rewrite !is_digit_ne by (done || by apply is_digit_digit).
    rewrite is_digit_digit, size_digit_next by lia.
    destruct Hv; by destruct (Z.eqb_spec (z / 10) 0).
Qed.

(** *** Ends of lines *)

Lemma bind_append_nil (r : res RespParser) : (r ≫= RespParser_append []) = r.
Proof. by destruct r. Qed.

Lemma append_line_end p : state p = ReadLine → RespParser_append CRLF p = push_node (node p) p.
Proof.
  intros Hst. unfold CRLF. rewrite append_cons. unfold RespParser_step. rewrite Hst. simpl.
  apply bind_append_nil.
Qed.

Lemma append_bulk_end s p :
  state p = ReadBulk → node p = mkRespState (BulkString (Some s)) (Z.of_nat (length s)) →
  RespParser_append CRLF p = push_node (node p) p.
Proof.
  intros Hst Hn. unfold CRLF. rewrite append_cons. unfold RespParser_step. rewrite Hst, Hn. simpl.
  rewrite Z.eqb_refl. simpl. rewrite bind_append_nil, <- Hn. done.
Qed.

Lemma append_array_header l n p :
  state p = ReadSize → node p = mkRespState (Array (Some l)) n → vector_fits n = true →
  RespParser_append CRLF p = push_node (node p) p.
Proof.
  intros Hst Hn Hle. unfold CRLF. rewrite append_cons. unfold RespParser_step. rewrite Hst, Hn.
  simpl. unfold vector_reserve. rewrite (fits_reserve _ _ _ Hle). simpl.
  rewrite bind_append_nil. unfold RespParser_step. simpl. by rewrite Hn.
Qed.

(** [-1] after a size marker. *)
Lemma append_nil_end v0 v1 p :
  sized v0 v1 → state p = ReadSize → node p = mkRespState v0 0 →
  RespParser_append (str "-1" ++ CRLF) p = push_node (node p) p.
Proof.
  intros Hv Hst Hn. change (str "-1" ++ CRLF) with ("-"%char :: "1"%char :: CRLF).
  rewrite append_cons. unfold RespParser_step at 1. rewrite Hst, Hn.
  destruct Hv; simpl; rewrite bind_append_nil, <- Hn; done.
Qed.

(** *** Lines, bulk bodies and numbers *)

Lemma no_CR_cons c s : no_CR (c :: s) = true → Ascii.eqb c CR = false ∧ no_CR s = true.
Proof. unfold no_CR. simpl. intros [H ?]%andb_true_iff. by apply negb_true_iff in H. Qed.

(** The two values read up to the end of the line. *)
Inductive lined : (bytes → RespValue) → Prop :=
  | lined_simple : lined SimpleString
  | lined_error : lined Error.

Lemma append_line mk s0 s p :
  lined mk → state p = ReadLine → node p = mkRespState (mk s0) 0 → no_CR s = true →
  RespParser_append s p = Ok (set_node (mkRespState (mk (s0 ++ s)) 0) ReadLine p).
Proof.
  intros Hmk. revert s0 p. induction s as [|c s IH]; intros s0 p Hst Hn Hs.
  - rewrite app_nil_r. destruct p. simpl in *. by subst.
  - apply no_CR_cons in Hs as [Hc Hs]. rewrite append_cons. unfold RespParser_step.
    rewrite Hst, Hc, Hn. transitivity
      (RespParser_append s (set_node (mkRespState (mk (s0 ++ [c])) 0) ReadLine p));
      [by destruct Hmk|].
    rewrite (IH (s0 ++ [c])) by done. by rewrite <- (assoc_L app).
Qed.

Lemma append_bulk s0 s n p :
  state p = ReadBulk → node p = mkRespState (BulkString (Some s0)) n →
  n = Z.of_nat (length (s0 ++ s)) →
  RespParser_append s p = Ok (set_node (mkRespState (BulkString (Some (s0 ++ s))) n) ReadBulk p).
Proof.
  revert s0 p. induction s as [|c s IH]; intros s0 p Hst Hn Hlen.
  - rewrite app_nil_r. destruct p. simpl in *. by subst.
  - rewrite append_cons. unfold RespParser_step. rewrite Hst, Hn. simpl.
    rewrite length_app in Hlen. simpl in Hlen.
    destruct (Z.eqb_spec (Z.of_nat (length s0)) n); [lia|]. simpl.
    rewrite (IH (s0 ++ [c])); try done; rewrite <- (assoc_L app); [done|].
    simpl. rewrite length_app. simpl. lia.
Qed.

Lemma int_digit_in it tot c z :
  is_i64 (it * 10) → is_i64 z →
  z = (if tot =? 1 then it * 10 + digit_val c else it * 10 - digit_val c) →
  int_digit it tot c = Ok z.
Proof.
  unfold is_i64, int_digit. intros H1 H2 ->.
  repeat rewrite (proj2 (Z.leb_le _ _)) by lia.
  repeat rewrite (proj2 (Z.ltb_lt _ _)) by lia. done.
Qed.

(** Digits of a number whose sign is known ([tot = 1]: positive so far or no
    sign; [tot = 2^64-1]: after a minus). *)
Lemma append_int tot0 tot p z :
  state p = ReadLine → node p = mkRespState (Integer 0) tot0 →
  tot0 = 0 ∧ tot = 1 ∨ tot0 = u64 (-1) ∧ tot = u64 (-1) →
  0 <= z → is_i64 (if tot =? 1 then z else - z) →
  RespParser_append (digits z) p =
    Ok (set_node (mkRespState (Integer (if tot =? 1 then z else - z)) tot) ReadLine p).
Proof.
  intros Hst Hn Htot. revert z. refine (digits_ind _ _ _).
  - intros z Hz Hr. rewrite digits_small by done. simpl. unfold RespParser_step.
    rewrite Hst, Hn, !is_digit_ne by (done || by apply is_digit_digit). simpl.
    rewrite is_digit_digit by done.
    assert ((if tot0 =? 0 then 1 else tot0) = tot) as -> by (by destruct Htot as [[-> ->]|[-> ->]]).
    rewrite (int_digit_in _ _ _ (if tot =? 1 then z else - z)); [done|unfold is_i64; lia|done|].
    rewrite digit_val_digit by lia. by destruct (tot =? 1).
  - intros z Hz IH Hr. rewrite digits_step by done.
    pose proof (Z.mod_pos_bound z 10 ltac:(lia)) as Hm.
    pose proof (Z.div_mod z 10 ltac:(lia)) as Hdm.
    assert (is_i64 (if tot =? 1 then z / 10 else - (z / 10))) as Hr'.
    { unfold is_i64 in *. destruct (tot =? 1); lia. }
    eapply append_chain; [by apply IH|]. simpl. unfold RespParser_step. simpl.
    rewrite !is_digit_ne by (done || by apply is_digit_digit).
    rewrite is_digit_digit by lia.
    assert ((if tot =? 0 then 1 else tot) = tot) as -> by (by destruct Htot as [[-> ->]|[-> ->]]).
    rewrite (int_digit_in _ _ _ (if tot =? 1 then z else - z)); [done| |done|].
    + unfold is_i64 in *. destruct (tot =? 1); lia.
    + rewrite digit_val_digit by lia. destruct (tot =? 1); lia.
Qed.

(** ** One encoded value is delivered as that value *)

(** What the parser does with a complete value: [total] only matters for
    arrays, whose size it is. *)
Definition deliver (v : RespValue) (p : RespParser) : res RespParser :=
  push_node (mkRespState v (match v with Array (Some l) => Z.of_nat (length l) | _ => 0 end)) p.

Lemma deliver_total v n p p' :
  (∀ l, v ≠ Array (Some l)) → stateStack p' = stateStack p →
  message_queue p' = message_queue p → push_node (mkRespState v n) p' = deliver v p.
Proof.
  intros Hv Hs Hq. unfold deliver, push_node. rewrite Hs, Hq.
  destruct v as [| | | |[l|]]; try by destruct (stateStack p).
  by destruct (Hv l).
Qed.

(** Delivering into an open array. *)
Lemma deliver_open v l n p rest :
  resp_ok v = true →
  stateStack p = mkRespState (Array (Some l)) n :: rest →
  deliver v p =
    if Z.of_nat (length (l ++ [v])) =? n
    then push_node (mkRespState (Array (Some (l ++ [v]))) n)
           (mkRespParser WaitType RespState_default rest (message_queue p))
    else Ok (mkRespParser WaitType RespState_default
               (mkRespState (Array (Some (l ++ [v]))) n :: rest) (message_queue p)).
Proof.
  intros Hv Hst. unfold deliver, push_node. rewrite Hst. simpl.
  destruct v as [| | | |[k|]]; simpl; rewrite ?Z.eqb_refl; simpl;
    by destruct (Z.of_nat (length (l ++ _)) =? n).
Qed.

Lemma push_node_open l n p :
  Z.of_nat (length l) ≠ n →
  push_node (mkRespState (Array (Some l)) n) p =
    Ok (mkRespParser WaitType RespState_default
          (mkRespState (Array (Some l)) n :: stateStack p) (message_queue p)).
Proof.
  intros Hn. unfold push_node. destruct (stateStack p); simpl;
    by destruct (Z.eqb_spec (Z.of_nat (length l)) n).
Qed.

(** The elements of an array, read one after the other. *)
Lemma append_elements dn todo p rest :
  Forall (λ v, ∀ p, resp_ok v = true → state p = WaitType →
               RespParser_append (encode v) p = deliver v p) todo →
  forallb resp_ok todo = true → todo ≠ [] → state p = WaitType →
  stateStack p = mkRespState (Array (Some dn)) (Z.of_nat (length (dn ++ todo))) :: rest →
  RespParser_append (encode_all todo) p =
    deliver (Array (Some (dn ++ todo)))
      (mkRespParser WaitType RespState_default rest (message_queue p)).
Proof.
  intros Hall. revert dn p. induction Hall as [|x l Hx _ IH]; intros dn p Hok Hne Hst Hstk; [done|].
  simpl in Hok. apply andb_true_iff in Hok as [Hok1 Hok2].
  rewrite encode_all_cons, RespParser_append_app, Hx by done.
  rewrite (deliver_open x dn _ _ _ Hok1 Hstk).
  destruct l as [|y l].
  - rewrite Z.eqb_refl. unfold deliver.
    by destruct (push_node (mkRespState (Array (Some (dn ++ [x]))) _) _).
  - destruct (Z.eqb_spec (Z.of_nat (length (dn ++ [x]))) (Z.of_nat (length (dn ++ x :: y :: l))))
      as [E|E]; [rewrite !length_app in E; simpl in E; lia|].
    simpl. rewrite (IH (dn ++ [x])); [by rewrite <- (assoc_L app)|done..|].
    simpl. by rewrite <- (assoc_L app).
Qed.

(** An encoded value, read from [WaitType], is delivered. *)
Lemma append_encode v p :
  resp_ok v = true → state p = WaitType → RespParser_append (encode v) p = deliver v p.
Proof.
  revert p. induction v as [s|[d|]|s|z| |l IH] using RespValue_ind'; intros p Hok Hst.
  - change (encode (SimpleString s)) with ([ "+"%char ] ++ s ++ CRLF).
    eapply append_chain; [simpl; unfold RespParser_step; by rewrite Hst|].
    eapply append_chain; [apply (append_line SimpleString []); [constructor|done..]|].
    rewrite append_line_end by done. by apply deliver_total.
  - simpl in Hok. change (encode (BulkString (Some d))) with
      ([ "$"%char ] ++ to_string (Z.of_nat (length d)) ++ CRLF ++ d ++ CRLF).
    unfold to_string. destruct (Z.ltb_spec (Z.of_nat (length d)) 0); [lia|].
    pose proof Hok as Hok'. apply andb_true_iff in Hok' as [Hok'%Z.leb_le _]. unfold string_max_size in Hok'.
    eapply append_chain; [simpl; unfold RespParser_step; by rewrite Hst|].
    eapply append_chain; [apply (append_size _ _ _ _ sized_bulk); done || lia|].
    eapply append_chain.
    { simpl. unfold RespParser_step. simpl. unfold string_reserve. by rewrite (fits_reserve _ _ _ Hok). }
    eapply append_chain; [by apply (append_bulk [])|].
    rewrite (append_bulk_end d) by done. by apply deliver_total.
  - change (encode (BulkString None)) with ([ "$"%char ] ++ str "-1" ++ CRLF).
    eapply append_chain; [simpl; unfold RespParser_step; by rewrite Hst|].
    rewrite (append_nil_end _ _ _ sized_bulk) by done. by apply deliver_total.
  - change (encode (Error s)) with ([ "-"%char ] ++ s ++ CRLF).
    eapply append_chain; [simpl; unfold RespParser_step; by rewrite Hst|].
    eapply append_chain; [apply (append_line Error []); [constructor|done..]|].
    rewrite append_line_end by done. by apply deliver_total.
  - simpl in Hok. breflect.
    change (encode (Integer z)) with ([ ":"%char ] ++ to_string z ++ CRLF).
    eapply append_chain; [simpl; unfold RespParser_step; by rewrite Hst|].
    unfold to_string. destruct (Z.ltb_spec z 0).
    + rewrite <- (assoc_L app). eapply append_chain; [done|].
      eapply append_chain.
      { apply (append_int (u64 (-1)) (u64 (-1))); [done..|right; done|lia|].
        unfold is_i64. simpl. lia. }
      rewrite append_line_end by done. simpl. rewrite Z.opp_involutive. by apply deliver_total.
    + eapply append_chain; [apply (append_int 0 1); [done..|left; done|lia|unfold is_i64; simpl; lia]|].
      rewrite append_line_end by done. by apply deliver_total.
  - change (encode (Array None)) with ([ "*"%char ] ++ str "-1" ++ CRLF).
    eapply append_chain; [simpl; unfold RespParser_step; by rewrite Hst|].
    rewrite (append_nil_end _ _ _ sized_array) by done. by apply deliver_total.
  - simpl in Hok. apply andb_true_iff in Hok as [Hfit Hok].
    pose proof Hfit as Hlen. apply andb_true_iff in Hlen as [Hlen%Z.leb_le _].
    rewrite encode_array. unfold to_string.
    destruct (Z.ltb_spec (Z.of_nat (length l)) 0); [lia|].
    assert (Z.of_nat (length l) < 2 ^ 64) as Hlt.
    { unfold vector_max_size in Hlen. etransitivity; [apply Zle_lt_succ, Hlen|]. done. }
    eapply append_chain; [simpl; unfold RespParser_step; by rewrite Hst|].
    eapply append_chain; [apply (append_size _ _ _ _ sized_array); done || lia|].
    rewrite RespParser_append_app, (append_array_header [] (Z.of_nat (length l))) by done.
    simpl. destruct l as [|x l].
    + rewrite bind_append_nil. done.
    + rewrite push_node_open by (simpl; lia). simpl.
      by rewrite (append_elements [] (x :: l) _ (stateStack p)).
Qed.

(** ** The parser only ever appends to the message queue *)

Lemma push_frame st stk q0 q :
  RespParser_push st stk (q0 ++ q) =
    (λ r, (r.1, q0 ++ r.2)) <$> RespParser_push st stk q.
Proof.
  revert st. induction stk as [|top rest IH]; intros st; simpl.
  - destruct (value st) as [| | | |[l|]]; simpl; rewrite <- ?(assoc_L app); try done.
    by destruct (negb _); simpl; rewrite <- ?(assoc_L app).
  - destruct (value st) as [| | | |[l|]], (value top) as [| | | |[k|]];
      repeat match goal with |- context [if ?b then _ else _] => destruct b end;
      done || apply IH.
Qed.

Lemma push_node_frame n q0 p :
  push_node n (set_queue (q0 ++ message_queue p) p) =
    (λ p', set_queue (q0 ++ message_queue p') p') <$> push_node n p.
Proof.
  unfold push_node. simpl. rewrite push_frame.
  by destruct (RespParser_push n (stateStack p) (message_queue p)) as [[? ?]| | |].
Qed.

Lemma step_frame c q0 p :
  RespParser_step c (set_queue (q0 ++ message_queue p) p) =
    (λ p', set_queue (q0 ++ message_queue p') p') <$> RespParser_step c p.
Proof.
  unfold RespParser_step. simpl.
  destruct (state p), (value (node p)) as [|[]| | |[]];
    repeat match goal with
    | |- context [if ?b then _ else _] => destruct b
    | |- context [vector_reserve ?n] => destruct (vector_reserve n)
    | |- context [string_reserve ?n] => destruct (string_reserve n)
    | |- context [int_digit ?a ?b ?c] => destruct (int_digit a b c)
    end; try apply push_node_frame; done.
Qed.

Lemma append_frame s q0 p :
  RespParser_append s (set_queue (q0 ++ message_queue p) p) =
    (λ p', set_queue (q0 ++ message_queue p') p') <$> RespParser_append s p.
Proof.
  revert p. induction s as [|c s IH]; intros p; [done|].
  rewrite !append_cons, step_frame. by destruct (RespParser_step c p); simpl.
Qed.

Lemma drain_spec p : drain p = (message_queue p, set_queue [] p).
Proof.
  unfold drain. destruct p as [st n stk q]. simpl.
  induction q as [|v q IH]; [done|]. simpl. unfold RespParser_pop. simpl.
  unfold set_queue in *. simpl in *. by rewrite IH.
Qed.

(** Draining between chunks loses nothing and reorders nothing. *)
Lemma feed_append chunks p p' :
  RespParser_append (concat chunks) p = Ok p' → message_queue p = [] →
  feed chunks p = Ok (message_queue p', set_queue [] p').
Proof.
  revert p p'. induction chunks as [|chunk chunks IH]; intros p p' H Hq; simpl in *.
  - simplify_eq. destruct p'. simpl in *. by subst.
  - rewrite RespParser_append_app in H.
    destruct (RespParser_append chunk p) as [p1| | |] eqn:E1; simplify_eq/=.
    rewrite drain_spec.
    pose proof (append_frame (concat chunks) (message_queue p1) (set_queue [] p1)) as Hf.
    simpl in Hf. rewrite app_nil_r in Hf.
    assert (set_queue (message_queue p1) (set_queue [] p1) = p1) as Hid by (by destruct p1).
    rewrite Hid, H in Hf.
    destruct (RespParser_append (concat chunks) (set_queue [] p1)) as [p2| | |] eqn:E2; simplify_eq/=.
    by rewrite (IH _ _ E2).
Qed.

Lemma append_encode_all vs p :
  forallb resp_ok vs = true → state p = WaitType → node p = RespState_default → stateStack p = [] →
  RespParser_append (encode_all vs) p =
    Ok (mkRespParser WaitType RespState_default [] (message_queue p ++ vs)).
Proof.
  revert p. induction vs as [|v vs IH]; intros p Hok Hst Hn Hstk.
  - destruct p. simpl in *. subst. by rewrite app_nil_r.
  - simpl in Hok. apply andb_true_iff in Hok as [Hv Hok].
    rewrite encode_all_cons, RespParser_append_app, append_encode by done.
    unfold deliver, push_node. rewrite Hstk.
    assert (RespParser_push (mkRespState v
      match v with Array (Some l) => Z.of_nat (length l) | _ => 0 end) [] (message_queue p)
      = Ok ([], message_queue p ++ [v])) as ->.
    { destruct v as [| | | |[l|]]; simpl; try done. by rewrite Z.eqb_refl. }
    simpl. rewrite IH by done. simpl. by rewrite <- (assoc_L app).
Qed.

Lemma append_encode_one v :
  resp_ok v = true →
  RespParser_append (encode v) RespParser_init = Ok (mkRespParser WaitType RespState_default [] [v]).
Proof.
  intros Hv. pose proof (append_encode_all [v] RespParser_init) as H.
  unfold encode_all in H. simpl in H. rewrite app_nil_r, Hv in H. by apply H.
Qed.

(** No encoding is a proper prefix of another. *)
Lemma encode_prefix_eq v w u :
  resp_ok v = true → resp_ok w = true → encode w = encode v ++ u → v = w ∧ u = [].
Proof.
  intros Hv Hw Hu. pose proof (append_encode_one w Hw) as H1.
  rewrite Hu, RespParser_append_app, (append_encode_one v Hv) in H1. simpl in H1.
  pose proof (append_frame u [v] RespParser_init) as Hf. simpl in Hf.
  unfold set_queue in Hf. simpl in Hf. rewrite H1 in Hf.
  destruct (RespParser_append u RespParser_init) as [p'| | |]; simplify_eq/=.
  split; [done|]. apply (f_equal length) in Hu. rewrite length_app in Hu.
  destruct u; simpl in *; [done|lia].
Qed.

(** *** No value before its last byte *)

Lemma push_progress st stk q stk' q' : RespParser_push st stk q = Ok (stk', q') → stk' ≠ [] ∨ q' ≠ [].
Proof.
  revert st. induction stk as [|top rest IH]; intros st; simpl.
  - repeat case_match; intros [= <- <-]; (by left) || (right; by destruct q).
  - repeat case_match; try discriminate; try (intros [= <- <-]; by left); by apply IH.
Qed.

(** A step ends inside a value or hands one out. *)
Lemma step_open c p p' :
  RespParser_step c p = Ok p' → state p' ≠ WaitType ∨ stateStack p' ≠ [] ∨ message_queue p' ≠ [].
Proof.
  assert (Hpush : ∀ n, push_node n p = Ok p' → state p' ≠ WaitType ∨ stateStack p' ≠ [] ∨ message_queue p' ≠ []).
  { unfold push_node. intros n H. apply res_bind_inv in H as ([stk q] & H1 & H2). injection H2 as <-.
    right. by eapply push_progress. }
  unfold RespParser_step. destruct (state p) eqn:Es; repeat case_match; try discriminate; try apply Hpush; intros Hp'.
  all: try (injection Hp' as <-; simpl; left; congruence).
  all: apply res_bind_inv in Hp' as (? & _ & Hp'); injection Hp' as <-; simpl; left; congruence.
Qed.

(** Bytes that are not the whole encoding hand out nothing. *)
Lemma append_cut v s r :
  resp_ok v = true → encode v = s ++ r → r ≠ [] →
  ∃ p, RespParser_append s RespParser_init = Ok p ∧ message_queue p = [].
Proof.
  intros Hv He Hr. pose proof (append_encode_one v Hv) as H. rewrite He, RespParser_append_app in H.
  destruct (RespParser_append s RespParser_init) as [p| | |]; try done. cbn [mbind res_bind] in H. exists p. split; [done|].
  pose proof (append_frame r (message_queue p) (set_queue [] p)) as Hf. cbn [message_queue set_queue] in Hf.
  rewrite app_nil_r in Hf. assert (set_queue (message_queue p) (set_queue [] p) = p) as Hid by (by destruct p).
  unfold set_queue at 1 in Hf. unfold set_queue in Hid. cbn in Hid, Hf. rewrite Hid, H in Hf.
  destruct (exists_last Hr) as (r' & c & ->).
  rewrite RespParser_append_app in Hf. destruct (RespParser_append r' _) as [p1| | |]; try done.
  cbn [mbind res_bind] in Hf. rewrite append_cons in Hf. destruct (RespParser_step c p1) as [p2| | |] eqn:E; try done.
  simpl in Hf. injection Hf as Hst Hnode Hstk Hq. destruct (message_queue p) as [|x q]; [done|].
  injection Hq as -> Hq. symmetry in Hq. apply app_eq_nil in Hq as [-> Hq].
  destruct (step_open c p1 p2 E) as [Ho|[Ho|Ho]]; congruence.
Qed.

(** ** The invariant of the state machine *)

(** An open array still lacks elements, and has only wire values so far. *)
Definition frame_ok (s : RespState) : Prop :=
  match value s with
  | Array (Some l) =>
      Z.of_nat (length l) < total s ∧ vector_fits (total s) = true ∧ forallb resp_ok l = true
  | _ => False
  end.

(** What the node holds in each state. *)
Definition node_ok (st : ParseState) (n : RespState) : Prop :=
  match st, value n with
  | WaitType, _ => True
  | ReadSize, (Array None | BulkString None) => True
  | ReadSize, (Array (Some []) | BulkString (Some [])) => 0 <= total n
  | WaitLFSZ, Array (Some []) => 0 <= total n ∧ vector_fits (total n) = true
  | WaitLFSZ, BulkString (Some []) => 0 <= total n ∧ string_fits (total n) = true
  | (WaitNil | WaitNilCR), (Array None | BulkString None) => True
  | ReadLine, (SimpleString s | Error s) => no_CR s = true
  | ReadLine, Integer z => is_i64 z
  | WaitLF, Array (Some _) => False
  | WaitLF, v => resp_ok v = true
  | ReadBulk, BulkString (Some s) =>
      Z.of_nat (length s) <= total n ∧ string_fits (total n) = true
  | _, _ => False
  end.

Record parser_inv (p : RespParser) : Prop := {
  inv_node : node_ok (state p) (node p);
  inv_stack : Forall frame_ok (stateStack p);
  inv_queue : forallb resp_ok (message_queue p) = true
}.

(** A value that may be pushed: an array still open, or a complete wire value. *)
Definition pushable (st : RespState) : Prop :=
  frame_ok st ∨
  resp_ok (value st) = true ∧
    ∀ l, value st = Array (Some l) → Z.of_nat (length l) = total st.

Lemma resp_ok_array l :
  resp_ok (Array (Some l)) = true ↔
    vector_fits (Z.of_nat (length l)) = true ∧ forallb resp_ok l = true.
Proof. simpl. by rewrite andb_true_iff. Qed.

Lemma push_ok st stk q :
  pushable st → Forall frame_ok stk → forallb resp_ok q = true →
  ∃ stk' q', RespParser_push st stk q = Ok (stk', q') ∧
    Forall frame_ok stk' ∧ forallb resp_ok q' = true.
Proof.
  revert st. induction stk as [|top rest IH]; intros st Hst Hstk Hq.
  - destruct Hst as [Hst|[Hok Hlen]].
    + exists [st], q. unfold frame_ok in *. simpl.
      destruct (value st) as [| | | |[l|]] eqn:Ev; try done.
      destruct (Z.eqb_spec (Z.of_nat (length l)) (total st)); [lia|].
      simpl. split_and!; [done| |done]. repeat constructor. by rewrite Ev.
    + exists [], (q ++ [value st]). simpl.
      assert (forallb resp_ok (q ++ [value st]) = true).
      { rewrite forallb_app, Hq. simpl. by rewrite Hok. }
      destruct (value st) as [| | | |[l|]] eqn:Ev; try done.
      rewrite (Hlen l), Z.eqb_refl by done. done.
  - apply Forall_cons in Hstk as [Htop Hrest].
    destruct Hst as [Hst|[Hok Hlen]].
    { exists (st :: top :: rest), q. unfold frame_ok in Hst. simpl.
      destruct (value st) as [| | | |[l|]] eqn:Ev; try done.
      destruct (Z.eqb_spec (Z.of_nat (length l)) (total st)); [lia|].
      simpl. split_and!; [done| |done]. constructor; [|by constructor].
      unfold frame_ok. by rewrite Ev. }
    unfold frame_ok in Htop. destruct (value top) as [| | | |[l|]] eqn:Et; try done.
    destruct Htop as (Hlt & Hmax & Hl).
    assert (forallb resp_ok (l ++ [value st]) = true) as Hl'.
    { rewrite forallb_app, Hl. simpl. by rewrite Hok. }
    assert (Z.of_nat (length (l ++ [value st])) <= total top) as Hle.
    { rewrite length_app. simpl. lia. }
    set (top' := mkRespState (Array (Some (l ++ [value st]))) (total top)).
    assert (∃ stk' q', (if Z.of_nat (length (l ++ [value st])) =? total top
        then RespParser_push top' rest q else Ok (top' :: rest, q)) = Ok (stk', q') ∧
        Forall frame_ok stk' ∧ forallb resp_ok q' = true) as (stk' & q' & Heq & ? & ?).
    { destruct (Z.eqb_spec (Z.of_nat (length (l ++ [value st]))) (total top)) as [E|E].
      - apply IH; [|done..]. right. subst top'. simpl. split.
        + apply resp_ok_array. split; [by rewrite E|done].
        + intros k Hk. by simplify_eq.
      - exists (top' :: rest), q. split_and!; [done| |done]. constructor; [|done].
        unfold frame_ok. subst top'. simpl. split_and!; [lia|done|done]. }
    exists stk', q'. split_and!; [|done..]. simpl. rewrite Et.
    destruct (value st) as [| | | |[k|]] eqn:Ev; try done.
    by rewrite (Hlen k), Z.eqb_refl.
Qed.

Lemma push_node_inv n p :
  pushable n → parser_inv p → ∃ p', push_node n p = Ok p' ∧ parser_inv p'.
Proof.
  intros Hn [_ Hs Hq]. destruct (push_ok n _ _ Hn Hs Hq) as (stk' & q' & Heq & ? & ?).
  eexists. split; [unfold push_node; by rewrite Heq|]. by constructor.
Qed.

Lemma no_CR_snoc s c : no_CR s = true → Ascii.eqb c CR = false → no_CR (s ++ [c]) = true.
Proof. unfold no_CR. intros Hs Hc. rewrite forallb_app, Hs. simpl. by rewrite Hc. Qed.

Lemma inv_set_node n st p : node_ok st n → parser_inv p → parser_inv (set_node n st p).
Proof. intros Hn [_ ? ?]. by constructor. Qed.

Lemma inv_set_state st p : node_ok st (node p) → parser_inv p → parser_inv (set_state st p).
Proof. intros Hn [_ ? ?]. by constructor. Qed.

#[local] Hint Resolve inv_set_node inv_set_state no_CR_snoc : kvjet.

(** The next digit leaves the range of [int64_t]. *)
Definition int_overflow (it tot : Z) (c : ascii) : Prop :=
  ¬ is_i64 (it * 10) ∨
  ¬ is_i64 (if tot =? 1 then it * 10 + digit_val c else it * 10 - digit_val c).

(** The limit of what [reserve] takes for the value whose size was read, and the
    bytes it asks for. *)
Definition size_limit (v : RespValue) : Z := match v with Array _ => vector_max_size | _ => string_max_size end.
Definition size_bytes (v : RespValue) (n : Z) : Z := match v with Array _ => vector_bytes n | _ => string_bytes n end.

(** What a byte can do in a state that satisfies the invariant. *)
Definition step_outcome (c : ascii) (p : RespParser) (r : res RespParser) : Prop :=
  match r with
  | Ok p' => parser_inv p'
  | Throw e =>
      e = ParserError ∨
      (state p = ReadSize ∧ c = CR ∧
        (e = LengthError ∧ size_limit (value (node p)) < total (node p) ∨
         e = BadAlloc ∧ total (node p) <= size_limit (value (node p)) ∧
           can_alloc (size_bytes (value (node p)) (total (node p))) = false))
  | UB =>
      (state p = ReadSize ∧ c = CR ∧
         (value (node p) = Array None ∨ value (node p) = BulkString None)) ∨
      (state p = ReadLine ∧ ∃ it, value (node p) = Integer it ∧
         int_overflow it (if total (node p) =? 0 then 1 else total (node p)) c)
  | OutOfFuel => False
  end.

Lemma int_digit_spec it tot c :
  (∃ z, int_digit it tot c = Ok z ∧ is_i64 z) ∨
  int_digit it tot c = UB ∧ int_overflow it tot c.
Proof.
  unfold int_digit, int_overflow, is_i64.
  set (z := if tot =? 1 then it * 10 + digit_val c else it * 10 - digit_val c).
  destruct (_ && _) eqn:E.
  - left. exists z. breflect. split; [done|lia].
  - right. split; [done|].
    repeat (apply andb_false_iff in E as [E|E]); breflect; lia.
Qed.

Lemma step_push c p :
  pushable (node p) → parser_inv p → step_outcome c p (push_node (node p) p).
Proof. intros Hn Hp. by destruct (push_node_inv _ _ Hn Hp) as (p' & -> & ?). Qed.

Lemma step_ReadSize c p :
  state p = ReadSize → parser_inv p → step_outcome c p (RespParser_step c p).
Proof.
  intros Hst Hp. pose proof (inv_node p Hp) as Hn. rewrite Hst in Hn.
  unfold RespParser_step. rewrite Hst.
  destruct (Ascii.eqb c "-"); [|destruct (Ascii.eqb_spec c CR) as [->|]].
  - destruct (value (node p)) as [|[d|]| | |[l|]] eqn:Ev; simpl; auto;
      apply inv_set_state; auto; unfold node_ok; by rewrite Ev.
  - destruct (value (node p)) as [|[d|]| | |[l|]] eqn:Ev; simpl; rewrite ?Hst, ?Ev; auto;
      unfold string_reserve, vector_reserve;
      match goal with |- context [reserve ?m ?b ?n] =>
        destruct (reserve_cases m b n) as [[-> Hf]|[[-> Hf]|(-> & Hf & Hf')]] end; simpl; rewrite ?Hst, ?Ev; auto 10;
      apply inv_set_state; auto; unfold node_ok in *; rewrite Ev in *;
      [by destruct d | by destruct l].
  - destruct (is_digit c) eqn:Hc; [|by left].
    pose proof (u64_range (u64 (total (node p) * 10) + digit_val c)) as [Hr _].
    unfold node_ok in Hn.
    destruct (value (node p)) as [|o| | |o] eqn:Ev; simpl; auto; apply inv_set_node; auto;
      unfold node_ok; simpl; destruct (total (node p) =? 0), o as [[|? ?]|]; done.
Qed.

Lemma step_ReadLine c p :
  state p = ReadLine → parser_inv p → step_outcome c p (RespParser_step c p).
Proof.
  intros Hst Hp. pose proof (inv_node p Hp) as Hn. rewrite Hst in Hn.
  unfold RespParser_step. rewrite Hst.
  destruct (Ascii.eqb c CR) eqn:Hc.
  { simpl. apply inv_set_state; [|done]. unfold node_ok in *.
    destruct (value (node p)) as [|[]| |z|[]] eqn:Ev; try done.
    unfold is_i64 in Hn. simpl. apply andb_true_iff. rewrite Z.leb_le, Z.ltb_lt. lia. }
  unfold node_ok in Hn.
  destruct (value (node p)) as [| | |it|] eqn:Ev; simpl; auto;
    try (apply inv_set_node; [by apply no_CR_snoc|done]).
  destruct (Ascii.eqb c "-"); [destruct (total (node p) =? 0)|]; simpl; auto.
  { by apply inv_set_node. }
  destruct (is_digit c); [|by left]. unfold step_outcome. rewrite Hst, Ev.
  destruct (int_digit_spec it (if total (node p) =? 0 then 1 else total (node p)) c)
    as [(z & -> & Hz)|[-> Ho]]; simpl; [by apply inv_set_node|eauto].
Qed.

(** The invariant is kept by every byte; the only exceptions are the parser's
    own and [reserve]'s. *)
Lemma step_inv c p : parser_inv p → step_outcome c p (RespParser_step c p).
Proof.
  intros Hp. destruct (state p) eqn:Hst; auto using step_ReadSize, step_ReadLine;
    pose proof (inv_node p Hp) as Hn; rewrite Hst in Hn; unfold RespParser_step; rewrite Hst.
  - repeat match goal with |- context [Ascii.eqb c ?d] => destruct (Ascii.eqb c d) end; simpl;
      try (by left); by apply inv_set_node.
  - destruct (Ascii.eqb c LF); [|by left].
    destruct (value (node p)) as [|[[|? ?]|]| | |[[|? ?]|]] eqn:Ev;
      unfold node_ok in Hn; rewrite Ev in Hn; try done.
    + simpl. apply inv_set_state; [|done]. unfold node_ok. by rewrite Ev.
    + apply step_push; [|done]. destruct (Z.eqb_spec (total (node p)) 0) as [E|E].
      * right. rewrite Ev. split; [done|]. intros l Hl. by simplify_eq.
      * left. unfold frame_ok. rewrite Ev. simpl. destruct Hn. split_and!; [lia|done..].
  - destruct (Ascii.eqb c "1"); [|by left]. simpl. apply inv_set_state; done.
  - destruct (Ascii.eqb c CR); [|by left]. simpl. apply inv_set_state; [|done].
    unfold node_ok in *. by destruct (value (node p)) as [|[]| | |[]].
  - destruct (Ascii.eqb c LF); [|by left]. apply step_push; [|done]. right.
    unfold node_ok in Hn. by destruct (value (node p)) as [|[]| | |[]].
  - unfold node_ok in Hn.
    destruct (value (node p)) as [|[d|]| | |] eqn:Ev; try done.
    destruct Hn as [Hl Hf]. destruct (Z.eqb_spec (Z.of_nat (length d)) (total (node p))) as [E|].
    + destruct (Ascii.eqb c CR); [|by left]. simpl. apply inv_set_state; [|done].
      unfold node_ok. rewrite Ev. simpl. by rewrite E.
    + simpl. apply inv_set_node; [|done]. unfold node_ok. simpl. rewrite length_app. simpl. split; [lia|done].
Qed.

Lemma parser_init_inv : parser_inv RespParser_init.
Proof. by constructor. Qed.

Lemma append_inv s p p' : parser_inv p → RespParser_append s p = Ok p' → parser_inv p'.
Proof.
  revert p. induction s as [|c s IH]; intros p Hp H; [by simplify_eq/=|].
  rewrite append_cons in H. pose proof (step_inv c p Hp) as Hc.
  destruct (RespParser_step c p) as [p1| | |]; simplify_eq/=. by apply (IH p1).
Qed.

(** ** Properties *)

(** C1: whatever way a stream of encoded values is cut into chunks, the
    reading loop hands out exactly those values, in order, and leaves the
    parser idle; so truncated packets and pipelined requests are both handled. *)
Theorem parser_roundtrip_chunked (vs : list RespValue) (chunks : list bytes) :
  forallb resp_ok vs = true →
  concat chunks = encode_all vs →
  feed chunks RespParser_init = Ok (vs, RespParser_init).
Proof.
  intros Hok Hc. erewrite feed_append; [|rewrite Hc; by apply append_encode_all|done]. done.
Qed.

(** The encoding is prefix-free, so a concatenation of encodings determines
    its parts: the values and where each one ends. *)
Theorem encode_prefix_free (v w : RespValue) (s t : bytes) :
  resp_ok v = true → resp_ok w = true →
  encode v ++ s = encode w ++ t → v = w ∧ s = t.
Proof.
  intros Hv Hw Heq. apply app_eq_app in Heq as (u & [[Hu Hst]|[Hu Hst]]).
  - destruct (encode_prefix_eq w v u Hw Hv Hu) as [-> ->]. by rewrite Hst.
  - destruct (encode_prefix_eq v w u Hv Hw Hu) as [-> ->]. by rewrite Hst.
Qed.


(** Every value the parser produced, from any input, survives being encoded
    and parsed again; this is what the command log and the snapshots rely on. *)
Theorem parsed_values_reencode (input : bytes) (p : RespParser) (v : RespValue) :
  RespParser_append input RespParser_init = Ok p →
  v ∈ message_queue p →
  RespParser_append (encode v) RespParser_init =
    Ok (mkRespParser WaitType RespState_default [] [v]).
Proof.
  intros H Hv. pose proof (append_inv _ _ _ parser_init_inv H) as [_ _ Hq].
  apply append_encode_one. rewrite forallb_forall in Hq. apply Hq. by apply list_elem_of_In.
Qed.
End parser.
#[export] Hint Resolve inv_set_node inv_set_state no_CR_snoc : kvjet.
Arguments push_node : simpl never.

(** ** The memory of the process

    No allocation gets more than the 47 bits of address space that a process has;
    smaller ones are taken to succeed. *)
#[export] Instance address_space : Memory := λ n, n <? 2 ^ 47.

(** A part of a string that exists. *)
Lemma string_fits_le m n : m <= n → string_fits n = true → string_fits m = true.
Proof.
  intros Hm. unfold string_fits, has_room, string_bytes, can_alloc, address_space.
  rewrite !andb_true_iff, !orb_true_iff, !Z.leb_le, !Z.eqb_eq, !Z.ltb_lt.
  destruct (Z.leb_spec n 15), (Z.leb_spec m 15); lia.
Qed.

(** ** Witnesses *)

Lemma parser_roundtrip_chunked_witness :
  feed [str "*2" ++ CRLF ++ str "+GE"; str "T" ++ CRLF ++ str "$3" ++ [CR];
        [LF] ++ str "foo" ++ CRLF ++ str ":-7"; CRLF] RespParser_init
  = Ok ([Array (Some [SimpleString (str "GET"); BulkString (Some (str "foo"))]); Integer (-7)],
        RespParser_init).
Proof. apply parser_roundtrip_chunked; vm_compute; reflexivity. Defined.

Lemma encode_prefix_free_witness :
  SimpleString (str "a") = SimpleString (str "a") ∧ str ":1" = str ":1".
Proof.
  apply (encode_prefix_free _ _ (str ":1") (str ":1")); reflexivity.
Defined.


Lemma parsed_values_reencode_witness :
  RespParser_append (encode (Integer 7)) RespParser_init =
    Ok (mkRespParser WaitType RespState_default [] [Integer 7]).
Proof.
  apply (parsed_values_reencode (str ":007" ++ CRLF)
           (mkRespParser WaitType RespState_default [] [Integer 7])).
  - vm_compute. reflexivity.
  - left.
Defined.
