(* ===== verification/StringTable.v ===== *)
(** * The interface between the hash table and its clients

    [LRU] and [KVStore] use [HashTable] through three operations.  The class
    [StringTable] names them; [StringTableLaws] states what the table promises:
    while [tbl_room] is positive the operations are those of a finite map, and
    once it is zero every operation on an absent key throws and changes nothing.
    A table from which nothing was ever erased always has room. *)
From Stdlib Require Import ZArith.
From stdpp Require Import base numbers list strings gmap.
From S2P Require Import Prelude.

Class StringTable (H T : Type) := {
  tbl_new : H;
  tbl_get : bytes → H → res (option T);
  tbl_set : bytes → T → M H unit;
  tbl_erase : bytes → M H bool
}.

Definition tbl_full : exn := RuntimeError "Empty position not found".

Class StringTableLaws (H T : Type) `{!StringTable H T} := {
  tbl_ok : H → Prop;
  tbl_map : H → gmap bytes T;
  tbl_room : H → nat;
  tbl_new_ok : tbl_ok tbl_new ∧ tbl_map tbl_new = ∅ ∧ 0 < tbl_room tbl_new;
  tbl_get_ok h k :
    tbl_ok h → is_Some (tbl_map h !! k) ∨ 0 < tbl_room h →
    tbl_get k h = Ok (tbl_map h !! k);
  tbl_set_ok h k v :
    tbl_ok h → is_Some (tbl_map h !! k) ∨ 0 < tbl_room h →
    ∃ h', tbl_set k v h = (Ok tt, h') ∧ tbl_ok h' ∧ tbl_map h' = <[k := v]> (tbl_map h) ∧
      tbl_room h <= tbl_room h' + (if decide (is_Some (tbl_map h !! k)) then 0 else 1);
  tbl_erase_ok h k :
    tbl_ok h → is_Some (tbl_map h !! k) ∨ 0 < tbl_room h →
    ∃ h', tbl_erase k h = (Ok (bool_decide (is_Some (tbl_map h !! k))), h') ∧ tbl_ok h' ∧
      tbl_map h' = delete k (tbl_map h) ∧ tbl_room h' = tbl_room h;
  tbl_full_throws h k v :
    tbl_ok h → tbl_map h !! k = None → tbl_room h = 0 →
    tbl_get k h = Throw tbl_full ∧ tbl_set k v h = (Throw tbl_full, h) ∧
    tbl_erase k h = (Throw tbl_full, h);
  (** a table from which nothing was erased; it never runs out of room *)
  tbl_clean : H → Prop;
  tbl_new_clean : tbl_clean tbl_new;
  tbl_clean_room h : tbl_ok h → tbl_clean h → 0 < tbl_room h;
  tbl_set_clean h k v :
    tbl_ok h → tbl_clean h → tbl_clean (tbl_set k v h).2
}.

(** The operations of a table that has room for the key, as one rewrite each. *)
Section laws.
Context {H T : Type} `{!StringTable H T, !StringTableLaws H T}.
Implicit Types (h : H) (k : bytes) (v : T).

Lemma tbl_get_present h k v :
  tbl_ok h → tbl_map h !! k = Some v → tbl_get k h = Ok (Some v).
Proof. intros Hok Hk. rewrite tbl_get_ok, Hk; [done|done|left; by rewrite Hk]. Qed.

Lemma tbl_set_present h k v w :
  tbl_ok h → tbl_map h !! k = Some w →
  ∃ h', tbl_set k v h = (Ok tt, h') ∧ tbl_ok h' ∧ tbl_map h' = <[k := v]> (tbl_map h) ∧
    tbl_room h <= tbl_room h'.
Proof.
  intros Hok Hk. destruct (tbl_set_ok h k v Hok) as (h' & Hr & Ho & Hm & Hroom).
  { left. by rewrite Hk. }
  exists h'. rewrite decide_True, Nat.add_0_r in Hroom by (by rewrite Hk). done.
Qed.

Lemma tbl_erase_present h k v :
  tbl_ok h → tbl_map h !! k = Some v →
  ∃ h', tbl_erase k h = (Ok true, h') ∧ tbl_ok h' ∧ tbl_map h' = delete k (tbl_map h) ∧
    tbl_room h' = tbl_room h.
Proof.
  intros Hok Hk. destruct (tbl_erase_ok h k Hok) as (h' & Hr & Ho & Hm & Hroom).
  { left. by rewrite Hk. }
  exists h'. rewrite bool_decide_true in Hr by (by rewrite Hk). done.
Qed.
End laws.
