(* ===== verification/HashTable.v ===== *)
(** * The open-addressing hash table (kvstore/HashTable.h, kvstore/HashTable.cpp)

    Linear probing with tombstones.  [Node*] results are bucket indices, the
    members are the fields of [HashTable]; a method that changes them is a
    computation in [M (HashTable T)].  Container sizes are [nat]: they are
    bounded by memory, far below [2^64]. *)
From Stdlib Require Import ZArith Ascii String Lia.
From stdpp Require Import base numbers list strings gmap.
From S2P Require Import Prelude StringTable.
Local Open Scope Z_scope.

Inductive stat := DELETED | EMPTY | OCCUPIED.
#[global] Instance stat_eq_dec : EqDecision stat.
Proof. solve_decision. Defined.

(** [struct Node] *)
Record Node (T : Type) := mkNode { n_key : bytes; n_value : T; n_status : stat }.
Arguments mkNode {T} _ _ _.
Arguments n_key {T} _.
Arguments n_value {T} _.
Arguments n_status {T} _.

Record HashTable (T : Type) := mkHashTable {
  buckets : list (Node T);
  sz : nat;
  bucketsz : nat
}.
Arguments mkHashTable {T} _ _ _.
Arguments buckets {T} _.
Arguments sz {T} _.
Arguments bucketsz {T} _.

(** [(uint32_t)c] sign-extends the (signed) character. *)
Definition gethash_step (h : Z) (c : ascii) : Z := u32 (Z.lxor h (u32 (schar c)) * 16777619).
Definition HashTable_gethash (key : bytes) : Z := foldl gethash_step 2654435761 key.

Section HashTable.
(** [T]'s default constructor. *)
Context {T : Type} `{!Inhabited T}.
Implicit Types (ht : HashTable T) (bs : list (Node T)) (key : bytes).

(** [Node()] and [Node(key, value)] *)
Definition Node_default : Node T := mkNode [] inhabitant EMPTY.
Definition Node_occupied key (v : T) : Node T := mkNode key v OCCUPIED.

Definition HashTable_init : HashTable T := mkHashTable (replicate 16 Node_default) 0 16.

(** The [do ... while (idx != raw)] loop of [find]. *)
Fixpoint find_loop (fuel : nat) ht key (raw idx : nat) (first_del : option nat) : res nat :=
  match fuel with
  | O => OutOfFuel
  | S fuel' =>
      match buckets ht !! idx with
      | None => UB
      | Some nd =>
          let next (fd : option nat) :=
            let idx' := ((idx + 1) mod bucketsz ht)%nat in
            if (idx' =? raw)%nat then Throw (RuntimeError "Empty position not found")
            else find_loop fuel' ht key raw idx' fd in
          match n_status nd with
          | EMPTY => Ok (match first_del with None => idx | Some d => d end)
          | DELETED => next (match first_del with None => Some idx | Some d => Some d end)
          | OCCUPIED => if bool_decide (n_key nd = key) then Ok idx else next first_del
          end
      end
  end.

(** [gethash(key) % bucketsz]; zero divisors are undefined. *)
Definition home (n : nat) key : nat := Z.to_nat (HashTable_gethash key mod Z.of_nat n).

Definition HashTable_find key ht : res nat :=
  if (bucketsz ht =? 0)%nat then UB
  else
    let idx := home (bucketsz ht) key in
    find_loop (bucketsz ht) ht key idx idx None.

(** [HashTable::get]: the pointed-to value, or [nullptr]. *)
Definition HashTable_get key ht : res (option T) :=
  p ← HashTable_find key ht;
  match buckets ht !! p with
  | None => UB
  | Some nd => Ok (if decide (n_status nd = OCCUPIED) then Some (n_value nd) else None)
  end.

Definition put_node (p : nat) (nd : Node T) ht : HashTable T :=
  mkHashTable (<[p := nd]> (buckets ht)) (sz ht) (bucketsz ht).

(** The body of [rehash]'s loop. *)
Definition rehash_node (oldbuckets : list (Node T)) (i : nat) : M (HashTable T) unit :=
  match oldbuckets !! i with
  | None => mub
  | Some nd =>
      if decide (n_status nd = OCCUPIED) then
        ht ← mget;
        p ← mlift (HashTable_find (n_key nd) ht);
        mput (put_node p (Node_occupied (n_key nd) (n_value nd)) ht)
      else mret tt
  end.

Definition HashTable_rehash : M (HashTable T) unit :=
  ht ← mget;
  let oldbucketsz := bucketsz ht in
  let oldbuckets := buckets ht in
  let bsz := (2 * bucketsz ht)%nat in
  _ ← mput (mkHashTable (replicate bsz Node_default) (sz ht) bsz);
  mfor (seq 0 oldbucketsz) (rehash_node oldbuckets).

(** [1.0 * sz / bucketsz > 0.75], exactly, for every size below [2^50]. *)
Definition overloaded ht : bool := (3 * bucketsz ht <? 4 * sz ht)%nat.

Definition HashTable_set key (v : T) : M (HashTable T) unit :=
  ht ← mget;
  p ← mlift (HashTable_find key ht);
  match buckets ht !! p with
  | None => mub
  | Some nd =>
      if decide (n_status nd = OCCUPIED) then
        mput (put_node p (mkNode (n_key nd) v OCCUPIED) ht)
      else
        let ht1 := put_node p (Node_occupied key v) ht in
        let ht2 := mkHashTable (buckets ht1) (S (sz ht1)) (bucketsz ht1) in
        _ ← mput ht2;
        if overloaded ht2 then HashTable_rehash else mret tt
  end.

Definition HashTable_erase key : M (HashTable T) bool :=
  ht ← mget;
  t ← mlift (HashTable_find key ht);
  match buckets ht !! t with
  | None => mub
  | Some nd =>
      if decide (n_status nd = OCCUPIED) then
        _ ← mput (mkHashTable (<[t := mkNode (n_key nd) (n_value nd) DELETED]> (buckets ht))
                    (sz ht - 1) (bucketsz ht));
        mret true
      else mret false
  end.

Definition HashTable_checkexist key ht : res bool :=
  p ← HashTable_find key ht;
  match buckets ht !! p with
  | None => UB
  | Some nd => Ok (bool_decide (n_status nd = OCCUPIED))
  end.

(** The arguments [forEach] calls back with, in order. *)
Definition occupied bs : list (bytes * T) :=
  omap (λ nd, if decide (n_status nd = OCCUPIED) then Some (n_key nd, n_value nd) else None) bs.
Definition HashTable_forEach ht : list (bytes * T) := occupied (buckets ht).
End HashTable.

Arguments occupied : simpl never.

(** ** Probe sequences *)

(** The [d]-th bucket probed from home [h]. *)
Definition probe (n h d : nat) : nat := ((h + d) mod n)%nat.

Lemma probe_lt n h d : (0 < n → probe n h d < n)%nat.
Proof. intros. unfold probe. apply Nat.mod_upper_bound. lia. Qed.

Lemma probe_0 n h : (h < n → probe n h 0 = h)%nat.
Proof. intros. unfold probe. rewrite Nat.add_0_r. by apply Nat.mod_small. Qed.

Lemma probe_S n h d : (0 < n → (probe n h d + 1) mod n = probe n h (S d))%nat.
Proof.
  intros. unfold probe. rewrite Nat.Div0.add_mod_idemp_l. f_equal. lia.
Qed.

(** Probing visits every bucket. *)
Lemma probe_onto n h i : (h < n → i < n → ∃ d, d < n ∧ probe n h d = i)%nat.
Proof.
  intros Hh Hi. destruct (Nat.le_gt_cases h i).
  - exists (i - h)%nat. split; [lia|]. unfold probe. rewrite Nat.mod_small; lia.
  - exists (n - h + i)%nat. split; [lia|]. unfold probe.
    replace (h + (n - h + i))%nat with (i + 1 * n)%nat by lia.
    rewrite Nat.Div0.mod_add. by apply Nat.mod_small.
Qed.

(** Probing visits no bucket twice in a round. *)
Lemma probe_inj n h d e : (h < n → d < n → e < n → probe n h d = probe n h e → d = e)%nat.
Proof.
  intros Hh Hd He. unfold probe. intros H.
  assert (∀ x, (x < n → (h + x) mod n = if decide (h + x < n) then h + x else h + x - n)%nat) as Hm.
  { intros x Hx. case_decide; [by apply Nat.mod_small|].
    replace (h + x)%nat with (h + x - n + 1 * n)%nat at 1 by lia.
    rewrite Nat.Div0.mod_add. apply Nat.mod_small. lia. }
  rewrite !Hm in H by done. repeat case_decide; lia.
Qed.

Lemma gethash_nonneg key : 0 <= HashTable_gethash key < 2 ^ 32.
Proof.
  unfold HashTable_gethash. assert (0 <= 2654435761 < 2 ^ 32) as H by lia.
  revert H. generalize 2654435761. induction key as [|c key IH]; intros h Hh; simpl; [done|].
  apply IH. apply u32_range.
Qed.

Lemma home_lt n key : (0 < n → home n key < n)%nat.
Proof.
  intros. unfold home. pose proof (Z.mod_pos_bound (HashTable_gethash key) (Z.of_nat n)). lia.
Qed.

(** ** The table invariant *)

Section table.
Context {T : Type} `{!Inhabited T}.
Implicit Types (ht : HashTable T) (bs : list (Node T)) (key : bytes) (nd : Node T).

(** A bucket in use, or a tombstone: probing continues past it. *)
Definition not_empty bs (i : nat) : Prop := ∃ nd, bs !! i = Some nd ∧ n_status nd ≠ EMPTY.
Definition holds_at bs (i : nat) key (v : T) : Prop :=
  bs !! i = Some (mkNode key v OCCUPIED).

(** [key] is found by probing from its home without meeting an empty bucket. *)
Definition reachable bs (i : nat) key : Prop :=
  ∃ d, (d < length bs)%nat ∧ i = probe (length bs) (home (length bs) key) d ∧
    ∀ d', (d' < d)%nat → not_empty bs (probe (length bs) (home (length bs) key) d').

Record table_ok bs : Prop := {
  tok_pos : (0 < length bs)%nat;
  tok_unique : ∀ i j key v w, holds_at bs i key v → holds_at bs j key w → i = j;
  tok_chain : ∀ i key v, holds_at bs i key v → reachable bs i key
}.

Record HashTable_ok ht : Prop := {
  hok_size : length (buckets ht) = bucketsz ht;
  hok_table : table_ok (buckets ht);
  hok_sz : sz ht = length (occupied (buckets ht))
}.

Definition has_empty bs : Prop := ∃ i nd, bs !! i = Some nd ∧ n_status nd = EMPTY.

#[global] Instance has_empty_dec bs : Decision (has_empty bs).
Proof.
  refine (cast_if (decide (Exists (λ nd, n_status nd = EMPTY) bs))).
  - apply Exists_exists in e as (nd & Hin & He). apply list_elem_of_lookup in Hin as [i Hi].
    by exists i, nd.
  - intros (i & nd & Hi & He). apply n. apply Exists_exists. exists nd.
    split; [|done]. apply list_elem_of_lookup. by exists i.
Defined.

(** The abstract value of the table. *)
Definition to_map bs : gmap bytes T := list_to_map (occupied bs).

(** *** Reading the abstract map off the buckets *)

Lemma occupied_elem bs key v :
  (key, v) ∈ occupied bs ↔ ∃ i, holds_at bs i key v.
Proof.
  unfold occupied, holds_at. rewrite list_elem_of_omap. split.
  - intros ([k w s] & Hin & Heq). simpl in *. case_decide; simplify_eq.
    apply list_elem_of_lookup in Hin as [i Hi]. by exists i.
  - intros [i Hi]. exists (mkNode key v OCCUPIED). split; [|done].
    apply list_elem_of_lookup. by exists i.
Qed.

Lemma occupied_cons nd bs :
  occupied (nd :: bs) =
    (if decide (n_status nd = OCCUPIED) then [(n_key nd, n_value nd)] else []) ++ occupied bs.
Proof. unfold occupied. simpl. by case_decide. Qed.

Lemma occupied_app bs cs : occupied (bs ++ cs) = occupied bs ++ occupied cs.
Proof.
  induction bs as [|nd bs IH]; [done|]. rewrite <- app_comm_cons, !occupied_cons, IH.
  by rewrite (assoc_L app).
Qed.

Lemma occupied_nodup bs :
  (∀ i j key v w, holds_at bs i key v → holds_at bs j key w → i = j) →
  NoDup (occupied bs).*1.
Proof.
  induction bs as [|nd bs IH]; intros Hu; [constructor|].
  assert (NoDup (occupied bs).*1) as Hnd.
  { apply IH. intros i j key v w Hi Hj.
    specialize (Hu (S i) (S j) key v w). unfold holds_at in *. simpl in Hu.
    apply Nat.succ_inj. auto. }
  rewrite occupied_cons. case_decide as Hs; [|done]. simpl. constructor; [|done].
  intros Hin. apply list_elem_of_fmap in Hin as ([k v] & Hk & Hin). simpl in Hk. subst k.
  apply occupied_elem in Hin as [i Hi].
  specialize (Hu 0%nat (S i) (n_key nd) (n_value nd) v). unfold holds_at in *. simpl in Hu.
  enough (0%nat = S i) by done. apply Hu; [|done]. destruct nd. simpl in *. by subst.
Qed.

Lemma to_map_lookup bs key v :
  table_ok bs → to_map bs !! key = Some v ↔ ∃ i, holds_at bs i key v.
Proof.
  intros Hok. unfold to_map. rewrite <- occupied_elem. split.
  - apply elem_of_list_to_map_2.
  - apply elem_of_list_to_map_1. apply occupied_nodup, tok_unique, Hok.
Qed.

Lemma to_map_None bs key :
  table_ok bs → to_map bs !! key = None ↔ ∀ i v, ¬ holds_at bs i key v.
Proof.
  intros Hok. rewrite eq_None_not_Some. split.
  - intros Hn i v Hi. apply Hn. exists v. apply to_map_lookup; eauto.
  - intros Hn [v Hv]. apply to_map_lookup in Hv as [i Hi]; [|done]. by eapply Hn.
Qed.

(** *** What [find] returns *)

(** No bucket among the first [d] probed stops the search for [key]. *)
Definition passed bs key (d : nat) : Prop :=
  ∀ d', (d' < d)%nat →
    not_empty bs (probe (length bs) (home (length bs) key) d') ∧
    ∀ v, ¬ holds_at bs (probe (length bs) (home (length bs) key) d') key v.

(** The bucket [find] returns: the key's, or the first tombstone of the
    probed prefix (the empty bucket that ended it when there is none). *)
Definition find_result bs key (i : nat) : Prop :=
  ∃ d nd, (d < length bs)%nat ∧ i = probe (length bs) (home (length bs) key) d ∧
    bs !! i = Some nd ∧
    (∀ d', (d' < d)%nat → not_empty bs (probe (length bs) (home (length bs) key) d')) ∧
    (n_status nd = OCCUPIED ∧ n_key nd = key ∨
     n_status nd ≠ OCCUPIED ∧ ∃ e ne, (e < length bs)%nat ∧ passed bs key e ∧
       bs !! probe (length bs) (home (length bs) key) e = Some ne ∧ n_status ne = EMPTY).

Definition find_outcome bs key (r : res nat) : Prop :=
  match r with
  | Ok i => find_result bs key i
  | Throw e => e = RuntimeError "Empty position not found" ∧ passed bs key (length bs)
  | _ => False
  end.

(** The first tombstone met so far. *)
Definition first_del_ok bs key (d : nat) (fd : option nat) : Prop :=
  match fd with
  | None => True
  | Some i => ∃ e nd, (e < d)%nat ∧ i = probe (length bs) (home (length bs) key) e ∧
      bs !! i = Some nd ∧ n_status nd = DELETED
  end.

Lemma passed_S bs key d nd :
  passed bs key d → bs !! probe (length bs) (home (length bs) key) d = Some nd →
  n_status nd ≠ EMPTY → (n_status nd = OCCUPIED → n_key nd ≠ key) → passed bs key (S d).
Proof.
  intros Hp Hb Hs Hk d' Hd'. destruct (decide (d' = d)) as [->|]; [|apply Hp; lia].
  split; [by exists nd|]. unfold holds_at. intros v Hv. simplify_eq/=. by apply Hk.
Qed.

Lemma find_loop_spec ht key d fd :
  length (buckets ht) = bucketsz ht → (0 < bucketsz ht)%nat →
  (d < bucketsz ht)%nat → passed (buckets ht) key d → first_del_ok (buckets ht) key d fd →
  find_outcome (buckets ht) key
    (find_loop (bucketsz ht - d) ht key (home (bucketsz ht) key)
       (probe (bucketsz ht) (home (bucketsz ht) key) d) fd).
Proof.
  intros Hlen Hpos. set (n := bucketsz ht). set (h := home n key).
  remember (n - d)%nat as fuel eqn:Ef. revert d fd Ef.
  induction fuel as [|fuel IH]; intros d fd Ef Hd Hp Hfd; [lia|]. simpl.
  pose proof (home_lt n key Hpos) as Hh.
  destruct (lookup_lt_is_Some_2 (buckets ht) (probe n h d)) as [nd Hnd].
  { rewrite Hlen. by apply probe_lt. }
  rewrite Hnd.
  assert (∀ fd', first_del_ok (buckets ht) key (S d) fd' → n_status nd ≠ EMPTY →
    (n_status nd = OCCUPIED → n_key nd ≠ key) →
    find_outcome (buckets ht) key
      (if ((probe n h d + 1) mod n =? h)%nat
       then Throw (RuntimeError "Empty position not found")
       else find_loop fuel ht key h ((probe n h d + 1) mod n) fd')) as Hnext.
  { intros fd' Hfd' Hs Hk.
    assert (passed (buckets ht) key (S d)) as Hp'.
    { eapply passed_S; [done|by rewrite Hlen|done..]. }
    rewrite (probe_S n h d) by done.
    destruct (Nat.eqb_spec (probe n h (S d)) h) as [E|E].
    - split; [done|]. destruct (decide (S d < n)%nat) as [Hlt|Hge].
      + rewrite <- (probe_0 n h Hh) in E at 2. apply probe_inj in E; lia.
      + replace (length (buckets ht)) with (S d) by lia. done.
    - destruct (decide (S d < n)%nat) as [Hlt|Hge].
      + apply (IH (S d) fd'); [lia|done..].
      + exfalso. apply E. replace (S d) with n by lia. unfold probe.
        rewrite <- (Nat.mul_1_l n) at 1. rewrite Nat.Div0.mod_add. by apply Nat.mod_small. }
  destruct (n_status nd) eqn:Hs.
  - apply Hnext; [|done..]. destruct fd as [i|]; simpl in *.
    + destruct Hfd as (e & ne & ? & ?). exists e, ne. split; [lia|done].
    + exists d, nd. rewrite Hlen. split_and!; [lia|done..].
  - assert (find_result (buckets ht) key (match fd with None => probe n h d | Some i => i end)) as Hres.
    { assert (∃ e ne, (e < length (buckets ht))%nat ∧ passed (buckets ht) key e ∧
        buckets ht !! probe (length (buckets ht)) (home (length (buckets ht)) key) e = Some ne ∧
        n_status ne = EMPTY) as Hend.
      { exists d, nd. rewrite Hlen. split_and!; done. }
      destruct fd as [i|].
      - destruct Hfd as (e & ne & He & -> & Hb & Hne). exists e, ne.
        split_and!; [lia|done|done| |right; split; [congruence|done]].
        intros d' Hd'. apply Hp. lia.
      - exists d, nd. rewrite Hlen in *. split_and!; [done|done|done| |right; split; [congruence|done]].
        intros d' Hd'. rewrite <- Hlen. apply Hp. done. }
    by destruct fd.
  - case_bool_decide as Hk.
    + exists d, nd. rewrite Hlen. split_and!; [done..| |by left].
      intros d' Hd'. rewrite <- Hlen. by apply Hp.
    + apply Hnext; [|congruence|done]. destruct fd as [i|]; [|done]. simpl in *.
      destruct Hfd as (e & ne & ? & ?). exists e, ne. split; [lia|done].
Qed.

Lemma find_spec ht key :
  length (buckets ht) = bucketsz ht → (0 < bucketsz ht)%nat →
  find_outcome (buckets ht) key (HashTable_find key ht).
Proof.
  intros Hlen Hpos. unfold HashTable_find.
  destruct (Nat.eqb_spec (bucketsz ht) 0); [lia|].
  pose proof (find_loop_spec ht key 0 None Hlen Hpos Hpos) as H.
  rewrite probe_0, Nat.sub_0_r in H by (by apply home_lt). apply H; [|done].
  intros d' Hd'. lia.
Qed.

(** *** [find] on a well-formed table *)

Lemma holds_at_lt bs i key v : holds_at bs i key v → (i < length bs)%nat.
Proof. apply lookup_lt_Some. Qed.

Lemma find_present ht i key v :
  length (buckets ht) = bucketsz ht → table_ok (buckets ht) →
  holds_at (buckets ht) i key v → HashTable_find key ht = Ok i.
Proof.
  intros Hlen Hok Hi. pose proof (tok_pos _ Hok) as Hpos.
  pose proof (find_spec ht key Hlen ltac:(lia)) as Hf.
  destruct (tok_chain _ Hok _ _ _ Hi) as (d & Hd & Hid & Hchain).
  destruct (HashTable_find key ht) as [j|e| |] eqn:E; try done.
  - f_equal. destruct Hf as (dj & nd & Hdj & -> & Hnd & _ & [[Hs Hk]|[Hs (e & ne & He & Hp & Hne & Hse)]]).
    + apply (tok_unique _ Hok _ _ key (n_value nd) v); [|done].
      unfold holds_at. rewrite Hnd. destruct nd. simpl in *. by subst.
    + exfalso. destruct (Nat.lt_trichotomy d e) as [Hlt|[->|Hgt]].
      * destruct (Hp d Hlt) as [_ Hno]. apply (Hno v). by rewrite <- Hid.
      * rewrite <- Hid in Hne. unfold holds_at in Hi. by simplify_eq/=.
      * destruct (Hchain e Hgt) as (ne' & Hne' & Hs'). by simplify_eq/=.
  - exfalso. destruct Hf as [_ Hp]. destruct (Hp d Hd) as [_ Hno]. apply (Hno v). by rewrite <- Hid.
Qed.

(** A bucket in which an absent key may be stored. *)
Definition free_slot bs key (i : nat) : Prop :=
  reachable bs i key ∧ ∃ nd, bs !! i = Some nd ∧ n_status nd ≠ OCCUPIED.

Lemma find_absent ht key :
  length (buckets ht) = bucketsz ht → table_ok (buckets ht) →
  (∀ i v, ¬ holds_at (buckets ht) i key v) → has_empty (buckets ht) →
  ∃ i, HashTable_find key ht = Ok i ∧ free_slot (buckets ht) key i.
Proof.
  intros Hlen Hok Hno (j & ne & Hj & Hs). pose proof (tok_pos _ Hok) as Hpos.
  pose proof (find_spec ht key Hlen ltac:(lia)) as Hf.
  destruct (HashTable_find key ht) as [i|e| |] eqn:E; try done.
  - exists i. split; [done|].
    destruct Hf as (d & nd & Hd & -> & Hnd & Hpre & [[Hso Hk]|[Hso _]]).
    + exfalso. eapply (Hno _ (n_value nd)). unfold holds_at. rewrite Hnd.
      destruct nd. simpl in *. by subst.
    + split; [by exists d|by exists nd].
  - exfalso. destruct Hf as [_ Hp].
    destruct (probe_onto (length (buckets ht)) (home (length (buckets ht)) key) j)
      as (d & Hd & Hdj); [by apply home_lt|by eapply lookup_lt_Some|].
    destruct (Hp d Hd) as [(nd & Hnd & Hne) _]. rewrite Hdj in Hnd. by simplify_eq.
Qed.

(** [find] throws exactly when the key is absent and no bucket is empty. *)
Lemma find_full ht key :
  length (buckets ht) = bucketsz ht → table_ok (buckets ht) →
  (∀ i v, ¬ holds_at (buckets ht) i key v) → ¬ has_empty (buckets ht) →
  HashTable_find key ht = Throw (RuntimeError "Empty position not found").
Proof.
  intros Hlen Hok Hno Hne. pose proof (tok_pos _ Hok) as Hpos.
  pose proof (find_spec ht key Hlen ltac:(lia)) as Hf.
  destruct (HashTable_find key ht) as [i|e| |] eqn:E; try done.
  - exfalso. destruct Hf as (d & nd & Hd & -> & Hnd & Hpre & [[Hso Hk]|[_ (e & ne & _ & _ & He & Hs)]]).
    + eapply (Hno _ (n_value nd)). unfold holds_at. rewrite Hnd. destruct nd. simpl in *. by subst.
    + apply Hne. by eexists _, _.
  - by destruct Hf as [-> _].
Qed.

(** *** Updating a bucket *)

Lemma holds_at_insert bs i nd j key v :
  (i < length bs)%nat →
  holds_at (<[i := nd]> bs) j key v ↔
    j = i ∧ nd = mkNode key v OCCUPIED ∨ j ≠ i ∧ holds_at bs j key v.
Proof.
  intros Hi. unfold holds_at. destruct (decide (j = i)) as [->|Hne].
  - rewrite list_lookup_insert_eq by done. naive_solver.
  - rewrite list_lookup_insert_ne by done. naive_solver.
Qed.

Lemma reachable_insert bs i nd j key :
  n_status nd ≠ EMPTY → reachable bs j key → reachable (<[i := nd]> bs) j key.
Proof.
  intros Hs (d & Hd & Hj & Hchain). exists d. rewrite length_insert.
  split_and!; [done..|]. intros d' Hd'. destruct (Hchain d' Hd') as (ne & Hne & Hse).
  destruct (decide (i = probe (length bs) (home (length bs) key) d')) as [->|Hn].
  - exists nd. split; [|done]. apply list_lookup_insert_eq. by eapply lookup_lt_Some.
  - exists ne. split; [|done]. by rewrite list_lookup_insert_ne.
Qed.

(** Storing [key] in its own bucket or in a free slot keeps the invariant. *)
Lemma table_ok_store bs i key v :
  table_ok bs → reachable bs i key → (∀ j w, holds_at bs j key w → j = i) →
  (∃ nd, bs !! i = Some nd ∧ (n_status nd = OCCUPIED → n_key nd = key)) →
  table_ok (<[i := mkNode key v OCCUPIED]> bs) ∧
  to_map (<[i := mkNode key v OCCUPIED]> bs) = <[key := v]> (to_map bs).
Proof.
  intros Hok Hr Honly (nd & Hnd & Hk). pose proof (lookup_lt_Some _ _ _ Hnd) as Hi.
  assert (table_ok (<[i := mkNode key v OCCUPIED]> bs)) as Hok'.
  { constructor.
    - rewrite length_insert. apply Hok.
    - intros j1 j2 k w1 w2 H1 H2. rewrite holds_at_insert in H1, H2 by done.
      destruct H1 as [[-> E1]|[N1 H1]], H2 as [[-> E2]|[N2 H2]]; simplify_eq; try done.
      + by apply Honly in H2.
      + by apply Honly in H1.
      + by eapply (tok_unique _ Hok).
    - intros j k w H. rewrite holds_at_insert in H by done.
      destruct H as [[-> E]|[N H]]; simplify_eq; apply reachable_insert; try done.
      by eapply (tok_chain _ Hok). }
  split; [done|]. apply map_eq. intros k. apply option_eq. intros w.
  rewrite to_map_lookup by done. rewrite lookup_insert. case_decide as Ek.
  - subst k. split.
    + intros [j Hj]. rewrite holds_at_insert in Hj by done.
      destruct Hj as [[-> E]|[N H]]; [by simplify_eq|]. by apply Honly in H.
    + intros [= <-]. exists i. apply holds_at_insert; [done|]. by left.
  - rewrite to_map_lookup by done. split; intros [j Hj]; exists j.
    + rewrite holds_at_insert in Hj by done. destruct Hj as [[-> E]|[N H]]; by simplify_eq.
    + apply holds_at_insert; [done|]. right. split; [|done]. intros ->.
      unfold holds_at in Hj. simplify_eq/=. apply Ek. symmetry. by apply Hk.
Qed.

(** Turning [key]'s bucket into a tombstone removes it and nothing else. *)
Lemma table_ok_tombstone bs i key v :
  table_ok bs → holds_at bs i key v →
  table_ok (<[i := mkNode key v DELETED]> bs) ∧
  to_map (<[i := mkNode key v DELETED]> bs) = delete key (to_map bs).
Proof.
  intros Hok Hi. pose proof (holds_at_lt _ _ _ _ Hi) as Hlt.
  assert (table_ok (<[i := mkNode key v DELETED]> bs)) as Hok'.
  { constructor.
    - rewrite length_insert. apply Hok.
    - intros j1 j2 k w1 w2 H1 H2. rewrite holds_at_insert in H1, H2 by done.
      destruct H1 as [[_ E1]|[_ H1]], H2 as [[_ E2]|[_ H2]]; simplify_eq.
      by eapply (tok_unique _ Hok).
    - intros j k w H. rewrite holds_at_insert in H by done.
      destruct H as [[_ E]|[_ H]]; simplify_eq. apply reachable_insert; [done|].
      by eapply (tok_chain _ Hok). }
  split; [done|]. apply map_eq. intros k. apply option_eq. intros w.
  rewrite to_map_lookup by done. rewrite lookup_delete. case_decide as Ek.
  - subst k. split; [|done]. intros [j Hj]. rewrite holds_at_insert in Hj by done.
    destruct Hj as [[_ E]|[N H]]; [done|]. destruct N. by eapply (tok_unique _ Hok).
  - rewrite to_map_lookup by done. split; intros [j Hj]; exists j.
    + rewrite holds_at_insert in Hj by done. by destruct Hj as [[_ E]|[_ H]].
    + apply holds_at_insert; [done|]. right. split; [|done]. intros ->.
      unfold holds_at in *. by simplify_eq.
Qed.

(** *** Counting *)

Definition empties bs : nat := length (filter (λ nd, n_status nd = EMPTY) bs).
Definition tombstones bs : nat := length (filter (λ nd, n_status nd = DELETED) bs).

Lemma counts_total bs :
  (length bs = length (occupied bs) + empties bs + tombstones bs)%nat.
Proof.
  unfold empties, tombstones. induction bs as [|[k v []] bs IH]; [done|..];
    rewrite occupied_cons; simpl; rewrite !filter_cons; simpl; lia.
Qed.

Lemma has_empty_empties bs : has_empty bs ↔ (0 < empties bs)%nat.
Proof.
  unfold has_empty, empties. split.
  - intros (i & nd & Hi & Hs).
    assert (nd ∈ filter (λ nd, n_status nd = EMPTY) bs) as Hin.
    { apply list_elem_of_filter. split; [done|]. apply list_elem_of_lookup. by exists i. }
    destruct (filter _ bs); [by apply elem_of_nil in Hin|simpl; lia].
  - intros H. destruct (filter (λ nd, n_status nd = EMPTY) bs) as [|nd l] eqn:E; [simpl in H; lia|].
    assert (nd ∈ filter (λ nd, n_status nd = EMPTY) bs) as Hin by (rewrite E; left).
    apply list_elem_of_filter in Hin as [Hs Hin]. apply list_elem_of_lookup in Hin as [i Hi].
    by exists i, nd.
Qed.

Lemma occupied_insert bs i nd nd' :
  bs !! i = Some nd →
  (length (occupied (<[i := nd']> bs)) + (if decide (n_status nd = OCCUPIED) then 1 else 0) =
   length (occupied bs) + (if decide (n_status nd' = OCCUPIED) then 1 else 0))%nat.
Proof.
  intros Hi. rewrite <- (take_drop_middle bs i nd Hi) at 2.
  rewrite insert_take_drop by (by eapply lookup_lt_Some).
  rewrite !occupied_app, !occupied_cons, !length_app. repeat case_decide; simpl; lia.
Qed.

Lemma tombstones_insert bs i nd nd' :
  bs !! i = Some nd →
  (tombstones (<[i := nd']> bs) + (if decide (n_status nd = DELETED) then 1 else 0) =
   tombstones bs + (if decide (n_status nd' = DELETED) then 1 else 0))%nat.
Proof.
  intros Hi. unfold tombstones. rewrite <- (take_drop_middle bs i nd Hi) at 2.
  rewrite insert_take_drop by (by eapply lookup_lt_Some).
  rewrite !filter_app, !filter_cons, !length_app. repeat case_decide; simpl; lia.
Qed.
End table.

(** ** The operations on a well-formed table *)

Section ops.
Context {T : Type} `{!Inhabited T}.
Implicit Types (ht : HashTable T) (bs : list (Node T)) (key : bytes).

(** A free slot can take the key; the tombstone count cannot grow. *)
Lemma store_free bs i key v :
  table_ok bs → (∀ j w, ¬ holds_at bs j key w) → free_slot bs key i →
  table_ok (<[i := mkNode key v OCCUPIED]> bs) ∧
  to_map (<[i := mkNode key v OCCUPIED]> bs) = <[key := v]> (to_map bs) ∧
  length (occupied (<[i := mkNode key v OCCUPIED]> bs)) = S (length (occupied bs)) ∧
  (tombstones (<[i := mkNode key v OCCUPIED]> bs) <= tombstones bs)%nat.
Proof.
  intros Hok Hno [Hr (nd & Hnd & Hs)].
  destruct (table_ok_store bs i key v) as [Hok' Hm]; [done|done|naive_solver|by exists nd; split|].
  pose proof (occupied_insert bs i nd (mkNode key v OCCUPIED) Hnd) as Ho.
  pose proof (tombstones_insert bs i nd (mkNode key v OCCUPIED) Hnd) as Ht.
  rewrite decide_False in Ho by done. simpl in Ho, Ht.
  repeat case_decide; split_and!; try done; lia.
Qed.

(** What the rehash loop has built after the first [i] old buckets. *)
Record rehashed (old : list (Node T)) (i : nat) (ht0 ht : HashTable T) : Prop := {
  re_size : length (buckets ht) = bucketsz ht;
  re_bsz : bucketsz ht = (2 * length old)%nat;
  re_sz : sz ht = sz ht0;
  re_ok : table_ok (buckets ht);
  re_clean : tombstones (buckets ht) = 0%nat;
  re_count : length (occupied (buckets ht)) = length (occupied (take i old));
  re_map : ∀ k v, to_map (buckets ht) !! k = Some v ↔ (k, v) ∈ occupied (take i old)
}.

Lemma rehashed_has_empty old i ht0 ht :
  (0 < length old)%nat → rehashed old i ht0 ht → has_empty (buckets ht).
Proof.
  intros Hpos []. apply has_empty_empties.
  pose proof (counts_total (buckets ht)). pose proof (counts_total (take i old)) as Ht.
  rewrite length_take in Ht. lia.
Qed.

Lemma occupied_take_S (old : list (Node T)) i nd :
  old !! i = Some nd →
  occupied (take (S i) old) = occupied (take i old) ++ occupied [nd].
Proof. intros H. by rewrite (take_S_r old i nd H), occupied_app. Qed.

Lemma rehash_node_ok old i ht0 ht :
  table_ok old → (i < length old)%nat → rehashed old i ht0 ht →
  ∃ ht', rehash_node old i ht = (Ok tt, ht') ∧ rehashed old (S i) ht0 ht'.
Proof.
  intros Hold Hi Hre. destruct (lookup_lt_is_Some_2 old i Hi) as [nd Hnd].
  pose proof (rehashed_has_empty _ _ _ _ (tok_pos _ Hold) Hre) as He.
  pose proof (occupied_take_S old i nd Hnd) as Hocc. rewrite occupied_cons in Hocc.
  destruct Hre. unfold rehash_node. rewrite Hnd. case_decide as Hs.
  - assert (holds_at old i (n_key nd) (n_value nd)) as Hhold.
    { unfold holds_at. rewrite Hnd. destruct nd. simpl in *. by subst. }
    assert (∀ j w, ¬ holds_at (buckets ht) j (n_key nd) w) as Hno.
    { intros j w Hj. assert (to_map (buckets ht) !! n_key nd = Some w) as Hw.
      { apply to_map_lookup; eauto. }
      apply re_map0, occupied_elem in Hw as [j' Hj'].
      unfold holds_at in Hj'. apply lookup_take_Some in Hj' as [Hj' Hlt].
      pose proof (tok_unique _ Hold _ _ _ _ _ Hj' Hhold). lia. }
    destruct (find_absent ht (n_key nd)) as (p & Hp & Hfree); [done..|].
    destruct (store_free _ p _ (n_value nd) re_ok0 Hno Hfree) as (Hok' & Hm & Hc & Ht).
    eexists. split; [mrun; by rewrite Hp|]. unfold put_node, Node_occupied. constructor; simpl; try done.
    + by rewrite length_insert.
    + lia.
    + rewrite Hc, Hocc, length_app. simpl. lia.
    + intros k v. rewrite Hm, Hocc, elem_of_app, <- re_map0.
      simpl. rewrite list_elem_of_singleton, lookup_insert.
      case_decide as Ek; [subst k|naive_solver].
      assert (to_map (buckets ht) !! n_key nd = None) as -> by (by apply to_map_None).
      naive_solver.
  - exists ht. split; [done|]. simpl in Hocc. rewrite app_nil_r in Hocc.
    constructor; try done; by rewrite Hocc.
Qed.

Lemma rehash_loop_ok old j i ht0 ht :
  table_ok old → (i + j = length old)%nat → rehashed old i ht0 ht →
  ∃ ht', mfor (seq i j) (rehash_node old) ht = (Ok tt, ht') ∧
         rehashed old (length old) ht0 ht'.
Proof.
  intros Hold. revert i ht. induction j as [|j IH]; intros i ht Hij Hre; simpl.
  - exists ht. split; [done|]. by replace (length old) with i by lia.
  - destruct (rehash_node_ok old i ht0 ht) as (ht1 & H1 & Hre1); [done|lia|done|].
    destruct (IH (S i) ht1) as (ht' & H' & Hre'); [lia|done|].
    exists ht'. split; [|done]. by erewrite M_bind_Ok.
Qed.

Lemma occupied_replicate n : occupied (replicate n (@Node_default T _)) = [].
Proof. induction n; [done|]. simpl. by rewrite occupied_cons, IHn. Qed.

Lemma table_ok_fresh n : (0 < n)%nat → table_ok (replicate n (@Node_default T _)).
Proof.
  intros. constructor.
  - by rewrite length_replicate.
  - intros i j k v w Hi. unfold holds_at in Hi. apply lookup_replicate in Hi as [? _]. done.
  - intros i k v Hi. unfold holds_at in Hi. apply lookup_replicate in Hi as [? _]. done.
Qed.

Lemma tombstones_fresh n : tombstones (replicate n (@Node_default T _)) = 0%nat.
Proof. unfold tombstones. by induction n. Qed.

(** [rehash] doubles the table, keeps its contents and drops the tombstones. *)
Lemma HashTable_rehash_ok ht :
  HashTable_ok ht →
  ∃ ht', HashTable_rehash ht = (Ok tt, ht') ∧ HashTable_ok ht' ∧
    to_map (buckets ht') = to_map (buckets ht) ∧
    bucketsz ht' = (2 * bucketsz ht)%nat ∧ sz ht' = sz ht ∧ tombstones (buckets ht') = 0%nat.
Proof.
  intros [Hlen Hok Hsz]. pose proof (tok_pos _ Hok) as Hpos.
  destruct (rehash_loop_ok (buckets ht) (length (buckets ht)) 0 ht
    (mkHashTable (replicate (2 * bucketsz ht) Node_default) (sz ht) (2 * bucketsz ht)))
    as (ht' & Hrun & Hre); [done|done| |].
  { constructor; simpl.
    - by rewrite length_replicate.
    - by rewrite Hlen.
    - done.
    - apply table_ok_fresh. lia.
    - apply tombstones_fresh.
    - by rewrite occupied_replicate.
    - intros k v. unfold to_map. rewrite occupied_replicate. simpl.
      rewrite lookup_empty, elem_of_nil. done. }
  exists ht'. destruct Hre. rewrite take_ge in * by done. split_and!.
  - unfold HashTable_rehash. mrun. by rewrite Hlen in Hrun.
  - constructor; [done..|]. by rewrite re_sz0, Hsz, re_count0.
  - apply map_eq. intros k. apply option_eq. intros v.
    rewrite re_map0, to_map_lookup, occupied_elem by done. done.
  - by rewrite re_bsz0, Hlen.
  - done.
  - done.
Qed.

(** *** [get], [checkexist], [set], [erase] *)

Lemma find_cases ht key :
  HashTable_ok ht → is_Some (to_map (buckets ht) !! key) ∨ has_empty (buckets ht) →
  ∃ i, HashTable_find key ht = Ok i ∧
    match to_map (buckets ht) !! key with
    | Some v => holds_at (buckets ht) i key v
    | None => free_slot (buckets ht) key i
    end.
Proof.
  intros [Hlen Hok _] Hav. destruct (to_map (buckets ht) !! key) as [v|] eqn:E.
  - apply to_map_lookup in E as [i Hi]; [|done]. exists i. split; [|done].
    by eapply find_present.
  - destruct Hav as [[? ?]|He]; [done|]. apply find_absent; try done. by apply to_map_None.
Qed.

Lemma HashTable_get_ok ht key :
  HashTable_ok ht → is_Some (to_map (buckets ht) !! key) ∨ has_empty (buckets ht) →
  HashTable_get key ht = Ok (to_map (buckets ht) !! key).
Proof.
  intros Hok Hav. destruct (find_cases ht key Hok Hav) as (i & Hf & Hi).
  unfold HashTable_get. rewrite Hf. simpl.
  destruct (to_map (buckets ht) !! key) as [v|].
  - by rewrite Hi.
  - destruct Hi as [_ (nd & -> & Hs)]. by rewrite decide_False.
Qed.

Lemma HashTable_checkexist_ok ht key :
  HashTable_ok ht → is_Some (to_map (buckets ht) !! key) ∨ has_empty (buckets ht) →
  HashTable_checkexist key ht = Ok (bool_decide (is_Some (to_map (buckets ht) !! key))).
Proof.
  intros Hok Hav. destruct (find_cases ht key Hok Hav) as (i & Hf & Hi).
  unfold HashTable_checkexist. rewrite Hf. simpl.
  destruct (to_map (buckets ht) !! key) as [v|].
  - by rewrite Hi.
  - destruct Hi as [_ (nd & -> & Hs)]. by rewrite bool_decide_false.
Qed.

Lemma HashTable_size ht : HashTable_ok ht → size (to_map (buckets ht)) = sz ht.
Proof.
  intros [_ Hok ->]. unfold to_map. apply map_size_list_to_map.
  apply occupied_nodup, tok_unique, Hok.
Qed.

(** The load factor is at most 3/4. *)
Definition load_ok ht : Prop := (4 * sz ht <= 3 * bucketsz ht)%nat ∧ (2 <= bucketsz ht)%nat.

Lemma set_present ht key v i w :
  HashTable_ok ht → HashTable_find key ht = Ok i → holds_at (buckets ht) i key w →
  HashTable_set key v ht = (Ok tt, put_node i (mkNode key v OCCUPIED) ht) ∧
  HashTable_ok (put_node i (mkNode key v OCCUPIED) ht) ∧
  to_map (<[i := mkNode key v OCCUPIED]> (buckets ht)) = <[key := v]> (to_map (buckets ht)) ∧
  tombstones (<[i := mkNode key v OCCUPIED]> (buckets ht)) = tombstones (buckets ht).
Proof.
  intros [Hlen Hok Hsz] Hf Hi.
  destruct (table_ok_store (buckets ht) i key v) as [Hok' Hm].
  { done. } { by eapply (tok_chain _ Hok). } { intros j u Hj. by eapply (tok_unique _ Hok). }
  { eexists. split; [apply Hi|done]. }
  pose proof (occupied_insert _ i _ (mkNode key v OCCUPIED) Hi) as Ho. simpl in Ho.
  pose proof (tombstones_insert _ i _ (mkNode key v OCCUPIED) Hi) as Ht. simpl in Ht.
  split_and!; [|constructor; simpl|done|lia].
  - unfold HashTable_set. mrun. rewrite Hf. mrun. by rewrite Hi.
  - by rewrite length_insert.
  - done.
  - lia.
Qed.

Lemma set_absent ht key v i :
  HashTable_ok ht → to_map (buckets ht) !! key = None →
  HashTable_find key ht = Ok i → free_slot (buckets ht) key i →
  ∃ ht', HashTable_set key v ht = (Ok tt, ht') ∧ HashTable_ok ht' ∧
    to_map (buckets ht') = <[key := v]> (to_map (buckets ht)) ∧
    (tombstones (buckets ht') <= tombstones (buckets ht))%nat ∧
    (bucketsz ht <= bucketsz ht')%nat ∧ (load_ok ht → load_ok ht').
Proof.
  intros [Hlen Hok Hsz] Hnone Hf Hfree.
  rewrite to_map_None in Hnone by done.
  destruct (store_free _ i key v Hok Hnone Hfree) as (Hok' & Hm & Hc & Ht).
  set (ht2 := mkHashTable (<[i := mkNode key v OCCUPIED]> (buckets ht)) (S (sz ht)) (bucketsz ht)).
  assert (HashTable_ok ht2) as Hok2.
  { constructor; simpl; [by rewrite length_insert|done|]. by rewrite Hc, Hsz. }
  assert (HashTable_set key v ht = (if overloaded ht2 then HashTable_rehash else mret tt) ht2) as ->.
  { destruct Hfree as [_ (nd & Hnd & Hs)]. unfold HashTable_set. mrun. rewrite Hf. mrun.
    rewrite Hnd. by rewrite decide_False. }
  unfold overloaded. destruct (Nat.ltb_spec (3 * bucketsz ht2) (4 * sz ht2)) as [Hload|Hload];
    simpl in Hload.
  - destruct (HashTable_rehash_ok ht2 Hok2) as (ht' & Hrun & Hok3 & Hm' & Hb & Hs' & Ht').
    exists ht'. simpl in *. split_and!; try done.
    + by rewrite Hm'.
    + lia.
    + lia.
    + unfold load_ok. rewrite Hb, Hs'. lia.
  - exists ht2. split_and!; try done. unfold load_ok. simpl. lia.
Qed.

Lemma HashTable_set_ok ht key v :
  HashTable_ok ht → is_Some (to_map (buckets ht) !! key) ∨ has_empty (buckets ht) →
  ∃ ht', HashTable_set key v ht = (Ok tt, ht') ∧ HashTable_ok ht' ∧
    to_map (buckets ht') = <[key := v]> (to_map (buckets ht)) ∧
    (tombstones (buckets ht') <= tombstones (buckets ht))%nat ∧
    (empties (buckets ht) <=
       empties (buckets ht') + (if decide (is_Some (to_map (buckets ht) !! key)) then 0 else 1))%nat ∧
    (bucketsz ht <= bucketsz ht')%nat ∧ (load_ok ht → load_ok ht').
Proof.
  intros Hok Hav. destruct (find_cases ht key Hok Hav) as (i & Hf & Hi).
  pose proof (counts_total (buckets ht)) as Hct.
  destruct (to_map (buckets ht) !! key) as [w|] eqn:E.
  - destruct (set_present ht key v i w Hok Hf Hi) as (Hrun & Hok' & Hm & Ht).
    eexists. split; [done|]. simpl. split_and!; try done.
    + lia.
    + pose proof (counts_total (<[i := mkNode key v OCCUPIED]> (buckets ht))) as Hct'.
      rewrite length_insert in Hct'.
      pose proof (occupied_insert _ i _ (mkNode key v OCCUPIED) Hi) as Ho. simpl in Ho. lia.
  - destruct (set_absent ht key v i Hok E Hf Hi) as (ht' & Hrun & Hok' & Hm & Ht & Hb & Hl).
    exists ht'. split_and!; try done. rewrite decide_False by (intros [? ?]; done).
    pose proof (counts_total (buckets ht')) as Hct'.
    pose proof (HashTable_size ht Hok) as S1. pose proof (HashTable_size ht' Hok') as S2.
    rewrite Hm, map_size_insert_None in S2 by done.
    destruct Hok as [Hlen _ Hsz], Hok' as [Hlen' _ Hsz']. lia.
Qed.

Lemma HashTable_erase_ok ht key :
  HashTable_ok ht → is_Some (to_map (buckets ht) !! key) ∨ has_empty (buckets ht) →
  ∃ ht', HashTable_erase key ht = (Ok (bool_decide (is_Some (to_map (buckets ht) !! key))), ht') ∧
    HashTable_ok ht' ∧ to_map (buckets ht') = delete key (to_map (buckets ht)) ∧
    empties (buckets ht') = empties (buckets ht) ∧ bucketsz ht' = bucketsz ht ∧
    (load_ok ht → load_ok ht').
Proof.
  intros Hok Hav. destruct (find_cases ht key Hok Hav) as (i & Hf & Hi).
  pose proof Hok as [Hlen Htab Hsz].
  destruct (to_map (buckets ht) !! key) as [v|] eqn:E.
  - destruct (table_ok_tombstone _ _ _ _ Htab Hi) as [Hok' Hm].
    pose proof (occupied_insert _ i _ (mkNode key v DELETED) Hi) as Ho. simpl in Ho.
    pose proof (tombstones_insert _ i _ (mkNode key v DELETED) Hi) as Ht. simpl in Ht.
    pose proof (counts_total (buckets ht)) as Hct.
    pose proof (counts_total (<[i := mkNode key v DELETED]> (buckets ht))) as Hct'.
    rewrite length_insert in Hct'.
    eexists. split_and!; [unfold HashTable_erase; mrun; rewrite Hf; mrun; by rewrite Hi|..];
      simpl; [constructor; simpl; [by rewrite length_insert|done|lia]|done|lia|done|unfold load_ok; simpl; lia].
  - destruct Hi as [_ (nd & Hnd & Hs)]. exists ht. split_and!; try done.
    + unfold HashTable_erase. mrun. rewrite Hf. mrun. rewrite Hnd. by rewrite decide_False.
    + by rewrite delete_id.
Qed.

(** With the key absent and no bucket empty, every operation throws and
    changes nothing. *)
Lemma HashTable_full ht key v :
  HashTable_ok ht → to_map (buckets ht) !! key = None → ¬ has_empty (buckets ht) →
  HashTable_get key ht = Throw (RuntimeError "Empty position not found") ∧
  HashTable_set key v ht = (Throw (RuntimeError "Empty position not found"), ht) ∧
  HashTable_erase key ht = (Throw (RuntimeError "Empty position not found"), ht).
Proof.
  intros [Hlen Hok _] Hn He. rewrite to_map_None in Hn by done.
  pose proof (find_full ht key Hlen Hok Hn He) as Hf.
  split_and!; unfold HashTable_get, HashTable_set, HashTable_erase; mrun; by rewrite Hf.
Qed.

Lemma HashTable_checkexist_full ht key :
  HashTable_ok ht → to_map (buckets ht) !! key = None → ¬ has_empty (buckets ht) →
  HashTable_checkexist key ht = Throw (RuntimeError "Empty position not found").
Proof.
  intros [Hlen Hok _] Hn He. rewrite to_map_None in Hn by done.
  unfold HashTable_checkexist. by rewrite (find_full ht key Hlen Hok Hn He).
Qed.

(** A table that holds no tombstone always has an empty bucket. *)
Lemma clean_has_empty ht :
  HashTable_ok ht → load_ok ht → tombstones (buckets ht) = 0%nat → has_empty (buckets ht).
Proof.
  intros [Hlen Hok Hsz] [Hl Hb] Ht. apply has_empty_empties.
  pose proof (counts_total (buckets ht)). lia.
Qed.

(** A table of tombstones is well formed (and empty). *)
Lemma table_ok_tombstones (bs : list (Node T)) :
  (0 < length bs)%nat → Forall (λ nd, n_status nd = DELETED) bs → table_ok bs.
Proof.
  intros Hp Hall.
  assert (∀ i key v, ¬ holds_at bs i key v) as H.
  { intros i key v Hi. by eapply Forall_lookup_1 in Hall; [|apply Hi]. }
  constructor; [done|..]; intros i; intros; exfalso; by eapply H.
Qed.

Lemma HashTable_init_ok : HashTable_ok (@HashTable_init T _).
Proof.
  constructor; [done| |done]. apply table_ok_fresh. lia.
Qed.
End ops.

(** ** The table implements its interface *)

#[global] Instance HashTable_table {T} `{!Inhabited T} : StringTable (HashTable T) T := {
  tbl_new := HashTable_init;
  tbl_get := HashTable_get;
  tbl_set := HashTable_set;
  tbl_erase := HashTable_erase
}.

#[global] Program Instance HashTable_laws {T} `{!Inhabited T} : StringTableLaws (HashTable T) T := {
  tbl_ok := HashTable_ok;
  tbl_map ht := to_map (buckets ht);
  tbl_room ht := empties (buckets ht);
  tbl_clean ht := load_ok ht ∧ tombstones (buckets ht) = 0%nat
}.
Next Obligation. intros T HT. split_and!; [apply HashTable_init_ok|done|vm_compute; lia]. Qed.
Next Obligation.
  intros T HT ht k Hok Hav. apply HashTable_get_ok; [done|]. by rewrite has_empty_empties.
Qed.
Next Obligation.
  intros T HT ht k v Hok Hav.
  destruct (HashTable_set_ok ht k v Hok) as (ht' & ? & ? & ? & _ & ? & _ & _);
    [by rewrite has_empty_empties|]. by exists ht'.
Qed.
Next Obligation.
  intros T HT ht k Hok Hav.
  destruct (HashTable_erase_ok ht k Hok) as (ht' & ? & ? & ? & ? & _ & _);
    [by rewrite has_empty_empties|]. by exists ht'.
Qed.
Next Obligation.
  intros T HT ht k v Hok Hk Hroom. apply HashTable_full; [done..|].
  rewrite has_empty_empties. lia.
Qed.
Next Obligation. intros T HT. split; [unfold load_ok; simpl; lia|done]. Qed.
Next Obligation.
  intros T HT ht Hok [Hl Ht]. rewrite <- has_empty_empties. by apply clean_has_empty.
Qed.
Next Obligation.
  intros T HT ht k v Hok [Hl Ht].
  destruct (HashTable_set_ok ht k v Hok) as (ht' & Hr & _ & _ & Ht' & _ & _ & Hl').
  { right. by apply clean_has_empty. }
  simpl. rewrite Hr. split; [by apply Hl'|simpl; lia].
Qed.

(** ** Sequences of operations against the finite-map specification *)

Inductive table_op (T : Type) :=
  | OpGet (key : bytes) | OpSet (key : bytes) (v : T) | OpErase (key : bytes) | OpExist (key : bytes).
Arguments OpGet {T} _.
Arguments OpSet {T} _ _.
Arguments OpErase {T} _.
Arguments OpExist {T} _.

(** What a caller observes of one operation. *)
Inductive table_obs (T : Type) := ObsValue (v : option T) | ObsUnit | ObsBool (b : bool).
Arguments ObsValue {T} _.
Arguments ObsUnit {T}.
Arguments ObsBool {T} _.

Section traces.
Context {T : Type} `{!Inhabited T}.

Definition table_step (op : table_op T) : M (HashTable T) (table_obs T) :=
  match op with
  | OpGet k => ht ← mget; v ← mlift (HashTable_get k ht); mret (ObsValue v)
  | OpSet k v => _ ← HashTable_set k v; mret ObsUnit
  | OpErase k => b ← HashTable_erase k; mret (ObsBool b)
  | OpExist k => ht ← mget; b ← mlift (HashTable_checkexist k ht); mret (ObsBool b)
  end.

Fixpoint table_run (ops : list (table_op T)) : M (HashTable T) (list (table_obs T)) :=
  match ops with
  | [] => mret []
  | op :: ops' => o ← table_step op; os ← table_run ops'; mret (o :: os)
  end.

Definition map_step (op : table_op T) (m : gmap bytes T) : table_obs T * gmap bytes T :=
  match op with
  | OpGet k => (ObsValue (m !! k), m)
  | OpSet k v => (ObsUnit, <[k := v]> m)
  | OpErase k => (ObsBool (bool_decide (is_Some (m !! k))), delete k m)
  | OpExist k => (ObsBool (bool_decide (is_Some (m !! k))), m)
  end.

Fixpoint map_run (ops : list (table_op T)) (m : gmap bytes T) : list (table_obs T) * gmap bytes T :=
  match ops with
  | [] => ([], m)
  | op :: ops' =>
      let '(o, m1) := map_step op m in
      let '(os, m2) := map_run ops' m1 in (o :: os, m2)
  end.

Definition is_erase (op : table_op T) : bool := match op with OpErase _ => true | _ => false end.
Definition erases (ops : list (table_op T)) : nat := length (filter is_erase ops).

(** The state of a table after at most [e] erasures. *)
Record table_budget (e : nat) (ht : HashTable T) : Prop := {
  tb_ok : HashTable_ok ht;
  tb_load : load_ok ht;
  tb_big : 16 <= Z.of_nat (bucketsz ht);
  tb_tomb : (tombstones (buckets ht) <= e)%nat
}.

Lemma table_budget_room e ht : (e <= 3)%nat → table_budget e ht → has_empty (buckets ht).
Proof.
  intros He [[Hlen Hok Hsz] [Hl _] Hb Ht]. apply has_empty_empties.
  pose proof (counts_total (buckets ht)). lia.
Qed.

Lemma table_step_refines e op ht :
  (e <= 3)%nat → table_budget e ht →
  ∃ ht', table_step op ht = (Ok (map_step op (to_map (buckets ht))).1, ht') ∧
    to_map (buckets ht') = (map_step op (to_map (buckets ht))).2 ∧
    table_budget (e + if is_erase op then 1 else 0) ht'.
Proof.
  intros He Hb. pose proof (table_budget_room e ht He Hb) as Hroom.
  pose proof Hb as [Hok Hl Hbig Ht].
  destruct op as [k|k v|k|k]; simpl; rewrite ?Nat.add_0_r.
  - exists ht. split_and!; [|done..]. mrun. by rewrite HashTable_get_ok by auto.
  - destruct (HashTable_set_ok ht k v Hok (or_intror Hroom))
      as (ht' & Hr & Hok' & Hm & Ht' & He' & Hsame & Hl').
    exists ht'. split_and!; [by erewrite M_bind_Ok|done|].
    constructor; [done|auto|lia|lia].
  - destruct (HashTable_erase_ok ht k Hok (or_intror Hroom)) as (ht' & Hr & Hok' & Hm & He' & Hsame & Hl').
    exists ht'. split_and!; [by erewrite M_bind_Ok|done|].
    constructor; [done|auto|lia|].
    pose proof (counts_total (buckets ht)) as C1. pose proof (counts_total (buckets ht')) as C2.
    pose proof (HashTable_size ht Hok) as S1. pose proof (HashTable_size ht' Hok') as S2.
    rewrite Hm in S2.
    destruct Hok as [L1 _ Z1], Hok' as [L2 _ Z2].
    destruct (to_map (buckets ht) !! k) as [v|] eqn:E.
    + rewrite (map_size_delete_Some _ _ (mk_is_Some _ _ E)) in S2. lia.
    + rewrite map_size_delete_None in S2 by done. lia.
  - exists ht. split_and!; [|done..]. mrun. by rewrite HashTable_checkexist_ok by auto.
Qed.

Lemma erases_cons op ops : erases (op :: ops) = ((if is_erase op then 1 else 0) + erases ops)%nat.
Proof. unfold erases. rewrite filter_cons. by destruct op. Qed.

Lemma table_run_refines ops e ht :
  table_budget e ht → (e + erases ops <= 3)%nat →
  ∃ ht', table_run ops ht = (Ok (map_run ops (to_map (buckets ht))).1, ht') ∧
    to_map (buckets ht') = (map_run ops (to_map (buckets ht))).2 ∧ HashTable_ok ht'.
Proof.
  revert e ht. induction ops as [|op ops IH]; intros e ht Hb He; simpl.
  { exists ht. split_and!; [done..|apply Hb]. }
  rewrite erases_cons in He.
  destruct (table_step_refines e op ht) as (ht1 & H1 & Hm1 & Hb1); [lia|done|].
  destruct (IH _ ht1 Hb1) as (ht2 & H2 & Hm2 & Hok2); [lia|].
  rewrite Hm1 in H2, Hm2. destruct (map_step op (to_map (buckets ht))) as [o m1]. simpl in *.
  destruct (map_run ops m1) as [os m2]. simpl in *.
  exists ht2. split_and!; [|done..]. erewrite M_bind_Ok by done. by erewrite M_bind_Ok.
Qed.

Definition op_key (op : table_op T) : bytes :=
  match op with OpGet k | OpSet k _ | OpErase k | OpExist k => k end.

(** ** Properties *)

(** C13: on any well-formed table, whatever tombstones it holds, an operation
    on a key that is present or with an empty bucket left returns what a
    finite map returns, leaves the table well formed, and changes its
    contents exactly as the map operation does. *)
Theorem hashtable_op_refines_map (op : table_op T) (ht : HashTable T) :
  HashTable_ok ht →
  is_Some (to_map (buckets ht) !! op_key op) ∨ has_empty (buckets ht) →
  ∃ ht', table_step op ht = (Ok (map_step op (to_map (buckets ht))).1, ht') ∧
    HashTable_ok ht' ∧ to_map (buckets ht') = (map_step op (to_map (buckets ht))).2.
Proof.
  intros Hok Hav. destruct op as [k|k v|k|k]; simpl in *.
  - exists ht. split_and!; [|done..]. mrun. by rewrite HashTable_get_ok.
  - destruct (HashTable_set_ok ht k v Hok Hav) as (ht' & Hr & ? & ? & _).
    exists ht'. by erewrite M_bind_Ok.
  - destruct (HashTable_erase_ok ht k Hok Hav) as (ht' & Hr & ? & ? & _).
    exists ht'. by erewrite M_bind_Ok.
  - exists ht. split_and!; [|done..]. mrun. by rewrite HashTable_checkexist_ok.
Qed.

(** From an empty table, any sequence of operations with at most three
    erasures, of any length and with any number of rehashes, behaves as the
    same sequence on a finite map: same results, same final contents. *)
Theorem hashtable_run_refines_map (ops : list (table_op T)) :
  (erases ops <= 3)%nat →
  ∃ ht', table_run ops HashTable_init = (Ok (map_run ops ∅).1, ht') ∧
    to_map (buckets ht') = (map_run ops ∅).2 ∧ HashTable_ok ht'.
Proof.
  intros He. apply (table_run_refines ops 0 HashTable_init); [|done].
  constructor; [apply HashTable_init_ok|unfold load_ok; simpl; lia|simpl; lia|done].
Qed.

(** The exception of [find] means exactly that the key is absent and no
    bucket is empty; the table is unchanged. *)
Theorem hashtable_throws_iff_full (ht : HashTable T) (key : bytes) :
  HashTable_ok ht →
  HashTable_get key ht = Throw (RuntimeError "Empty position not found") ↔
  to_map (buckets ht) !! key = None ∧ ¬ has_empty (buckets ht).
Proof.
  intros Hok. split.
  - intros H. destruct (decide (is_Some (to_map (buckets ht) !! key))) as [Hs|Hn].
    { rewrite HashTable_get_ok in H by auto. done. }
    destruct (decide (has_empty (buckets ht))) as [He|He].
    { rewrite HashTable_get_ok in H by auto. done. }
    split; [|done]. by apply eq_None_not_Some.
  - intros [Hn He]. by apply (HashTable_full ht key inhabitant Hok Hn He).
Qed.
End traces.

Lemma hashtable_op_refines_map_witness :
  ∃ ht', table_step (OpSet (str "k") 7) HashTable_init =
      (Ok (map_step (OpSet (str "k") 7) (to_map (buckets HashTable_init))).1, ht') ∧
    HashTable_ok ht' ∧
    to_map (buckets ht') = (map_step (OpSet (str "k") 7) (to_map (buckets HashTable_init))).2.
Proof.
  apply (hashtable_op_refines_map (OpSet (str "k") 7) HashTable_init).
  - apply HashTable_init_ok.
  - right. apply has_empty_empties. vm_compute. lia.
Defined.

Lemma hashtable_run_refines_map_witness :
  ∃ ht', table_run [OpSet (str "a") 1; OpErase (str "a"); OpGet (str "a")] HashTable_init =
      (Ok [ObsUnit; ObsBool true; ObsValue None], ht') ∧
    to_map (buckets ht') = delete (str "a") (<[str "a" := 1]> ∅) ∧ HashTable_ok ht'.
Proof.
  apply (hashtable_run_refines_map [OpSet (str "a") 1; OpErase (str "a"); OpGet (str "a")]).
  vm_compute. lia.
Defined.

(** Sixteen keys, one for each bucket of a new table. *)
Definition sixteen_keys : list bytes := map (λ c, [c]) (str "abcdefghijklmnop").

(** The table left by inserting and erasing each of them once. *)
Definition churned : HashTable Z :=
  (table_run (flat_map (λ k, [OpSet k 1; OpErase k]) sixteen_keys) HashTable_init).2.

Lemma churned_ok : HashTable_ok churned.
Proof.
  constructor; [by vm_compute| |by vm_compute].
  apply table_ok_tombstones; [vm_compute; lia|]. apply Forall_forall.
  replace (buckets churned) with (map (λ c, mkNode [c] 1 DELETED) (str "ajgpmfclibohenkd"))
    by (by vm_compute).
  by intros nd (c & -> & _)%list_elem_of_fmap.
Qed.

Lemma hashtable_throws_iff_full_witness :
  HashTable_get (str "z") churned = Throw (RuntimeError "Empty position not found") ↔
  to_map (buckets churned) !! str "z" = None ∧ ¬ has_empty (buckets churned).
Proof. apply (hashtable_throws_iff_full churned (str "z")). apply churned_ok. Defined.

(** Tombstones are not counted in [sz], so they never trigger a rehash:
    inserting and erasing sixteen keys one after the other leaves an empty
    table ([sz = 0]) on which every lookup, insertion or erasure throws. *)
Theorem hashtable_tombstone_saturation :
  (∃ os, table_run (flat_map (λ k, [OpSet k 1; OpErase k]) sixteen_keys) HashTable_init =
     (Ok os, churned)) ∧
  sz churned = 0%nat ∧ HashTable_forEach churned = [] ∧
  HashTable_get (str "z") churned = Throw (RuntimeError "Empty position not found") ∧
  HashTable_set (str "z") 1 churned = (Throw (RuntimeError "Empty position not found"), churned).
Proof. split_and!; [eexists|..]; vm_compute; reflexivity. Qed.
