(* ===== verification/LRU.v ===== *)
(** * The recency list (kvstore/LRU.h, kvstore/LRU.cpp)

    [std::list] nodes have an identity that iterators keep across other
    insertions and erasures, so the list is modelled as nodes [(id, key)] and
    an iterator is an [id]; using an iterator whose node is gone is undefined
    behaviour.  The front of the list is the least recently used key.  The
    index [hash] is any [StringTable] from keys to iterators; the program
    instantiates it with [HashTable]. *)
From Stdlib Require Import ZArith Lia.
From stdpp Require Import base numbers list strings gmap.
From S2P Require Import Prelude StringTable HashTable.

(** [std::list<std::string>::iterator] *)
#[warnings="-notation-for-abbreviation"] Notation iterator := nat.

Record LRU_of (H : Type) := mkLRU {
  maxsz : nat;
  lst : list (iterator * bytes);
  hash : H;
  next_id : nat
}.
Arguments mkLRU {H} _ _ _ _.
Arguments maxsz {H} _.
Arguments lst {H} _.
Arguments hash {H} _.
Arguments next_id {H} _.

Section LRU.
Context {H : Type} `{!StringTable H iterator}.
Implicit Types (l : LRU_of H) (x : bytes).

(** [LRU::LRU(maxsz)] *)
Definition LRU_init (m : nat) : LRU_of H := mkLRU m [] tbl_new 0.

Definition set_lst (ls : list (iterator * bytes)) l : LRU_of H :=
  mkLRU (maxsz l) ls (hash l) (next_id l).
Definition set_hash (h : H) l : LRU_of H := mkLRU (maxsz l) (lst l) h (next_id l).

Definition list_remove (it : iterator) (ls : list (iterator * bytes)) :=
  filter (λ n, n.1 ≠ it) ls.

(** [lst.erase(it)] *)
Definition lst_erase (it : iterator) : M (LRU_of H) unit :=
  l ← mget;
  if decide (it ∈ (lst l).*1) then mput (set_lst (list_remove it (lst l)) l) else mub.

(** [lst.push_back(x)], then [prev(lst.end())] *)
Definition lst_push_back x : M (LRU_of H) iterator :=
  l ← mget;
  _ ← mput (mkLRU (maxsz l) (lst l ++ [(next_id l, x)]) (hash l) (S (next_id l)));
  mret (next_id l).

Definition hash_set x (it : iterator) : M (LRU_of H) unit :=
  mzoom hash set_hash (tbl_set x it).
Definition hash_erase x : M (LRU_of H) bool := mzoom hash set_hash (tbl_erase x).
Definition hash_get x : M (LRU_of H) (option iterator) :=
  l ← mget; mlift (tbl_get x (hash l)).

(** [lst.erase( *it ); lst.push_back(x); hash.set(x, prev(lst.end()));] *)
Definition move_to_back (it : iterator) x : M (LRU_of H) unit :=
  _ ← lst_erase it;
  e ← lst_push_back x;
  hash_set x e.

Definition LRU_access x : M (LRU_of H) unit :=
  it ← hash_get x;
  match it with
  | None => mret tt
  | Some it => move_to_back it x
  end.

Definition LRU_set x : M (LRU_of H) (option bytes) :=
  it ← hash_get x;
  match it with
  | Some it => _ ← move_to_back it x; mret None
  | None =>
      e ← lst_push_back x;
      _ ← hash_set x e;
      l ← mget;
      if decide (maxsz l < length (lst l)) then
        match lst l with
        | [] => mub
        | (it, erasestr) :: _ =>
            _ ← lst_erase it;
            _ ← hash_erase erasestr;
            mret (Some erasestr)
        end
      else mret None
  end.

Definition LRU_del x : M (LRU_of H) unit :=
  it ← hash_get x;
  match it with
  | None => mret tt
  | Some it => _ ← lst_erase it; _ ← hash_erase x; mret tt
  end.

Definition LRU_clear : M (LRU_of H) unit :=
  l ← mget; mput (mkLRU (maxsz l) [] tbl_new (next_id l)).
End LRU.

(** The program's instance. *)
#[warnings="-notation-for-abbreviation"] Notation LRU := (LRU_of (HashTable iterator)).

(** ** The recency order, as a specification: keys from coldest to hottest *)

Definition recency_touch (x : bytes) (ks : list bytes) : list bytes :=
  filter (λ k, k ≠ x) ks ++ [x].

Definition recency_access (x : bytes) (ks : list bytes) : list bytes :=
  if decide (x ∈ ks) then recency_touch x ks else ks.

(** Touch the key; beyond the capacity the coldest key is evicted. *)
Definition recency_set (cap : nat) (x : bytes) (ks : list bytes) : option bytes * list bytes :=
  let ks' := recency_touch x ks in
  if decide (x ∈ ks) then (None, ks')
  else if decide (cap < length ks') then (head ks', tail ks') else (None, ks').

Definition recency_del (x : bytes) (ks : list bytes) : list bytes := filter (λ k, k ≠ x) ks.

Section LRU_proofs.
Context {H : Type} `{!StringTable H iterator, !StringTableLaws H iterator}.
Implicit Types (l : LRU_of H) (x : bytes).

Definition keys l : list bytes := (lst l).*2.

(** The index [m] and the list describe each other; ids are below [n]. *)
Record list_ok (n : nat) (ls : list (iterator * bytes)) (m : gmap bytes iterator) : Prop := {
  lok_ids : NoDup ls.*1;
  lok_keys : NoDup ls.*2;
  lok_fresh : Forall (λ n', n'.1 < n) ls;
  lok_index : ∀ k it, m !! k = Some it ↔ (it, k) ∈ ls
}.

Record LRU_ok l : Prop := {
  lok_table : tbl_ok (hash l);
  lok_list : list_ok (next_id l) (lst l) (tbl_map (hash l));
  lok_cap : length (lst l) <= maxsz l
}.

Lemma recency_touch_new x ks : x ∉ ks → recency_touch x ks = ks ++ [x].
Proof. intros Hx. unfold recency_touch. f_equal. apply list_filter_all, Forall_forall. by intros k Hk ->. Qed.

Lemma index_elem n ls m k : list_ok n ls m → is_Some (m !! k) ↔ k ∈ ls.*2.
Proof.
  intros Hl. rewrite list_elem_of_fmap. split.
  - intros [it Hit]. apply (lok_index _ _ _ Hl) in Hit. by exists (it, k).
  - intros ([it k'] & -> & Hin). exists it. by apply (lok_index _ _ _ Hl).
Qed.

Lemma index_None n ls m k : list_ok n ls m → m !! k = None ↔ k ∉ ls.*2.
Proof. intros Hl. rewrite <- (index_elem n ls m k Hl). apply eq_None_not_Some. Qed.

(** Ids and keys of the list determine each other. *)
Lemma nodup_pair (ls : list (iterator * bytes)) it k it' k' :
  NoDup ls.*1 → NoDup ls.*2 → (it, k) ∈ ls → (it', k') ∈ ls → it = it' ↔ k = k'.
Proof.
  intros H1 H2 Hi Hj. apply list_elem_of_lookup in Hi as [i Hi].
  apply list_elem_of_lookup in Hj as [j Hj].
  assert (ls.*1 !! i = Some it) as A1 by (by rewrite list_lookup_fmap, Hi).
  assert (ls.*1 !! j = Some it') as A2 by (by rewrite list_lookup_fmap, Hj).
  assert (ls.*2 !! i = Some k) as B1 by (by rewrite list_lookup_fmap, Hi).
  assert (ls.*2 !! j = Some k') as B2 by (by rewrite list_lookup_fmap, Hj).
  split; intros ->.
  - assert (i = j) as -> by exact (NoDup_lookup _ _ _ _ H1 A1 A2). congruence.
  - assert (i = j) as -> by exact (NoDup_lookup _ _ _ _ H2 B1 B2). congruence.
Qed.

Lemma list_remove_elem it n (ls : list (iterator * bytes)) :
  n ∈ list_remove it ls ↔ n.1 ≠ it ∧ n ∈ ls.
Proof. unfold list_remove. by rewrite list_elem_of_filter. Qed.

(** Removing the node of key [x] removes [x] from the key order. *)
Lemma list_remove_keys it x (ls : list (iterator * bytes)) :
  NoDup ls.*1 → NoDup ls.*2 → (it, x) ∈ ls →
  (list_remove it ls).*2 = filter (λ k, k ≠ x) ls.*2.
Proof.
  intros H1 H2 Hin.
  assert (∀ n, n ∈ ls → n.1 ≠ it ↔ n.2 ≠ x) as Heq.
  { intros [i k] Hn. simpl. rewrite (nodup_pair ls i k it x) by done. done. }
  clear H1 H2 Hin. unfold list_remove. induction ls as [|n ls IH]; [done|].
  rewrite fmap_cons, !filter_cons. pose proof (Heq n) as Hn.
  rewrite <- IH by (intros m Hm; apply Heq; by right).
  destruct (decide (n.1 ≠ it)) as [A|A], (decide (n.2 ≠ x)) as [B|B]; try done;
    exfalso; rewrite Hn in A by left; done.
Qed.

Lemma list_remove_nodup {A} (f : iterator * bytes → A) it (ls : list (iterator * bytes)) :
  NoDup (f <$> ls) → NoDup (f <$> list_remove it ls).
Proof.
  unfold list_remove. induction ls as [|n ls IH]; [done|].
  rewrite fmap_cons, filter_cons. intros [Hn Hd]%NoDup_cons.
  case_decide; [|by apply IH]. rewrite fmap_cons. constructor; [|by apply IH].
  intros Hin. apply Hn. apply list_elem_of_fmap in Hin as (m & -> & Hm).
  apply list_elem_of_filter in Hm as [_ Hm]. by apply list_elem_of_fmap_2.
Qed.

Lemma list_ok_remove n ls m it x :
  list_ok n ls m → m !! x = Some it → list_ok n (list_remove it ls) (delete x m).
Proof.
  intros [H1 H2 Hf Hi] Hx. constructor; try by apply list_remove_nodup.
  - apply Forall_forall. intros nd [_ Hnd]%list_remove_elem. by eapply Forall_forall in Hf.
  - intros k j. rewrite list_remove_elem, lookup_delete. simpl.
    apply Hi in Hx. case_decide as Hk.
    + subst k. split; [done|]. intros [Hj Hin]. destruct Hj.
      by apply (nodup_pair ls j x it x).
    + rewrite Hi. split; [|by intros [_ ?]]. intros Hin. split; [|done].
      intros ->. apply Hk. symmetry. by apply (nodup_pair ls it k it x).
Qed.

Lemma list_ok_push n ls m x :
  list_ok n ls m → m !! x = None → list_ok (S n) (ls ++ [(n, x)]) (<[x := n]> m).
Proof.
  intros Hok Hx. pose proof (proj1 (index_None n ls m x Hok) Hx) as Hnx.
  destruct Hok as [H1 H2 Hf Hi]. rewrite Forall_forall in Hf. constructor.
  - rewrite fmap_app. apply NoDup_app. split_and!; [done| |apply NoDup_singleton].
    intros it Hin Hs. apply list_elem_of_singleton in Hs as ->.
    apply list_elem_of_fmap in Hin as (nd & Hnd & Hin). specialize (Hf _ Hin).
    simpl in *. lia.
  - rewrite fmap_app. apply NoDup_app. split_and!; [done| |apply NoDup_singleton].
    intros k Hin Hs. by apply list_elem_of_singleton in Hs as ->.
  - apply Forall_app. split; [|constructor; [simpl; lia|done]].
    apply Forall_forall. intros nd Hnd. specialize (Hf _ Hnd). lia.
  - intros k it. rewrite elem_of_app, list_elem_of_singleton, lookup_insert.
    case_decide as Hk.
    + subst k. rewrite <- Hi, Hx. naive_solver.
    + rewrite Hi. naive_solver.
Qed.

Lemma list_remove_notin it (ls : list (iterator * bytes)) :
  it ∉ ls.*1 → list_remove it ls = ls.
Proof.
  intros Hn. apply list_filter_all. apply Forall_forall. intros nd Hnd E.
  apply Hn. rewrite <- E. by apply list_elem_of_fmap_2.
Qed.

Lemma list_remove_length ls it x n m :
  list_ok n ls m → m !! x = Some it → S (length (list_remove it ls)) = length ls.
Proof.
  intros [H1 H2 _ Hi] Hx. apply Hi in Hx. clear Hi H2. unfold list_remove.
  induction ls as [|nd ls IH]; [by apply elem_of_nil in Hx|].
  rewrite fmap_cons in H1. apply NoDup_cons in H1 as [Hn H1]. rewrite filter_cons.
  apply elem_of_cons in Hx as [<-|Hx]; simpl in Hn.
  - rewrite decide_False by (simpl; tauto). simpl. f_equal. f_equal.
    by apply list_remove_notin.
  - rewrite decide_True; [simpl; by rewrite IH|].
    intros E. apply Hn. rewrite E. by apply (list_elem_of_fmap_2 fst) in Hx.
Qed.

(** *** The operations *)

Lemma lst_erase_ok l it x :
  list_ok (next_id l) (lst l) (tbl_map (hash l)) → tbl_map (hash l) !! x = Some it →
  lst_erase it l = (Ok tt, set_lst (list_remove it (lst l)) l).
Proof.
  intros Hok Hx. apply (lok_index _ _ _ Hok) in Hx. unfold lst_erase. mrun.
  rewrite decide_True; [done|]. by apply (list_elem_of_fmap_2 fst) in Hx.
Qed.

Lemma move_to_back_ok l it x :
  LRU_ok l → tbl_map (hash l) !! x = Some it →
  ∃ l', move_to_back it x l = (Ok tt, l') ∧ LRU_ok l' ∧
    keys l' = recency_touch x (keys l) ∧ maxsz l' = maxsz l ∧
    tbl_map (hash l') = <[x := next_id l]> (tbl_map (hash l)) ∧
    tbl_room (hash l) <= tbl_room (hash l') ∧ (tbl_clean (hash l) → tbl_clean (hash l')).
Proof.
  intros [Ht Hl Hc] Hx.
  destruct (tbl_set_present (hash l) x (next_id l) it Ht Hx) as (h' & Hr & Ho & Hm & Hroom).
  eexists. split_and!.
  - unfold move_to_back. erewrite M_bind_Ok by (by eapply lst_erase_ok).
    unfold lst_push_back, hash_set. mrun. by rewrite Hr.
  - constructor; simpl; [done| |].
    + rewrite Hm, <- insert_delete_eq. apply list_ok_push; [|by rewrite lookup_delete_eq].
      by apply list_ok_remove.
    + rewrite length_app. simpl.
      pose proof (list_remove_length _ _ _ _ _ Hl Hx). lia.
  - unfold keys, recency_touch. simpl. rewrite fmap_app. simpl. f_equal.
    apply list_remove_keys; [apply Hl..|]. by apply (lok_index _ _ _ Hl).
  - done.
  - done.
  - done.
  - intros Hcl. simpl. apply (tbl_set_clean _ x (next_id l)) in Hcl; [|done]. by rewrite Hr in Hcl.
Qed.

Lemma hash_get_ok l x :
  tbl_ok (hash l) → is_Some (tbl_map (hash l) !! x) ∨ 0 < tbl_room (hash l) →
  hash_get x l = (Ok (tbl_map (hash l) !! x), l).
Proof. intros Ht Hav. unfold hash_get. mrun. by rewrite tbl_get_ok. Qed.

(** The index can be queried for [x]: it is there, or a bucket is free. *)
Definition LRU_avail l x : Prop := x ∈ keys l ∨ 0 < tbl_room (hash l).

Lemma LRU_avail_table l x :
  LRU_ok l → LRU_avail l x → is_Some (tbl_map (hash l) !! x) ∨ 0 < tbl_room (hash l).
Proof. intros [_ Hl _]. unfold LRU_avail, keys. by rewrite (index_elem _ _ _ x Hl). Qed.

Lemma LRU_access_ok l x :
  LRU_ok l → LRU_avail l x →
  ∃ l', LRU_access x l = (Ok tt, l') ∧ LRU_ok l' ∧ keys l' = recency_access x (keys l) ∧
    maxsz l' = maxsz l ∧ tbl_room (hash l) <= tbl_room (hash l') ∧
    (tbl_clean (hash l) → tbl_clean (hash l')).
Proof.
  intros Hok Hav. pose proof Hok as [Ht Hl Hc]. unfold LRU_access, recency_access.
  erewrite M_bind_Ok by (apply hash_get_ok; [done|by apply LRU_avail_table]).
  destruct (tbl_map (hash l) !! x) as [it|] eqn:Hx.
  - destruct (move_to_back_ok l it x Hok Hx) as (l' & ? & ? & ? & ? & _ & ? & ?).
    exists l'. rewrite decide_True; [done|]. apply (index_elem _ _ _ x Hl). by rewrite Hx.
  - exists l. rewrite decide_False; [done|]. by apply (index_None _ _ _ x Hl).
Qed.

Lemma LRU_del_ok l x :
  LRU_ok l → LRU_avail l x →
  ∃ l', LRU_del x l = (Ok tt, l') ∧ LRU_ok l' ∧ keys l' = recency_del x (keys l) ∧
    maxsz l' = maxsz l ∧ tbl_room (hash l') = tbl_room (hash l).
Proof.
  intros Hok Hav. pose proof Hok as [Ht Hl Hc]. unfold LRU_del, recency_del.
  erewrite M_bind_Ok by (apply hash_get_ok; [done|by apply LRU_avail_table]).
  destruct (tbl_map (hash l) !! x) as [it|] eqn:Hx.
  - destruct (tbl_erase_present (hash l) x it Ht Hx) as (h' & Hr & Ho & Hm & Hroom).
    eexists. split_and!.
    + erewrite M_bind_Ok by (by eapply lst_erase_ok). unfold hash_erase. mrun. by rewrite Hr.
    + constructor; simpl; [done| |].
      * rewrite Hm. by apply list_ok_remove.
      * pose proof (list_remove_length _ _ _ _ _ Hl Hx). lia.
    + unfold keys. simpl. apply list_remove_keys; [apply Hl..|]. by apply (lok_index _ _ _ Hl).
    + done.
    + done.
  - exists l. split_and!; try done. unfold keys. symmetry.
    apply (index_None _ _ _ x Hl) in Hx. apply list_filter_all, Forall_forall.
    intros k Hk ->. done.
Qed.

(** The eviction step on a list one longer than its capacity may be. *)
Lemma evict_ok l it k rest :
  tbl_ok (hash l) → list_ok (next_id l) (lst l) (tbl_map (hash l)) →
  lst l = (it, k) :: rest →
  ∃ h', (_ ← lst_erase it; _ ← hash_erase k; mret (Some k)) l =
      (Ok (Some k), mkLRU (maxsz l) rest h' (next_id l)) ∧
    tbl_ok h' ∧ list_ok (next_id l) rest (tbl_map h') ∧ tbl_room h' = tbl_room (hash l).
Proof.
  intros Ht Hl Hlst.
  assert (tbl_map (hash l) !! k = Some it) as Hk.
  { apply (lok_index _ _ _ Hl). rewrite Hlst. left. }
  destruct (tbl_erase_present (hash l) k it Ht Hk) as (h' & Hr & Ho & Hm & Hroom).
  assert (list_remove it (lst l) = rest) as Hrest.
  { pose proof (lok_ids _ _ _ Hl) as Hids. rewrite Hlst in Hids |- *. simpl in Hids.
    apply NoDup_cons in Hids as [Hn _]. unfold list_remove.
    rewrite filter_cons, decide_False by (simpl; tauto). by apply list_remove_notin. }
  exists h'. split_and!; try done.
  - erewrite M_bind_Ok by (by eapply lst_erase_ok). unfold hash_erase. mrun.
    rewrite Hr. unfold set_hash. simpl. by rewrite Hrest.
  - rewrite <- Hrest, Hm. by apply list_ok_remove.
Qed.

Lemma LRU_set_ok l x :
  LRU_ok l → LRU_avail l x →
  ∃ l', LRU_set x l = (Ok (recency_set (maxsz l) x (keys l)).1, l') ∧ LRU_ok l' ∧
    keys l' = (recency_set (maxsz l) x (keys l)).2 ∧ maxsz l' = maxsz l ∧
    tbl_room (hash l) <= tbl_room (hash l') + (if decide (x ∈ keys l) then 0 else 1) ∧
    (tbl_clean (hash l) → x ∈ keys l ∨ length (keys l) < maxsz l → tbl_clean (hash l')).
Proof.
  intros Hok Hav. pose proof Hok as [Ht Hl Hc]. unfold LRU_set, recency_set.
  erewrite M_bind_Ok by (apply hash_get_ok; [done|by apply LRU_avail_table]).
  destruct (tbl_map (hash l) !! x) as [it|] eqn:Hx.
  - destruct (move_to_back_ok l it x Hok Hx) as (l' & Hr & ? & ? & ? & _ & ? & ?).
    exists l'. rewrite !(decide_True (P := x ∈ keys l)) by
      (apply (index_elem _ _ _ x Hl); by rewrite Hx).
    split_and!; [by erewrite M_bind_Ok|done|done|done|lia|auto].
  - pose proof (proj1 (index_None _ _ _ x Hl) Hx) as Hnx.
    rewrite !(decide_False (P := x ∈ keys l)) by done.
    rewrite (recency_touch_new x (keys l) Hnx).
    destruct (tbl_set_ok (hash l) x (next_id l) Ht) as (h1 & Hr & Ho & Hm & Hroom).
    { destruct Hav as [?|?]; [done|by right]. }
    rewrite decide_False in Hroom by (rewrite Hx; intros [? ?]; done).
    set (l1 := mkLRU (maxsz l) (lst l ++ [(next_id l, x)]) h1 (S (next_id l))).
    assert (list_ok (next_id l1) (lst l1) (tbl_map (hash l1))) as Hl1.
    { subst l1. simpl. rewrite Hm. by apply list_ok_push. }
    erewrite M_bind_Ok; [|done]. erewrite (M_bind_Ok _ _ _ tt l1);
      [|unfold hash_set; mrun; by rewrite Hr].
    assert (keys l1 = keys l ++ [x]) as Hk1 by (unfold keys; subst l1; simpl; by rewrite fmap_app).
    rewrite <- Hk1. erewrite M_bind_Ok; [|done].
    unfold keys. rewrite length_fmap. change (maxsz l1) with (maxsz l). case_decide as Hfull.
    + destruct (lst l1) as [|[it k] rest] eqn:Elst; [simpl in Hfull; lia|]. rewrite <- Elst in Hl1.
      destruct (evict_ok l1 it k rest Ho Hl1 Elst) as (h' & Hr' & Ho' & Hl' & Hroom').
      eexists. split_and!; [done| |done|done| |].
      * constructor; [done|done|]. simpl.
        apply (f_equal length) in Elst. subst l1. simpl in Elst. rewrite length_app in Elst.
        simpl in Elst. lia.
      * simpl in *. lia.
      * intros _ [?|Hlt]; [done|]. unfold keys in Hlt. rewrite length_fmap in Hlt.
        apply (f_equal length) in Elst. subst l1. simpl in Elst, Hfull. rewrite length_app in Elst.
        simpl in Elst. lia.
    + exists l1. split_and!; [done| |done|done|simpl; lia|].
      * constructor; [done|done|]. simpl in *. lia.
      * intros Hcl _. simpl. apply (tbl_set_clean _ x (next_id l)) in Hcl; [|done]. by rewrite Hr in Hcl.
Qed.

(** With the key absent and the index full, [get] throws first: nothing changes. *)
Lemma LRU_full l x :
  LRU_ok l → x ∉ keys l → tbl_room (hash l) = 0 →
  LRU_access x l = (Throw tbl_full, l) ∧ LRU_set x l = (Throw tbl_full, l) ∧
  LRU_del x l = (Throw tbl_full, l).
Proof.
  intros [Ht Hl _] Hx Hroom. apply (index_None _ _ _ x Hl) in Hx.
  destruct (tbl_full_throws (hash l) x 0 Ht Hx Hroom) as [Hg _].
  assert (hash_get x l = (Throw tbl_full, l)) as H' by (unfold hash_get; mrun; by rewrite Hg).
  split_and!; unfold LRU_access, LRU_set, LRU_del; by erewrite M_bind_Throw.
Qed.

Lemma list_ok_nil n : list_ok n [] ∅.
Proof.
  constructor; [apply NoDup_nil_2..|by apply Forall_nil|].
  intros k it. rewrite lookup_empty, elem_of_nil. done.
Qed.

Lemma LRU_empty_ok m n : LRU_ok (mkLRU m [] tbl_new n).
Proof.
  destruct tbl_new_ok as (Ho & Hm & _). constructor; simpl; [done| |lia].
  rewrite Hm. apply list_ok_nil.
Qed.

Lemma LRU_init_ok m : LRU_ok (LRU_init m).
Proof. apply LRU_empty_ok. Qed.

Lemma LRU_clear_ok l :
  ∃ l', LRU_clear l = (Ok tt, l') ∧ LRU_ok l' ∧ keys l' = [] ∧ maxsz l' = maxsz l ∧
    hash l' = tbl_new.
Proof. eexists. split_and!; [done|apply LRU_empty_ok|done..]. Qed.
End LRU_proofs.

(** ** Sequences of operations against the recency order *)

Inductive lru_op := LAccess (x : bytes) | LSet (x : bytes) | LDel (x : bytes).

Section LRU_runs.
Context {H : Type} `{!StringTable H iterator, !StringTableLaws H iterator}.
Implicit Types (l : LRU_of H) (x : bytes) (op : lru_op).

(** One call; only [set] returns something: the evicted key. *)
Definition lru_step op : M (LRU_of H) (option bytes) :=
  match op with
  | LAccess x => _ ← LRU_access x; mret None
  | LSet x => LRU_set x
  | LDel x => _ ← LRU_del x; mret None
  end.

Fixpoint lru_run (ops : list lru_op) : M (LRU_of H) (list (option bytes)) :=
  match ops with
  | [] => mret []
  | op :: ops' => o ← lru_step op; os ← lru_run ops'; mret (o :: os)
  end.

Definition recency_step (cap : nat) op (ks : list bytes) : option bytes * list bytes :=
  match op with
  | LAccess x => (None, recency_access x ks)
  | LSet x => recency_set cap x ks
  | LDel x => (None, recency_del x ks)
  end.

Fixpoint recency_run (cap : nat) (ops : list lru_op) (ks : list bytes)
    : list (option bytes) * list bytes :=
  match ops with
  | [] => ([], ks)
  | op :: ops' =>
      let '(o, ks1) := recency_step cap op ks in
      let '(os, ks2) := recency_run cap ops' ks1 in (o :: os, ks2)
  end.

Definition op_cost op : nat := match op with LSet _ => 1 | _ => 0 end.
Definition lru_sets (ops : list lru_op) : nat := foldr (λ op n, op_cost op + n) 0 ops.

Definition lru_key op : bytes := match op with LAccess x | LSet x | LDel x => x end.
Definition is_del op : bool := match op with LDel _ => true | _ => false end.

(** One call on a list whose index can be queried for the key; an index from
    which nothing was erased stays one, unless this call erases. *)
Lemma lru_step_ok op l :
  LRU_ok l → LRU_avail l (lru_key op) →
  ∃ o l', lru_step op l = (Ok o, l') ∧ LRU_ok l' ∧ recency_step (maxsz l) op (keys l) = (o, keys l') ∧
    maxsz l' = maxsz l ∧ tbl_room (hash l) <= tbl_room (hash l') + op_cost op ∧
    (tbl_clean (hash l) → is_del op = false → o = None → tbl_clean (hash l')).
Proof.
  intros Hok Hav. destruct op as [x|x|x]; simpl in *.
  - destruct (LRU_access_ok l x Hok Hav) as (l' & Hr & ? & Hk & ? & ? & ?).
    exists None, l'. split_and!; [by erewrite M_bind_Ok|done|by rewrite Hk|done|lia|auto].
  - destruct (LRU_set_ok l x Hok Hav) as (l' & Hr & ? & Hk & ? & Hroom' & Hcl).
    exists (recency_set (maxsz l) x (keys l)).1, l'. split_and!; [done|done| |done|case_decide; lia|].
    + rewrite Hk. by destruct (recency_set _ _ _).
    + intros Hc _ Ho. apply (Hcl Hc). unfold recency_set in Ho. case_decide as Hx; [by left|right].
      rewrite (recency_touch_new x (keys l) Hx) in Ho. case_decide as Hlt; rewrite length_app in Hlt; simpl in Hlt; [|lia].
      by destruct (keys l).
  - destruct (LRU_del_ok l x Hok Hav) as (l' & Hr & ? & Hk & ? & ?).
    exists None, l'. split_and!; [by erewrite M_bind_Ok|done|by rewrite Hk|done|lia|done].
Qed.

Lemma lru_step_full op l :
  LRU_ok l → lru_key op ∉ keys l → tbl_room (hash l) = 0 → lru_step op l = (Throw tbl_full, l).
Proof.
  intros Hok Hx Hroom. destruct (LRU_full l (lru_key op) Hok Hx Hroom) as (Ha & Hs & Hd).
  destruct op; simpl in *; [by erewrite M_bind_Throw|done|by erewrite M_bind_Throw].
Qed.

Lemma LRU_avail_dec l x : LRU_avail l x ∨ x ∉ keys l ∧ tbl_room (hash l) = 0.
Proof. unfold LRU_avail. destruct (decide (x ∈ keys l)); [by left; left|]. destruct (tbl_room (hash l)); [auto|left; right; lia]. Qed.

(** ** Properties *)

(** C14: over any index that keeps its promises, any sequence of accesses, sets
    and deletions behaves as the recency order does: [set] hands back exactly the
    coldest key when the capacity is exceeded, the order of the keys is the order
    of their last use, the capacity is never exceeded, and no iterator ever
    dangles - to its end, or up to a call for an absent key while the index has no
    free bucket: there the index's exception escapes and nothing is changed.
    That cannot happen while there are fewer sets than the index has room for, nor
    from a new list before a key was deleted or evicted, whatever the capacity. *)
Theorem lru_run_refines_recency (ops : list lru_op) (l : LRU_of H) :
  LRU_ok l →
  ∃ prefix rest os l', ops = prefix ++ rest ∧
    lru_run prefix l = (Ok os, l') ∧ recency_run (maxsz l) prefix (keys l) = (os, keys l') ∧
    LRU_ok l' ∧ length (keys l') <= maxsz l ∧
    (rest = [] ∨ ∃ op ops', rest = op :: ops' ∧ lru_key op ∉ keys l' ∧ tbl_room (hash l') = 0 ∧
       lru_run ops l = (Throw tbl_full, l')) ∧
    (lru_sets ops < tbl_room (hash l) → rest = []) ∧
    (tbl_clean (hash l) → rest ≠ [] → Exists is_del prefix ∨ Exists is_Some os).
Proof.
  revert l. induction ops as [|op ops IH]; intros l Hok; simpl.
  { exists [], [], [], l. split_and!; try done; [|by left]. unfold keys. rewrite length_fmap. apply Hok. }
  destruct (LRU_avail_dec l (lru_key op)) as [Hav|[Hx Hroom]].
  2:{ exists [], (op :: ops), [], l. split_and!; try done; [unfold keys; rewrite length_fmap; apply Hok| | |].
    - right. exists op, ops. split_and!; [done..|]. by erewrite M_bind_Throw by (by apply lru_step_full).
    - lia.
    - intros Hc. pose proof (tbl_clean_room _ (lok_table _ Hok) Hc). lia. }
  destruct (lru_step_ok op l Hok Hav) as (o & l1 & H1 & Hok1 & Hk1 & Hm1 & Hr1 & Hc1).
  destruct (IH l1 Hok1) as (pre & rest & os & l2 & -> & H2 & Hk2 & Hok2 & Hlen & Hstop & Hsets & Hclean).
  exists (op :: pre), rest, (o :: os), l2. rewrite Hm1 in *. split_and!; try done.
  - cbn [lru_run]. erewrite M_bind_Ok by done. by erewrite M_bind_Ok.
  - cbn [recency_run]. by rewrite Hk1, Hk2.
  - destruct Hstop as [?|(op' & ops' & ? & ? & ? & Hr)]; [by left|right]. exists op', ops'. split_and!; [done..|].
    erewrite M_bind_Ok by done. by erewrite M_bind_Throw.
  - intros Hs. apply Hsets. lia.
  - intros Hc Hne. rewrite !Exists_cons. destruct (is_del op) eqn:Hd; [by left; left|]. destruct o as [k|]; [right; left; by eexists|].
    destruct (Hclean (Hc1 Hc eq_refl eq_refl) Hne); auto.
Qed.

(** Filling a list: nothing is evicted up to its capacity. *)
Lemma lru_fill xs l :
  LRU_ok l → tbl_clean (hash l) → NoDup (keys l ++ xs) → length (keys l ++ xs) <= maxsz l →
  ∃ l', lru_run (map LSet xs) l = (Ok (replicate (length xs) None), l') ∧ LRU_ok l' ∧ tbl_clean (hash l') ∧
    keys l' = keys l ++ xs ∧ maxsz l' = maxsz l.
Proof.
  revert l. induction xs as [|x xs IH]; intros l Hok Hc Hnd Hlen; simpl.
  { exists l. by rewrite app_nil_r. }
  pose proof (tbl_clean_room _ (lok_table _ Hok) Hc) as Hroom. rewrite length_app in Hlen. simpl in Hlen.
  assert (x ∉ keys l) as Hx by (apply NoDup_app in Hnd as (_ & Hd & _); intros Hin; apply (Hd x Hin); left).
  destruct (lru_step_ok (LSet x) l Hok) as (o & l1 & H1 & Hok1 & Hk1 & Hm1 & _ & Hc1); [by right|].
  cbn [recency_step] in Hk1. unfold recency_set in Hk1. rewrite decide_False, recency_touch_new, decide_False in Hk1 by
    (done || rewrite length_app; simpl; lia). injection Hk1 as <- Hk1.
  destruct (IH l1 Hok1) as (l2 & H2 & ? & ? & Hk2 & Hm2); [by apply Hc1| | |].
  { by rewrite <- Hk1, <- (assoc_L app). }
  { rewrite <- Hk1, Hm1, !length_app. simpl. lia. }
  exists l2. split_and!; [|done..|by rewrite Hk2, <- Hk1, <- (assoc_L app)|congruence].
  cbn [lru_step] in H1. erewrite M_bind_Ok by done. by erewrite M_bind_Ok.
Qed.

(** At its capacity a new list evicts, for any capacity: one more key than it
    holds drives out the first one. *)
Theorem lru_evicts_at_capacity (x y : bytes) (xs : list bytes) :
  NoDup (x :: xs ++ [y]) →
  ∃ l', lru_run (map LSet (x :: xs)) (LRU_init (S (length xs))) = (Ok (replicate (S (length xs)) None), l') ∧
    ∃ l'', lru_step (LSet y) l' = (Ok (Some x), l'') ∧ keys l'' = xs ++ [y] ∧ LRU_ok l''.
Proof.
  intros Hnd. destruct (lru_fill (x :: xs) (LRU_init (S (length xs)))) as (l' & Hr & Hok & Hc & Hk & Hm).
  { apply LRU_init_ok. }
  { apply tbl_new_clean. }
  { change (NoDup (x :: xs)). change (x :: xs ++ [y]) with ((x :: xs) ++ [y]) in Hnd. by apply NoDup_app in Hnd as (? & _). }
  { done. }
  exists l'. split; [done|]. change (keys l' = x :: xs) in Hk. change (maxsz l' = S (length xs)) in Hm.
  destruct (lru_step_ok (LSet y) l' Hok) as (o & l2 & H1 & Hok1 & Hk1 & _).
  { right. by apply tbl_clean_room; [apply lok_table|]. }
  assert (y ∉ keys l') as Hy.
  { rewrite Hk. change (x :: xs ++ [y]) with ((x :: xs) ++ [y]) in Hnd. apply NoDup_app in Hnd as (_ & Hd & _).
    intros Hin. apply (Hd y Hin). left. }
  cbn [recency_step] in Hk1. unfold recency_set in Hk1. rewrite decide_False, recency_touch_new, decide_True in Hk1 by
    (done || rewrite Hk, Hm; simpl; rewrite length_app; simpl; lia).
  rewrite Hk in Hk1. injection Hk1 as <- Hk1. exists l2. by rewrite <- Hk1.
Qed.
End LRU_runs.

(** A list of capacity two: touching the coldest key saves it. *)
Lemma lru_run_refines_recency_witness :
  ∃ l' : LRU, lru_run [LSet (str "a"); LSet (str "b"); LAccess (str "a"); LSet (str "c")]
      (LRU_init 2) = (Ok [None; None; None; Some (str "b")], l') ∧ LRU_ok l' ∧
    keys l' = [str "a"; str "c"] ∧ length (keys l') <= 2.
Proof.
  destruct (lru_run_refines_recency
    [LSet (str "a"); LSet (str "b"); LAccess (str "a"); LSet (str "c")] (LRU_init (H := HashTable iterator) 2) (LRU_init_ok 2))
    as (pre & rest & os & l' & Hops & Hr & Hk & Hok & Hlen & _ & Hsets & _).
  assert (rest = []) as -> by (apply Hsets; vm_compute; lia).
  rewrite app_nil_r in Hops. subst pre. vm_compute in Hk. injection Hk as <- Hk.
  exists l'. split; [exact Hr|]. split; [exact Hok|]. split; [symmetry; exact Hk|exact Hlen].
Defined.
