(* ===== verification/KVStore.v ===== *)
(** * The sharded store (kvstore/KVStore.h, kvstore/KVStore.cpp)

    A key belongs to the shard [gethash(key) % shardCount]; a shard is a hash
    table and a recency list.  Every method runs under its shard's lock, so it
    is one atomic step on the store.  A returned [T*] is the pointed-to value.
    Snapshots are in [Snapshot]. *)
From Stdlib Require Import ZArith Lia.
From stdpp Require Import base numbers list strings gmap.
From S2P Require Import Prelude StringTable RespValue HashTable LRU.

(** config/Config.h *)
Definition SHARD_COUNT : nat := 16.
Definition LRU_MAX_SIZE : N := 100000.

Record Shard (T : Type) := mkShard { data : HashTable T; lru : LRU }.
Arguments mkShard {T} _ _.
Arguments data {T} _.
Arguments lru {T} _.

Record KVStore (T : Type) := mkKVStore { shardCount : nat; shards : list (Shard T) }.
Arguments mkKVStore {T} _ _.
Arguments shardCount {T} _.
Arguments shards {T} _.

Section KVStore.
Context {T : Type} `{!Inhabited T}.
Implicit Types (key : bytes) (s : KVStore T) (sh : Shard T).

Definition Shard_init : Shard T := mkShard HashTable_init (LRU_init (N.to_nat LRU_MAX_SIZE)).

Definition KVStore_init (n : nat) : KVStore T := mkKVStore n (replicate n Shard_init).

(** [getShard(key)]: an index, [% 0] being undefined, and the shard there. *)
Definition KVStore_getShard key s : res (nat * Shard T) :=
  if shardCount s =? 0 then UB
  else
    let idx := home (shardCount s) key in
    match shards s !! idx with
    | None => UB
    | Some sh => Ok (idx, sh)
    end.

(** The rest of a method, on the shard that [getShard] returned. *)
Definition on_shard {A} key (body : M (Shard T) A) : M (KVStore T) A :=
  s ← mget;
  r ← mlift (KVStore_getShard key s);
  let '(idx, sh) := r in
  let '(out, sh') := body sh in
  _ ← mput (mkKVStore (shardCount s) (<[idx := sh']> (shards s)));
  mlift out.

Definition set_data (d : HashTable T) sh : Shard T := mkShard d (lru sh).
Definition set_lru (l : LRU) sh : Shard T := mkShard (data sh) l.

Definition data_get key : M (Shard T) (option T) :=
  sh ← mget; mlift (HashTable_get key (data sh)).

Definition shard_set key (value : T) : M (Shard T) (option bytes) :=
  _ ← mzoom data set_data (HashTable_set key value);
  mzoom lru set_lru (LRU_set key).
Definition KVStore_set key (value : T) : M (KVStore T) (option bytes) :=
  on_shard key (shard_set key value).

Definition shard_get key : M (Shard T) (option T) :=
  result ← data_get key;
  match result with
  | None => mret None
  | Some v => _ ← mzoom lru set_lru (LRU_access key); mret (Some v)
  end.
Definition KVStore_get key : M (KVStore T) (option T) := on_shard key (shard_get key).

Definition shard_del key : M (Shard T) bool :=
  result ← mzoom data set_data (HashTable_erase key);
  if result : bool then _ ← mzoom lru set_lru (LRU_del key); mret true else mret false.
Definition KVStore_del key : M (KVStore T) bool := on_shard key (shard_del key).

Definition KVStore_checkexist key : M (KVStore T) bool :=
  on_shard key (sh ← mget; mlift (HashTable_checkexist key (data sh))).

(** The arguments [forEach] calls back with, in order. *)
Definition KVStore_forEach s : list (bytes * T) :=
  flat_map (λ sh, HashTable_forEach (data sh)) (shards s).
End KVStore.

(** [KVStore<resp::RespValue>::getValue]: the encoded value, [""] if absent. *)
Definition KVStore_getValue (key : bytes) : M (KVStore RespValue) bytes :=
  result ← KVStore_get key;
  mret (match result with None => [] | Some v => encode v end).

(** ** The store as one finite map *)

Section KVStore_proofs.
Context {T : Type} `{!Inhabited T}.
Implicit Types (key k : bytes) (s : KVStore T) (sh : Shard T).

Definition shard_map sh : gmap bytes T := to_map (buckets (data sh)).

(** Keys sit in their own shard; the recency list names stored keys only. *)
Record shard_ok (n i : nat) sh : Prop := {
  sok_data : HashTable_ok (data sh);
  sok_lru : LRU_ok (lru sh);
  sok_placed : ∀ k, is_Some (shard_map sh !! k) → home n k = i;
  sok_tracked : ∀ k, k ∈ keys (lru sh) → is_Some (shard_map sh !! k)
}.

Record KVStore_ok s : Prop := {
  kok_pos : 0 < shardCount s;
  kok_len : length (shards s) = shardCount s;
  kok_shards : ∀ i sh, shards s !! i = Some sh → shard_ok (shardCount s) i sh
}.

Definition kv_map s : gmap bytes T := foldr (λ sh m, shard_map sh ∪ m) ∅ (shards s).

Lemma union_shards_lookup (l : list (Shard T)) k v :
  foldr (λ sh m, shard_map sh ∪ m) ∅ l !! k = Some v →
  ∃ i sh, l !! i = Some sh ∧ shard_map sh !! k = Some v.
Proof.
  induction l as [|sh l IH]; simpl; [by rewrite lookup_empty|].
  rewrite lookup_union_Some_raw. intros [Hk|[_ Hk]]; [by exists 0, sh|].
  destruct (IH Hk) as (i & sh' & ? & ?). by exists (S i), sh'.
Qed.

Lemma union_shards_None (l : list (Shard T)) k i sh :
  foldr (λ sh m, shard_map sh ∪ m) ∅ l !! k = None → l !! i = Some sh → shard_map sh !! k = None.
Proof.
  revert i. induction l as [|sh0 l IH]; intros i E Hi; [done|].
  simpl in E. apply lookup_union_None in E as [E0 E].
  destruct i as [|i]; simpl in Hi; [by simplify_eq|]. by eapply IH.
Qed.

Lemma kv_shard s key :
  KVStore_ok s → ∃ sh, shards s !! home (shardCount s) key = Some sh ∧
    shard_ok (shardCount s) (home (shardCount s) key) sh.
Proof.
  intros [Hp Hl Hs]. destruct (lookup_lt_is_Some_2 (shards s) (home (shardCount s) key)) as [sh Hsh].
  { rewrite Hl. by apply home_lt. }
  exists sh. split; [done|]. by apply Hs.
Qed.

Lemma kv_map_lookup s key sh :
  KVStore_ok s → shards s !! home (shardCount s) key = Some sh →
  kv_map s !! key = shard_map sh !! key.
Proof.
  intros Hok Hsh. pose proof Hok as [Hp Hl Hs].
  destruct (kv_map s !! key) as [v|] eqn:E.
  - apply union_shards_lookup in E as (i & sh' & Hi & Hk).
    assert (home (shardCount s) key = i) as <-.
    { apply (sok_placed _ _ _ (Hs i sh' Hi)). by rewrite Hk. }
    by simplify_eq.
  - symmetry. by eapply union_shards_None.
Qed.

(** Running a shard method on its key's shard, when it keeps the shard well
    formed and leaves the other keys alone. *)
Lemma on_shard_ok {A} s key sh sh' (body : M (Shard T) A) (out : res A) :
  KVStore_ok s → shards s !! home (shardCount s) key = Some sh →
  body sh = (out, sh') → shard_ok (shardCount s) (home (shardCount s) key) sh' →
  (∀ k, k ≠ key → shard_map sh' !! k = shard_map sh !! k) →
  ∃ s', on_shard key body s = (out, s') ∧ KVStore_ok s' ∧ shardCount s' = shardCount s ∧
    shards s' = <[home (shardCount s) key := sh']> (shards s) ∧
    ∀ k, kv_map s' !! k = if decide (k = key) then shard_map sh' !! key else kv_map s !! k.
Proof.
  intros Hok Hsh Hrun Hok' Hother. pose proof Hok as [Hp Hl Hs].
  set (i := home (shardCount s) key) in *.
  set (s' := mkKVStore (shardCount s) (<[i := sh']> (shards s))).
  assert (i < length (shards s)) as Hi by (rewrite Hl; by apply home_lt).
  assert (KVStore_ok s') as Hs'.
  { constructor; simpl; [done|by rewrite length_insert|]. intros j shj Hj.
    apply list_lookup_insert_Some in Hj as [(<- & -> & _)|[_ Hj]]; auto. }
  exists s'. split_and!; try done.
  - unfold on_shard, KVStore_getShard. mrun. destruct (Nat.eqb_spec (shardCount s) 0); [lia|].
    fold i. rewrite Hsh. rewrite Hrun. by destruct out.
  - intros k. case_decide as Hk.
    + subst k. apply kv_map_lookup; [done|]. simpl. by apply list_lookup_insert_eq.
    + destruct (kv_shard s k Hok) as (shk & Hshk & _).
      rewrite (kv_map_lookup s k shk) by done.
      destruct (decide (home (shardCount s) k = i)) as [E|E].
      * rewrite E in Hshk. simplify_eq. rewrite <- Hother by done.
        apply kv_map_lookup; [done|]. simpl. rewrite E. by apply list_lookup_insert_eq.
      * apply kv_map_lookup; [done|]. simpl. by rewrite list_lookup_insert_ne.
Qed.

(** *** The shard methods *)

Definition data_avail sh key : Prop := is_Some (shard_map sh !! key) ∨ has_empty (buckets (data sh)).

Lemma recency_touch_elem x k ks : k ∈ recency_touch x ks → k = x ∨ k ∈ ks.
Proof.
  unfold recency_touch. rewrite elem_of_app, list_elem_of_singleton, list_elem_of_filter. tauto.
Qed.

Lemma recency_set_elem cap x k ks : k ∈ (recency_set cap x ks).2 → k = x ∨ k ∈ ks.
Proof.
  unfold recency_set. intros Hk. apply recency_touch_elem. revert Hk.
  repeat case_decide; simpl; [done| |done]. destruct (recency_touch x ks); [done|by right].
Qed.

Lemma shard_ok_set_lru n i sh l' :
  shard_ok n i sh → LRU_ok l' → (∀ k, k ∈ keys l' → k ∈ keys (lru sh)) →
  shard_ok n i (set_lru l' sh).
Proof. intros [? ? ? Ht] Hl Hsub. constructor; simpl; auto. Qed.

Lemma data_set_ok n i sh key v :
  shard_ok n i sh → home n key = i → data_avail sh key →
  ∃ d', HashTable_set key v (data sh) = (Ok tt, d') ∧ shard_ok n i (set_data d' sh) ∧
    shard_map (set_data d' sh) = <[key := v]> (shard_map sh).
Proof.
  intros [Hd Hl Hp Ht] Hh Hav.
  destruct (HashTable_set_ok (data sh) key v Hd Hav) as (d' & Hr & Hok & Hm & _).
  exists d'. split_and!; [done| |done]. unfold shard_map in *. constructor; simpl; [done..| |].
  - intros k. unfold shard_map. simpl. rewrite Hm, lookup_insert_is_Some. intros [->|[_ Hk]]; auto.
  - intros k Hk. unfold shard_map. simpl. rewrite Hm, lookup_insert_is_Some'. auto.
Qed.

Lemma shard_set_ok n i sh key v :
  shard_ok n i sh → home n key = i → data_avail sh key → LRU_avail (lru sh) key →
  let r := recency_set (maxsz (lru sh)) key (keys (lru sh)) in
  ∃ sh', shard_set key v sh = (Ok r.1, sh') ∧ shard_ok n i sh' ∧
    shard_map sh' = <[key := v]> (shard_map sh) ∧ keys (lru sh') = r.2 ∧
    maxsz (lru sh') = maxsz (lru sh) ∧ (tbl_clean (data sh) → tbl_clean (data sh')) ∧
    (tbl_clean (hash (lru sh)) → key ∈ keys (lru sh) ∨ length (keys (lru sh)) < maxsz (lru sh) →
     tbl_clean (hash (lru sh'))).
Proof.
  intros Hok Hh Hav Hla r. destruct (data_set_ok n i sh key v Hok Hh Hav) as (d' & Hr & Hok1 & Hm).
  destruct (LRU_set_ok (lru sh) key (sok_lru _ _ _ Hok) Hla) as (l' & Hr' & Hl' & Hk' & Hmax & _ & Hcl).
  assert (tbl_clean (data sh) → tbl_clean d') as Hcd.
  { intros Hc. apply (tbl_set_clean _ key v) in Hc; [|apply Hok]. simpl in Hc. by rewrite Hr in Hc. }
  exists (mkShard d' l'). split_and!; [|constructor|done|done|done|done|done]; simpl.
  - unfold shard_set. mrun. rewrite Hr. simpl. by rewrite Hr'.
  - apply Hok1.
  - done.
  - intros k Hk. by apply (sok_placed _ _ _ Hok1).
  - intros k Hk. rewrite Hk' in Hk.
    change (shard_map (mkShard d' l')) with (shard_map (set_data d' sh)).
    rewrite Hm, lookup_insert_is_Some'.
    apply recency_set_elem in Hk as [->|Hk]; [by left|right]. by apply (sok_tracked _ _ _ Hok).
Qed.

Lemma shard_get_ok n i sh key :
  shard_ok n i sh → data_avail sh key → LRU_avail (lru sh) key →
  ∃ sh', shard_get key sh = (Ok (shard_map sh !! key), sh') ∧ shard_ok n i sh' ∧
    shard_map sh' = shard_map sh.
Proof.
  intros Hok Hav Hla. pose proof Hok as [Hd Hl Hp Ht].
  assert (data_get key sh = (Ok (shard_map sh !! key), sh)) as Hg.
  { unfold data_get. mrun. by rewrite HashTable_get_ok. }
  unfold shard_get. rewrite (M_bind_Ok _ _ _ _ _ Hg).
  destruct (shard_map sh !! key) as [v|] eqn:E; [|by exists sh].
  destruct (LRU_access_ok (lru sh) key Hl Hla) as (l' & Hr & Hl' & Hk & _).
  exists (set_lru l' sh). split_and!; [mrun; by rewrite Hr| |done].
  apply shard_ok_set_lru; [done..|]. rewrite Hk. unfold recency_access.
  intros k. case_decide; [|done]. by intros [->|?]%recency_touch_elem.
Qed.

Lemma shard_ok_erase n i sh d' l' key :
  shard_ok n i sh → HashTable_ok d' → LRU_ok l' →
  to_map (buckets d') = delete key (shard_map sh) →
  (∀ k, k ∈ keys l' → k ≠ key ∧ k ∈ keys (lru sh)) →
  shard_ok n i (mkShard d' l').
Proof.
  intros [Hd Hl Hp Ht] Hd' Hl' Hm Hsub. constructor; simpl; [done..| |];
    unfold shard_map; simpl; rewrite Hm.
  - intros k [_ Hk]%lookup_delete_is_Some. auto.
  - intros k [Hne Hk]%Hsub. rewrite lookup_delete_ne by done. auto.
Qed.

Lemma shard_del_ok n i sh key :
  shard_ok n i sh → data_avail sh key → LRU_avail (lru sh) key →
  ∃ sh', shard_del key sh = (Ok (bool_decide (is_Some (shard_map sh !! key))), sh') ∧
    shard_ok n i sh' ∧ shard_map sh' = delete key (shard_map sh).
Proof.
  intros Hok Hav Hla. pose proof Hok as [Hd Hl Hp Ht].
  destruct (HashTable_erase_ok (data sh) key Hd Hav) as (d' & Hr & Hd' & Hm & _).
  fold (shard_map sh) in Hr, Hm. case_bool_decide as Hb.
  - destruct (LRU_del_ok (lru sh) key Hl Hla) as (l' & Hr' & Hl' & Hk & _).
    exists (mkShard d' l'). split_and!; [unfold shard_del; mrun; rewrite Hr; simpl; by rewrite Hr'| |done].
    apply (shard_ok_erase n i sh d' l' key); [done..|]. rewrite Hk. unfold recency_del.
    intros k. rewrite list_elem_of_filter. done.
  - exists (set_data d' sh). split_and!; [unfold shard_del; mrun; by rewrite Hr| |done].
    apply (shard_ok_erase n i sh d' (lru sh) key); [done..|].
    intros k Hk. split; [|done]. intros ->. by apply Hb, Ht.
Qed.

(** *** The store's methods *)

(** The shard of [key] can serve it. *)
Definition kv_avail s key : Prop :=
  ∀ sh, shards s !! home (shardCount s) key = Some sh →
    data_avail sh key ∧ LRU_avail (lru sh) key.

(** A new store, with a recency capacity of choice. *)
Definition store_of (n cap : nat) : KVStore T :=
  mkKVStore n (replicate n (mkShard HashTable_init (LRU_init cap))).

Lemma store_of_ok n cap : 0 < n → KVStore_ok (store_of n cap).
Proof.
  intros Hn. constructor; simpl; [done|by rewrite length_replicate|].
  intros i sh [-> _]%lookup_replicate. constructor; simpl.
  - apply HashTable_init_ok.
  - apply LRU_init_ok.
  - intros k [v Hv]. by apply (lookup_empty_Some (M := gmap bytes) k v) in Hv.
  - intros k Hk. by apply elem_of_nil in Hk.
Qed.

Lemma KVStore_init_ok n : 0 < n → KVStore_ok (@KVStore_init T _ n).
Proof. apply (store_of_ok n (N.to_nat LRU_MAX_SIZE)). Qed.

Lemma store_of_avail n cap key : kv_avail (store_of n cap) key.
Proof.
  intros sh [-> _]%lookup_replicate. split.
  - right. apply has_empty_empties. vm_compute. lia.
  - right. vm_compute. lia.
Qed.

(** A set that finds room: the stored map, the eviction and the shard after it. *)
Lemma KVStore_set_ok s key v :
  KVStore_ok s → kv_avail s key →
  ∃ s' sh, shards s !! home (shardCount s) key = Some sh ∧
    KVStore_set key v s = (Ok (recency_set (maxsz (lru sh)) key (keys (lru sh))).1, s') ∧
    KVStore_ok s' ∧ kv_map s' = <[key := v]> (kv_map s).
Proof.
  intros Hok Hav. destruct (kv_shard s key Hok) as (sh & Hsh & Hshok).
  destruct (Hav sh Hsh) as [Hd Hl].
  destruct (shard_set_ok _ _ sh key v Hshok eq_refl Hd Hl) as (sh' & Hr & Hok' & Hm & _).
  destruct (on_shard_ok s key sh sh' _ _ Hok Hsh Hr Hok') as (s' & Hrun & Hs' & _ & _ & Hmap).
  { intros k Hk. by rewrite Hm, lookup_insert_ne. }
  exists s', sh. split_and!; try done. apply map_eq. intros k. rewrite Hmap, lookup_insert.
  repeat case_decide; subst; try done. by rewrite Hm, lookup_insert_eq.
Qed.

Lemma KVStore_get_ok s key :
  KVStore_ok s → kv_avail s key →
  ∃ s', KVStore_get key s = (Ok (kv_map s !! key), s') ∧ KVStore_ok s' ∧ kv_map s' = kv_map s.
Proof.
  intros Hok Hav. destruct (kv_shard s key Hok) as (sh & Hsh & Hshok).
  destruct (Hav sh Hsh) as [Hd Hl].
  destruct (shard_get_ok _ _ sh key Hshok Hd Hl) as (sh' & Hr & Hok' & Hm).
  rewrite <- (kv_map_lookup s key sh) in Hr by done.
  destruct (on_shard_ok s key sh sh' _ _ Hok Hsh Hr Hok') as (s' & Hrun & Hs' & _ & _ & Hmap).
  { intros k Hk. by rewrite Hm. }
  exists s'. split_and!; try done. apply map_eq. intros k. rewrite Hmap.
  case_decide; subst; [|done]. rewrite Hm. symmetry. by apply kv_map_lookup.
Qed.

Lemma KVStore_del_ok s key :
  KVStore_ok s → kv_avail s key →
  ∃ s', KVStore_del key s = (Ok (bool_decide (is_Some (kv_map s !! key))), s') ∧ KVStore_ok s' ∧
    kv_map s' = delete key (kv_map s).
Proof.
  intros Hok Hav. destruct (kv_shard s key Hok) as (sh & Hsh & Hshok).
  destruct (Hav sh Hsh) as [Hd Hl].
  destruct (shard_del_ok _ _ sh key Hshok Hd Hl) as (sh' & Hr & Hok' & Hm).
  rewrite <- (kv_map_lookup s key sh) in Hr by done.
  destruct (on_shard_ok s key sh sh' _ _ Hok Hsh Hr Hok') as (s' & Hrun & Hs' & _ & _ & Hmap).
  { intros k Hk. by rewrite Hm, lookup_delete_ne. }
  exists s'. split_and!; try done. apply map_eq. intros k. rewrite Hmap, lookup_delete.
  repeat case_decide; subst; try done. by rewrite Hm, lookup_delete_eq.
Qed.

Lemma KVStore_checkexist_ok s key :
  KVStore_ok s → kv_avail s key →
  ∃ s', KVStore_checkexist key s = (Ok (bool_decide (is_Some (kv_map s !! key))), s') ∧
    KVStore_ok s' ∧ kv_map s' = kv_map s.
Proof.
  intros Hok Hav. destruct (kv_shard s key Hok) as (sh & Hsh & Hshok).
  destruct (Hav sh Hsh) as [Hd _].
  destruct (on_shard_ok s key sh sh (sh ← mget; mlift (HashTable_checkexist key (data sh)))
    (Ok (bool_decide (is_Some (kv_map s !! key)))) Hok Hsh) as (s' & Hrun & Hs' & _ & _ & Hmap);
    [|done|done|].
  { mrun. rewrite HashTable_checkexist_ok by (apply Hshok || apply Hd).
    by rewrite (kv_map_lookup s key sh). }
  exists s'. split_and!; try done. apply map_eq. intros k. rewrite Hmap.
  case_decide; subst; [|done]. symmetry. by apply kv_map_lookup.
Qed.

(** *** Every outcome

    On any well-formed store a method works as on a map, or throws because a
    table has no empty bucket left; the store stays well formed, and what it
    holds is what it held or what the map would hold. *)

Definition tried {A} (r : res A) (a : A) (m m' m'' : gmap bytes T) : Prop :=
  r = Ok a ∧ m'' = m' ∨ r = Throw tbl_full ∧ (m'' = m ∨ m'' = m').

Lemma data_avail_dec sh key : data_avail sh key ∨ shard_map sh !! key = None ∧ ¬ has_empty (buckets (data sh)).
Proof.
  unfold data_avail. destruct (shard_map sh !! key) as [v|] eqn:E; [left; left; done|].
  destruct (decide (has_empty (buckets (data sh)))); auto.
Qed.

Lemma shard_set_any n i sh key v :
  shard_ok n i sh → home n key = i →
  ∃ r sh', shard_set key v sh = (r, sh') ∧ shard_ok n i sh' ∧
    tried r (recency_set (maxsz (lru sh)) key (keys (lru sh))).1 (shard_map sh)
      (<[key := v]> (shard_map sh)) (shard_map sh').
Proof.
  intros Hok Hh. destruct (data_avail_dec sh key) as [Hav|[Hn He]].
  2:{ destruct (HashTable_full (data sh) key v) as (_ & Hs & _); [apply Hok|done|done|].
      exists (Throw tbl_full), sh. split_and!; [|done|right; auto]. unfold shard_set. mrun. rewrite Hs.
      by destruct sh. }
  destruct (LRU_avail_dec (lru sh) key) as [Hla|[Hk Hroom]].
  - destruct (shard_set_ok n i sh key v Hok Hh Hav Hla) as (sh' & Hr & Hok' & Hm & _). eexists _, sh'.
    split_and!; [exact Hr|done|by left].
  - destruct (data_set_ok n i sh key v Hok Hh Hav) as (d' & Hr & Hok' & Hm).
    destruct (LRU_full (lru sh) key (sok_lru _ _ _ Hok) Hk Hroom) as (_ & Hs & _).
    exists (Throw tbl_full), (set_data d' sh). split_and!; [|done|right; by auto].
    unfold shard_set. mrun. rewrite Hr. simpl. by rewrite Hs.
Qed.

Lemma shard_get_any n i sh key :
  shard_ok n i sh →
  ∃ r sh', shard_get key sh = (r, sh') ∧ shard_ok n i sh' ∧
    tried r (shard_map sh !! key) (shard_map sh) (shard_map sh) (shard_map sh').
Proof.
  intros Hok. destruct (data_avail_dec sh key) as [Hav|[Hn He]].
  2:{ destruct (HashTable_full (data sh) key inhabitant) as (Hg & _); [apply Hok|done|done|].
      exists (Throw tbl_full), sh. split_and!; [|done|right; auto]. unfold shard_get, data_get. mrun. by rewrite Hg. }
  destruct (LRU_avail_dec (lru sh) key) as [Hla|[Hk Hroom]].
  - destruct (shard_get_ok n i sh key Hok Hav Hla) as (sh' & Hr & Hok' & Hm). eexists _, sh'.
    split_and!; [exact Hr|done|by left].
  - destruct (LRU_full (lru sh) key (sok_lru _ _ _ Hok) Hk Hroom) as (Hs & _).
    assert (HashTable_get key (data sh) = Ok (shard_map sh !! key)) as Hg
      by (apply HashTable_get_ok; [apply Hok|done]).
    destruct (shard_map sh !! key) as [v|] eqn:E.
    + exists (Throw tbl_full), sh. split_and!; [|done|right; auto]. unfold shard_get, data_get. mrun.
      rewrite Hg. simpl. rewrite Hs. by destruct sh.
    + exists (Ok None), sh. split_and!; [|done|by left]. unfold shard_get, data_get. mrun. by rewrite Hg.
Qed.

Lemma shard_del_any n i sh key :
  shard_ok n i sh →
  ∃ r sh', shard_del key sh = (r, sh') ∧ shard_ok n i sh' ∧
    tried r (bool_decide (is_Some (shard_map sh !! key))) (shard_map sh) (delete key (shard_map sh)) (shard_map sh').
Proof.
  intros Hok. destruct (data_avail_dec sh key) as [Hav|[Hn He]].
  2:{ destruct (HashTable_full (data sh) key inhabitant) as (_ & _ & Hg); [apply Hok|done|done|].
      exists (Throw tbl_full), sh. split_and!; [|done|right; auto]. unfold shard_del. mrun. rewrite Hg. by destruct sh. }
  destruct (LRU_avail_dec (lru sh) key) as [Hla|[Hk Hroom]].
  - destruct (shard_del_ok n i sh key Hok Hav Hla) as (sh' & Hr & Hok' & Hm). eexists _, sh'.
    split_and!; [exact Hr|done|by left].
  - pose proof Hok as [Hd Hl Hp Ht].
    destruct (LRU_full (lru sh) key Hl Hk Hroom) as (_ & _ & Hs).
    destruct (HashTable_erase_ok (data sh) key Hd Hav) as (d' & Hr & Hd' & Hm & _).
    assert (shard_ok n i (set_data d' sh)) as Hok'.
    { apply (shard_ok_erase n i sh d' (lru sh) key); [done..|]. intros k Hin. split; [by intros ->|done]. }
    unfold shard_del. mrun. rewrite Hr. fold (shard_map sh) in *. case_bool_decide as Hb; simpl.
    + rewrite Hs. eexists _, _. split_and!; [done|exact Hok'|right; by auto].
    + eexists _, _. split_and!; [done|exact Hok'|by left].
Qed.

(** A method that is [tried] on its shard is tried on the store. *)
Lemma on_shard_any {A} s key (body : M (Shard T) A) (upd : gmap bytes T → gmap bytes T) (ans : Shard T → A) :
  KVStore_ok s →
  (∀ (m : gmap bytes T) k, k ≠ key → upd m !! k = m !! k) → (∀ m m' : gmap bytes T, m !! key = m' !! key → upd m !! key = upd m' !! key) →
  (∀ sh, shard_ok (shardCount s) (home (shardCount s) key) sh →
     ∃ r sh', body sh = (r, sh') ∧ shard_ok (shardCount s) (home (shardCount s) key) sh' ∧
       tried r (ans sh) (shard_map sh) (upd (shard_map sh)) (shard_map sh')) →
  ∃ r s' sh, on_shard key body s = (r, s') ∧ KVStore_ok s' ∧ shardCount s' = shardCount s ∧
    shards s !! home (shardCount s) key = Some sh ∧ tried r (ans sh) (kv_map s) (upd (kv_map s)) (kv_map s').
Proof.
  intros Hok Hother Hupd Hbody. destruct (kv_shard s key Hok) as (sh & Hsh & Hshok).
  destruct (Hbody sh Hshok) as (r & sh' & Hr & Hok' & Htr).
  assert (shard_map sh' = shard_map sh ∨ shard_map sh' = upd (shard_map sh)) as Hor by (destruct Htr as [[_ ->]|[_ [-> | ->]]]; auto).
  destruct (on_shard_ok s key sh sh' body r Hok Hsh Hr Hok') as (s' & Hrun & Hs' & Hcnt & _ & Hmap).
  { intros k Hk. destruct Hor as [-> | ->]; [done|by apply Hother]. }
  pose proof (kv_map_lookup s key sh Hok Hsh) as Hkv.
  assert (shard_map sh' = shard_map sh → kv_map s' = kv_map s) as H1.
  { intros E. apply map_eq. intros k. rewrite Hmap, E. case_decide; subst; done. }
  assert (shard_map sh' = upd (shard_map sh) → kv_map s' = upd (kv_map s)) as H2.
  { intros E. apply map_eq. intros k. rewrite Hmap, E. case_decide; [subst|by rewrite Hother]. by apply Hupd. }
  exists r, s', sh. split_and!; try done. unfold tried in *. naive_solver.
Qed.

Lemma KVStore_set_any s key v :
  KVStore_ok s → ∃ r s' e, KVStore_set key v s = (r, s') ∧ KVStore_ok s' ∧ shardCount s' = shardCount s ∧
    tried r e (kv_map s) (<[key := v]> (kv_map s)) (kv_map s').
Proof.
  intros Hok. destruct (on_shard_any s key (shard_set key v) (insert key v)
    (λ sh, (recency_set (maxsz (lru sh)) key (keys (lru sh))).1) Hok) as (r & s' & sh & Hr & Hs' & Hc & _ & Ht).
  - intros m k Hk. by rewrite lookup_insert_ne.
  - intros m m' _. by rewrite !lookup_insert_eq.
  - intros sh Hsh. by apply shard_set_any.
  - by eexists _, _, _.
Qed.

Lemma KVStore_get_any s key :
  KVStore_ok s → ∃ r s', KVStore_get key s = (r, s') ∧ KVStore_ok s' ∧ shardCount s' = shardCount s ∧
    tried r (kv_map s !! key) (kv_map s) (kv_map s) (kv_map s').
Proof.
  intros Hok. destruct (on_shard_any s key (shard_get key) id (λ sh, shard_map sh !! key) Hok)
    as (r & s' & sh & Hr & Hs' & Hc & Hsh & Ht); [done|done|intros sh Hsh; by apply shard_get_any|].
  exists r, s'. rewrite (kv_map_lookup s key sh Hok Hsh). done.
Qed.

Lemma KVStore_del_any s key :
  KVStore_ok s → ∃ r s', KVStore_del key s = (r, s') ∧ KVStore_ok s' ∧ shardCount s' = shardCount s ∧
    tried r (bool_decide (is_Some (kv_map s !! key))) (kv_map s) (delete key (kv_map s)) (kv_map s').
Proof.
  intros Hok. destruct (on_shard_any s key (shard_del key) (delete key) (λ sh, bool_decide (is_Some (shard_map sh !! key))) Hok)
    as (r & s' & sh & Hr & Hs' & Hc & Hsh & Ht).
  - intros m k Hk. by rewrite lookup_delete_ne.
  - intros m m' _. by rewrite !lookup_delete_eq.
  - intros sh Hsh. by apply shard_del_any.
  - exists r, s'. rewrite (kv_map_lookup s key sh Hok Hsh). done.
Qed.

Lemma KVStore_checkexist_any s key :
  KVStore_ok s → ∃ r s', KVStore_checkexist key s = (r, s') ∧ KVStore_ok s' ∧ shardCount s' = shardCount s ∧
    tried r (bool_decide (is_Some (kv_map s !! key))) (kv_map s) (kv_map s) (kv_map s').
Proof.
  intros Hok. destruct (on_shard_any s key (sh ← mget; mlift (HashTable_checkexist key (data sh))) id
    (λ sh, bool_decide (is_Some (shard_map sh !! key))) Hok) as (r & s' & sh & Hr & Hs' & Hc & Hsh & Ht); [done|done| |].
  - intros sh Hsh. eexists _, sh. split_and!; [done..|].
    destruct (data_avail_dec sh key) as [Hav|[Hn He]].
    + left. split; [|done]. apply HashTable_checkexist_ok; [apply Hsh|done].
    + right. split; [|by left]. apply HashTable_checkexist_full; [apply Hsh|done..].
  - exists r, s'. rewrite (kv_map_lookup s key sh Hok Hsh). done.
Qed.

(** A store that only saw insertions, with [b] more to come before the
    recency lists evict: its tables hold no tombstones. *)
Definition kv_fresh (b : nat) s : Prop :=
  ∀ i sh, shards s !! i = Some sh → tbl_clean (data sh) ∧ tbl_clean (hash (lru sh)) ∧
    length (keys (lru sh)) + b <= maxsz (lru sh).

Lemma kv_fresh_avail b s key : KVStore_ok s → kv_fresh b s → kv_avail s key.
Proof.
  intros Hok Hf sh Hsh. destruct (Hf _ _ Hsh) as (Hd & Hl & _).
  destruct (kok_shards _ Hok _ _ Hsh) as [Od Ol _ _]. split; right.
  - apply has_empty_empties. exact (tbl_clean_room (data sh) Od Hd).
  - apply tbl_clean_room; [apply Ol|done].
Qed.

Lemma store_of_fresh n cap : kv_fresh cap (store_of n cap).
Proof.
  intros i sh [-> _]%lookup_replicate. split_and!.
  - exact (tbl_new_clean (H := HashTable T)).
  - exact (tbl_new_clean (H := HashTable iterator)).
  - simpl. lia.
Qed.

Lemma recency_set_length cap x ks : length (recency_set cap x ks).2 <= S (length ks).
Proof.
  assert (length (recency_touch x ks) <= S (length ks)) as H.
  { unfold recency_touch. rewrite length_app. simpl. pose proof (length_filter (λ k, k ≠ x) ks). lia. }
  unfold recency_set. repeat case_decide; simpl; try done. destruct (recency_touch x ks); simpl in *; lia.
Qed.

(** Such a store stores, evicts nothing, and stays such a store. *)
Lemma KVStore_set_fresh b s key v :
  KVStore_ok s → kv_fresh (S b) s →
  ∃ s', KVStore_set key v s = (Ok None, s') ∧ KVStore_ok s' ∧ kv_fresh b s' ∧
    kv_map s' = <[key := v]> (kv_map s).
Proof.
  intros Hok Hf. pose proof (kv_fresh_avail _ s key Hok Hf) as Hav.
  destruct (kv_shard s key Hok) as (sh & Hsh & Hshok). destruct (Hav sh Hsh) as [Hd Hl].
  destruct (shard_set_ok _ _ sh key v Hshok eq_refl Hd Hl) as (sh' & Hr & Hok' & Hm & Hk & Hmax & Cd & Cl).
  destruct (on_shard_ok s key sh sh' _ _ Hok Hsh Hr Hok') as (s' & Hrun & Hs' & Hcnt & Hshs & Hmap).
  { intros k Hk'. by rewrite Hm, lookup_insert_ne. }
  destruct (Hf _ _ Hsh) as (Fd & Fl & Fb).
  assert ((recency_set (maxsz (lru sh)) key (keys (lru sh))).1 = None) as Hnone.
  { unfold recency_set. repeat case_decide; try done. simpl.
    unfold recency_touch in *. rewrite length_app in *. simpl in *.
    pose proof (length_filter (λ k, k ≠ key) (keys (lru sh))). lia. }
  rewrite Hnone in Hrun. exists s'. split_and!; [done|done| |].
  - intros i shi Hi. rewrite Hshs in Hi.
    apply list_lookup_insert_Some in Hi as [(<- & -> & _)|[_ Hi]].
    + split_and!; [by apply Cd|apply Cl; [done|right; lia]|]. rewrite Hk, Hmax.
      pose proof (recency_set_length (maxsz (lru sh)) key (keys (lru sh))). lia.
    + destruct (Hf _ _ Hi) as (? & ? & ?). split_and!; [done..|lia].
  - apply map_eq. intros k. rewrite Hmap, lookup_insert.
    repeat case_decide; subst; try done. by rewrite Hm, lookup_insert_eq.
Qed.

(** One client-visible operation of the store. *)
Definition kv_step (op : table_op T) : M (KVStore T) (table_obs T) :=
  match op with
  | OpGet k => v ← KVStore_get k; mret (ObsValue v)
  | OpSet k v => _ ← KVStore_set k v; mret ObsUnit
  | OpErase k => b ← KVStore_del k; mret (ObsBool b)
  | OpExist k => b ← KVStore_checkexist k; mret (ObsBool b)
  end.

Lemma kv_elem s k v : KVStore_ok s → (k, v) ∈ KVStore_forEach s ↔ kv_map s !! k = Some v.
Proof.
  intros Hok. unfold KVStore_forEach, HashTable_forEach. rewrite elem_of_flat_map. split.
  - intros (i & sh & Hi & Hk). pose proof (kok_shards _ Hok i sh Hi) as Hsh.
    apply occupied_elem in Hk. apply to_map_lookup in Hk; [|apply Hsh].
    assert (home (shardCount s) k = i) as <-.
    { apply (sok_placed _ _ _ Hsh). unfold shard_map. by rewrite Hk. }
    by rewrite (kv_map_lookup s k sh).
  - intros Hk. destruct (kv_shard s k Hok) as (sh & Hsh & Hshok).
    rewrite (kv_map_lookup s k sh) in Hk by done. exists (home (shardCount s) k), sh.
    split; [done|]. apply occupied_elem. apply to_map_lookup; [apply Hshok|done].
Qed.

Lemma kv_forEach_nodup s : KVStore_ok s → NoDup (KVStore_forEach s).
Proof.
  intros Hok. apply NoDup_flat_map.
  - intros i sh Hi. apply (NoDup_fmap_1 fst), occupied_nodup.
    apply (tok_unique (buckets (data sh))), (kok_shards _ Hok i sh Hi).
  - intros i j sh sh' [k v] Hi Hj Hk Hk'.
    assert (∀ i sh, shards s !! i = Some sh → (k, v) ∈ HashTable_forEach (data sh) →
      home (shardCount s) k = i) as H.
    { intros i' sh0 Hi' Hin. pose proof (kok_shards _ Hok i' sh0 Hi') as Hsh.
      apply (sok_placed _ _ _ Hsh). apply occupied_elem, to_map_lookup in Hin; [|apply Hsh].
      unfold shard_map. by rewrite Hin. }
    rewrite <- (H i sh), <- (H j sh'); done.
Qed.

(** ** Properties *)

(** C3: the sixteen shards together are one finite map for every key whose shard
    has room (the key is stored there or its table has an empty bucket left, and
    so for its recency index): whatever eviction and recency bookkeeping goes on, a
    get, set, deletion or existence test on it returns what the map returns, keeps
    every shard well formed and every key in its own shard, and changes the
    contents exactly as the map operation does.  Without room the call may throw
    ([kvstore_op_any_state]). *)
Theorem kvstore_op_refines_map (op : table_op T) (s : KVStore T) :
  KVStore_ok s → kv_avail s (op_key op) →
  ∃ s', kv_step op s = (Ok (map_step op (kv_map s)).1, s') ∧ KVStore_ok s' ∧
    kv_map s' = (map_step op (kv_map s)).2.
Proof.
  intros Hok Hav. destruct op as [k|k v|k|k]; simpl in *.
  - destruct (KVStore_get_ok s k Hok Hav) as (s' & Hr & ? & ?). exists s'. by erewrite M_bind_Ok.
  - destruct (KVStore_set_ok s k v Hok Hav) as (s' & sh & _ & Hr & ? & ?). exists s'. by erewrite M_bind_Ok.
  - destruct (KVStore_del_ok s k Hok Hav) as (s' & Hr & ? & ?). exists s'. by erewrite M_bind_Ok.
  - destruct (KVStore_checkexist_ok s k Hok Hav) as (s' & Hr & ? & ?). exists s'. by erewrite M_bind_Ok.
Qed.

(** A method of the store never reaches undefined behaviour: on any well-formed
    store, full of tombstones or not, it answers as on a map or throws that no
    bucket is empty, the store stays well formed, and its contents are those
    before the call or those the map would have after it. *)
Theorem kvstore_op_any_state (op : table_op T) (s : KVStore T) :
  KVStore_ok s →
  ∃ r s', kv_step op s = (r, s') ∧ KVStore_ok s' ∧ shardCount s' = shardCount s ∧
    tried r (map_step op (kv_map s)).1 (kv_map s) (map_step op (kv_map s)).2 (kv_map s').
Proof.
  intros Hok. destruct op as [k|k v|k|k]; cbn [kv_step map_step fst snd].
  - destruct (KVStore_get_any s k Hok) as (r & s' & Hr & ? & ? & Ht). unfold mbind, M_bind. rewrite Hr.
    destruct Ht as [[-> ?]|[-> ?]]; eexists _, _; split_and!; try done; [by left|by right].
  - destruct (KVStore_set_any s k v Hok) as (r & s' & e & Hr & ? & ? & Ht). unfold mbind, M_bind. rewrite Hr.
    destruct Ht as [[-> ?]|[-> ?]]; eexists _, _; split_and!; try done; [by left|by right].
  - destruct (KVStore_del_any s k Hok) as (r & s' & Hr & ? & ? & Ht). unfold mbind, M_bind. rewrite Hr.
    destruct Ht as [[-> ?]|[-> ?]]; eexists _, _; split_and!; try done; [by left|by right].
  - destruct (KVStore_checkexist_any s k Hok) as (r & s' & Hr & ? & ? & Ht). unfold mbind, M_bind. rewrite Hr.
    destruct Ht as [[-> ?]|[-> ?]]; eexists _, _; split_and!; try done; [by left|by right].
Qed.

(** [forEach] visits every stored pair exactly once. *)
Theorem kvstore_forEach_complete (s : KVStore T) :
  KVStore_ok s → KVStore_forEach s ≡ₚ map_to_list (kv_map s).
Proof.
  intros Hok. apply NoDup_Permutation; [by apply kv_forEach_nodup|apply NoDup_map_to_list|].
  intros [k v]. rewrite kv_elem by done. by rewrite elem_of_map_to_list.
Qed.

(** When the recency index of the key's shard is saturated, [set] throws
    after the data table was updated: the caller sees a failure, yet the pair
    is stored and the store is still well formed. *)
Theorem kvstore_set_throw_stores (s : KVStore T) (key : bytes) (v : T) (sh : Shard T) :
  KVStore_ok s → shards s !! home (shardCount s) key = Some sh →
  data_avail sh key → key ∉ keys (lru sh) → tbl_room (hash (lru sh)) = 0 →
  ∃ s', KVStore_set key v s = (Throw tbl_full, s') ∧ KVStore_ok s' ∧
    kv_map s' = <[key := v]> (kv_map s).
Proof.
  intros Hok Hsh Hav Hk Hroom. pose proof (kok_shards _ Hok _ _ Hsh) as Hshok.
  destruct (data_set_ok _ _ sh key v Hshok eq_refl Hav) as (d' & Hr & Hok' & Hm).
  destruct (LRU_full (lru sh) key (sok_lru _ _ _ Hshok) Hk Hroom) as (_ & Hset & _).
  destruct (on_shard_ok s key sh (set_data d' sh) (shard_set key v) (Throw tbl_full) Hok Hsh)
    as (s' & Hrun & Hs' & _ & _ & Hmap); [|done|intros k Hk'; by rewrite Hm, lookup_insert_ne|].
  { unfold shard_set. mrun. rewrite Hr. simpl. by rewrite Hset. }
  exists s'. split_and!; try done. apply map_eq. intros k. rewrite Hmap, lookup_insert.
  repeat case_decide; subst; try done. by rewrite Hm, lookup_insert_eq.
Qed.

(** A key that [set] reports as evicted left the recency list only: it is
    still stored and the store did not shrink, so the size of the store is
    not bounded by [LRU_MAX_SIZE]. *)
Theorem kvstore_evicted_still_stored (s : KVStore T) (key e : bytes) (v : T) :
  KVStore_ok s → kv_avail s key → (KVStore_set key v s).1 = Ok (Some e) →
  is_Some (kv_map (KVStore_set key v s).2 !! e) ∧
  size (kv_map s) <= size (kv_map (KVStore_set key v s).2).
Proof.
  intros Hok Hav. destruct (KVStore_set_ok s key v Hok Hav) as (s' & sh & Hsh & Hr & Hok' & Hm).
  rewrite Hr. simpl. rewrite Hm. intros [= He]. split.
  - apply lookup_insert_is_Some'.
    unfold recency_set in He. case_decide; [done|]. case_decide; [|done]. simpl in He.
    assert (e ∈ recency_touch key (keys (lru sh))) as [->|Hin]%recency_touch_elem
      by (by apply head_Some_elem_of); [by left|right].
    rewrite (kv_map_lookup s e sh); [..|].
    + by apply (sok_tracked _ _ _ (kok_shards _ Hok _ _ Hsh)).
    + done.
    + rewrite (sok_placed _ _ _ (kok_shards _ Hok _ _ Hsh) e); [done|].
      by apply (sok_tracked _ _ _ (kok_shards _ Hok _ _ Hsh)).
  - destruct (kv_map s !! key) as [w|] eqn:E.
    + rewrite map_size_insert_Some by done. lia.
    + rewrite map_size_insert_None by done. lia.
Qed.
End KVStore_proofs.

Lemma kvstore_op_refines_map_witness :
  ∃ s', kv_step (OpSet (str "k") 7) (KVStore_init SHARD_COUNT) = (Ok ObsUnit, s') ∧ KVStore_ok s' ∧
    kv_map s' = <[str "k" := 7]> (kv_map (KVStore_init SHARD_COUNT)).
Proof.
  apply (kvstore_op_refines_map (OpSet (str "k") 7) (KVStore_init SHARD_COUNT)).
  - apply KVStore_init_ok. vm_compute. lia.
  - apply store_of_avail.
Defined.

(** A store of one shard whose recency list holds one key, after two sets. *)
Definition small_store : KVStore nat := (KVStore_set (str "a") 1 (store_of 1 1)).2.

Lemma small_store_ok : KVStore_ok small_store ∧ kv_avail small_store (str "b").
Proof.
  split.
  - destruct (KVStore_set_ok (store_of 1 1) (str "a") 1) as (s' & sh & _ & Hr & Hok & _);
      [apply store_of_ok; lia|apply store_of_avail|]. unfold small_store. by rewrite Hr.
  - intros sh Hsh. split; right; [apply has_empty_empties|];
      vm_compute in Hsh; injection Hsh as <-; vm_compute; lia.
Qed.

Lemma kvstore_forEach_complete_witness :
  KVStore_forEach small_store ≡ₚ map_to_list (kv_map small_store).
Proof. apply (kvstore_forEach_complete small_store). apply small_store_ok. Defined.

Lemma kvstore_evicted_still_stored_witness :
  is_Some (kv_map (KVStore_set (str "b") 2 small_store).2 !! str "a") ∧
  size (kv_map small_store) <= size (kv_map (KVStore_set (str "b") 2 small_store).2).
Proof.
  apply (kvstore_evicted_still_stored small_store (str "b") (str "a") 2);
    [apply small_store_ok..|by vm_compute].
Defined.

(** The recency list that sixteen evictions leave: empty, its index saturated. *)
Definition saturated_lru : LRU := (lru_run (map LSet sixteen_keys) (LRU_init 0)).2.

Definition saturated_store : KVStore nat := mkKVStore 1 [mkShard HashTable_init saturated_lru].

Lemma saturated_store_ok : KVStore_ok saturated_store.
Proof.
  constructor; simpl; [lia|done|]. intros [|i] sh Hsh; simplify_eq/=.
  pose proof (kok_shards _ (store_of_ok (T := nat) 1 0 ltac:(lia)) 0 _ eq_refl) as [A B C D].
  constructor; simpl; [done| |done|].
  - constructor; [constructor; [by vm_compute| |by vm_compute]|by vm_compute; apply list_ok_nil|vm_compute; lia].
    apply table_ok_tombstones; [vm_compute; lia|]. refine (bool_decide_eq_true_1 _ _). by vm_compute.
  - intros k Hk. by vm_compute in Hk; apply elem_of_nil in Hk.
Qed.

Lemma kvstore_set_throw_stores_witness :
  ∃ s', KVStore_set (str "z") 1 saturated_store = (Throw tbl_full, s') ∧ KVStore_ok s' ∧
    kv_map s' = <[str "z" := 1]> (kv_map saturated_store).
Proof.
  apply (kvstore_set_throw_stores saturated_store (str "z") 1 (mkShard HashTable_init saturated_lru)).
  - apply saturated_store_ok.
  - by vm_compute.
  - right. apply has_empty_empties. vm_compute. lia.
  - refine (bool_decide_eq_true_1 _ _). by vm_compute.
  - by vm_compute.
Defined.

(** The saturated store answers [set] with an exception. *)
Lemma kvstore_op_any_state_witness :
  ∃ r s', kv_step (OpSet (str "k") 7) saturated_store = (r, s') ∧ KVStore_ok s' ∧ r = Throw tbl_full.
Proof.
  destruct (kvstore_op_any_state (OpSet (str "k") 7) saturated_store) as (r & s' & Hr & Hok & _ & _);
    [apply saturated_store_ok|].
  exists r, s'. split_and!; [exact Hr|exact Hok|].
  assert (H : (kv_step (OpSet (str "k") 7) saturated_store).1 = Throw tbl_full) by (vm_compute; reflexivity).
  rewrite Hr in H. exact H.
Defined.
