(* ===== verification/Snapshot.v ===== *)
(** * Snapshots (HashTable::writetofile / readfromfile, KVStore::writetofile,
      writetofileFork and readfromfile)

    A file is its bytes.  [std::ifstream::read] past the end delivers what is
    left and sets the fail bit, after which every read delivers nothing; an
    integer that was not read in full is indeterminate, so using it is
    undefined behaviour.  Opening a file for writing is taken to succeed, and
    tables have fewer than [2^32] buckets (the loop counter is a [uint32_t]). *)
From Stdlib Require Import ZArith Ascii String Lia.
From stdpp Require Import base numbers list strings gmap.
From S2P Require Import Prelude CppStd RespValue RespParser StringTable HashTable LRU KVStore.
Local Open Scope Z_scope.

#[global] Instance RespValue_inhabited : Inhabited RespValue := populate RespValue_default.

(** The object representation of a [uint32_t], little endian. *)
Definition le32 (z : Z) : bytes :=
  [char_of (z mod 256); char_of (z / 256 mod 256); char_of (z / 65536 mod 256);
   char_of (z / 16777216 mod 256)].
Definition le32_val (s : bytes) : Z :=
  foldr (λ c acc, uchar c + 256 * acc) 0 s.

(** ** HashTable::writetofile *)

(** The bytes written for bucket [i]. *)
Definition write_node (i : nat) (nd : Node RespValue) : bytes :=
  let value := encode (n_value nd) in
  let keysize := u32 (Z.of_nat (length (n_key nd))) in
  let valuesize := u32 (Z.of_nat (length value)) in
  le32 (u32 (Z.of_nat i)) ++ le32 keysize ++ le32 valuesize ++
  (if 0 <? keysize then take (Z.to_nat keysize) (n_key nd) else []) ++
  (if 0 <? valuesize then take (Z.to_nat valuesize) value else []).

Fixpoint write_nodes (ht : HashTable RespValue) (idxs : list nat) : res bytes :=
  match idxs with
  | [] => Ok []
  | i :: idxs' =>
      match buckets ht !! i with
      | None => UB
      | Some nd =>
          rest ← write_nodes ht idxs';
          Ok ((if decide (n_status nd = OCCUPIED) then write_node i nd else []) ++ rest)
      end
  end.

Definition HashTable_writetofile (ht : HashTable RespValue) : res bytes :=
  body ← write_nodes ht (seq 0 (bucketsz ht));
  Ok (le32 (u32 (Z.of_nat (bucketsz ht))) ++ le32 (u32 (Z.of_nat (sz ht))) ++ body).

(** ** HashTable::readfromfile *)

(** The table under construction and the input stream. *)
Record Reader := mkReader { table : HashTable RespValue; rest : bytes; failed : bool }.

Definition set_table (t : HashTable RespValue) (r : Reader) : Reader := mkReader t (rest r) (failed r).

(** [file.read(p, n)]: the characters stored at [p]. *)
Definition stream_read (n : Z) : M Reader bytes :=
  r ← mget;
  if failed r then mret []
  else
    let got := take (Z.to_nat n) (rest r) in
    _ ← mput (mkReader (table r) (drop (Z.to_nat n) (rest r))
               (Z.of_nat (length (rest r)) <? n));
    mret got.

Definition read_u32 : M Reader Z :=
  s ← stream_read 4;
  if (length s =? 4)%nat then mret (le32_val s) else mub.

(** [s.resize(n)], then the first characters overwritten by [got]. *)
Definition resize (n : nat) (s : bytes) : bytes := take n s ++ replicate (n - length s) (char_of 0).
Definition overwrite (got s : bytes) : bytes := got ++ drop (length got) s.

Definition modify_bucket (idx : Z) (f : Node RespValue → Node RespValue) : M Reader unit :=
  r ← mget;
  let t := table r in
  match buckets t !! Z.to_nat idx with
  | None => mub
  | Some nd => mput (set_table (mkHashTable (<[Z.to_nat idx := f nd]> (buckets t)) (sz t) (bucketsz t)) r)
  end.

(** The loop body. *)
Definition read_node : M Reader unit :=
  idx ← read_u32;
  _ ← modify_bucket idx (λ nd, mkNode (n_key nd) (n_value nd) OCCUPIED);
  keysize ← read_u32;
  valuesize ← read_u32;
  _ ← (if 0 <? keysize then
         got ← stream_read keysize;
         modify_bucket idx (λ nd,
           mkNode (overwrite got (resize (Z.to_nat keysize) (n_key nd))) (n_value nd) (n_status nd))
       else mret tt);
  if 0 <? valuesize then
    got ← stream_read valuesize;
    let value := overwrite got (replicate (Z.to_nat valuesize) (char_of 0)) in
    parser ← mlift (RespParser_append value RespParser_init);
    match RespParser_getResult parser with
    | (None, _) => mthrow (RuntimeError "Parser has no result!!!!!")
    | (Some v, _) => modify_bucket idx (λ nd, mkNode (n_key nd) v (n_status nd))
    end
  else mret tt.

Definition read_table : M Reader unit :=
  readbucketsz ← read_u32;
  _ ← mmodify (λ r, set_table (mkHashTable (replicate (Z.to_nat readbucketsz) Node_default)
                                 (sz (table r)) (Z.to_nat readbucketsz)) r);
  validsz ← read_u32;
  _ ← mmodify (λ r, set_table (mkHashTable (buckets (table r)) (Z.to_nat validsz)
                                 (bucketsz (table r))) r);
  mfor (seq 0 (Z.to_nat validsz)) (λ _, read_node).

(** [file] is [None] when it cannot be opened. *)
Definition HashTable_readfromfile (file : option bytes) : M (HashTable RespValue) unit :=
  match file with
  | None => mthrow (RuntimeError "File open failed.")
  | Some content => λ ht,
      let '(out, r) := read_table (mkReader ht content false) in (out, table r)
  end.

(** ** KVStore: one file per shard of the snapshot directory *)

#[warnings="-notation-for-abbreviation"] Notation Dir := (gmap bytes bytes).

Definition shard_file (i : nat) : bytes := str "shard_" ++ to_string (Z.of_nat i) ++ str ".snap".

Fixpoint write_shards (i : nat) (shs : list (Shard RespValue)) (dir : Dir) : res Dir :=
  match shs with
  | [] => Ok dir
  | sh :: shs' =>
      content ← HashTable_writetofile (data sh);
      write_shards (S i) shs' (<[shard_file i := content]> dir)
  end.

(** A directory that does not exist is [None]. *)
Definition remove_all (dir : option Dir) : option Dir := None.
Definition create_directories (dir : option Dir) : Dir := default ∅ dir.

(** [writetofileFork] is the same without the locks: the child process owns a
    frozen copy of the memory. *)
Definition KVStore_writetofile (s : KVStore RespValue) (dir : option Dir) : res Dir :=
  let dir := if bool_decide (is_Some dir) then remove_all dir else dir in
  write_shards 0 (shards s) (create_directories dir).
Definition KVStore_writetofileFork (s : KVStore RespValue) (dir : option Dir) : res Dir :=
  let dir := if bool_decide (is_Some dir) then remove_all dir else dir in
  write_shards 0 (shards s) (create_directories dir).

Definition read_shard (dir : Dir) (i : nat) : M (KVStore RespValue) unit :=
  match dir !! shard_file i with
  | None => mret tt
  | Some content =>
      s ← mget;
      match shards s !! i with
      | None => mub
      | Some sh =>
          let '(out, sh') :=
            (_ ← mzoom data set_data (HashTable_readfromfile (Some content));
             mzoom lru set_lru LRU_clear) sh in
          _ ← mput (mkKVStore (shardCount s) (<[i := sh']> (shards s)));
          mlift out
      end
  end.

Definition KVStore_readfromfile (dir : Dir) : M (KVStore RespValue) unit :=
  s ← mget;
  mfor (seq 0 (shardCount s)) (read_shard dir).

(** ** One file *)

Lemma le32_val_le32 z : is_u32 z → le32_val (le32 z) = z.
Proof.
  intros Hz. unfold le32_val, le32. cbn [foldr].
  rewrite !uchar_char_of by (apply Z.mod_pos_bound; lia). unfold is_u32 in Hz.
  pose proof (Z.div_mod z 256). pose proof (Z.div_mod (z / 256) 256).
  pose proof (Z.div_mod (z / 65536) 256).
  assert (z / 256 / 256 = z / 65536) by (by rewrite Z.div_div by lia).
  assert (z / 65536 / 256 = z / 16777216) by (by rewrite Z.div_div by lia).
  rewrite (Z.mod_small (z / 16777216)); [lia|].
  split; [apply Z.div_pos; lia|apply Z.div_lt_upper_bound; lia].
Qed.

Lemma stream_read_app n (s t : bytes) ht :
  n = Z.of_nat (length s) →
  stream_read n (mkReader ht (s ++ t) false) = (Ok s, mkReader ht t false).
Proof.
  intros ->. unfold stream_read. mrun. rewrite Nat2Z.id, take_app_length, drop_app_length.
  rewrite length_app. destruct (Z.ltb_spec (Z.of_nat (length s + length t)) (Z.of_nat (length s))); [lia|done].
Qed.

Lemma read_u32_app z t ht :
  is_u32 z → read_u32 (mkReader ht (le32 z ++ t) false) = (Ok z, mkReader ht t false).
Proof.
  intros Hz. unfold read_u32. erewrite M_bind_Ok by (by apply stream_read_app).
  change (length (le32 z)) with 4%nat. cbv [Nat.eqb]. by rewrite le32_val_le32.
Qed.

Lemma overwrite_all got s : length got = length s → overwrite got s = got.
Proof. intros H. unfold overwrite. by rewrite H, drop_all, app_nil_r. Qed.

Lemma resize_length n s : length (resize n s) = n.
Proof. unfold resize. rewrite length_app, length_take, length_replicate. lia. Qed.

(** What a snapshot keeps of a bucket: tombstones come back empty. *)
Definition scrub (nd : Node RespValue) : Node RespValue :=
  if decide (n_status nd = OCCUPIED) then nd else Node_default.

Definition is_size (n : nat) : Prop := Z.of_nat n < 2 ^ 32.

(** A pair the file format can carry. *)
Record storable (nd : Node RespValue) : Prop := {
  st_key : is_size (length (n_key nd));
  st_value : is_size (length (encode (n_value nd)));
  st_resp : resp_ok (n_value nd) = true
}.

Lemma is_size_u32 n : is_size n → is_u32 (Z.of_nat n).
Proof. unfold is_size, is_u32. lia. Qed.

Lemma write_node_eq i nd :
  is_size i → storable nd →
  write_node i nd = le32 (Z.of_nat i) ++ le32 (Z.of_nat (length (n_key nd))) ++
    le32 (Z.of_nat (length (encode (n_value nd)))) ++ n_key nd ++ encode (n_value nd).
Proof.
  intros Hi [Hk Hv _]. unfold write_node. rewrite !u32_id by (by apply is_size_u32).
  rewrite !Nat2Z.id, !take_ge by done. do 4 f_equal.
  - destruct (n_key nd); [done|]. by destruct (Z.ltb_spec 0 (Z.of_nat (length (a :: l)))); [|simpl in *; lia].
  - pose proof (encode_nonempty (n_value nd)). destruct (encode (n_value nd)); [done|].
    by destruct (Z.ltb_spec 0 (Z.of_nat (length (a :: l)))); [|simpl in *; lia].
Qed.

Lemma modify_bucket_ok (idx : nat) f pre nd post n m t fl :
  idx = length pre →
  modify_bucket (Z.of_nat idx) f (mkReader (mkHashTable (pre ++ nd :: post) n m) t fl) =
    (Ok tt, mkReader (mkHashTable (pre ++ f nd :: post) n m) t fl).
Proof.
  intros ->. unfold modify_bucket. mrun. rewrite Nat2Z.id, list_lookup_middle by done.
  unfold set_table. simpl. by rewrite insert_app_r_alt, Nat.sub_diag by done.
Qed.

(** Reading back one written bucket. *)
Lemma read_node_ok pre post nd n m t :
  is_size (length pre) → storable nd → n_status nd = OCCUPIED →
  read_node (mkReader (mkHashTable (pre ++ Node_default :: post) n m)
               (write_node (length pre) nd ++ t) false) =
    (Ok tt, mkReader (mkHashTable (pre ++ nd :: post) n m) t false).
Proof.
  intros Hi Hst Hs. rewrite write_node_eq by done. destruct Hst as [Hk Hv Hr].
  rewrite <- !(assoc_L app). unfold read_node.
  erewrite M_bind_Ok by (apply read_u32_app; by apply is_size_u32).
  erewrite M_bind_Ok by (by apply modify_bucket_ok).
  erewrite M_bind_Ok by (apply read_u32_app; by apply is_size_u32).
  erewrite M_bind_Ok by (apply read_u32_app; by apply is_size_u32).
  set (nd1 := mkNode (n_key nd) RespValue_default OCCUPIED).
  rewrite (M_bind_Ok _ _ _ tt (mkReader (mkHashTable (pre ++ nd1 :: post) n m)
    (encode (n_value nd) ++ t) false)).
  - pose proof (encode_nonempty (n_value nd)) as Hne.
    destruct (Z.ltb_spec 0 (Z.of_nat (length (encode (n_value nd))))) as [_|Hz];
      [|destruct Hne; apply length_zero_Z; lia].
    erewrite M_bind_Ok by (by apply stream_read_app).
    rewrite Nat2Z.id, overwrite_all by (by rewrite length_replicate).
    erewrite M_bind_Ok by (unfold mlift; by rewrite append_encode_one).
    cbn [RespParser_getResult message_queue]. rewrite modify_bucket_ok by done.
    subst nd1. simpl. destruct nd. simpl in *. by subst.
  - destruct (Z.ltb_spec 0 (Z.of_nat (length (n_key nd)))) as [Hpos|Hz].
    + erewrite M_bind_Ok by (by apply stream_read_app).
      rewrite modify_bucket_ok by done. subst nd1. simpl.
      rewrite overwrite_all; [done|]. by rewrite resize_length, Nat2Z.id.
    + subst nd1. destruct (n_key nd); [done|simpl in Hz; lia].
Qed.

(** The bytes of the buckets [suf], the first of which is bucket [i]. *)
Fixpoint nodes_bytes (i : nat) (suf : list (Node RespValue)) : bytes :=
  match suf with
  | [] => []
  | nd :: suf' => (if decide (n_status nd = OCCUPIED) then write_node i nd else []) ++ nodes_bytes (S i) suf'
  end.

Lemma write_nodes_eq ht pre suf :
  buckets ht = pre ++ suf →
  write_nodes ht (seq (length pre) (length suf)) = Ok (nodes_bytes (length pre) suf).
Proof.
  revert pre. induction suf as [|nd suf IH]; intros pre Hb; [done|]. simpl.
  rewrite Hb, list_lookup_middle by done.
  specialize (IH (pre ++ [nd])). rewrite length_app in IH. simpl in IH.
  rewrite Nat.add_1_r, <- (assoc_L app) in IH. by rewrite IH.
Qed.

Definition table_storable (ht : HashTable RespValue) : Prop :=
  is_size (bucketsz ht) ∧ Forall (λ nd, n_status nd = OCCUPIED → storable nd) (buckets ht).

(** The reading loop rebuilds the buckets one occupied bucket at a time. *)
Lemma read_nodes_ok suf pre n m t j :
  is_size (length pre + length suf) → Forall (λ nd, n_status nd = OCCUPIED → storable nd) suf →
  mfor (seq j (length (occupied suf))) (λ _, read_node)
    (mkReader (mkHashTable (pre ++ replicate (length suf) Node_default) n m)
      (nodes_bytes (length pre) suf ++ t) false) =
    (Ok tt, mkReader (mkHashTable (pre ++ map scrub suf) n m) t false).
Proof.
  revert pre j. induction suf as [|nd suf IH]; intros pre j Hsz Hall; [done|].
  apply Forall_cons in Hall as [Hnd Hall]. simpl nodes_bytes. rewrite occupied_cons.
  simpl length in *. simpl replicate. simpl map.
  assert (∀ x : Node RespValue, is_size (length (pre ++ [x]) + length suf)) as Hsz'
    by (intros x; rewrite length_app; unfold is_size in *; simpl; lia).
  assert (∀ x : Node RespValue, length (pre ++ [x]) = S (length pre)) as Hlen
    by (intros x; rewrite length_app; simpl; lia).
  unfold scrub at 1. case_decide as Hs.
  - rewrite <- (assoc_L app). simpl seq. cbn [mfor].
    erewrite M_bind_Ok by (apply read_node_ok; [unfold is_size in *; lia|auto|done]).
    specialize (IH (pre ++ [nd]) (S j) (Hsz' nd) Hall). rewrite Hlen in IH.
    by rewrite <- !(assoc_L app) in IH.
  - rewrite app_nil_l. specialize (IH (pre ++ [Node_default]) j (Hsz' _) Hall).
    rewrite Hlen in IH. by rewrite <- !(assoc_L app) in IH.
Qed.

Lemma occupied_le (bs : list (Node RespValue)) : (length (occupied bs) <= length bs)%nat.
Proof.
  induction bs as [|nd bs IH]; [done|]. rewrite occupied_cons, length_app. case_decide; simpl; lia.
Qed.

(** Writing a table and reading it into any other: the occupied buckets come
    back at their indices, the others are empty. *)
Lemma snapshot_ok ht ht0 :
  HashTable_ok ht → table_storable ht →
  ∃ content, HashTable_writetofile ht = Ok content ∧
    HashTable_readfromfile (Some content) ht0 =
      (Ok tt, mkHashTable (map scrub (buckets ht)) (sz ht) (bucketsz ht)).
Proof.
  intros [Hlen _ Hsz] [Hb Hall]. pose proof (occupied_le (buckets ht)) as Hle.
  assert (is_size (sz ht)) as Hsz' by (unfold is_size in *; lia).
  assert (write_nodes ht (seq 0 (bucketsz ht)) = Ok (nodes_bytes 0 (buckets ht))) as Hw.
  { rewrite <- Hlen. by apply (write_nodes_eq ht []). }
  unfold HashTable_writetofile. rewrite Hw.
  eexists. split; [done|]. rewrite !u32_id by (by apply is_size_u32).
  unfold HashTable_readfromfile, read_table.
  erewrite M_bind_Ok by (apply read_u32_app; by apply is_size_u32).
  erewrite M_bind_Ok by done. unfold set_table. cbn [table rest failed sz].
  erewrite M_bind_Ok by (apply read_u32_app; by apply is_size_u32).
  erewrite M_bind_Ok by done. unfold set_table. cbn [table rest failed buckets bucketsz].
  rewrite !Nat2Z.id, Hsz, <- Hlen.
  pose proof (read_nodes_ok (buckets ht) [] (sz ht) (bucketsz ht) [] 0) as H.
  rewrite app_nil_r, !app_nil_l, <- Hlen in H. rewrite Hsz in H.
  change (length []) with 0%nat in H. rewrite H; [done| |done].
  simpl. by rewrite Hlen.
Qed.

(** ** Tables without tombstones survive *)

Definition no_tombstones (ht : HashTable RespValue) : Prop :=
  Forall (λ nd, n_status nd ≠ DELETED) (buckets ht).

Lemma occupied_scrub bs : occupied (map scrub bs) = occupied bs.
Proof.
  induction bs as [|nd bs IH]; [done|]. simpl. rewrite !occupied_cons, IH. f_equal.
  unfold scrub. by repeat case_decide.
Qed.

Lemma holds_at_scrub bs i key v : holds_at (map scrub bs) i key v ↔ holds_at bs i key v.
Proof.
  unfold holds_at. rewrite list_lookup_fmap, fmap_Some. split.
  - intros (nd & Hnd & E). unfold scrub in E. case_decide; [by subst|done].
  - intros Hi. by exists (mkNode key v OCCUPIED).
Qed.

Lemma not_empty_scrub bs i :
  Forall (λ nd, n_status nd ≠ DELETED) bs → not_empty bs i → not_empty (map scrub bs) i.
Proof.
  intros Hall (nd & Hi & Hs). pose proof (Forall_lookup_1 _ _ _ _ Hall Hi) as Hd. simpl in Hd.
  exists nd. rewrite list_lookup_fmap, Hi. split; [|done]. simpl. unfold scrub.
  rewrite decide_True; [done|]. by destruct (n_status nd).
Qed.

Lemma scrub_ok ht :
  HashTable_ok ht → no_tombstones ht →
  HashTable_ok (mkHashTable (map scrub (buckets ht)) (sz ht) (bucketsz ht)).
Proof.
  intros [Hlen [Hp Hu Hc] Hsz] Hnt. constructor; simpl.
  - by rewrite length_map.
  - constructor.
    + by rewrite length_map.
    + intros i j key v w Hi Hj. rewrite holds_at_scrub in Hi, Hj. by eapply Hu.
    + intros i key v Hi. rewrite holds_at_scrub in Hi. destruct (Hc i key v Hi) as (d & Hd & He & Hb).
      exists d. rewrite length_map. split_and!; [done..|]. intros d' Hd'.
      by apply not_empty_scrub, Hb.
  - by rewrite occupied_scrub.
Qed.

(** ** All shards *)

Lemma shard_file_inj i j : shard_file i = shard_file j → i = j.
Proof.
  unfold shard_file. intros H. apply app_inj_1 in H as [_ H]; [|done].
  apply (app_inj_2 _ _ (str ".snap")) in H as [H _]; [|done].
  unfold to_string in H. destruct (Z.ltb_spec (Z.of_nat i) 0), (Z.ltb_spec (Z.of_nat j) 0); try lia.
  apply digits_inj in H; lia.
Qed.

Lemma write_shards_ok shs i dir :
  Forall (λ sh, ∃ c, HashTable_writetofile (data sh) = Ok c) shs →
  ∃ dir', write_shards i shs dir = Ok dir' ∧
    (∀ j sh, shs !! j = Some sh →
       ∃ c, HashTable_writetofile (data sh) = Ok c ∧ dir' !! shard_file (i + j) = Some c) ∧
    (∀ j, (j < i)%nat → dir' !! shard_file j = dir !! shard_file j).
Proof.
  intros Hall. revert i dir. induction Hall as [|sh shs [c Hc] _ IH]; intros i dir; simpl.
  { by exists dir. }
  rewrite Hc. simpl. destruct (IH (S i) (<[shard_file i := c]> dir)) as (dir' & Hr & Hj & Hlt).
  exists dir'. split_and!; [done|..].
  - intros [|j] sh' Hsh'; simplify_eq/=.
    + exists c. split; [done|]. rewrite Nat.add_0_r, Hlt by lia. apply lookup_insert_eq.
    + destruct (Hj j sh' Hsh') as (c' & ? & ?). exists c'. by rewrite Nat.add_succ_r.
  - intros j Hji. rewrite Hlt by lia. apply lookup_insert_ne. intros E%shard_file_inj. lia.
Qed.

(** A shard read back from the snapshot of [sh]. *)
Definition restored (sh sh' : Shard RespValue) : Prop :=
  data sh' = mkHashTable (map scrub (buckets (data sh))) (sz (data sh)) (bucketsz (data sh)) ∧
  LRU_ok (lru sh') ∧ keys (lru sh') = [].

Lemma read_shard_ok dir i s0 sh0 sh c :
  HashTable_ok (data sh) → table_storable (data sh) →
  HashTable_writetofile (data sh) = Ok c → dir !! shard_file i = Some c →
  shards s0 !! i = Some sh0 →
  ∃ sh', read_shard dir i s0 = (Ok tt, mkKVStore (shardCount s0) (<[i := sh']> (shards s0))) ∧
    restored sh sh'.
Proof.
  intros Hok Hst Hc Hdir Hsh0. destruct (snapshot_ok (data sh) (data sh0) Hok Hst) as (c' & Hc' & Hr).
  rewrite Hc in Hc'. injection Hc' as <-.
  destruct (LRU_clear_ok (lru sh0)) as (l' & Hl & Hl' & Hk & _).
  exists (mkShard (mkHashTable (map scrub (buckets (data sh))) (sz (data sh)) (bucketsz (data sh))) l').
  split; [|done]. unfold read_shard. rewrite Hdir. erewrite M_bind_Ok by done. rewrite Hsh0.
  erewrite (M_bind_Ok _ _ sh0); [|unfold mzoom; by rewrite Hr]. unfold mzoom.
  change (lru (set_data _ sh0)) with (lru sh0). by rewrite Hl.
Qed.

Lemma read_shards_ok (src : list (Shard RespValue)) dir m i s0 :
  length (shards s0) = length src → (i + m = length src)%nat →
  (∀ j sh, src !! j = Some sh → HashTable_ok (data sh) ∧ table_storable (data sh) ∧
     ∃ c, HashTable_writetofile (data sh) = Ok c ∧ dir !! shard_file j = Some c) →
  ∃ s', mfor (seq i m) (read_shard dir) s0 = (Ok tt, s') ∧ shardCount s' = shardCount s0 ∧
    length (shards s') = length src ∧
    (∀ j, (j < i)%nat → shards s' !! j = shards s0 !! j) ∧
    (∀ j sh sh', (i <= j)%nat → src !! j = Some sh → shards s' !! j = Some sh' → restored sh sh').
Proof.
  revert i s0. induction m as [|m IH]; intros i s0 Hlen Him Hsrc; simpl.
  { exists s0. split_and!; try done. intros j sh sh' Hj Hs _. apply lookup_lt_Some in Hs. lia. }
  destruct (lookup_lt_is_Some_2 src i) as [sh Hsh]; [lia|].
  destruct (lookup_lt_is_Some_2 (shards s0) i) as [sh0 Hsh0]; [lia|].
  destruct (Hsrc i sh Hsh) as (Hok & Hst & c & Hc & Hd).
  destruct (read_shard_ok dir i s0 sh0 sh c Hok Hst Hc Hd Hsh0) as (sh1 & Hr & Hrest).
  destruct (IH (S i) (mkKVStore (shardCount s0) (<[i := sh1]> (shards s0))))
    as (s' & Hr' & Hcnt & Hlen' & Hlow & Hhigh); [simpl; by rewrite length_insert|lia|done|].
  exists s'. split_and!; try done.
  - by rewrite (M_bind_Ok _ _ _ _ _ Hr).
  - intros j Hj. rewrite Hlow by lia. simpl. apply list_lookup_insert_ne. lia.
  - intros j shj shj' Hij Hs Hs'. destruct (decide (i = j)) as [<-|Hne]; [|apply (Hhigh j); [lia|done..]].
    rewrite Hlow in Hs' by lia. simpl in Hs'.
    rewrite list_lookup_insert_eq in Hs' by (apply lookup_lt_Some in Hsh0; lia). by simplify_eq.
Qed.

Lemma restored_shard_ok n i sh sh' :
  shard_ok n i sh → no_tombstones (data sh) → restored sh sh' →
  shard_ok n i sh' ∧ shard_map sh' = shard_map sh.
Proof.
  intros [Hd Hl Hp Ht] Hnt (Hd' & Hl' & Hk).
  assert (shard_map sh' = shard_map sh) as Hm.
  { unfold shard_map, to_map. rewrite Hd'. simpl. by rewrite occupied_scrub. }
  split; [|done]. constructor.
  - rewrite Hd'. by apply scrub_ok.
  - done.
  - intros k. rewrite Hm. apply Hp.
  - intros k. rewrite Hk. by intros ?%elem_of_nil.
Qed.

(** The stores a snapshot can carry: sizes below [2^32], encodable values, no tombstone. *)
Definition snapshot_ready (s : KVStore RespValue) : Prop :=
  Forall (λ sh, table_storable (data sh) ∧ no_tombstones (data sh)) (shards s).

(** The same, as a test. *)
Definition is_sizeb (n : nat) : bool := Z.of_nat n <? 2 ^ 32.
Definition node_readyb (nd : Node RespValue) : bool :=
  match n_status nd with
  | EMPTY => true
  | DELETED => false
  | OCCUPIED => is_sizeb (length (n_key nd)) && is_sizeb (length (encode (n_value nd))) &&
                resp_ok (n_value nd)
  end.
Definition snapshot_readyb (s : KVStore RespValue) : bool :=
  forallb (λ sh, is_sizeb (bucketsz (data sh)) && forallb node_readyb (buckets (data sh))) (shards s).

Lemma snapshot_readyb_sound s : snapshot_readyb s = true → snapshot_ready s.
Proof.
  unfold snapshot_readyb, snapshot_ready. rewrite forallb_forall, Forall_forall.
  intros H sh Hsh. rewrite list_elem_of_In in Hsh. specialize (H sh Hsh).
  apply andb_true_iff in H as [Hb H]. rewrite forallb_forall in H. unfold table_storable, no_tombstones.
  assert (∀ nd, nd ∈ buckets (data sh) → node_readyb nd = true) as Hn
    by (intros nd Hnd; apply H; by rewrite <- list_elem_of_In).
  split_and!; [by apply Z.ltb_lt|apply Forall_forall..]; intros nd Hnd; apply Hn in Hnd;
    unfold node_readyb in Hnd.
  - intros Hs. rewrite Hs in Hnd. breflect. by constructor; [apply Z.ltb_lt..|].
  - by destruct (n_status nd).
Qed.

(** ** Properties *)

(** What comes back, shard by shard. *)
Lemma snapshot_restores (s s0 : KVStore RespValue) (old : option Dir) :
  KVStore_ok s → snapshot_ready s → KVStore_ok s0 → shardCount s0 = shardCount s →
  ∃ dir s', KVStore_writetofile s old = Ok dir ∧ KVStore_readfromfile dir s0 = (Ok tt, s') ∧ KVStore_ok s' ∧
    shardCount s' = shardCount s ∧
    ∀ j sh', shards s' !! j = Some sh' → ∃ sh, shards s !! j = Some sh ∧ restored sh sh' ∧ shard_map sh' = shard_map sh.
Proof.
  intros Hok Hready Hok0 Hcnt. unfold snapshot_ready in Hready. rewrite Forall_lookup in Hready.
  assert (Forall (λ sh, ∃ c, HashTable_writetofile (data sh) = Ok c) (shards s)) as Hw.
  { apply Forall_lookup. intros i sh Hi. destruct (Hready i sh Hi) as [Hst _].
    destruct (snapshot_ok (data sh) (data sh)) as (c & Hc & _);
      [by apply (kok_shards _ Hok i sh Hi)|done|by exists c]. }
  destruct (write_shards_ok (shards s) 0 (create_directories
    (if bool_decide (is_Some old) then remove_all old else old)) Hw) as (dir & Hdir & Hfiles & _).
  destruct (read_shards_ok (shards s) dir (shardCount s0) 0 s0)
    as (s' & Hr & Hcnt' & Hlen' & _ & Hrest).
  { rewrite (kok_len _ Hok), (kok_len _ Hok0). done. }
  { rewrite (kok_len _ Hok). done. }
  { intros j sh Hj. split_and!; [apply (kok_shards _ Hok j sh Hj)|by apply (Hready j)|by apply Hfiles]. }
  assert (∀ j sh', shards s' !! j = Some sh' → ∃ sh, shards s !! j = Some sh ∧ restored sh sh' ∧
    shard_ok (shardCount s) j sh' ∧ shard_map sh' = shard_map sh) as Hall.
  { intros j sh' Hj. destruct (lookup_lt_is_Some_2 (shards s) j) as [sh Hsh].
    { rewrite <- Hlen'. by eapply lookup_lt_Some. }
    assert (restored sh sh') as Hres by (apply (Hrest j); [lia|done..]). exists sh.
    destruct (restored_shard_ok (shardCount s) j sh sh'); [by apply (kok_shards _ Hok)|
      by apply (Hready j)|done..]. }
  exists dir, s'. split_and!; [exact Hdir|exact Hr| |by rewrite Hcnt'|].
  - constructor; rewrite Hcnt', Hcnt; [apply Hok|by rewrite Hlen', (kok_len _ Hok)|].
    intros j sh' Hj. by destruct (Hall j sh' Hj) as (sh & _ & _ & ? & _).
  - intros j sh' Hj. destruct (Hall j sh' Hj) as (sh & ? & ? & _ & ?). by exists sh.
Qed.

(** C9: writing a snapshot of a store without tombstones, over any previous
    snapshot directory, and reading it into any store with as many shards gives
    back a well-formed store with exactly the same contents; every recency list
    comes back empty, so the restored keys are not candidates for eviction. *)
Theorem snapshot_roundtrip (s s0 : KVStore RespValue) (old : option Dir) :
  KVStore_ok s → snapshot_ready s → KVStore_ok s0 → shardCount s0 = shardCount s →
  ∃ dir s', KVStore_writetofile s old = Ok dir ∧ KVStore_writetofileFork s old = Ok dir ∧
    KVStore_readfromfile dir s0 = (Ok tt, s') ∧ KVStore_ok s' ∧ kv_map s' = kv_map s ∧
    Forall (λ sh, keys (lru sh) = []) (shards s').
Proof.
  intros Hok Hready Hok0 Hcnt.
  destruct (snapshot_restores s s0 old Hok Hready Hok0 Hcnt) as (dir & s' & Hdir & Hr & Hok' & Hcnt' & Hall).
  exists dir, s'. split_and!; try done.
  - apply map_eq. intros k. destruct (kv_shard s' k Hok') as (sh' & Hsh' & _).
    rewrite (kv_map_lookup s' k sh') by done.
    destruct (Hall _ _ Hsh') as (sh & Hsh & _ & ->). symmetry. apply kv_map_lookup; [done|].
    by rewrite <- Hcnt'.
  - apply Forall_lookup. intros j sh' Hj. by destruct (Hall j sh' Hj) as (sh & _ & (_ & _ & ?) & _).
Qed.

Lemma snapshot_roundtrip_witness :
  let s := (KVStore_set (str "k") (Integer 7) (store_of 2 3)).2 in
  ∃ dir s', KVStore_writetofile s None = Ok dir ∧ KVStore_writetofileFork s None = Ok dir ∧
    KVStore_readfromfile dir (store_of 2 5) = (Ok tt, s') ∧ KVStore_ok s' ∧ kv_map s' = kv_map s ∧
    Forall (λ sh, keys (lru sh) = []) (shards s').
Proof.
  intros s. apply (snapshot_roundtrip s (store_of 2 5) None).
  - destruct (KVStore_set_ok (store_of 2 3) (str "k") (Integer 7)) as (s' & sh & _ & Hr & Hok & _);
      [apply store_of_ok; lia|apply store_of_avail|]. subst s. by rewrite Hr.
  - apply snapshot_readyb_sound. by vm_compute.
  - apply store_of_ok. lia.
  - done.
Defined.

(** A table whose second key sits behind a tombstone. *)
Definition behind_tombstone : HashTable RespValue :=
  (table_run [OpSet (str "a") (Integer 1); OpSet (str "q") (Integer 2); OpErase (str "a")]
     HashTable_init).2.

(** A snapshot forgets tombstones but keeps bucket indices, so a key stored
    behind a tombstone becomes unreachable: after the round trip [get] and
    [checkexist] miss it although [forEach] still lists it, and setting it
    again stores it twice. *)
Theorem snapshot_tombstone_loses_key :
  ∃ content ht',
    HashTable_writetofile behind_tombstone = Ok content ∧
    HashTable_readfromfile (Some content) HashTable_init = (Ok tt, ht') ∧
    HashTable_get (str "q") behind_tombstone = Ok (Some (Integer 2)) ∧
    HashTable_get (str "q") ht' = Ok None ∧ HashTable_checkexist (str "q") ht' = Ok false ∧
    HashTable_forEach ht' = [(str "q", Integer 2)] ∧
    HashTable_forEach (HashTable_set (str "q") (Integer 3) ht').2 =
      [(str "q", Integer 3); (str "q", Integer 2)].
Proof.
  eexists. eexists. split; [vm_compute; reflexivity|]. split; [vm_compute; reflexivity|].
  split_and!; vm_compute; reflexivity.
Qed.
