(* ===== verification/AOF.v ===== *)
(** * The append-only file (kvstore/AOF.h, kvstore/AOF.cpp)

    The log file, the write buffer in front of it and the time of the last
    flush.  [std::chrono::steady_clock] is a parameter: its [i]-th reading is
    [clock i], in nanoseconds.  Each method runs under the mutex, as one step.
    Recovery replays the file through the command handler and is in
    [Recovery]. *)
From Stdlib Require Import ZArith Ascii String Lia.
From stdpp Require Import base numbers list strings.
From S2P Require Import Prelude CppStd RespValue RespParser.
Local Open Scope Z_scope.

(** config/Config.h *)
Definition AOF_BUFFER_SIZE : Z := 1024 * 1024.
Definition AOF_FSYNC_TIME_MS : Z := 1000.

Record AOF := mkAOF { file : bytes; buffer : bytes; last_fsync : Z; clock_reads : nat }.

Section AOF.
Context (clock : nat → Z).

(** The constructor, on the content the file already has ([std::ios::app]). *)
Definition AOF_init (content : bytes) : AOF := mkAOF content [] (clock 0) 1.

Definition steady_now : M AOF Z :=
  a ← mget;
  _ ← mput (mkAOF (file a) (buffer a) (last_fsync a) (S (clock_reads a)));
  mret (clock (clock_reads a)).

Definition AOF_flush : M AOF unit :=
  _ ← mmodify (λ a, mkAOF (file a ++ buffer a) [] (last_fsync a) (clock_reads a));
  now ← steady_now;
  mmodify (λ a, mkAOF (file a) (buffer a) now (clock_reads a)).

(** [duration_cast<milliseconds>(now - last_fsync).count()] *)
Definition millis (now last : Z) : Z := Z.quot (now - last) 1000000.

(** [append(std::string_view)] *)
Definition AOF_append_text (text : bytes) : M AOF unit :=
  now ← steady_now;
  _ ← mmodify (λ a, mkAOF (file a) (buffer a ++ text) (last_fsync a) (clock_reads a));
  a ← mget;
  if (AOF_BUFFER_SIZE <? Z.of_nat (length (buffer a))) || (AOF_FSYNC_TIME_MS <? millis now (last_fsync a))
  then AOF_flush else mret tt.

(** [append(resp::RespValue &)] *)
Definition AOF_append (value : RespValue) : M AOF unit := AOF_append_text (encode value).

Definition AOF_destroy : M AOF unit := AOF_flush.

(** ** The log as one byte sequence *)

Definition logged (a : AOF) : bytes := file a ++ buffer a.

Lemma AOF_flush_ok a :
  ∃ a', AOF_flush a = (Ok tt, a') ∧ file a' = logged a ∧ buffer a' = [] ∧
    last_fsync a' = clock (clock_reads a) ∧ clock_reads a' = S (clock_reads a).
Proof. by eexists. Qed.

Lemma AOF_append_text_ok text a :
  ∃ a', AOF_append_text text a = (Ok tt, a') ∧ logged a' = logged a ++ text ∧
    file a `prefix_of` file a' ∧ Z.of_nat (length (buffer a')) <= AOF_BUFFER_SIZE ∧
    (clock_reads a < clock_reads a')%nat ∧
    (buffer a' ≠ [] → last_fsync a' = last_fsync a ∧
       millis (clock (clock_reads a)) (last_fsync a') <= AOF_FSYNC_TIME_MS).
Proof.
  set (a1 := mkAOF (file a) (buffer a ++ text) (last_fsync a) (S (clock_reads a))).
  assert (AOF_append_text text a =
    (if (AOF_BUFFER_SIZE <? Z.of_nat (length (buffer a1))) ||
        (AOF_FSYNC_TIME_MS <? millis (clock (clock_reads a)) (last_fsync a))
     then AOF_flush else mret tt) a1) as -> by done.
  destruct (_ || _) eqn:E.
  - destruct (AOF_flush_ok a1) as (a' & Hr & Hf & Hb & Hl & Hc). exists a'.
    unfold logged in *. rewrite Hf, Hb. simpl in *. split_and!; try done.
    + by rewrite app_nil_r, (assoc_L app).
    + by apply prefix_app_r.
    + lia.
  - breflect. exists a1. unfold logged. simpl. split_and!; try done.
    + by rewrite (assoc_L app).
    + lia.
Qed.

(** Appending a list of commands. *)
Definition append_all (vs : list RespValue) : M AOF unit := mfor vs AOF_append.

Lemma append_all_ok vs a :
  Z.of_nat (length (buffer a)) <= AOF_BUFFER_SIZE →
  ∃ a', append_all vs a = (Ok tt, a') ∧ logged a' = logged a ++ encode_all vs ∧
    file a `prefix_of` file a' ∧ Z.of_nat (length (buffer a')) <= AOF_BUFFER_SIZE.
Proof.
  revert a. induction vs as [|v vs IH]; intros a Hb.
  { exists a. split_and!; try done. by rewrite app_nil_r. }
  destruct (AOF_append_text_ok (encode v) a) as (a1 & H1 & L1 & P1 & B1 & _).
  destruct (IH a1 B1) as (a2 & H2 & L2 & P2 & B2). exists a2. split_and!.
  - unfold append_all in *. cbn [mfor]. by rewrite (M_bind_Ok _ _ _ _ _ H1).
  - rewrite L2, L1, encode_all_cons. by rewrite (assoc_L app).
  - by transitivity (file a1).
  - done.
Qed.

(** ** Properties *)

(** The log loses nothing and reorders nothing: after appending any
    commands the file followed by the buffer is what it was followed by their
    encodings, the file only grew, the buffer never exceeds one megabyte, and
    once the log is flushed or destroyed the file reads back as the commands
    it held before and those appended. *)
Theorem aof_log_complete (vs0 vs : list RespValue) (a : AOF) :
  Z.of_nat (length (buffer a)) <= AOF_BUFFER_SIZE → logged a = encode_all vs0 →
  forallb resp_ok vs0 = true → forallb resp_ok vs = true →
  ∃ a1 a2, append_all vs a = (Ok tt, a1) ∧ logged a1 = logged a ++ encode_all vs ∧
    file a `prefix_of` file a1 ∧ Z.of_nat (length (buffer a1)) <= AOF_BUFFER_SIZE ∧
    AOF_destroy a1 = (Ok tt, a2) ∧ buffer a2 = [] ∧
    feed [file a2] RespParser_init = Ok (vs0 ++ vs, RespParser_init).
Proof.
  intros Hb Hl Hok0 Hok. destruct (append_all_ok vs a Hb) as (a1 & H1 & L1 & P1 & B1).
  destruct (AOF_flush_ok a1) as (a2 & H2 & F2 & B2 & _). exists a1, a2. split_and!; try done.
  erewrite feed_append; [| |done]. 2:{ simpl. rewrite app_nil_r, F2, L1, Hl, <- encode_all_app.
    apply append_encode_all; [by rewrite forallb_app, Hok0|done..]. }
  done.
Qed.
End AOF.

Lemma aof_log_complete_witness :
  let clock := λ i, Z.of_nat i * 2000000000 in
  let v := Array (Some [SimpleString (str "SET"); SimpleString (str "k"); Integer 1]) in
  ∃ a1 a2, append_all clock [v; v] (AOF_init clock (encode v)) = (Ok tt, a1) ∧
    logged a1 = logged (AOF_init clock (encode v)) ++ encode_all [v; v] ∧
    file (AOF_init clock (encode v)) `prefix_of` file a1 ∧
    Z.of_nat (length (buffer a1)) <= AOF_BUFFER_SIZE ∧
    AOF_destroy clock a1 = (Ok tt, a2) ∧ buffer a2 = [] ∧
    feed [file a2] RespParser_init = Ok ([v] ++ [v; v], RespParser_init).
Proof.
  intros clock v. apply (aof_log_complete clock [v] [v; v] (AOF_init clock (encode v))); by vm_compute.
Defined.
