(* ===== verification/Socket.v ===== *)
(** * Sockets (util/Socket.h, util/Socket.cpp, Server::send, Server::recv)

    [Socket] owns a descriptor: moving transfers it, destruction closes it.  The
    descriptors the process has open and those it has closed, in order, are the
    state.  The system calls are parameters: a loop around a call takes the list
    of the answers the kernel gives, one per call; running out of answers is a
    call that never returns. *)
From Stdlib Require Import ZArith Ascii String Lia.
From stdpp Require Import base numbers list strings gmap.
From S2P Require Import Prelude CppStd RespValue RespParser.
Local Open Scope Z_scope.

(** ** Ownership of descriptors *)

(** [parser_] is [None] in an object whose parser was moved out. *)
Record Socket := mkSocket { fd_ : Z; parser_ : option RespParser }.

(** The open descriptors, the arguments of [close] so far, and the live objects. *)
Record Process := mkProcess { open_fds : gset Z; closed : list Z; objects : gmap nat Socket }.

Definition os_close (fd : Z) : M Process unit :=
  mmodify (λ p, mkProcess (open_fds p ∖ {[fd]}) (closed p ++ [fd]) (objects p)).
Definition put_object (i : nat) (s : Socket) : M Process unit :=
  mmodify (λ p, mkProcess (open_fds p) (closed p) (<[i := s]> (objects p))).

(** The object [i], which must be alive. *)
Definition object (i : nat) : M Process Socket :=
  p ← mget; match objects p !! i with Some s => mret s | None => mub end.

(** [Socket(domain, type, protocol)] and [Socket(int fd)]: [fd] is the kernel's
    answer, [-1] for an error; the private constructor keeps it either way. *)
Definition Socket_new (i : nat) (fd : Z) : M Process unit :=
  if fd =? -1 then mthrow (RuntimeError "Socket error: ")
  else
    _ ← mmodify (λ p, mkProcess (open_fds p ∪ {[fd]}) (closed p) (objects p));
    put_object i (mkSocket fd (Some RespParser_init)).
Definition Socket_of_fd (i : nat) (fd : Z) : M Process unit :=
  _ ← mmodify (λ p, mkProcess (if fd =? -1 then open_fds p else open_fds p ∪ {[fd]}) (closed p) (objects p));
  put_object i (mkSocket fd (Some RespParser_init)).

(** [Socket(Socket &&other)]: a new object [i] from object [j]. *)
Definition Socket_move (i j : nat) : M Process unit :=
  other ← object j;
  _ ← put_object j (mkSocket (-1) None);
  put_object i (mkSocket (fd_ other) (parser_ other)).

(** [operator=(Socket &&other)]. *)
Definition Socket_assign (i j : nat) : M Process unit :=
  if (i =? j)%nat then mret tt
  else
    this ← object i;
    other ← object j;
    _ ← (if fd_ this =? -1 then mret tt else os_close (fd_ this));
    _ ← put_object j (mkSocket (-1) None);
    put_object i (mkSocket (fd_ other) (parser_ other)).

(** [~Socket()]. *)
Definition Socket_destroy (i : nat) : M Process unit :=
  this ← object i;
  _ ← (if fd_ this =? -1 then mret tt else os_close (fd_ this));
  mmodify (λ p, mkProcess (open_fds p) (closed p) (delete i (objects p))).

(** ** Sending: [Server::send] *)

Inductive send_answer := Sent (n : nat) | SendClosed | SendIntr | SendBlocked | SendError.

#[global] Instance send_answer_eq_dec : EqDecision send_answer.
Proof. solve_decision. Defined.

(** Returns what was sent, and whether the connection was found closed.
    [SendBlocked] stands for EBADF, EAGAIN and EWOULDBLOCK. *)
Fixpoint Server_send_loop (ks : list send_answer) (data sent : bytes) : res (bytes * bool) :=
  match data with
  | [] => Ok (sent, false)
  | _ =>
      match ks with
      | [] => OutOfFuel
      | Sent n :: ks' => Server_send_loop ks' (drop n data) (sent ++ take n data)
      | SendClosed :: _ => Ok (sent, true)
      | SendIntr :: ks' => Server_send_loop ks' data sent
      | SendBlocked :: _ => Ok (sent, false)
      | SendError :: _ => Throw (RuntimeError "Send error: ")
      end
  end.
Definition Server_send (ks : list send_answer) (data : bytes) : res (bytes * bool) :=
  Server_send_loop ks data [].

(** ** Receiving: [Server::recv] *)

(** [RecvError del]: any other error, [del] telling whether [epoll_ctl] succeeded. *)
Inductive recv_answer := Got (b : bytes) | RecvClosed | RecvBlocked | RecvError (del : bool).

(** Returns what was received, and whether the connection was erased. *)
Fixpoint Server_recv_loop (ks : list recv_answer) (ret : bytes) : res (bytes * bool) :=
  match ks with
  | [] => OutOfFuel
  | Got b :: ks' => Server_recv_loop ks' (ret ++ b)
  | RecvClosed :: _ => Ok (ret, true)
  | RecvBlocked :: _ => Ok (ret, false)
  | RecvError true :: _ => Ok (ret, true)
  | RecvError false :: _ => Throw (RuntimeError "Epoll delete error: ")
  end.
Definition Server_recv (ks : list recv_answer) : res (bytes * bool) := Server_recv_loop ks [].

(** ** Accepting: [Socket::accept] *)

Inductive accept_answer := Accepted (fd : Z) | AcceptIntr | AcceptBlocked | AcceptError.

(** The descriptor of the returned socket, [-1] when none is waiting. *)
Fixpoint Socket_accept (ks : list accept_answer) : res (Z * list accept_answer) :=
  match ks with
  | [] => OutOfFuel
  | Accepted fd :: ks' => Ok (fd, ks')
  | AcceptIntr :: ks' => Socket_accept ks'
  | AcceptBlocked :: ks' => Ok (-1, ks')
  | AcceptError :: _ => Throw (RuntimeError "Accept error: ")
  end.

(** ** The invariant of ownership *)

(** Every open descriptor belongs to exactly one object, objects hold open
    descriptors or none, and none was closed twice or while owned. *)
Record owned_fds (p : Process) : Prop := {
  of_open : ∀ i s, objects p !! i = Some s → fd_ s ≠ -1 → fd_ s ∈ open_fds p;
  of_owner : ∀ fd, fd ∈ open_fds p → ∃ i s, objects p !! i = Some s ∧ fd_ s = fd;
  of_unique : ∀ i j s t, objects p !! i = Some s → objects p !! j = Some t →
    fd_ s = fd_ t → fd_ s ≠ -1 → i = j;
  of_noneg : -1 ∉ open_fds p
}.

(** One operation on the objects of the process. *)
Inductive sock_op :=
  | SNew (i : nat) (fd : Z) | SOfFd (i : nat) (fd : Z) | SMove (i j : nat)
  | SAssign (i j : nat) | SDestroy (i : nat).

Definition sock_step (op : sock_op) : M Process unit :=
  match op with
  | SNew i fd => Socket_new i fd
  | SOfFd i fd => Socket_of_fd i fd
  | SMove i j => Socket_move i j
  | SAssign i j => Socket_assign i j
  | SDestroy i => Socket_destroy i
  end.

(** What the language and the kernel guarantee of the operation: constructors
    make a new object, the others use live ones, and the kernel hands out
    descriptors that are not open. *)
Definition sock_op_ok (op : sock_op) (p : Process) : Prop :=
  match op with
  | SNew i fd => objects p !! i = None ∧ fd ∉ open_fds p
  | SOfFd i fd => objects p !! i = None ∧ fd ∉ open_fds p
  | SMove i j => objects p !! i = None ∧ is_Some (objects p !! j)
  | SAssign i j => is_Some (objects p !! i) ∧ is_Some (objects p !! j)
  | SDestroy i => is_Some (objects p !! i)
  end.

(** The descriptors an operation closes: what its target owned. *)
Definition releases (op : sock_op) (p : Process) : list Z :=
  let own i := match objects p !! i with
               | Some s => if fd_ s =? -1 then [] else [fd_ s]
               | None => []
               end in
  match op with
  | SAssign i j => if (i =? j)%nat then [] else own i
  | SDestroy i => own i
  | _ => []
  end.

(** ** Preservation *)

Lemma object_run i s p : objects p !! i = Some s → object i p = (Ok s, p).
Proof. intros H. unfold object. erewrite M_bind_Ok by done. by rewrite H. Qed.

(** A new object for a descriptor that was not open, or for none. *)
Lemma owned_add i fd ps p :
  owned_fds p → objects p !! i = None → fd ∉ open_fds p →
  owned_fds (mkProcess (if fd =? -1 then open_fds p else open_fds p ∪ {[fd]}) (closed p)
    (<[i := mkSocket fd ps]> (objects p))).
Proof.
  intros [H1 H2 H3 H4] Hi Hfd. destruct (Z.eqb_spec fd (-1)) as [->|Hne].
  - constructor; simpl.
    + intros k s Hk Hs. apply lookup_insert_Some in Hk as [[<- <-]|[_ Hk]]; [done|]. by apply (H1 k).
    + intros f Hf. destruct (H2 f Hf) as (k & s & Hk & Hs). exists k, s. split; [|done].
      rewrite lookup_insert_ne; congruence.
    + intros k l s t Hk Hl Heq Hs.
      apply lookup_insert_Some in Hk as [[<- <-]|[? Hk]]; [done|].
      apply lookup_insert_Some in Hl as [[<- <-]|[? Hl]]; [done|]. by apply (H3 k l s t).
    + done.
  - constructor; simpl.
    + intros k s Hk Hs. apply lookup_insert_Some in Hk as [[<- <-]|[_ Hk]]; [set_solver|].
      specialize (H1 k s Hk Hs). set_solver.
    + intros f [Hf|Hf%elem_of_singleton]%elem_of_union.
      * destruct (H2 f Hf) as (k & s & Hk & Hs). exists k, s. split; [|done]. rewrite lookup_insert_ne; congruence.
      * subst f. exists i, (mkSocket fd ps). by rewrite lookup_insert_eq.
    + intros k l s t Hk Hl Heq Hs.
      apply lookup_insert_Some in Hk as [[<- <-]|[? Hk]]; apply lookup_insert_Some in Hl as [[<- <-]|[? Hl]]; simpl in *.
      * done.
      * destruct Hfd. rewrite Heq. apply (H1 l); congruence.
      * destruct Hfd. rewrite <- Heq. by apply (H1 k).
      * by apply (H3 k l s t).
    + set_solver.
Qed.

(** Dropping what object [i] holds, with or without the object itself. *)
Lemma owned_drop i s p (m : gmap nat Socket) :
  owned_fds p → objects p !! i = Some s →
  (∀ k t, m !! k = Some t → (k ≠ i ∧ objects p !! k = Some t) ∨ fd_ t = -1) →
  (∀ k t, k ≠ i → objects p !! k = Some t → m !! k = Some t) →
  owned_fds (mkProcess (if fd_ s =? -1 then open_fds p else open_fds p ∖ {[fd_ s]})
    (if fd_ s =? -1 then closed p else closed p ++ [fd_ s]) m).
Proof.
  intros [H1 H2 H3 H4] Hi Hm1 Hm2. constructor; simpl.
  - intros k t Hk Ht. destruct (Hm1 k t Hk) as [[Hne Hk']|]; [|done].
    pose proof (H1 k t Hk' Ht). destruct (Z.eqb_spec (fd_ s) (-1)); [done|].
    apply elem_of_difference. split; [done|]. intros He%elem_of_singleton. destruct Hne. by apply (H3 k i t s).
  - intros f Hf. assert (f ∈ open_fds p ∧ f ≠ fd_ s) as [Hf' Hfs].
    { destruct (Z.eqb_spec (fd_ s) (-1)) as [E|E]; [|set_solver]. split; [done|]. intros ->. by rewrite E in Hf. }
    destruct (H2 f Hf') as (k & t & Hk & Ht). exists k, t. split; [|done].
    apply Hm2; [|done]. intros ->. congruence.
  - intros k l t u Hk Hl Heq Ht.
    destruct (Hm1 k t Hk) as [[_ Hk']|]; [|done]. destruct (Hm1 l u Hl) as [[_ Hl']|]; [|congruence].
    by apply (H3 k l t u).
  - case_match; set_solver.
Qed.

(** Handing the descriptor of [j] over to [i], which holds none. *)
Lemma owned_transfer i j s ps p (m : gmap nat Socket) :
  owned_fds p → objects p !! j = Some s → i ≠ j →
  (∀ t, objects p !! i = Some t → fd_ t = -1) →
  m = <[i := mkSocket (fd_ s) ps]> (<[j := mkSocket (-1) None]> (objects p)) →
  owned_fds (mkProcess (open_fds p) (closed p) m).
Proof.
  intros [H1 H2 H3 H4] Hj Hne Hi ->.
  assert (∀ k t, <[i := mkSocket (fd_ s) ps]> (<[j := mkSocket (-1) None]> (objects p)) !! k = Some t →
    fd_ t ≠ -1 → (k = i ∧ fd_ t = fd_ s) ∨ (k ≠ i ∧ k ≠ j ∧ objects p !! k = Some t)) as Hm.
  { intros k t Hk Ht. apply lookup_insert_Some in Hk as [[<- <-]|[? Hk]]; [by left|].
    apply lookup_insert_Some in Hk as [[<- <-]|[? Hk]]; [done|]. by right. }
  constructor; simpl.
  - intros k t Hk Ht. destruct (Hm k t Hk Ht) as [[-> E]|(_ & _ & Hk')]; [|by apply (H1 k)].
    rewrite E in *. by apply (H1 j).
  - intros f Hf. destruct (H2 f Hf) as (k & t & Hk & Ht). destruct (decide (k = j)) as [->|Hkj].
    + exists i, (mkSocket (fd_ s) ps). rewrite lookup_insert_eq. split; [done|]. simpl. congruence.
    + exists k, t. split; [|done]. rewrite lookup_insert_ne, lookup_insert_ne; [done|done|].
      intros <-. specialize (Hi t Hk). congruence.
  - intros k l t u Hk Hl Heq Ht.
    destruct (Hm k t Hk Ht) as [[-> E]|(Ha & Hb & Hk')], (Hm l u Hl) as [[-> E']|(Hc & Hd & Hl')]; try congruence.
    + exfalso. apply Hd. apply (H3 l j u s); congruence.
    + exfalso. apply Hb. apply (H3 k j t s); congruence.
    + by apply (H3 k l t u).
  - done.
Qed.

Lemma release_run s p :
  (if fd_ s =? -1 then mret tt else os_close (fd_ s)) p =
    (Ok tt, mkProcess (if fd_ s =? -1 then open_fds p else open_fds p ∖ {[fd_ s]})
              (if fd_ s =? -1 then closed p else closed p ++ [fd_ s]) (objects p)).
Proof. destruct (fd_ s =? -1); [by destruct p|done]. Qed.

(** ** Properties *)

(** C33: descriptors are owned: every construction, move, assignment (also to
    itself) and destruction keeps each open descriptor in exactly one object,
    closes exactly the descriptor its target owned, which was open until then,
    and so never leaks one and never closes one twice. *)
Theorem socket_ownership (op : sock_op) (p : Process) :
  owned_fds p → sock_op_ok op p →
  ∃ r p', sock_step op p = (r, p') ∧ owned_fds p' ∧ closed p' = closed p ++ releases op p ∧
    (∀ fd, fd ∈ releases op p → fd ∈ open_fds p ∧ fd ∉ open_fds p') ∧
    (r = Ok tt ∨ (∃ i, op = SNew i (-1)) ∧ p' = p).
Proof.
  intros Hp Hok. pose proof (of_noneg p Hp) as Hneg.
  destruct op as [i fd|i fd|i j|i j|i]; simpl in Hok |- *.
  - destruct Hok as [Hi Hfd]. unfold Socket_new. destruct (Z.eqb_spec fd (-1)) as [->|Hne].
    + exists (Throw (RuntimeError "Socket error: ")), p. rewrite app_nil_r. split_and!; try done.
      * intros ? []%elem_of_nil.
      * right. eauto.
    + eexists _, _. split; [done|]. rewrite app_nil_r. split_and!; [|done|by intros ? []%elem_of_nil|by left].
      pose proof (owned_add i fd (Some RespParser_init) p Hp Hi Hfd) as H.
      by destruct (Z.eqb_spec fd (-1)).
  - destruct Hok as [Hi Hfd]. eexists _, _. split; [done|]. rewrite app_nil_r.
    split_and!; [|done|by intros ? []%elem_of_nil|by left].
    exact (owned_add i fd (Some RespParser_init) p Hp Hi Hfd).
  - destruct Hok as [Hi [s Hs]]. unfold Socket_move. rewrite (M_bind_Ok _ _ _ _ _ (object_run j s p Hs)).
    eexists _, _. split; [done|]. rewrite app_nil_r. split_and!; [|done|by intros ? []%elem_of_nil|by left].
    eapply (owned_transfer i j s (parser_ s) p); [done|done|congruence|congruence|done].
  - destruct Hok as [[s Hs] [t Ht]]. unfold Socket_assign. destruct (Nat.eqb_spec i j) as [->|Hne].
    { exists (Ok tt), p. rewrite app_nil_r. split_and!; try done; [by intros ? []%elem_of_nil|by left]. }
    rewrite (M_bind_Ok _ _ _ _ _ (object_run i s p Hs)), (M_bind_Ok _ _ _ _ _ (object_run j t p Ht)).
    rewrite (M_bind_Ok _ _ _ _ _ (release_run s p)). eexists _, _. split; [done|]. rewrite Hs. split_and!.
    + set (p1 := mkProcess (if fd_ s =? -1 then open_fds p else open_fds p ∖ {[fd_ s]})
        (if fd_ s =? -1 then closed p else closed p ++ [fd_ s]) (<[i := mkSocket (-1) None]> (objects p))).
      assert (owned_fds p1) as Hp1.
      { apply owned_drop with (i := i); [done|done|..].
        - intros k u Hk. apply lookup_insert_Some in Hk as [[<- <-]|[? Hk]]; [by right|left; done].
        - intros k u Hk Hu. by rewrite lookup_insert_ne. }
      apply (owned_transfer i j t (parser_ t) p1); [done|simpl; by rewrite lookup_insert_ne|done|..].
      * simpl. rewrite lookup_insert_eq. by intros u [= <-].
      * simpl. rewrite (insert_insert_ne (objects p) j i) by done. by rewrite insert_insert_eq.
    + simpl. destruct (fd_ s =? -1); [by rewrite app_nil_r|done].
    + simpl. destruct (Z.eqb_spec (fd_ s) (-1)); [by intros ? []%elem_of_nil|].
      intros fd ->%list_elem_of_singleton. split; [by apply (of_open p Hp i)|set_solver].
    + by left.
  - destruct Hok as [s Hs]. unfold Socket_destroy. rewrite (M_bind_Ok _ _ _ _ _ (object_run i s p Hs)).
    rewrite (M_bind_Ok _ _ _ _ _ (release_run s p)). eexists _, _. split; [done|]. rewrite Hs. split_and!.
    + apply owned_drop with (i := i); [done|done|..].
      * intros k u [? Hk]%lookup_delete_Some. by left.
      * intros k u Hk Hu. by rewrite lookup_delete_ne.
    + simpl. destruct (fd_ s =? -1); [by rewrite app_nil_r|done].
    + simpl. destruct (Z.eqb_spec (fd_ s) (-1)); [by intros ? []%elem_of_nil|].
      intros fd ->%list_elem_of_singleton. split; [by apply (of_open p Hp i)|set_solver].
    + by left.
Qed.

(** What a call that returns has sent: everything, unless it was cut short. *)
Lemma Server_send_loop_outcome ks data sent t closed :
  Server_send_loop ks data sent = Ok (t, closed) →
  ∃ u, t = sent ++ u ∧ u `prefix_of` data ∧ (u = data ∨ closed = true ∨ SendBlocked ∈ ks).
Proof.
  revert data sent. induction ks as [|k ks IH]; intros data sent H.
  { destruct data; [|done]. injection H as <- <-. exists []. rewrite app_nil_r. auto. }
  destruct data as [|c data]; [injection H as <- <-; exists []; rewrite app_nil_r; auto|].
  destruct k as [n| | | |]; cbn [Server_send_loop] in H; try done.
  - apply IH in H as (u & -> & [v Hv] & Hor). exists (take n (c :: data) ++ u). rewrite (assoc_L app). split_and!; [done| |].
    + exists v. by rewrite <- (assoc_L app), <- Hv, take_drop.
    + destruct Hor as [->|[?|?]]; [left; by rewrite take_drop|auto|right; right; by right].
  - injection H as <- <-. exists []. rewrite app_nil_r. split_and!; [done|apply prefix_nil|auto].
  - apply IH in H as (u & -> & Hp & Hor). exists u. split_and!; [done|done|].
    destruct Hor as [?|[?|?]]; [auto|auto|right; right; by right].
  - injection H as <- <-. exists []. rewrite app_nil_r. split_and!; [done|apply prefix_nil|right; right; left].
Qed.

Lemma Server_send_outcome ks data t closed :
  Server_send ks data = Ok (t, closed) →
  t `prefix_of` data ∧ (t = data ∨ closed = true ∨ SendBlocked ∈ ks).
Proof. intros (u & -> & H)%Server_send_loop_outcome. done. Qed.

(** Whatever the kernel answers, [send] hands over a prefix of the data;
    with answers that only accept bytes or interrupt, and enough of them, it
    hands over all of it; when the socket would block or is closed the rest is
    dropped. *)
Theorem server_send_prefix (ks : list send_answer) (data : bytes) :
  (∀ sent b, Server_send ks data = Ok (sent, b) → sent `prefix_of` data) ∧
  (Forall (λ k, k = SendIntr ∨ ∃ n, k = Sent n ∧ (0 < n)%nat) ks →
   (length data <= length (filter (λ k, k ≠ SendIntr) ks))%nat →
   Server_send ks data = Ok (data, false)).
Proof.
  split.
  - intros sent b H. by apply (Server_send_outcome ks data sent b).
  - unfold Server_send. change (Ok (data, false)) with (Ok (([] : bytes) ++ data, false)). generalize ([] : bytes) as pre. revert data.
    induction ks as [|k ks IH]; intros data pre Hks Hlen; destruct data as [|c data]; simpl in Hlen;
      try (simpl; by rewrite app_nil_r); [lia|].
    apply Forall_cons in Hks as [Hk Hks]. rewrite filter_cons in Hlen. destruct Hk as [->|(n & -> & Hn)].
    + rewrite decide_False in Hlen by tauto. cbn [Server_send_loop]. by apply IH.
    + rewrite decide_True in Hlen by done. simpl in Hlen. cbn [Server_send_loop]. rewrite IH; [|done|].
      * by rewrite <- (assoc_L app), take_drop.
      * rewrite length_drop. simpl. lia.
Qed.

(** What [recv] returns is what the kernel delivered, in order. *)
Lemma recv_loop_got bs ks ret :
  Server_recv_loop (map Got bs ++ ks) ret = Server_recv_loop ks (ret ++ concat bs).
Proof.
  revert ret. induction bs as [|b bs IH]; intros ret; simpl; [by rewrite app_nil_r|].
  rewrite IH. by rewrite (assoc_L app).
Qed.

(** ** Witnesses *)

Definition two_sockets : Process :=
  mkProcess {[5; 6]} [] {[0%nat := mkSocket 5 None; 1%nat := mkSocket 6 None]}.

Lemma two_sockets_owned : owned_fds two_sockets.
Proof.
  assert (∀ i s, objects two_sockets !! i = Some s →
    (i = 0%nat ∧ s = mkSocket 5 None) ∨ (i = 1%nat ∧ s = mkSocket 6 None)) as H.
  { intros i s Hi. unfold two_sockets in Hi. simpl in Hi.
    apply lookup_insert_Some in Hi as [[<- <-]|[_ Hi]]; [by left|].
    apply lookup_singleton_Some in Hi as [<- <-]. by right. }
  constructor; simpl.
  - intros i s [[-> ->]|[-> ->]]%H _; simpl; set_solver.
  - intros fd [->%elem_of_singleton| ->%elem_of_singleton]%elem_of_union; [exists 0%nat|exists 1%nat]; by eexists.
  - by intros i j s t [[-> ->]|[-> ->]]%H [[-> ->]|[-> ->]]%H.
  - set_solver.
Qed.

Lemma socket_ownership_witness :
  ∃ p', sock_step (SAssign 0 1) two_sockets = (Ok tt, p') ∧ owned_fds p' ∧ closed p' = [5].
Proof.
  destruct (socket_ownership (SAssign 0 1) two_sockets) as (r & p' & H & Ho & Hc & _ & Hr).
  - apply two_sockets_owned.
  - split; by eexists.
  - destruct Hr as [-> | [[i Hi] _]]; [|done]. by exists p'.
Defined.
