(* ===== verification/Setup.v ===== *)
(** * Setting up and taking down descriptors (util/Socket, server/Server, util/ThreadPool)

    The calls to the kernel that the rest of the development takes for granted:
    the socket functions [bind], [connect] and [listen], the constructor and the
    destructor of the server, the registration of an accepted or dialled
    connection.  The kernel is a parameter: a function from what happened so far
    and a call to the answer.  An object that goes out of scope by an exception
    closes its descriptor ([guard]); a plain [int] does not. *)
From Stdlib Require Import ZArith Ascii String Lia.
From stdpp Require Import base numbers list strings gmap.
From S2P Require Import Prelude CppStd.
Local Open Scope Z_scope.

Inductive call :=
  | Ksocket | Kinet_pton (ip : bytes) | Kbind (fd port : Z) | Klisten (fd backlog : Z)
  | Kgetaddrinfo (ip service : bytes) | Kconnect (fd : Z) | Kfreeaddrinfo
  | Kepoll_create | Keventfd | Kfcntl_setfl (fd arg : Z) | Kepoll_add (ep fd : Z) | Kwrite (fd : Z) | Kclose (fd : Z).

(** The calls so far, and the descriptors that are open. *)
Record Kern := mkKern { trace : list call; fds : gset Z }.

Definition creates (c : call) : bool := match c with Ksocket | Kepoll_create | Keventfd => true | _ => false end.
Definition O_NONBLOCK : Z := 2048.

(** The byte order of the network. *)
Definition htons (port : Z) : Z := Z.lor (Z.shiftl (Z.land port 255) 8) (Z.shiftr port 8).

Section kernel.
Context (kernel : Kern → call → Z).

Definition sys (c : call) : M Kern Z :=
  k ← mget;
  let a := kernel k c in
  _ ← mput (mkKern (trace k ++ [c])
        (match c with
         | Kclose fd => fds k ∖ {[fd]}
         | _ => if creates c && negb (a =? -1) then {[a]} ∪ fds k else fds k
         end));
  mret a.

(** Leaving the scope of an object by an exception runs its destructor. *)
Definition guard {A} (destructor : M Kern unit) (m : M Kern A) : M Kern A :=
  λ k, match m k with
       | (Throw e, k') => (Throw e, (destructor k').2)
       | r => r
       end.

Definition close_fd (fd : Z) : M Kern unit := _ ← sys (Kclose fd); mret tt.

(** ** Socket *)

Definition Socket_open : M Kern Z :=
  fd ← sys Ksocket;
  if fd =? -1 then mthrow (RuntimeError "Socket error: ") else mret fd.

Definition Socket_bind (fd_ : Z) (ip : bytes) (port : Z) : M Kern unit :=
  a ← sys (Kinet_pton ip);
  if a <=? 0 then mthrow (RuntimeError "Invalid IP address: ")
  else
    r ← sys (Kbind fd_ (htons port));
    if r =? -1 then mthrow (RuntimeError "Bind error: ") else mret tt.

(** [found]: getaddrinfo stored an address. *)
Definition Socket_connect (found : bool) (fd_ : Z) (ip : bytes) (port : Z) : M Kern unit :=
  gai_ret ← sys (Kgetaddrinfo ip (to_string port));
  if negb (gai_ret =? 0) then mthrow (RuntimeError "Gethost error: ")
  else if negb found then mthrow (RuntimeError "Gethost error: no address found")
  else
    r ← sys (Kconnect fd_);
    _ ← sys Kfreeaddrinfo;
    if r =? -1 then mthrow (RuntimeError "Connect error!!!: ") else mret tt.

Definition Socket_listen (fd_ backlog : Z) : M Kern unit :=
  r ← sys (Klisten fd_ backlog);
  if r =? -1 then mthrow (RuntimeError "Listen error: ") else mret tt.

(** ** Server *)

(** The first call sets the flags to none where it means to read them. *)
Definition set_nonblocking (fd : Z) : M Kern unit :=
  flags ← sys (Kfcntl_setfl fd 0);
  if flags =? -1 then mthrow (RuntimeError "fcntl(F_GETFL) error: ")
  else
    r ← sys (Kfcntl_setfl fd (Z.lor flags O_NONBLOCK));
    if r =? -1 then mthrow (RuntimeError "fcntl(F_SETFL) error: ") else mret tt.

Definition epoll_add (epoll_fd fd : Z) (what : string) : M Kern unit :=
  r ← sys (Kepoll_add epoll_fd fd);
  if r =? -1 then mthrow (RuntimeError what) else mret tt.

Record Descriptors := mkDescriptors { server_sock : Z; epoll_fd : Z; eventfd_fd : Z }.

(** [Server::Server], up to the callbacks. *)
Definition Server_construct (port : Z) : M Kern Descriptors :=
  sock ← Socket_open;
  guard (close_fd sock) (
    _ ← Socket_bind sock (str "0.0.0.0") port;
    _ ← Socket_listen sock 128;
    ep ← sys Kepoll_create;
    if ep =? -1 then mthrow (RuntimeError "Epoll create error: ")
    else
      _ ← set_nonblocking sock;
      _ ← epoll_add ep sock "Epoll add error: ";
      ev ← sys Keventfd;
      if ev =? -1 then mthrow (RuntimeError "Eventfd error: ")
      else
        _ ← epoll_add ep ev "Epoll add eventfd error: ";
        mret (mkDescriptors sock ep ev)).

(** [Server::~Server] and the destructor of the listening socket. *)
Definition Server_destruct (d : Descriptors) : M Kern unit :=
  _ ← (if epoll_fd d =? -1 then mret tt else close_fd (epoll_fd d));
  _ ← (if eventfd_fd d =? -1 then mret tt else close_fd (eventfd_fd d));
  if server_sock d =? -1 then mret tt else close_fd (server_sock d).

(** [wakeEpoll] reports a failing write and goes on. *)
Definition wakeEpoll (eventfd_fd : Z) : M Kern unit := _ ← sys (Kwrite eventfd_fd); mret tt.

(** [Server::accept] once the kernel gave a connection. *)
Definition Server_accept_setup (epoll_fd fd : Z) : M Kern unit :=
  guard (close_fd fd) (_ ← set_nonblocking fd; epoll_add epoll_fd fd "Epoll add error: ").

(** [Server::connect] up to the greeting. *)
Definition Server_connect_setup (epoll_fd : Z) (found : bool) (ip : bytes) (port : Z) : M Kern Z :=
  fd ← Socket_open;
  guard (close_fd fd) (
    _ ← Socket_connect found fd ip port;
    _ ← set_nonblocking fd;
    _ ← epoll_add epoll_fd fd "Epoll add error: ";
    mret fd).

(** [Server::joinCluster]: the talk with the bootstrap node comes before the
    registration. *)
Definition Server_join_setup (epoll_fd : Z) (found : bool) (ip : bytes) (port : Z) (talk : Z → res unit) : M Kern Z :=
  fd ← Socket_open;
  guard (close_fd fd) (
    _ ← Socket_connect found fd ip port;
    _ ← set_nonblocking fd;
    _ ← mlift (talk fd);
    _ ← epoll_add epoll_fd fd "Epoll add error: ";
    mret fd).
End kernel.

(** [bindToCPU(i % hardware_concurrency())]: the processor of worker [i]; the
    count of processors may be reported as zero. *)
Definition worker_cpu (i cores : Z) : res Z := if cores =? 0 then UB else Ok (i mod cores).
Definition ThreadPool_bindToCPU (ret : Z) : res unit :=
  if negb (ret =? 0) then Throw (RuntimeError "Set affinity failed") else Ok tt.

(** ** Calls that neither make nor close a descriptor *)

Section laws.
Context (kernel : Kern → call → Z).

(** A new descriptor is a number that is not in use. *)
Definition kernel_ok : Prop :=
  ∀ k c, creates c = true → kernel k c = -1 ∨ (0 <= kernel k c ∧ kernel k c ∉ fds k).

(** What a call leaves. *)
Definition called (c : call) (k : Kern) : Kern :=
  mkKern (trace k ++ [c])
    (match c with
     | Kclose fd => fds k ∖ {[fd]}
     | _ => if creates c && negb (kernel k c =? -1) then {[kernel k c]} ∪ fds k else fds k
     end).
Lemma sys_eq c k : sys kernel c k = (Ok (kernel k c), called c k).
Proof. done. Qed.

Definition plain {A} (m : M Kern A) : Prop := ∀ k, fds (m k).2 = fds k ∧ defined (m k).1.

Definition is_plain (c : call) : bool := match c with Kclose _ => false | _ => negb (creates c) end.

Lemma plain_sys c : is_plain c = true → plain (sys kernel c).
Proof. intros H k. by destruct c. Qed.
Lemma plain_ret {A} (a : A) : plain (mret a).
Proof. by intros k. Qed.
Lemma plain_throw {A} e : plain (mthrow (A := A) e).
Proof. by intros k. Qed.
Lemma plain_bind {A B} (m : M Kern A) (f : A → M Kern B) : plain m → (∀ a, plain (f a)) → plain (a ← m; f a).
Proof.
  intros Hm Hf k. destruct (Hm k) as [H1 H2]. unfold mbind, M_bind. destruct (m k) as [[a| | |] k']; simpl in *; try done.
  destruct (Hf a k') as [H3 H4]. by rewrite H3.
Qed.
Lemma plain_lift {A} (r : res A) : defined r → plain (mlift r).
Proof. intros H k. by destruct r. Qed.

Ltac plain :=
  repeat first [ apply plain_ret | apply plain_throw | apply plain_sys; reflexivity | apply plain_bind; [|intros ?]
    | match goal with |- plain (if ?b then _ else _) => destruct b end ].

Lemma plain_Socket_bind fd ip port : plain (Socket_bind kernel fd ip port).
Proof. unfold Socket_bind. plain. Qed.
Lemma plain_Socket_listen fd n : plain (Socket_listen kernel fd n).
Proof. unfold Socket_listen. plain. Qed.
Lemma plain_Socket_connect found fd ip port : plain (Socket_connect kernel found fd ip port).
Proof. unfold Socket_connect. plain. Qed.
Lemma plain_set_nonblocking fd : plain (set_nonblocking kernel fd).
Proof. unfold set_nonblocking. plain. Qed.
Lemma plain_epoll_add ep fd what : plain (epoll_add kernel ep fd what).
Proof. unfold epoll_add. plain. Qed.

(** A scope around plain calls: by an exception its descriptor is closed, and
    nothing else happens to the descriptors. *)
Lemma guard_plain {A} fd (m : M Kern A) k :
  plain m →
  match guard (close_fd kernel fd) m k with
  | (Ok _, k') => fds k' = fds k
  | (Throw _, k') => fds k' = fds k ∖ {[fd]}
  | _ => False
  end.
Proof.
  intros Hm. destruct (Hm k) as [H1 H2]. unfold guard. destruct (m k) as [[a|e| |] k']; simpl in *; try done. by rewrite H1.
Qed.

(** ** Nothing leaks from a connection that fails *)

Lemma open_eq k :
  Socket_open kernel k =
  if kernel k Ksocket =? -1 then (Throw (RuntimeError "Socket error: "), mkKern (trace k ++ [Ksocket]) (fds k))
  else (Ok (kernel k Ksocket), mkKern (trace k ++ [Ksocket]) ({[kernel k Ksocket]} ∪ fds k)).
Proof.
  unfold Socket_open. rewrite (M_bind_Ok _ _ _ _ _ (sys_eq Ksocket k)). unfold called. cbn [creates andb]. by destruct (kernel k Ksocket =? -1).
Qed.

Lemma open_guarded {A} (body : Z → M Kern A) k :
  kernel_ok → (∀ fd, plain (body fd)) →
  match (fd ← Socket_open kernel; guard (close_fd kernel fd) (body fd)) k with
  | (Ok _, k') => ∃ fd, 0 <= fd ∧ fd ∉ fds k ∧ fds k' = {[fd]} ∪ fds k
  | (Throw _, k') => fds k' = fds k
  | _ => False
  end.
Proof.
  intros Hk Hb. pose proof (Hk k Ksocket eq_refl) as Hf. pose proof (open_eq k) as Ho. destruct (Z.eqb_spec (kernel k Ksocket) (-1)) as [H1|H1].
  - by rewrite (M_bind_Throw _ _ _ _ _ Ho).
  - destruct Hf as [?|[H2 H3]]; [done|]. rewrite (M_bind_Ok _ _ _ _ _ Ho).
    pose proof (guard_plain (kernel k Ksocket) (body (kernel k Ksocket))
      (mkKern (trace k ++ [Ksocket]) ({[kernel k Ksocket]} ∪ fds k)) (Hb _)) as Hg.
    destruct (guard _ _ _) as [[a|e| |] k']; simpl in Hg; try done; [by exists (kernel k Ksocket)|set_solver].
Qed.
End laws.

Section theorems.
Context (kernel : Kern → call → Z).

(** Opening a connection leaks nothing, whichever call fails: dialling a peer
    and joining end with exactly one new descriptor, or with an exception and
    the descriptors there were before; an accepted descriptor that cannot be
    made non-blocking or registered is closed. *)
Theorem connection_no_leak (ep port : Z) (found : bool) (ip : bytes) (talk : Z → res unit) (k : Kern) :
  kernel_ok kernel → (∀ fd, defined (talk fd)) →
  (∀ m, m = Server_connect_setup kernel ep found ip port ∨ m = Server_join_setup kernel ep found ip port talk →
   match m k with
   | (Ok _, k') => ∃ fd, 0 <= fd ∧ fd ∉ fds k ∧ fds k' = {[fd]} ∪ fds k
   | (Throw _, k') => fds k' = fds k
   | _ => False
   end) ∧
  (∀ fd, match Server_accept_setup kernel ep fd k with
         | (Ok _, k') => fds k' = fds k
         | (Throw _, k') => fds k' = fds k ∖ {[fd]}
         | _ => False
         end).
Proof.
  intros Hk Ht. split.
  - intros m [->| ->]; apply open_guarded; try done; intros fd;
      repeat (apply plain_bind; [eauto using plain_Socket_connect, plain_set_nonblocking, plain_epoll_add, plain_lift|intros ?]);
      apply plain_ret.
  - intros fd. apply guard_plain, plain_bind; eauto using plain_set_nonblocking, plain_epoll_add.
Qed.

(** *** The constructor *)

(** Throws, or makes the calls; the descriptors stay. *)
Definition runs (m : M Kern unit) (k : Kern) (calls : list call) : Prop :=
  (∃ e k', m k = (Throw e, k') ∧ fds k' = fds k) ∨
  (∃ k', m k = (Ok tt, k') ∧ fds k' = fds k ∧ trace k' = trace k ++ calls).

Lemma runs_sys c (b : Z → bool) e k calls (m : M Kern unit) :
  is_plain c = true → runs m (called kernel c k) calls →
  runs (a ← sys kernel c; if b a then mthrow e else m) k (c :: calls).
Proof.
  intros Hc Hm. assert (fds (called kernel c k) = fds k) as Hf by (by destruct c). unfold runs.
  rewrite (M_bind_Ok _ _ _ _ _ (sys_eq kernel c k)). destruct (b _); [left; by eexists _, _|].
  destruct Hm as [(e' & k' & -> & H)|(k' & -> & H & Ht)]; [left|right].
  - eexists _, _. split; [done|]. by rewrite H.
  - eexists. split; [done|]. rewrite H, Ht. split; [done|]. cbn [called trace]. by rewrite <- app_assoc.
Qed.
Lemma runs_ret k : runs (mret tt) k [].
Proof. right. exists k. by rewrite app_nil_r. Qed.

Lemma Socket_bind_runs fd ip port k : runs (Socket_bind kernel fd ip port) k [Kinet_pton ip; Kbind fd (htons port)].
Proof. apply (runs_sys _ (λ a, a <=? 0)); [done|]. apply (runs_sys _ (λ a, a =? -1)); [done|apply runs_ret]. Qed.
Lemma Socket_listen_runs fd n k : runs (Socket_listen kernel fd n) k [Klisten fd n].
Proof. apply (runs_sys _ (λ a, a =? -1)); [done|apply runs_ret]. Qed.
Lemma epoll_add_runs ep fd what k : runs (epoll_add kernel ep fd what) k [Kepoll_add ep fd].
Proof. apply (runs_sys _ (λ a, a =? -1)); [done|apply runs_ret]. Qed.
Lemma set_nonblocking_runs fd k :
  ∃ flags, runs (set_nonblocking kernel fd) k [Kfcntl_setfl fd 0; Kfcntl_setfl fd (Z.lor flags O_NONBLOCK)].
Proof.
  exists (kernel k (Kfcntl_setfl fd 0)). unfold set_nonblocking, runs. rewrite (M_bind_Ok _ _ _ _ _ (sys_eq kernel _ k)).
  destruct (_ =? -1); [left; by eexists _, _|].
  destruct (runs_sys (Kfcntl_setfl fd (Z.lor (kernel k (Kfcntl_setfl fd 0)) O_NONBLOCK)) (λ a, a =? -1)
    (RuntimeError "fcntl(F_SETFL) error: ") (called kernel (Kfcntl_setfl fd 0) k) [] (mret tt) eq_refl (runs_ret _))
    as [(e & k' & H & Hf)|(k' & H & Hf & Ht)]; [left|right].
  - by eexists _, _.
  - eexists. split; [done|]. rewrite Hf, Ht. split; [done|]. cbn [called trace]. by rewrite <- app_assoc.
Qed.

(** Runs the next part of a body: an exception ends it. *)
Ltac next_part H :=
  destruct H as [(? & ? & H & ?)|(? & H & ? & ?)];
  [rewrite (M_bind_Throw _ _ _ _ _ H)|rewrite (M_bind_Ok _ _ _ _ _ H)].

(** What it does when nothing fails, in this order. *)
Definition construct_calls (port : Z) (d : Descriptors) (flags : Z) : list call :=
  [Ksocket; Kinet_pton (str "0.0.0.0"); Kbind (server_sock d) (htons port); Klisten (server_sock d) 128; Kepoll_create;
   Kfcntl_setfl (server_sock d) 0; Kfcntl_setfl (server_sock d) (Z.lor flags O_NONBLOCK);
   Kepoll_add (epoll_fd d) (server_sock d); Keventfd; Kepoll_add (epoll_fd d) (eventfd_fd d)].

(** The body of the constructor, on a socket. *)
Definition construct_body (port sock : Z) : M Kern Descriptors :=
  _ ← Socket_bind kernel sock (str "0.0.0.0") port;
  _ ← Socket_listen kernel sock 128;
  ep ← sys kernel Kepoll_create;
  if ep =? -1 then mthrow (RuntimeError "Epoll create error: ")
  else
    _ ← set_nonblocking kernel sock;
    _ ← epoll_add kernel ep sock "Epoll add error: ";
    ev ← sys kernel Keventfd;
    if ev =? -1 then mthrow (RuntimeError "Eventfd error: ")
    else
      _ ← epoll_add kernel ep ev "Epoll add eventfd error: ";
      mret (mkDescriptors sock ep ev).

Lemma construct_body_spec port sock k :
  kernel_ok kernel →
  match construct_body port sock k with
  | (Ok d, k') =>
      server_sock d = sock ∧ (∃ flags rest, trace k' = trace k ++ rest ∧ Ksocket :: rest = construct_calls port d flags) ∧
      fds k' = {[eventfd_fd d]} ∪ ({[epoll_fd d]} ∪ fds k) ∧
      0 <= epoll_fd d ∧ 0 <= eventfd_fd d ∧ epoll_fd d ∉ fds k ∧ eventfd_fd d ∉ {[epoll_fd d]} ∪ fds k
  | (Throw _, k') => ∃ leaked, fds k' = leaked ∪ fds k ∧ (size leaked <= 2)%nat
  | _ => False
  end.
Proof.
  intros Hk. unfold construct_body.
  pose proof (Socket_bind_runs sock (str "0.0.0.0") port k) as Rb. next_part Rb; [exists ∅; rewrite size_empty; split; [set_solver|lia]|].
  rename x into k1. pose proof (Socket_listen_runs sock 128 k1) as Rl. next_part Rl; [exists ∅; rewrite size_empty; split; [set_solver|lia]|].
  rename x into k2. rewrite (M_bind_Ok _ _ _ _ _ (sys_eq kernel _ k2)).
  destruct (Hk k2 Kepoll_create eq_refl) as [Hep|[Hep Hnew]].
  { rewrite Hep. exists ∅. rewrite size_empty. unfold called. cbn. rewrite Hep. split; [set_solver|lia]. }
  set (ep := kernel k2 Kepoll_create) in *. destruct (Z.eqb_spec ep (-1)) as [E|_]; [lia|].
  set (k3 := called kernel Kepoll_create k2).
  assert (fds k3 = {[ep]} ∪ fds k) as Hk3.
  { unfold k3, called. cbn. fold ep. destruct (Z.eqb_spec ep (-1)); [lia|]. cbn. congruence. }
  destruct (set_nonblocking_runs sock k3) as [flags Rn]. next_part Rn; [exists {[ep]}; rewrite size_singleton; split; [congruence|lia]|].
  rename x into k4. pose proof (epoll_add_runs ep sock "Epoll add error: " k4) as Ra.
  next_part Ra; [exists {[ep]}; rewrite size_singleton; split; [congruence|lia]|].
  rename x into k5. rewrite (M_bind_Ok _ _ _ _ _ (sys_eq kernel _ k5)).
  destruct (Hk k5 Keventfd eq_refl) as [Hev|[Hev Hnew']].
  { rewrite Hev. exists {[ep]}. rewrite size_singleton. unfold called. cbn. rewrite Hev. split; [cbn; congruence|lia]. }
  set (ev := kernel k5 Keventfd) in *. destruct (Z.eqb_spec ev (-1)) as [E|_]; [lia|].
  set (k6 := called kernel Keventfd k5).
  assert (fds k6 = {[ev]} ∪ ({[ep]} ∪ fds k)) as Hk6.
  { unfold k6, called. cbn. fold ev. destruct (Z.eqb_spec ev (-1)); [lia|]. cbn. congruence. }
  pose proof (epoll_add_runs ep ev "Epoll add eventfd error: " k6) as Re.
  assert (trace k6 = trace k5 ++ [Keventfd]) as Ht6 by done. assert (trace k3 = trace k2 ++ [Kepoll_create]) as Ht3 by done.
  clearbody k3 k6. next_part Re.
  { exists {[ev; ep]}. split; [rewrite <- (assoc_L (∪)); congruence|]. rewrite size_union by set_solver. by rewrite !size_singleton. }
  cbn [mret M_ret server_sock epoll_fd eventfd_fd]. split; [done|]. split; [|split_and!; [congruence|done..| |]].
  - eexists flags, _. split; [|unfold construct_calls; cbn [server_sock epoll_fd eventfd_fd]; reflexivity].
    repeat match goal with H : trace _ = _ ++ _ |- _ => rewrite H; clear H end. by rewrite <- !app_assoc.
  - congruence.
  - congruence.
Qed.

Lemma three_closed (a b c : Z) (X : gset Z) :
  a ∉ X → b ∉ {[a]} ∪ X → c ∉ {[b]} ∪ ({[a]} ∪ X) →
  (({[c]} ∪ ({[b]} ∪ ({[a]} ∪ X))) ∖ {[b]} ∖ {[c]}) ∖ {[a]} = X.
Proof.
  intros H1 H2 H3. apply set_eq. intros x. rewrite !elem_of_difference, !elem_of_union, !elem_of_singleton in *.
  destruct (decide (x ∈ X)); [|naive_solver]. assert (x ≠ a ∧ x ≠ b ∧ x ≠ c) by (split_and!; intros ->; tauto). tauto.
Qed.

(** C39: the constructor of the server either has listened on the port in network
    byte order, made the socket non-blocking before epoll watches it, and opened
    exactly three descriptors, which the destructor then closes exactly; or it
    fails with an exception: then the listening socket, if it was opened, is
    closed again, no descriptor that was open before is touched, and at most the
    two that are plain integers, of epoll and of the eventfd, stay open. *)
Theorem server_descriptors (port : Z) (k : Kern) :
  kernel_ok kernel →
  match Server_construct kernel port k with
  | (Ok d, k') =>
      (∃ flags, trace k' = trace k ++ construct_calls port d flags) ∧
      NoDup [server_sock d; epoll_fd d; eventfd_fd d] ∧
      fds k' = {[server_sock d; epoll_fd d; eventfd_fd d]} ∪ fds k ∧
      {[server_sock d; epoll_fd d; eventfd_fd d]} ## fds k ∧
      ∃ k'', Server_destruct kernel d k' = (Ok tt, k'') ∧ fds k'' = fds k
  | (Throw _, k') =>
      (kernel k Ksocket ≠ -1 → kernel k Ksocket ∉ fds k') ∧
      ∃ leaked, fds k' = leaked ∪ fds k ∧ (size leaked <= 2)%nat
  | _ => False
  end.
Proof.
  intros Hk. unfold Server_construct. pose proof (Hk k Ksocket eq_refl) as Hf. pose proof (open_eq kernel k) as Ho.
  destruct (Z.eqb_spec (kernel k Ksocket) (-1)) as [H1|H1].
  { rewrite (M_bind_Throw _ _ _ _ _ Ho). split; [done|]. exists ∅. split; [set_solver|rewrite size_empty; lia]. }
  destruct Hf as [?|[Hpos Hnew]]; [done|]. rewrite (M_bind_Ok _ _ _ _ _ Ho). set (sock := kernel k Ksocket) in *.
  fold (construct_body port sock). set (k1 := mkKern (trace k ++ [Ksocket]) ({[sock]} ∪ fds k)).
  pose proof (construct_body_spec port sock k1 Hk) as Hb. unfold guard.
  destruct (construct_body port sock k1) as [[d|e| |] k']; try done.
  - destruct Hb as (Hs & (flags & rest & Ht & Hr) & Hfd & H2 & H3 & H4 & H5). cbn [trace fds k1] in *.
    split; [|split; [|split; [|split]]].
    + exists flags. rewrite Ht, <- Hr, <- app_assoc. done.
    + rewrite Hs. clear -H4 H5. apply NoDup_cons. split; [set_solver|]. apply NoDup_cons. split; [set_solver|]. apply NoDup_singleton.
    + rewrite Hfd, Hs. clear. set_solver.
    + rewrite Hs. clear -H4 H5 Hnew. set_solver.
    + unfold Server_destruct. destruct (Z.eqb_spec (epoll_fd d) (-1)); [lia|]. destruct (Z.eqb_spec (eventfd_fd d) (-1)); [lia|].
      destruct (Z.eqb_spec (server_sock d) (-1)); [lia|]. eexists. split; [reflexivity|]. cbn.
      rewrite Hfd, Hs. by apply three_closed.
  - destruct Hb as (leaked & Hl & Hs). cbn in *. split; [intros _; set_solver|]. exists (leaked ∖ {[sock]}). split; [set_solver|].
    etrans; [|exact Hs]. apply subseteq_size. set_solver.
Qed.
End theorems.

(** ** At a concrete kernel *)

(** Numbers descriptors by the calls so far; [fails] are the calls that fail. *)
Definition demo_kernel (fails : call → bool) (k : Kern) (c : call) : Z :=
  if fails c then -1
  else match c with
       | Kinet_pton _ => 1
       | _ => if creates c then let fd := 3 + Z.of_nat (length (trace k)) in if bool_decide (fd ∈ fds k) then -1 else fd else 0
       end.

Lemma demo_kernel_ok fails : kernel_ok (demo_kernel fails).
Proof.
  intros k c Hc. unfold demo_kernel. destruct (fails c); [by left|]. destruct c; try done; cbn [creates];
    (case_bool_decide; [by left|right; split; [lia|done]]).
Qed.

Lemma server_descriptors_witness :
  ∃ d k', Server_construct (demo_kernel (λ _, false)) 7800 (mkKern [] ∅) = (Ok d, k') ∧
    d = mkDescriptors 3 7 11 ∧ ∃ k'', Server_destruct (demo_kernel (λ _, false)) d k' = (Ok tt, k'') ∧ fds k'' = ∅.
Proof.
  pose proof (server_descriptors (demo_kernel (λ _, false)) 7800 (mkKern [] ∅) (demo_kernel_ok _)) as H.
  destruct (Server_construct (demo_kernel (λ _, false)) 7800 (mkKern [] ∅)) as [r k'] eqn:E.
  assert (Hr : r = Ok (mkDescriptors 3 7 11)).
  { change r with (fst (r, k')). rewrite <- E. vm_compute. reflexivity. }
  subst r. destruct H as (_ & _ & _ & _ & H). exists (mkDescriptors 3 7 11), k'. split; [reflexivity|]. split; [reflexivity|exact H].
Defined.

Lemma connection_no_leak_witness :
  (Server_connect_setup (demo_kernel (λ _, false)) 7 true (str "10.0.0.2") 7800 (mkKern [] ∅)).1 = Ok 3 ∧
  fds (Server_connect_setup (demo_kernel (λ c, match c with Kconnect _ => true | _ => false end)) 7 true (str "10.0.0.2") 7800
    (mkKern [] ∅)).2 = ∅.
Proof.
  split; [vm_compute; reflexivity|].
  destruct (connection_no_leak (demo_kernel (λ c, match c with Kconnect _ => true | _ => false end)) 7 7800 true (str "10.0.0.2")
    (λ _, Ok tt) (mkKern [] ∅) (demo_kernel_ok _) (λ _, I)) as [H _].
  specialize (H _ (or_introl eq_refl)). destruct (Server_connect_setup _ _ _ _ _ _) as [r k'] eqn:E.
  assert (Hr : r = Throw (RuntimeError "Connect error!!!: ")).
  { change r with (fst (r, k')). rewrite <- E. vm_compute. reflexivity. }
  subst r. exact H.
Defined.

(** A server whose [eventfd] fails leaves its epoll descriptor open. *)
Lemma construct_leaks :
  let k' := (Server_construct (demo_kernel (λ c, match c with Keventfd => true | _ => false end)) 7800 (mkKern [] ∅)).2 in
  fds k' = {[7]}.
Proof. by vm_compute. Qed.
