(* ===== verification/ThreadPool.v ===== *)
(** * The thread pool (util/ThreadPool.h, util/ThreadPool.cpp)

    The queue, the [stop] flag and the program point of every worker, as a
    transition system: what a thread does under [queueMutex] is one step, and the
    calls of the condition variable come after it, as steps of their own, so that
    a notification can be late.  [started], [finished], [accepted] and [dropped]
    record history.  A task that throws ends like one that returns: the exception
    is kept in its future.  Setting the processor affinity is not modelled. *)
From Stdlib Require Import ZArith Lia.
From stdpp Require Import base numbers list strings relations.
From S2P Require Import Prelude.

Section ThreadPool.
Context {Task : Type}.

(** Where a worker is: before taking the lock, blocked in [cv.wait], running a
    task, or gone. *)
Inductive worker := Checking | Waiting | Running (t : Task) | Exited.

Record Pool := mkPool {
  tasks : list Task;
  stop : bool;
  workers : list worker;
  notify_one_due : nat;
  notify_all_due : bool;
  accepted : list Task;
  started : list Task;
  finished : list Task;
  dropped : list Task
}.

Definition ThreadPool_init (threadCount : nat) : Pool :=
  mkPool [] false (replicate threadCount Checking) 0 false [] [] [] [].

(** [enqueue]: the part under the lock; [cv.notify_one()] is then due. *)
Definition ThreadPool_enqueue (t : Task) : M Pool unit :=
  p ← mget;
  if stop p then mthrow (RuntimeError "stop!!")
  else mput (mkPool (tasks p ++ [t]) (stop p) (workers p) (S (notify_one_due p)) (notify_all_due p)
         (accepted p ++ [t]) (started p) (finished p) (dropped p)).

(** [shutdown] up to the joins: [cv.notify_all()] is then due. *)
Definition ThreadPool_shutdown (p : Pool) : Pool :=
  mkPool (tasks p) true (workers p) (notify_one_due p) true
    (accepted p) (started p) (finished p) (dropped p).

(** [shutdownnow] up to the joins. *)
Definition ThreadPool_shutdownnow (p : Pool) : Pool :=
  mkPool [] true (workers p) (notify_one_due p) true
    (accepted p) (started p) (finished p) (tasks p ++ dropped p).

Definition set_worker (i : nat) (w : worker) (p : Pool) : Pool :=
  mkPool (tasks p) (stop p) (<[i := w]> (workers p)) (notify_one_due p) (notify_all_due p)
    (accepted p) (started p) (finished p) (dropped p).

(** The body of a worker's loop up to the release of the lock: wait while
    neither [stop] nor a task, leave, or take the first task. *)
Definition worker_check (i : nat) (p : Pool) : Pool :=
  match tasks p with
  | [] => if stop p then set_worker i Exited p else set_worker i Waiting p
  | t :: ts =>
      mkPool ts (stop p) (<[i := Running t]> (workers p)) (notify_one_due p) (notify_all_due p)
        (accepted p) (started p ++ [t]) (finished p) (dropped p)
  end.

(** The task returned or threw. *)
Definition worker_finish (i : nat) (t : Task) (p : Pool) : Pool :=
  mkPool (tasks p) (stop p) (<[i := Checking]> (workers p)) (notify_one_due p) (notify_all_due p)
    (accepted p) (started p) (finished p ++ [t]) (dropped p).

(** [cv.notify_one()] while worker [i] is blocked, and while none is. *)
Definition notify_one (i : option nat) (p : Pool) : Pool :=
  mkPool (tasks p) (stop p) (match i with Some i => <[i := Checking]> (workers p) | None => workers p end)
    (pred (notify_one_due p)) (notify_all_due p) (accepted p) (started p) (finished p) (dropped p).

Definition wake (w : worker) : worker := match w with Waiting => Checking | _ => w end.
Definition notify_all (p : Pool) : Pool :=
  mkPool (tasks p) (stop p) (map wake (workers p)) (notify_one_due p) false
    (accepted p) (started p) (finished p) (dropped p).

(** What the pool's own threads and pending notifications can do. *)
Inductive work_step (p : Pool) : Pool → Prop :=
  | ws_check i : workers p !! i = Some Checking → work_step p (worker_check i p)
  | ws_finish i t : workers p !! i = Some (Running t) → work_step p (worker_finish i t p)
  | ws_notify i : 0 < notify_one_due p → workers p !! i = Some Waiting → work_step p (notify_one (Some i) p)
  | ws_notify_none : 0 < notify_one_due p → Waiting ∉ workers p → work_step p (notify_one None p)
  | ws_notify_all : notify_all_due p = true → work_step p (notify_all p).

(** What the rest of the program, and spurious wakeups, can do. *)
Inductive env_step (p : Pool) : Pool → Prop :=
  | es_enqueue t p' : ThreadPool_enqueue t p = (Ok tt, p') → env_step p p'
  | es_shutdown : env_step p (ThreadPool_shutdown p)
  | es_shutdownnow : env_step p (ThreadPool_shutdownnow p)
  | es_spurious i : workers p !! i = Some Waiting → env_step p (set_worker i Checking p).

Definition pool_step (p p' : Pool) : Prop := work_step p p' ∨ env_step p p'.

(** [worker.join()] returns for every worker. *)
Definition joined (p : Pool) : Prop := Forall (λ w, w = Exited) (workers p).

(** ** The invariant *)

Definition running (ws : list worker) : list Task :=
  omap (λ w, match w with Running t => Some t | _ => None end) ws.
Definition awake (w : worker) : Prop := w ≠ Waiting ∧ w ≠ Exited.

Record pool_ok (n : nat) (p : Pool) : Prop := {
  po_size : length (workers p) = n;
  po_order : accepted p = started p ++ tasks p ++ dropped p;
  po_run : started p ≡ₚ finished p ++ running (workers p);
  po_exited : Exited ∈ workers p → stop p = true ∧ tasks p = [];
  po_stop : stop p = true → notify_all_due p = true ∨ Waiting ∉ workers p;
  po_all : notify_all_due p = true → stop p = true;
  po_awake : stop p = false → tasks p ≠ [] → 0 < notify_one_due p ∨ Exists awake (workers p);
  po_dropped : dropped p ≠ [] → stop p = true ∧ tasks p = []
}.

Lemma running_insert ws i w w' : ws !! i = Some w →
  running (<[i := w']> ws) ++ running [w] ≡ₚ running ws ++ running [w'].
Proof.
  intros H. rewrite <- (take_drop_middle ws i w H) at 2.
  rewrite (insert_take_drop ws i w') by (by eapply lookup_lt_Some).
  unfold running. rewrite !omap_app. cbn [omap list_omap].
  destruct w; destruct w'; simpl; rewrite ?app_nil_r; solve_Permutation.
Qed.

Lemma running_wake ws : running (map wake ws) = running ws.
Proof. induction ws as [|[] ws IH]; simpl; unfold running in *; simpl; by rewrite ?IH. Qed.

Lemma elem_of_insert_ne (ws : list worker) i w x : x ≠ w → x ∈ <[i := w]> ws → x ∈ ws.
Proof.
  intros Hne [j Hj]%list_elem_of_lookup.
  apply list_lookup_insert_Some in Hj as [(-> & <- & _)|[_ Hj]]; [done|].
  by eapply list_elem_of_lookup_2.
Qed.

Lemma Exists_insert_awake (ws : list worker) i w : awake w → i < length ws → Exists awake (<[i := w]> ws).
Proof. intros Hw Hi. apply Exists_exists. exists w. split; [|done]. eapply list_elem_of_lookup_2, list_lookup_insert_eq, Hi. Qed.

Lemma not_waiting_awake ws : 0 < length ws → Waiting ∉ ws → Exited ∉ ws → Exists awake ws.
Proof.
  destruct ws as [|w ws]; simpl; [lia|]. intros _ H1 H2. apply Exists_cons_hd.
  split; intros ->; [apply H1|apply H2]; left.
Qed.

Lemma pool_init_ok n : pool_ok n (ThreadPool_init n).
Proof.
  split; simpl; try done.
  - apply length_replicate.
  - induction n; simpl; [done|]. unfold running in *; done.
  - intros [H _]%elem_of_replicate. done.
Qed.

Ltac pool_cases H := destruct H as [Hsz Hord Hrun Hex Hst Hall Haw Hdr]; simpl in *.

Lemma worker_check_ok n p i : 0 < n → pool_ok n p → workers p !! i = Some Checking → pool_ok n (worker_check i p).
Proof.
  intros Hn H Hi. pose proof (lookup_lt_Some _ _ _ Hi) as Hlt. pool_cases H. unfold worker_check.
  destruct (tasks p) as [|t ts] eqn:Et; [destruct (stop p) eqn:Es|].
  - split; simpl; rewrite ?length_insert, ?Et, ?Es; auto; try done.
    + rewrite Hrun. f_equiv. pose proof (running_insert _ _ _ Exited Hi) as R.
      unfold running at 2 4 in R; simpl in R. by rewrite !app_nil_r in R.
    + intros _. destruct (Hst eq_refl) as [|Hw]; [by left|right].
      intros ?%elem_of_insert_ne; [by apply Hw|done].
  - split; simpl; rewrite ?length_insert, ?Et, ?Es; auto; try done.
    + rewrite Hrun. f_equiv. pose proof (running_insert _ _ _ Waiting Hi) as R.
      unfold running at 2 4 in R; simpl in R. by rewrite !app_nil_r in R.
    + intros ?%elem_of_insert_ne; [by apply Hex|done].
  - split; simpl; rewrite ?length_insert; auto; try done.
    + rewrite Hord. by simplify_list_eq.
    + pose proof (running_insert _ _ _ (Running t) Hi) as R.
      unfold running at 2 4 in R; simpl in R. rewrite app_nil_r in R. rewrite R, Hrun. solve_Permutation.
    + intros ?%elem_of_insert_ne; [|done]. destruct Hex; done.
    + intros Hs. destruct (Hst Hs) as [|Hw]; [by left|right]. intros ?%elem_of_insert_ne; [by apply Hw|done].
    + intros _ _. right. by apply Exists_insert_awake.
    + intros Hd. by destruct (Hdr Hd).
Qed.

(** A worker that becomes ready to take the lock again. *)
Lemma to_checking n p i w one fin' : pool_ok n p → workers p !! i = Some w → w ≠ Exited →
  fin' ≡ₚ finished p ++ running [w] →
  pool_ok n (mkPool (tasks p) (stop p) (<[i := Checking]> (workers p)) one (notify_all_due p)
    (accepted p) (started p) fin' (dropped p)).
Proof.
  intros H Hi Hw Hf. pose proof (lookup_lt_Some _ _ _ Hi) as Hlt. pool_cases H.
  split; simpl; rewrite ?length_insert; auto; try done.
  - rewrite Hf, Hrun. pose proof (running_insert _ _ _ Checking Hi) as R.
    unfold running at 4 in R; simpl in R. rewrite app_nil_r in R. rewrite <- R. solve_Permutation.
  - intros ?%elem_of_insert_ne; [by apply Hex|done].
  - intros Hs. destruct (Hst Hs) as [|Hwt]; [by left|right]. intros ?%elem_of_insert_ne; [by apply Hwt|done].
  - intros _ _. right. by apply Exists_insert_awake.
Qed.

Lemma work_step_ok n p p' : 0 < n → pool_ok n p → work_step p p' → pool_ok n p'.
Proof.
  intros Hn H Hs. destruct Hs as [i Hi|i t Hi|i Hd Hi|Hd Hw|Hd].
  - by apply worker_check_ok.
  - by eapply to_checking.
  - eapply to_checking; [done..|]. unfold running; simpl. by rewrite app_nil_r.
  - pool_cases H. split; simpl; auto; try done. intros Hns Ht. right. apply not_waiting_awake; [lia|done|].
    intros He. destruct (Hex He) as [Hs _]. congruence.
  - pool_cases H. split; simpl; rewrite ?length_map, ?running_wake; auto; try done.
    + intros (w & Hw & Hin)%list_elem_of_fmap. apply Hex. by destruct w; simplify_eq/=.
    + intros _. right. intros (w & Hw & Hin)%list_elem_of_fmap. by destruct w; simplify_eq/=.
    + intros Hs. rewrite (Hall Hd) in Hs. done.
Qed.

Lemma env_step_ok n p p' : pool_ok n p → env_step p p' → pool_ok n p'.
Proof.
  intros H Hs. destruct Hs as [t p' He| | |i Hi].
  - unfold ThreadPool_enqueue in He. mrun. destruct (stop p) eqn:Es; [done|]. simplify_eq/=.
    pool_cases H. rewrite ?Es in *. split; simpl; rewrite ?Es; auto; try done.
    + destruct (dropped p) as [|d ds]; [|by destruct Hdr].
      rewrite Hord. by simplify_list_eq.
    + intros He. by destruct (Hex He).
    + intros _ _. left. lia.
    + intros Hd. by destruct (Hdr Hd).
  - pool_cases H. split; simpl; auto; try done.
    + intros He. by destruct (Hex He).
    + intros Hd. by destruct (Hdr Hd).
  - pool_cases H. split; simpl; auto; done.
  - eapply to_checking; [done..|]. unfold running; simpl. by rewrite app_nil_r.
Qed.

Lemma reachable_ok n p : 0 < n → rtc pool_step (ThreadPool_init n) p → pool_ok n p.
Proof.
  intros Hn. revert p. apply rtc_ind_r; [apply pool_init_ok|].
  intros p p' _ [Hs|Hs] H; [by eapply work_step_ok|by eapply env_step_ok].
Qed.

(** ** Termination of the pool's own work *)

Definition weight (w : worker) : nat := match w with Checking => 1 | Running _ => 2 | _ => 0 end.
Definition pending_work (p : Pool) : nat :=
  3 * length (tasks p) + sum_list_with weight (workers p) + 2 * notify_one_due p
  + (if notify_all_due p then S (length (workers p)) else 0).

Lemma weight_insert ws i w w' : ws !! i = Some w →
  sum_list_with weight (<[i := w']> ws) + weight w = sum_list_with weight ws + weight w'.
Proof.
  revert i. induction ws as [|v ws IH]; intros [|i] H; simplify_eq/=; [lia|].
  specialize (IH _ H). lia.
Qed.
Lemma weight_wake ws : sum_list_with weight (map wake ws) ≤ sum_list_with weight ws + length ws.
Proof. induction ws as [|[] ws IH]; simpl; lia. Qed.

Lemma work_step_decreases p p' : work_step p p' → pending_work p' < pending_work p.
Proof.
  unfold pending_work. intros [i Hi|i t Hi|i Hd Hi|Hd Hw|Hd]; simpl.
  - unfold worker_check. destruct (tasks p) as [|t ts] eqn:Et; [destruct (stop p)|]; simpl; rewrite ?Et, length_insert; simpl.
    + pose proof (weight_insert _ _ _ Exited Hi); simpl in *. lia.
    + pose proof (weight_insert _ _ _ Waiting Hi); simpl in *. lia.
    + pose proof (weight_insert _ _ _ (Running t) Hi); simpl in *. lia.
  - rewrite length_insert. pose proof (weight_insert _ _ _ Checking Hi); simpl in *. lia.
  - rewrite length_insert. pose proof (weight_insert _ _ _ Checking Hi).
    destruct (notify_one_due p); simpl in *; lia.
  - destruct (notify_one_due p); simpl; lia.
  - rewrite Hd. pose proof (weight_wake (workers p)). lia.
Qed.

Definition at_rest (p : Pool) : Prop := ∀ p', ¬ work_step p p'.

Lemma worker_cases ws : (∃ i w, ws !! i = Some w ∧ 0 < weight w) ∨ Forall (λ w, w = Waiting ∨ w = Exited) ws.
Proof.
  induction ws as [|w ws [(i & v & Hi & Hv)|IH]]; [by right|left; by exists (S i), v|].
  destruct w; [left; exists 0, Checking|right; auto|left; exists 0, (Running t)|right; auto]; simpl; auto with lia.
Qed.

Lemma waiting_cases (ws : list worker) : (∃ i, ws !! i = Some Waiting) ∨ Waiting ∉ ws.
Proof.
  induction ws as [|w ws [[i Hi]|IH]]; [right; by apply not_elem_of_nil|left; by exists (S i)|].
  destruct w; [right|left; by exists 0|right|right]; by apply not_elem_of_cons.
Qed.

Lemma rest_cases p : (∃ p', work_step p p')
  ∨ (Forall (λ w, w = Waiting ∨ w = Exited) (workers p) ∧ notify_one_due p = 0 ∧ notify_all_due p = false).
Proof.
  destruct (worker_cases (workers p)) as [(i & w & Hi & Hw)|Hall].
  { left. destruct w; simpl in Hw; try lia; eexists; [by eapply ws_check|by eapply ws_finish]. }
  destruct (notify_all_due p) eqn:Ha; [left; eexists; by apply ws_notify_all|].
  destruct (notify_one_due p) eqn:Ho; [by right|left].
  destruct (waiting_cases (workers p)) as [[i Hi]|Hw];
    eexists; [eapply ws_notify; [lia|done]|eapply ws_notify_none; [lia|done]].
Qed.

Lemma rest_state n p : 0 < n → pool_ok n p → at_rest p →
  tasks p = [] ∧ running (workers p) = [] ∧ (if stop p then joined p else Forall (λ w, w = Waiting) (workers p)).
Proof.
  intros Hn H Hr. destruct (rest_cases p) as [[p' Hs]|(Hws & Ho & Ha)]; [by destruct (Hr p')|].
  pool_cases H. assert (Hrun0 : running (workers p) = []).
  { clear -Hws. induction Hws as [|w ws [-> | ->] _ IH]; done. }
  destruct (stop p) eqn:Es.
  - destruct (Hst eq_refl) as [|Hw]; [congruence|].
    assert (Hj : joined p).
    { apply Forall_forall. intros w Hin. destruct (proj1 (Forall_forall _ _) Hws w Hin) as [-> | ->]; done. }
    destruct (workers p) as [|w ws] eqn:Ew; [simpl in Hsz; lia|].
    split_and!; try done. apply Hex. unfold joined in Hj. rewrite Ew in Hj. inversion Hj; subst. left.
  - assert (He : Exited ∉ workers p) by (intros He; by destruct (Hex He)).
    split_and!; try done.
    + destruct (tasks p) as [|t ts] eqn:Et; [done|]. destruct Haw as [|Hx]; [done..|lia|].
      apply Exists_exists in Hx as (w & Hin & Hw1 & Hw2).
      destruct (proj1 (Forall_forall _ _) Hws w Hin); done.
    + apply Forall_forall. intros w Hin. destruct (proj1 (Forall_forall _ _) Hws w Hin) as [-> | ->]; done.
Qed.

Lemma work_step_accepted p p' : work_step p p' → accepted p' = accepted p ∧ dropped p' = dropped p ∧ stop p' = stop p.
Proof. intros []; simpl; unfold worker_check; repeat case_match; done. Qed.

Lemma work_steps_accepted p p' : rtc work_step p p' → accepted p' = accepted p ∧ dropped p' = dropped p ∧ stop p' = stop p.
Proof.
  induction 1 as [|p q r Hs _ IH]; [done|]. apply work_step_accepted in Hs. destruct Hs as (<- & <- & <-). exact IH.
Qed.

Lemma work_terminates p : sn work_step p.
Proof.
  remember (pending_work p) as m eqn:Hm. revert p Hm. induction (lt_wf m) as [m _ IH]. intros p ->.
  constructor. intros p' Hs. eapply IH; [|done]. by apply work_step_decreases.
Qed.

Lemma reaches_rest p : ∃ p', rtc work_step p p' ∧ at_rest p'.
Proof.
  induction (work_terminates p) as [p _ IH].
  destruct (rest_cases p) as [[q Hs]|(Hall & Ho & Ha)].
  - destruct (IH q Hs) as (p' & ? & ?). exists p'. split; [by eapply rtc_l|done].
  - exists p. split; [done|]. intros p' [i Hi|i t Hi|i Hd Hi|Hd Hw|Hd]; try lia; try congruence;
      apply (proj1 (Forall_lookup _ _) Hall) in Hi; destruct Hi; done.
Qed.

(** C18: in every interleaving of workers, submitters, late notifications and
    spurious wakeups, the pool starts the accepted tasks in the order of their
    acceptance, each at most once: what was accepted is what was started, then
    what is queued, then what [shutdownnow] discarded, and a started task is
    finished or held by exactly one worker. *)
Theorem pool_fifo n p : 0 < n → rtc pool_step (ThreadPool_init n) p →
  accepted p = started p ++ tasks p ++ dropped p ∧ started p ≡ₚ finished p ++ running (workers p)
  ∧ (stop p = false → dropped p = []).
Proof.
  intros Hn Hp. pose proof (reachable_ok n p Hn Hp) as H. split_and!.
  - apply (po_order _ _ H).
  - apply (po_run _ _ H).
  - intros Hs. pose proof (po_dropped _ _ H) as Hd. destruct (dropped p); [done|]. destruct Hd; [done|]. congruence.
Qed.

(** C19: no wakeup is lost and every shutdown returns: from any reachable state,
    once nothing more is submitted, every run of the workers and of the pending
    notifications ends; such a run exists, and where it ends the queue is empty,
    every accepted task that [shutdownnow] did not discard has finished, and the
    workers are all blocked, or after a shutdown all gone, so that the joins
    return. *)
Theorem pool_quiesces n p : 0 < n → rtc pool_step (ThreadPool_init n) p →
  sn work_step p ∧ (∃ p', rtc work_step p p' ∧ at_rest p') ∧
  ∀ p', rtc work_step p p' → at_rest p' →
    tasks p' = [] ∧ accepted p = started p' ++ dropped p ∧ finished p' ≡ₚ started p' ∧
    (if stop p then joined p' else Forall (λ w, w = Waiting) (workers p')).
Proof.
  intros Hn Hp. split_and!; [apply work_terminates|apply reaches_rest|]. intros p' Hs Hr.
  destruct (work_steps_accepted _ _ Hs) as (Ha & Hd & Hst).
  assert (H : pool_ok n p').
  { eapply reachable_ok; [done|]. etrans; [done|]. eapply rtc_subrel; [|exact Hs]. by left. }
  destruct (rest_state n p' Hn H Hr) as (Ht & Hrun & Hw). rewrite Hst in Hw. split_and!; try done.
  - rewrite <- Ha, <- Hd, (po_order _ _ H), Ht. done.
  - by rewrite (po_run _ _ H), Hrun, app_nil_r.
Qed.

(** Two workers may finish two tasks in either order: the requests that one
    client pipelines are started in order, but can take effect and be answered in
    the other order. *)
Theorem pool_finish_reorders (t u : Task) :
  ∃ p, rtc pool_step (ThreadPool_init 2) p ∧ accepted p = [t; u] ∧ started p = [t; u] ∧ finished p = [u; t].
Proof.
  eexists. split.
  - eapply rtc_l; [right; by eapply (es_enqueue _ t)|].
    eapply rtc_l; [right; by eapply (es_enqueue _ u)|].
    eapply rtc_l; [left; by apply (ws_check _ 0)|].
    eapply rtc_l; [left; by apply (ws_check _ 1)|].
    eapply rtc_l; [left; by apply (ws_finish _ 1 u)|].
    eapply rtc_l; [left; by apply (ws_finish _ 0 t)|]. apply rtc_refl.
  - done.
Qed.

End ThreadPool.
Arguments worker : clear implicits.
Arguments Pool : clear implicits.

(** One task accepted by a pool of two workers, and a shutdown behind it. *)
Definition demo_pool : Pool nat :=
  ThreadPool_shutdown (ThreadPool_enqueue 7 (ThreadPool_init 2)).2.
Lemma demo_pool_reached : rtc pool_step (ThreadPool_init 2) demo_pool.
Proof.
  eapply rtc_l; [right; by eapply (es_enqueue _ 7)|].
  apply rtc_once. right. apply es_shutdown.
Qed.

Lemma pool_fifo_witness : accepted demo_pool = [7] ∧
  accepted demo_pool = started demo_pool ++ tasks demo_pool ++ dropped demo_pool.
Proof. split; [reflexivity|]. apply (pool_fifo 2 demo_pool); [lia|exact demo_pool_reached]. Defined.

Lemma pool_quiesces_witness : stop demo_pool = true ∧ ∃ p', rtc work_step demo_pool p' ∧ joined p' ∧ finished p' ≡ₚ [7].
Proof.
  split; [reflexivity|].
  destruct (pool_quiesces 2 demo_pool ltac:(lia) demo_pool_reached) as (_ & (p' & Hs & Hr) & H).
  destruct (H p' Hs Hr) as (_ & Ha & Hf & Hj). exists p'. split_and!; [exact Hs|exact Hj|].
  rewrite Hf. change [7] with (accepted demo_pool). rewrite Ha. change (dropped demo_pool) with (@nil nat).
  by rewrite app_nil_r.
Defined.
