(* ===== verification/Ring.v ===== *)
(** * Consistent hashing (util/Cluster.cpp: hash, addNodeToHash, delNodeToHash,
      queryNode, queryReplicas, isMasterFor)

    [node_hash] is the [std::map] of ring points, as its in-order traversal;
    an iterator into it is an index of that traversal. *)
From Stdlib Require Import ZArith Ascii Lia.
From stdpp Require Import base numbers list strings gmap.
From S2P Require Import Prelude CppStd HashTable.
Local Open Scope Z_scope.

#[warnings="-notation-for-abbreviation"] Notation Ring := (list (Z * Z)).

(** config/Config.h *)
Definition VIRTUAL_REPLICAS : nat := 160.

(** [x ^= x >> k] *)
Definition xorshift (k x : Z) : Z := Z.lxor x (Z.shiftr x k).

(** [Cluster::hash(uint64_t)] *)
Definition Cluster_hash (x : Z) : Z :=
  let x := xorshift 30 x in
  let x := u64 (x * 13787848793156543929) in
  let x := xorshift 27 x in
  let x := u64 (x * 10723151780598845931) in
  xorshift 31 x.

(** [Cluster::hash(const std::string &)] *)
Definition Cluster_hash_str (s : bytes) : Z :=
  foldl (λ h c, u64 (Z.lxor h (uchar c) * 1099511628211)) 14695981039346656037 s.

(** The loops of [addNodeToHash] and [delNodeToHash]: [n] iterations left. *)
Fixpoint add_points (n : nat) (node_id hsh : Z) (ring : Ring) : Ring :=
  match n with
  | O => ring
  | S n' => let hsh := Cluster_hash hsh in add_points n' node_id hsh (map_assign hsh node_id ring)
  end.
Definition ring_addNodeToHash (node_id : Z) (ring : Ring) : Ring :=
  add_points VIRTUAL_REPLICAS node_id node_id ring.

Fixpoint del_points (n : nat) (hsh : Z) (ring : Ring) : Ring :=
  match n with
  | O => ring
  | S n' => let hsh := Cluster_hash hsh in del_points n' hsh (map_erase hsh ring)
  end.
Definition ring_delNodeToHash (node_id : Z) (ring : Ring) : Ring :=
  del_points VIRTUAL_REPLICAS node_id ring.

(** [queryNode]; dereferencing [begin()] of an empty map is undefined. *)
Definition ring_query (h : Z) (ring : Ring) : res Z :=
  match map_lower_bound h ring with
  | (_, node) :: _ => Ok node
  | [] => match ring with [] => UB | (_, node) :: _ => Ok node end
  end.
Definition ring_queryNode (key : bytes) (ring : Ring) : res Z := ring_query (Cluster_hash_str key) ring.

(** The index of [lower_bound(h)], wrapped around to [begin()]. *)
Definition ring_start (h : Z) (ring : Ring) : nat :=
  let i := (length ring - length (map_lower_bound h ring))%nat in
  if (i =? length ring)%nat then 0%nat else i.

(** The loop of [queryReplicas]. *)
Fixpoint replicas_loop (fuel : nat) (ring : Ring) (N : nat) (it : nat) (result : list Z) (seen : gset Z)
    : res (list Z) :=
  match fuel with
  | O => OutOfFuel
  | S fuel' =>
      if (length result <? N)%nat && negb (length ring =? 0)%nat then
        match ring !! it with
        | None => UB
        | Some (_, node) =>
            let result' := if decide (node ∈ seen) then result else result ++ [node] in
            let seen' := {[ node ]} ∪ seen in
            let it' := if (S it =? length ring)%nat then 0%nat else S it in
            if (length ring <=? size seen')%nat then Ok result'
            else replicas_loop fuel' ring N it' result' seen'
        end
      else Ok result
  end.

(** [static_cast<size_t>(N)]; the callers pass non-negative values. *)
Definition ring_queryReplicas (fuel : nat) (self : Z) (key : bytes) (N : nat) (ring : Ring)
    : res (list Z) :=
  match ring with
  | [] => Ok [self]
  | _ => replicas_loop fuel ring N (ring_start (Cluster_hash_str key) ring) [] ∅
  end.

(** ** The point hash is injective *)

Lemma xorshift_bit k x i :
  0 < k → 0 <= i → Z.testbit (xorshift k x) i = xorb (Z.testbit x i) (Z.testbit x (i + k)).
Proof.
  intros Hk Hi. unfold xorshift. rewrite Z.lxor_spec, Z.shiftr_spec by lia. done.
Qed.

Lemma u64_testbit x i : is_u64 x → 64 <= i → Z.testbit x i = false.
Proof.
  intros Hx Hi. rewrite <- (Z.mod_small x (2 ^ 64)) by apply Hx.
  by apply Z.mod_pow2_bits_high.
Qed.

(** The high bits pass through, and determine the lower ones. *)
Lemma xorshift_inj k x y : 0 < k → is_u64 x → is_u64 y → xorshift k x = xorshift k y → x = y.
Proof.
  intros Hk Hx Hy Heq.
  assert (∀ n : nat, ∀ i, 64 <= i + Z.of_nat n → 0 <= i → Z.testbit x i = Z.testbit y i) as H.
  { induction n as [|n IH]; intros i Hn Hi; [by rewrite !u64_testbit by (done || lia)|].
    assert (Z.testbit (xorshift k x) i = Z.testbit (xorshift k y) i) as Hb by (by rewrite Heq).
    rewrite !xorshift_bit, (IH (i + k)) in Hb by lia.
    by destruct (Z.testbit x i), (Z.testbit y i), (Z.testbit y (i + k)). }
  apply Z.bits_inj'. intros i Hi. apply (H 64%nat); lia.
Qed.

Lemma xorshift_u64 k x : 0 < k → is_u64 x → is_u64 (xorshift k x).
Proof.
  intros Hk Hx. assert (0 <= Z.shiftr x k <= x) as Hs.
  { unfold is_u64 in Hx. split; [apply Z.shiftr_nonneg; lia|].
    rewrite Z.shiftr_div_pow2 by lia. apply Z.div_le_upper_bound; [lia|].
    assert (1 <= 2 ^ k) by (pose proof (Z.pow_pos_nonneg 2 k); lia). nia. }
  assert (Z.land (xorshift k x) (Z.ones 64) = xorshift k x) as <-.
  { apply Z.bits_inj'. intros i Hi. rewrite Z.land_spec.
    destruct (Z.lt_ge_cases i 64).
    - rewrite Z.ones_spec_low by lia. apply andb_true_r.
    - rewrite (xorshift_bit k x i), !u64_testbit by (done || lia). done. }
  rewrite Z.land_ones by lia. apply u64_range.
Qed.

(** Multiplication by an odd constant [a] with inverse [b] modulo [2^64]. *)
Lemma mul_u64_inj a b x y :
  u64 (a * b) = 1 → is_u64 x → is_u64 y → u64 (x * a) = u64 (y * a) → x = y.
Proof.
  intros Hab Hx Hy Heq.
  assert (∀ z, is_u64 z → u64 (u64 (z * a) * b) = z) as Hinv.
  { intros z Hz. unfold u64 in *. rewrite Zmult_mod_idemp_l, <- Z.mul_assoc.
    rewrite <- Zmult_mod_idemp_r, Hab, Z.mul_1_r. by apply Z.mod_small. }
  rewrite <- (Hinv x Hx), <- (Hinv y Hy). by rewrite Heq.
Qed.

Lemma Cluster_hash_u64 x : is_u64 x → is_u64 (Cluster_hash x).
Proof. intros _. unfold Cluster_hash. apply xorshift_u64; [lia|apply u64_range]. Qed.

Lemma Cluster_hash_inj x y :
  is_u64 x → is_u64 y → Cluster_hash x = Cluster_hash y → x = y.
Proof.
  unfold Cluster_hash. intros Hx Hy H.
  apply xorshift_inj in H; [|lia|apply u64_range..].
  apply (mul_u64_inj _ 3573116690164977347) in H; [|done|apply xorshift_u64; [lia|apply u64_range]..].
  apply xorshift_inj in H; [|lia|apply u64_range..].
  apply (mul_u64_inj _ 10871156337175269513) in H; [|done|by apply xorshift_u64..].
  by apply xorshift_inj in H.
Qed.

(** ** Points of a node *)

(** The points of [addNodeToHash], in order: [hash(h)], [hash(hash(h))], ... *)
Fixpoint points (n : nat) (h : Z) : list Z :=
  match n with
  | O => []
  | S n' => Cluster_hash h :: points n' (Cluster_hash h)
  end.
Definition node_points (id : Z) : list Z := points VIRTUAL_REPLICAS id.

Lemma add_points_foldl n id h ring :
  add_points n id h ring = foldl (λ r p, map_assign p id r) ring (points n h).
Proof. revert h ring. induction n as [|n IH]; intros h ring; simpl; [done|]. apply IH. Qed.

Lemma del_points_foldl n h ring :
  del_points n h ring = foldl (λ r p, map_erase p r) ring (points n h).
Proof. revert h ring. induction n as [|n IH]; intros h ring; simpl; [done|]. apply IH. Qed.

Lemma foldl_assign_sorted (id : Z) ps (ring : Ring) :
  map_sorted ring → map_sorted (foldl (λ r p, map_assign p id r) ring ps).
Proof. revert ring. induction ps; simpl; eauto with kvjet. Qed.

Lemma foldl_erase_sorted ps (ring : Ring) :
  map_sorted ring → map_sorted (foldl (λ r p, map_erase p r) ring ps).
Proof. revert ring. induction ps; simpl; eauto with kvjet. Qed.

Lemma ring_add_sorted id ring : map_sorted ring → map_sorted (ring_addNodeToHash id ring).
Proof. unfold ring_addNodeToHash. rewrite add_points_foldl. apply foldl_assign_sorted. Qed.

Lemma ring_del_sorted id ring : map_sorted ring → map_sorted (ring_delNodeToHash id ring).
Proof. unfold ring_delNodeToHash. rewrite del_points_foldl. apply foldl_erase_sorted. Qed.

Lemma ring_add_find id ring p :
  map_find p (ring_addNodeToHash id ring) =
    if decide (p ∈ node_points id) then Some id else map_find p ring.
Proof.
  unfold ring_addNodeToHash, node_points. rewrite add_points_foldl.
  generalize (points VIRTUAL_REPLICAS id) as ps. intros ps. revert ring.
  induction ps as [|q ps IH]; intros ring; simpl; [done|]. rewrite IH, map_find_assign.
  destruct (Z.eqb_spec p q) as [->|Hne].
  - rewrite (decide_True (P := q ∈ q :: ps)) by left. by case_decide.
  - repeat case_decide; try done; exfalso; rewrite elem_of_cons in *; tauto.
Qed.

Lemma ring_del_find id ring p :
  map_sorted ring →
  map_find p (ring_delNodeToHash id ring) =
    if decide (p ∈ node_points id) then None else map_find p ring.
Proof.
  unfold ring_delNodeToHash, node_points. rewrite del_points_foldl.
  generalize (points VIRTUAL_REPLICAS id) as ps. intros ps. revert ring.
  induction ps as [|q ps IH]; intros ring Hs; simpl; [done|].
  rewrite IH, map_find_erase by eauto with kvjet.
  destruct (Z.eqb_spec p q) as [->|Hne].
  - rewrite (decide_True (P := q ∈ q :: ps)) by left. by case_decide.
  - repeat case_decide; try done; exfalso; rewrite elem_of_cons in *; tauto.
Qed.

#[export] Hint Resolve ring_add_sorted ring_del_sorted : kvjet.

(** ** Queries under insertion and erasure of one point *)

Lemma lower_bound_assign h p (n : Z) ring :
  map_sorted ring →
  map_lower_bound h (map_assign p n ring) =
    if h <=? p then map_assign p n (map_lower_bound h ring) else map_lower_bound h ring.
Proof.
  induction ring as [|[k v] ring IH]; intros Hs; simpl.
  { by destruct (h <=? p). }
  apply map_sorted_inv in Hs as [Hs Hlt]. specialize (IH Hs).
  destruct (Z.ltb_spec p k); simpl.
  - destruct (Z.leb_spec h p), (Z.leb_spec h k); simpl; try lia.
    + by destruct (Z.ltb_spec p k); [|lia].
    + done.
    + done.
  - destruct (Z.eqb_spec p k) as [->|]; simpl.
    + destruct (Z.leb_spec h k); simpl; [|done].
      by rewrite Z.ltb_irrefl, Z.eqb_refl.
    + destruct (Z.leb_spec h k); [|done]. destruct (Z.leb_spec h p); [|lia]. simpl.
      destruct (Z.ltb_spec p k); [lia|]. by destruct (Z.eqb_spec p k).
Qed.

Lemma map_assign_head p (n : Z) m :
  ∃ k v r, map_assign p n m = (k, v) :: r ∧ (v = n ∨ ∃ r', m = (k, v) :: r').
Proof.
  destruct m as [|[k v] m]; simpl; [by eexists _, _, _; eauto|].
  destruct (p <? k); [eexists _, _, _; eauto|]. destruct (p =? k); eexists _, _, _; eauto.
Qed.

Lemma ring_query_assign h p n ring :
  map_sorted ring → ring ≠ [] →
  ring_query h (map_assign p n ring) = Ok n ∨ ring_query h (map_assign p n ring) = ring_query h ring.
Proof.
  intros Hs Hne. unfold ring_query. rewrite lower_bound_assign by done.
  destruct (map_assign_head p n ring) as (k & v & r & Hh & Hv).
  destruct (map_assign_head p n (map_lower_bound h ring)) as (k' & v' & r' & Hh' & Hv').
  destruct (h <=? p).
  - rewrite Hh'. destruct Hv' as [->|[r'' ->]]; auto.
  - destruct (map_lower_bound h ring) as [|[? ?] ?]; [|auto].
    rewrite Hh. destruct Hv as [->|[r'' ->]]; auto.
Qed.

Lemma lower_bound_erase h p (ring : Ring) :
  map_sorted ring → map_lower_bound h (map_erase p ring) = map_erase p (map_lower_bound h ring).
Proof.
  induction ring as [|[k v] ring IH]; intros Hs; simpl; [done|].
  apply map_sorted_inv in Hs as [Hs Hlt]. specialize (IH Hs).
  destruct (Z.eqb_spec p k) as [->|].
  - destruct (Z.leb_spec h k); simpl; [rewrite Z.eqb_refl|].
    + clear IH. destruct ring as [|[k' v'] ring]; [done|]. simpl in *.
      apply Forall_cons in Hlt as [? _]. by destruct (Z.leb_spec h k'); [|lia].
    + rewrite <- IH. clear IH. f_equal. induction ring as [|[k' v'] ring IHr]; [done|].
      simpl. apply Forall_cons in Hlt as [Hk Hlt]. simpl in Hk.
      destruct (Z.eqb_spec k k'); [lia|]. f_equal. apply map_sorted_inv in Hs as [Hs _]. by apply IHr.
  - simpl. destruct (Z.leb_spec h k); [|done]. simpl. by destruct (Z.eqb_spec p k).
Qed.

Lemma ring_query_erase h p n m ring :
  map_sorted ring → (∀ v, map_find p ring = Some v → v = n) → m ≠ n →
  ring_query h ring = Ok m → ring_query h (map_erase p ring) = Ok m.
Proof.
  intros Hs Hp Hmn. unfold ring_query. rewrite lower_bound_erase by done.
  destruct (map_lower_bound_split h ring) as (pre & Hsplit & _).
  destruct (map_lower_bound h ring) as [|[k v] r] eqn:Hlb; simpl.
  - destruct ring as [|[k v] r]; [done|]. intros [= ->]. simpl in *.
    destruct (Z.eqb_spec p k) as [->|]; [|done]. destruct Hmn. by apply Hp.
  - intros [= ->]. destruct (Z.eqb_spec p k) as [->|]; [|done].
    destruct Hmn. apply Hp. apply map_find_elem; [done|]. rewrite Hsplit.
    apply elem_of_app. right. left.
Qed.

(** 160 points are not to be computed by simplification. *)
#[global] Opaque VIRTUAL_REPLICAS.

(** ** Orbits of the point hash *)

Definition orbit (d : nat) (x : Z) : Z := Nat.iter d Cluster_hash x.

Lemma orbit_u64 d x : is_u64 x → is_u64 (orbit d x).
Proof. intros Hx. induction d; simpl; [done|]. by apply Cluster_hash_u64. Qed.

Lemma orbit_S d x : orbit (S d) x = orbit d (Cluster_hash x).
Proof. unfold orbit. rewrite Nat.iter_succ_r. done. Qed.

Lemma points_elem n x p : p ∈ points n x ↔ ∃ d, (d < n)%nat ∧ p = orbit (S d) x.
Proof.
  revert x. induction n as [|n IH]; intros x; simpl points.
  { rewrite elem_of_nil. split; [done|]. intros (d & ? & _). lia. }
  rewrite elem_of_cons, IH. split.
  - intros [->|(d & Hd & ->)]; [exists 0%nat; split; [lia|done]|].
    exists (S d). split; [lia|]. by rewrite (orbit_S (S d)).
  - intros ([|d] & Hd & ->); [by left|right]. exists d. split; [lia|].
    by rewrite (orbit_S (S d)).
Qed.

Lemma orbit_inj d x y : is_u64 x → is_u64 y → orbit d x = orbit d y → x = y.
Proof.
  intros Hx Hy. induction d as [|d IH]; simpl; [done|]. intros H. apply IH.
  apply Cluster_hash_inj; [by apply orbit_u64..|done].
Qed.

Lemma orbit_meet d e x y :
  is_u64 x → is_u64 y → (d <= e)%nat → orbit d x = orbit e y → x = orbit (e - d) y.
Proof.
  intros Hx Hy Hde H. apply (orbit_inj d); [done|by apply orbit_u64|]. rewrite H.
  unfold orbit. rewrite <- Nat.iter_add. f_equal. lia.
Qed.

(** The nodes of [ids] share no ring point. *)
Definition disjoint_points (ids : list Z) : Prop :=
  Forall (λ a, Forall (λ b, a = b ∨ Forall (λ p, p ∉ node_points b) (node_points a)) ids) ids.

Lemma disjoint_points_spec ids a b p :
  disjoint_points ids → a ∈ ids → b ∈ ids → p ∈ node_points a → p ∈ node_points b → a = b.
Proof.
  unfold disjoint_points. rewrite Forall_forall. intros H Ha Hb Hpa Hpb. specialize (H a Ha).
  rewrite Forall_forall in H. destruct (H b Hb) as [?|Hd]; [done|].
  rewrite Forall_forall in Hd. by destruct (Hd p Hpa).
Qed.

(** The same, as a test that computes each node's points once. *)
Definition disjoint_pointsb (ids : list Z) : bool :=
  let pts := map (λ a, (a, node_points a)) ids in
  forallb (λ x : Z * list Z, forallb (λ y : Z * list Z,
    (x.1 =? y.1) || forallb (λ p, negb (existsb (Z.eqb p) y.2)) x.2) pts) pts.

Lemma disjoint_pointsb_sound ids : disjoint_pointsb ids = true → disjoint_points ids.
Proof.
  unfold disjoint_pointsb, disjoint_points. rewrite forallb_forall. intros H.
  apply Forall_forall. intros a Ha. apply Forall_forall. intros b Hb.
  assert (∀ x, x ∈ ids → In (x, node_points x) (map (λ a, (a, node_points a)) ids)) as Hin.
  { intros x Hx. rewrite list_elem_of_In in Hx. by apply (in_map (λ a, (a, node_points a))). }
  specialize (H _ (Hin a Ha)). rewrite forallb_forall in H. specialize (H _ (Hin b Hb)).
  simpl in H. apply orb_true_iff in H as [H|H]; [left; by apply Z.eqb_eq|right].
  rewrite forallb_forall in H. apply Forall_forall. intros p Hp Hpb. rewrite list_elem_of_In in Hp.
  apply H, negb_true_iff in Hp. enough (existsb (Z.eqb p) (node_points b) = true) by congruence.
  apply existsb_exists. exists p. rewrite <- list_elem_of_In. split; [done|apply Z.eqb_refl].
Qed.

(** The ring of a process that learnt of the nodes [ids], the last first. *)
Definition ring_of (ids : list Z) : Ring := foldr ring_addNodeToHash [] ids.

Lemma ring_of_sorted ids : map_sorted (ring_of ids).
Proof. induction ids; simpl; [constructor|eauto with kvjet]. Qed.

Lemma ring_of_find ids p id :
  disjoint_points ids → map_find p (ring_of ids) = Some id ↔ id ∈ ids ∧ p ∈ node_points id.
Proof.
  intros Hd. assert (∀ l, l ⊆ ids →
    map_find p (ring_of l) = Some id ↔ id ∈ l ∧ p ∈ node_points id) as H; [|by apply H].
  induction l as [|a l IH]; intros Hl; simpl.
  { split; [done|]. intros [H _]. by apply elem_of_nil in H. }
  rewrite ring_add_find, elem_of_cons. case_decide as Hp.
  - split; [intros [= <-]; auto|]. intros [[->|Hin] Hp']; [done|]. f_equal.
    apply (disjoint_points_spec ids a id p); try done; apply Hl; [left|by right].
  - rewrite IH by (intros x Hx; apply Hl; by right). naive_solver.
Qed.

Lemma disjoint_points_sub l ids : l ⊆ ids → disjoint_points ids → disjoint_points l.
Proof.
  unfold disjoint_points. rewrite !Forall_forall. intros Hl Hd a Ha.
  specialize (Hd a (Hl a Ha)). rewrite Forall_forall in *. intros b Hb. by apply Hd, Hl.
Qed.

Lemma ring_of_ext m ids :
  map_sorted m → disjoint_points ids →
  (∀ p v, map_find p m = Some v ↔ v ∈ ids ∧ p ∈ node_points v) → m = ring_of ids.
Proof.
  intros Hm Hd H. apply map_sorted_ext; [done|apply ring_of_sorted|]. intros p.
  apply option_eq. intros v. by rewrite H, ring_of_find.
Qed.

(** The order in which nodes were learnt of does not matter. *)
Lemma ring_of_perm ids ids' : disjoint_points ids → ids ≡ₚ ids' → ring_of ids' = ring_of ids.
Proof.
  intros Hd Hp. apply ring_of_ext; [apply ring_of_sorted|done|]. intros p v.
  rewrite ring_of_find; [by rewrite Hp|]. eapply disjoint_points_sub; [|done]. intros x. by rewrite Hp.
Qed.

(** ** Replica sets *)

Definition owners (ring : Ring) : gset Z := list_to_set ring.*2.

Definition node_at (ring : Ring) (i : nat) : option Z := snd <$> ring !! i.

Lemma node_at_owner ring i node : node_at ring i = Some node → node ∈ owners ring.
Proof.
  unfold node_at. rewrite fmap_Some. intros (pr & Hi & ->). apply elem_of_list_to_set.
  apply list_elem_of_fmap_2. by apply list_elem_of_lookup_2 in Hi.
Qed.

(** What the loop keeps: [result] lists the elements of [seen], owners all. *)
Record replicas_inv (ring : Ring) (result : list Z) (seen : gset Z) : Prop := {
  ri_nodup : NoDup result;
  ri_seen : seen = list_to_set result;
  ri_owners : seen ⊆ owners ring
}.

Lemma replicas_inv_size ring result seen :
  replicas_inv ring result seen → size seen = length result ∧ (length result <= size (owners ring))%nat.
Proof.
  intros [Hn -> Ho]. assert (size (list_to_set result : gset Z) = length result) as Hs
    by (by apply size_list_to_set). split; [done|]. rewrite <- Hs. by apply subseteq_size.
Qed.

(** One visit. *)
Definition visit (node : Z) (result : list Z) (seen : gset Z) : list Z :=
  if decide (node ∈ seen) then result else result ++ [node].

Lemma replicas_inv_visit ring result seen node :
  replicas_inv ring result seen → node ∈ owners ring →
  replicas_inv ring (visit node result seen) ({[ node ]} ∪ seen).
Proof.
  intros [Hn Hs Ho] Hnode. unfold visit. case_decide as Hin.
  - constructor; [done|set_solver|set_solver].
  - constructor.
    + apply NoDup_app. split_and!; [done| |apply NoDup_singleton].
      intros x Hx Hx'. apply list_elem_of_singleton in Hx' as ->. apply Hin. subst seen.
      by apply elem_of_list_to_set.
    + rewrite list_to_set_app_L. simpl. set_solver.
    + set_solver.
Qed.

(** The next position is the next probe. *)
Lemma next_probe L s t :
  (s < L)%nat →
  (if (S (probe L s t) =? L)%nat then 0%nat else S (probe L s t)) = probe L s (S t).
Proof.
  intros Hs. rewrite <- probe_S by lia. pose proof (probe_lt L s t).
  destruct (Nat.eqb_spec (S (probe L s t)) L) as [E|E].
  - rewrite Nat.add_1_r, E. symmetry. apply Nat.Div0.mod_same.
  - rewrite Nat.mod_small; lia.
Qed.

(** After a full turn every owner was visited. *)
Lemma full_turn ring s (seen : gset Z) :
  (s < length ring)%nat →
  (∀ d node, (d < length ring)%nat → node_at ring (probe (length ring) s d) = Some node → node ∈ seen) →
  owners ring ⊆ seen.
Proof.
  intros Hs H node Hnode. apply elem_of_list_to_set, list_elem_of_fmap in Hnode as ([p n] & -> & Hin).
  apply list_elem_of_lookup in Hin as [i Hi].
  destruct (probe_onto (length ring) s i) as (d & Hd & Hp); [done|by eapply lookup_lt_Some|].
  apply (H d); [done|]. by rewrite Hp; unfold node_at; rewrite Hi.
Qed.

Lemma owners_size ring : (size (owners ring) <= length ring)%nat.
Proof.
  unfold owners. induction ring as [|[p n] ring IH]; [by apply Nat.eq_le_incl, size_empty|].
  change (size ({[n]} ∪ list_to_set ring.*2 : gset Z) <= S (length ring))%nat. pose proof (size_union_alt {[n]} (list_to_set ring.*2 : gset Z)) as H. rewrite size_singleton in H.
  assert (size ((list_to_set ring.*2 : gset Z) ∖ {[n]}) <= size (list_to_set ring.*2 : gset Z))%nat
    by (apply subseteq_size; set_solver). lia.
Qed.

(** The loop after [t] visits from position [s]. *)
Record loop_inv (ring : Ring) (s t : nat) (result : list Z) (seen : gset Z) : Prop := {
  li_inv : replicas_inv ring result seen;
  li_visited : ∀ d node, (d < t)%nat → node_at ring (probe (length ring) s d) = Some node → node ∈ seen;
  li_head : head result = if (t =? 0)%nat then None else node_at ring s
}.

Lemma loop_inv_step ring s t result seen node :
  (s < length ring)%nat → loop_inv ring s t result seen →
  node_at ring (probe (length ring) s t) = Some node →
  loop_inv ring s (S t) (visit node result seen) ({[ node ]} ∪ seen).
Proof.
  intros Hs [Hi Hv Hh] Hn. constructor.
  - apply replicas_inv_visit; [done|]. by eapply node_at_owner.
  - intros d node' Hd Hn'. destruct (decide (d = t)) as [->|]; [simplify_eq; set_solver|].
    apply elem_of_union_r, (Hv d); [lia|done].
  - destruct Hi as [_ -> _]. unfold visit. destruct result as [|x result]; simpl.
    + rewrite decide_False by set_solver. destruct t; [by rewrite probe_0 in Hn by done|].
      simpl in Hh. destruct (lookup_lt_is_Some_2 ring s Hs) as [[p n] Hp].
      unfold node_at in Hh. by rewrite Hp in Hh.
    + destruct t; [done|]. by case_decide.
Qed.

Lemma loop_step fuel ring N s t result seen :
  (s < length ring)%nat → (length result < N)%nat → ∃ node,
  node_at ring (probe (length ring) s t) = Some node ∧
  replicas_loop (S fuel) ring N (probe (length ring) s t) result seen =
    (if (length ring <=? size ({[ node ]} ∪ seen))%nat then Ok (visit node result seen)
     else replicas_loop fuel ring N (probe (length ring) s (S t)) (visit node result seen)
            ({[ node ]} ∪ seen)).
Proof.
  intros Hs HN. destruct (lookup_lt_is_Some_2 ring (probe (length ring) s t)) as [[p node] Hp].
  { apply probe_lt. lia. }
  exists node. unfold node_at. rewrite Hp. split; [done|]. cbn [replicas_loop].
  destruct (Nat.ltb_spec (length result) N); [|lia].
  destruct (Nat.eqb_spec (length ring) 0); [lia|]. cbn [negb andb].
  rewrite Hp. by rewrite next_probe.
Qed.

Lemma visit_length node result seen : (length (visit node result seen) <= S (length result))%nat.
Proof. unfold visit. case_decide; rewrite ?length_app; simpl; lia. Qed.

(** With enough owners, a turn is enough. *)
Lemma replicas_loop_ok ring N s fuel t result seen :
  (s < length ring)%nat → (N <= size (owners ring))%nat → loop_inv ring s t result seen →
  (length result <= N)%nat → (length ring <= t + fuel)%nat →
  ∃ r seen' t', replicas_loop (S fuel) ring N (probe (length ring) s t) result seen = Ok r ∧
    loop_inv ring s t' r seen' ∧ length r = N.
Proof.
  intros Hs HN. revert t result seen. induction fuel as [|fuel IH]; intros t result seen Hinv Hle Hf.
  all: destruct (decide (length result = N)) as [E|E];
    [exists result, seen, t; split; [simpl; by rewrite E, Nat.ltb_irrefl|done]|].
  - exfalso. assert (owners ring ⊆ seen) as Hsub.
    { apply (full_turn ring s); [done|]. intros d node Hd. apply (li_visited _ _ _ _ _ Hinv). lia. }
    apply subseteq_size in Hsub. destruct (replicas_inv_size _ _ _ (li_inv _ _ _ _ _ Hinv)). lia.
  - destruct (loop_step (S fuel) ring N s t result seen Hs) as (node & Hn & ->); [lia|].
    pose proof (loop_inv_step _ _ _ _ _ _ Hs Hinv Hn) as Hinv'.
    pose proof (visit_length node result seen). destruct (Nat.leb_spec (length ring) (size ({[node]} ∪ seen))).
    + destruct (replicas_inv_size _ _ _ (li_inv _ _ _ _ _ Hinv')) as [Hsz _].
      pose proof (owners_size ring).
      do 3 eexists. split; [done|]. split; [done|]. lia.
    + apply IH; [done|lia|lia].
Qed.

(** With too few owners to fill [N] or to stop the loop, it never ends. *)
Lemma replicas_loop_diverges ring N s fuel t result seen :
  (s < length ring)%nat → (size (owners ring) < N)%nat → (size (owners ring) < length ring)%nat →
  loop_inv ring s t result seen →
  replicas_loop fuel ring N (probe (length ring) s t) result seen = OutOfFuel.
Proof.
  intros Hs HN HL. revert t result seen. induction fuel as [|fuel IH]; intros t result seen Hinv; [done|].
  destruct (replicas_inv_size _ _ _ (li_inv _ _ _ _ _ Hinv)).
  destruct (loop_step fuel ring N s t result seen Hs) as (node & Hn & ->); [lia|].
  pose proof (loop_inv_step _ _ _ _ _ _ Hs Hinv Hn) as Hinv'.
  destruct (replicas_inv_size _ _ _ (li_inv _ _ _ _ _ Hinv')).
  destruct (Nat.leb_spec (length ring) (size ({[node]} ∪ seen))); [lia|]. by apply IH.
Qed.

Lemma loop_inv_start ring s : (s < length ring)%nat → loop_inv ring s 0 [] ∅.
Proof. intros Hs. constructor; [constructor; [constructor|done|set_solver]|lia|done]. Qed.

Lemma ring_start_lt h ring : ring ≠ [] → (ring_start h ring < length ring)%nat.
Proof.
  intros Hne. unfold ring_start. destruct (Nat.eqb_spec (length ring - length (map_lower_bound h ring)) (length ring));
    destruct ring; simpl in *; try done; lia.
Qed.

(** The walk starts at the owner [queryNode] returns. *)
Lemma ring_start_node h ring :
  ring ≠ [] → ∃ node, ring_query h ring = Ok node ∧ node_at ring (ring_start h ring) = Some node.
Proof.
  intros Hne. unfold ring_query, ring_start, node_at.
  destruct (map_lower_bound_split h ring) as (pre & Hsplit & _).
  destruct (map_lower_bound h ring) as [|[k v] r] eqn:Hlb.
  - simpl. rewrite Nat.sub_0_r, Nat.eqb_refl. destruct ring as [|[k v] r]; [done|]. by exists v.
  - exists v. split; [done|]. rewrite Hsplit, length_app.
    replace (length pre + length ((k, v) :: r) - length ((k, v) :: r))%nat with (length pre) by lia.
    destruct (Nat.eqb_spec (length pre) (length pre + length ((k, v) :: r))); [simpl in *; lia|].
    by rewrite list_lookup_middle.
Qed.

(** ** Properties *)

(** C23: joining a node moves keys only to that node: on a non-empty ring every
    key is afterwards owned by the new node or by its previous owner. *)
Theorem ring_join_moves_only_to_new (ring : Ring) (id : Z) (key : bytes) :
  map_sorted ring → ring ≠ [] →
  ring_queryNode key (ring_addNodeToHash id ring) = Ok id ∨
  ring_queryNode key (ring_addNodeToHash id ring) = ring_queryNode key ring.
Proof.
  unfold ring_queryNode, ring_addNodeToHash. rewrite add_points_foldl.
  generalize (points VIRTUAL_REPLICAS id) as ps. intros ps. revert ring.
  induction ps as [|p ps IH]; intros ring Hs Hne; simpl; [by right|].
  destruct (IH (map_assign p id ring)) as [H|H]; [eauto with kvjet| |by left|].
  - destruct (map_assign_head p id ring) as (? & ? & ? & -> & _). done.
  - rewrite H. by apply ring_query_assign.
Qed.

(** Removing a node moves only that node's keys, provided its ring points
    are its own: a key owned by another node keeps its owner. *)
Theorem ring_leave_keeps_other_owners (ring : Ring) (id owner : Z) (key : bytes) :
  map_sorted ring → (∀ p v, p ∈ node_points id → map_find p ring = Some v → v = id) →
  ring_queryNode key ring = Ok owner → owner ≠ id →
  ring_queryNode key (ring_delNodeToHash id ring) = Ok owner.
Proof.
  unfold ring_queryNode, ring_delNodeToHash, node_points. rewrite del_points_foldl.
  generalize (points VIRTUAL_REPLICAS id) as ps. intros ps. revert ring.
  induction ps as [|p ps IH]; intros ring Hs Hown Hq Hne; simpl; [done|]. apply IH; [eauto with kvjet| | |done].
  - intros q v Hq' Hf. rewrite map_find_erase in Hf by done.
    destruct (q =? p); [done|]. by apply (Hown q); [right|].
  - apply (ring_query_erase _ _ id); try done. intros v. apply Hown. left.
Qed.

(** Two processes that know the same nodes have the same ring, in whatever
    order they learnt of them, and removing a node undoes its insertion, as
    long as no two nodes share a ring point. *)
Theorem ring_order_independent (ids ids' : list Z) (id : Z) :
  ids ≡ₚ ids' → disjoint_points (id :: ids) → id ∉ ids →
  ring_of ids = ring_of ids' ∧ ring_delNodeToHash id (ring_of (id :: ids)) = ring_of ids.
Proof.
  intros Hp Hd Hid.
  assert (disjoint_points ids) as Hd' by (eapply disjoint_points_sub; [|done]; intros x Hx; by right).
  split; [symmetry; by apply ring_of_perm|].
  apply ring_of_ext; [eauto using ring_of_sorted with kvjet|done|]. intros p v.
  rewrite ring_del_find by apply ring_of_sorted. case_decide as Hpt.
  - split; [done|]. intros [Hv Hpv]. destruct Hid.
    rewrite (disjoint_points_spec (id :: ids) id v p); [done..|left|by right|done|done].
  - rewrite ring_of_find, elem_of_cons by done. naive_solver.
Qed.

(** The point hash is a permutation of [uint64_t], so two nodes share a
    ring point exactly when one identifier is reached from the other by
    hashing it fewer than 160 times. *)
Theorem ring_points_collide_iff (a b : Z) :
  is_u64 a → is_u64 b →
  (∃ p, p ∈ node_points a ∧ p ∈ node_points b) ↔
  ∃ d, (d < VIRTUAL_REPLICAS)%nat ∧ (b = orbit d a ∨ a = orbit d b).
Proof.
  intros Ha Hb. unfold node_points. split.
  - intros (p & Hpa & Hpb). apply points_elem in Hpa as (d & Hd & ->).
    apply points_elem in Hpb as (e & He & Heq). destruct (Nat.le_ge_cases d e).
    + exists (e - d)%nat. split; [lia|]. right.
      apply (orbit_meet (S d) (S e) a b); [done|done|lia|done].
    + exists (d - e)%nat. split; [lia|]. left.
      apply (orbit_meet (S e) (S d) b a); [done|done|lia|done].
  - assert (∀ x d, (d < VIRTUAL_REPLICAS)%nat →
      orbit VIRTUAL_REPLICAS x ∈ points VIRTUAL_REPLICAS x ∧
      orbit VIRTUAL_REPLICAS x ∈ points VIRTUAL_REPLICAS (orbit d x)) as H.
    { intros x d Hd. rewrite !points_elem. split.
      - exists (VIRTUAL_REPLICAS - 1)%nat. split; [lia|].
        by replace (S (VIRTUAL_REPLICAS - 1)) with VIRTUAL_REPLICAS by lia.
      - exists (VIRTUAL_REPLICAS - d - 1)%nat. split; [lia|]. unfold orbit.
        rewrite <- Nat.iter_add.
        by replace (S (VIRTUAL_REPLICAS - d - 1) + d)%nat with VIRTUAL_REPLICAS by lia. }
    intros (d & Hd & [->| ->]); eexists; split; by apply (H _ d).
Qed.

(** C24: with at least [N] owners on the ring, [queryReplicas] ends within one
    turn of the ring and returns [N] different nodes, the first of which is the
    key's owner. *)
Theorem ring_replicas_distinct (ring : Ring) (self : Z) (key : bytes) (N : nat) :
  (0 < N)%nat → (N <= size (owners ring))%nat →
  ∃ r owner, ring_queryReplicas (S (length ring)) self key N ring = Ok r ∧
    length r = N ∧ NoDup r ∧ (∀ node, node ∈ r → node ∈ owners ring) ∧
    ring_queryNode key ring = Ok owner ∧ head r = Some owner.
Proof.
  intros Hpos HN. assert (ring ≠ []) as Hne by (intros ->; pose proof (owners_size []) as H; simpl length in H; lia).
  set (s := ring_start (Cluster_hash_str key) ring).
  pose proof (ring_start_lt (Cluster_hash_str key) ring Hne) as Hs. fold s in Hs.
  destruct (replicas_loop_ok ring N s (length ring) 0 [] ∅ Hs HN) as (r & seen & t & Hr & Hinv & Hlen);
    [by apply loop_inv_start|simpl; lia|lia|].
  rewrite probe_0 in Hr by done.
  destruct (ring_start_node (Cluster_hash_str key) ring Hne) as (owner & Hq & Hn).
  destruct Hinv as [[Hnd Hseen Hown] _ Hhead]. exists r, owner. split_and!; try done.
  - unfold ring_queryReplicas. by destruct ring.
  - intros node Hnode. apply Hown. subst seen. by apply elem_of_list_to_set.
  - rewrite Hhead. destruct t; [|done]. destruct r; [simpl in *; lia|done].
Qed.

(** The loop of [queryReplicas] compares the number of different nodes with
    the number of ring points, so with fewer owners than requested it never
    ends: for a cluster of one node (160 points) and [N = 2], no amount of
    iterations returns. *)
Theorem ring_replicas_diverge (ring : Ring) (self : Z) (key : bytes) (N : nat) :
  (size (owners ring) < N)%nat → (size (owners ring) < length ring)%nat →
  ∀ fuel, ring_queryReplicas fuel self key N ring = OutOfFuel.
Proof.
  intros HN HL fuel. assert (ring ≠ []) as Hne by (intros ->; simpl length in HL; lia).
  set (s := ring_start (Cluster_hash_str key) ring).
  pose proof (ring_start_lt (Cluster_hash_str key) ring Hne) as Hs. fold s in Hs.
  pose proof (replicas_loop_diverges ring N s fuel 0 [] ∅ Hs HN HL (loop_inv_start ring s Hs)) as Hr.
  rewrite probe_0 in Hr by done. unfold ring_queryReplicas. by destruct ring.
Qed.

(** The ring of one node. *)
Definition ring1 : Ring := ring_of [1].

Lemma ring_join_moves_only_to_new_witness :
  ring_queryNode (str "k") (ring_addNodeToHash 2 ring1) = Ok 2 ∨
  ring_queryNode (str "k") (ring_addNodeToHash 2 ring1) = ring_queryNode (str "k") ring1.
Proof. apply (ring_join_moves_only_to_new ring1 2 (str "k")); [apply ring_of_sorted|by vm_compute]. Defined.

Lemma disjoint_123 : disjoint_points [1; 2; 3].
Proof. apply disjoint_pointsb_sound. by vm_compute. Qed.

Lemma ring_leave_keeps_other_owners_witness :
  ring_queryNode (str "k") (ring_delNodeToHash 3 (ring_of [1; 2; 3])) =
    Ok (match ring_queryNode (str "k") (ring_of [1; 2; 3]) with Ok n => n | _ => 0 end).
Proof.
  apply (ring_leave_keeps_other_owners (ring_of [1; 2; 3]) 3).
  - apply ring_of_sorted.
  - intros p v Hp Hf. apply ring_of_find in Hf as [Hin Hpv]; [|apply disjoint_123].
    symmetry. apply (disjoint_points_spec [1; 2; 3] 3 v p); [apply disjoint_123|do 2 right; left|done..].
  - by vm_compute.
  - by vm_compute.
Defined.

Lemma ring_order_independent_witness :
  ring_of [1; 2] = ring_of [2; 1] ∧ ring_delNodeToHash 3 (ring_of [3; 1; 2]) = ring_of [1; 2].
Proof.
  apply (ring_order_independent [1; 2] [2; 1] 3).
  - constructor.
  - apply disjoint_pointsb_sound. by vm_compute.
  - refine (bool_decide_eq_true_1 _ _). by vm_compute.
Defined.

Lemma ring_points_collide_iff_witness :
  (∃ p, p ∈ node_points 1 ∧ p ∈ node_points (Cluster_hash 1)) ↔
  ∃ d, (d < VIRTUAL_REPLICAS)%nat ∧ (Cluster_hash 1 = orbit d 1 ∨ 1 = orbit d (Cluster_hash 1)).
Proof.
  apply (ring_points_collide_iff 1 (Cluster_hash 1)); [unfold is_u64; lia|].
  apply Cluster_hash_u64. unfold is_u64. lia.
Defined.

Lemma ring_replicas_distinct_witness :
  ∃ r owner, ring_queryReplicas (S (length (ring_of [1; 2]))) 1 (str "k") 2 (ring_of [1; 2]) = Ok r ∧
    length r = 2%nat ∧ NoDup r ∧ (∀ node, node ∈ r → node ∈ owners (ring_of [1; 2])) ∧
    ring_queryNode (str "k") (ring_of [1; 2]) = Ok owner ∧ head r = Some owner.
Proof.
  apply (ring_replicas_distinct (ring_of [1; 2]) 1 (str "k") 2); [lia|].
  apply Nat.leb_le. by vm_compute.
Defined.

Lemma ring_replicas_diverge_witness :
  (size (owners ring1) < 2)%nat ∧ ∀ fuel, ring_queryReplicas fuel 1 (str "k") 2 ring1 = OutOfFuel.
Proof.
  split; [apply Nat.ltb_lt; by vm_compute|].
  apply (ring_replicas_diverge ring1 1 (str "k") 2); apply Nat.ltb_lt; by vm_compute.
Defined.
