(* ===== verification/Cluster.v ===== *)
(** * Cluster membership (util/Cluster.h, util/Cluster.cpp)

    The maps of [class Cluster] under their locks, each method one atomic step;
    the ring operations are those of [Ring].  Times are milliseconds since the
    epoch: [now] is an [int64_t], the stored time stamps are [uint64_t], so
    [now - ts] is computed modulo [2^64].  Sockets, threads, the random
    generator and the callbacks are outside: [generateUUID] and the index drawn
    by [randomNode] are arguments, and callback invocations are returned. *)
From Stdlib Require Import ZArith Ascii Lia.
From stdpp Require Import base numbers list strings gmap.
From S2P Require Import Prelude CppStd Ring.
Local Open Scope Z_scope.

(** config/Config.h *)
Definition GOSSIP_CACHE_SIZE : nat := 1000.
Definition GOSSIP_TIMEOUT_MS : Z := 60000.
Definition HEARTBEAT_TIMEOUT_MS : Z := 3000.

(** [Cluster::Node] *)
Record CNode := mkCNode { ip : bytes; port : Z; UUID : Z }.
#[global] Instance CNode_eq_dec : EqDecision CNode.
Proof. solve_decision. Defined.

Record Cluster := mkCluster {
  self_node : CNode;
  node_hash : Ring;
  heartbeat_time : list (Z * Z);
  connections : list (Z * Z);
  fd_to_uuid : list (Z * Z);
  topo : list (Z * CNode);
  gossip_cache : list (Z * Z)
}.

Definition set_node_hash r c :=
  mkCluster (self_node c) r (heartbeat_time c) (connections c) (fd_to_uuid c) (topo c) (gossip_cache c).
Definition set_heartbeat_time h c :=
  mkCluster (self_node c) (node_hash c) h (connections c) (fd_to_uuid c) (topo c) (gossip_cache c).
Definition set_connections x c :=
  mkCluster (self_node c) (node_hash c) (heartbeat_time c) x (fd_to_uuid c) (topo c) (gossip_cache c).
Definition set_fd_to_uuid x c :=
  mkCluster (self_node c) (node_hash c) (heartbeat_time c) (connections c) x (topo c) (gossip_cache c).
Definition set_topo t c :=
  mkCluster (self_node c) (node_hash c) (heartbeat_time c) (connections c) (fd_to_uuid c) t (gossip_cache c).
Definition set_gossip_cache g c :=
  mkCluster (self_node c) (node_hash c) (heartbeat_time c) (connections c) (fd_to_uuid c) (topo c) g.

(** [Cluster()], the client's, and [Cluster(heartbeat_port, ip)], the server's. *)
Definition Cluster_client_init (uuid : Z) : Cluster :=
  mkCluster (mkCNode (str "127.0.0.1") 0 uuid) [] [] [] [] [] [].
Definition Cluster_init (uuid heartbeat_port : Z) (addr : bytes) : Cluster :=
  let self := mkCNode addr (u16 (heartbeat_port - 1)) uuid in
  mkCluster self [] [] [] [] (map_assign uuid self []) [].

(** ** The ring *)

Definition Cluster_addNodeToHash (node_id : Z) (c : Cluster) : Cluster :=
  set_node_hash (ring_addNodeToHash node_id (node_hash c)) c.
Definition Cluster_delNodeToHash (node_id : Z) (c : Cluster) : Cluster :=
  set_node_hash (ring_delNodeToHash node_id (node_hash c)) c.
Definition Cluster_queryNode (key : bytes) (c : Cluster) : res Z := ring_queryNode key (node_hash c).
Definition Cluster_queryReplicas (fuel : nat) (key : bytes) (N : nat) (c : Cluster) : res (list Z) :=
  ring_queryReplicas fuel (UUID (self_node c)) key N (node_hash c).
Definition Cluster_isMasterFor (key : bytes) (c : Cluster) : res bool :=
  owner ← Cluster_queryNode key c; Ok (owner =? UUID (self_node c)).

(** ** Connections and topology *)

Definition Cluster_addConnection (uuid fd : Z) (c : Cluster) : Cluster :=
  set_fd_to_uuid (map_assign fd uuid (fd_to_uuid c))
    (set_connections (map_assign uuid fd (connections c)) c).

Definition Cluster_getConnection (uuid : Z) (c : Cluster) : Z :=
  match map_find uuid (connections c) with None => -1 | Some fd => fd end.

Definition Cluster_getUuidByFd (fd : Z) (c : Cluster) : Z :=
  match map_find fd (fd_to_uuid c) with Some u => u | None => 0 end.

Definition Cluster_delConnection (uuid : Z) (c : Cluster) : Cluster :=
  let fd := match map_find uuid (connections c) with Some fd => fd | None => -1 end in
  let c := if fd =? -1 then c else set_fd_to_uuid (map_erase fd (fd_to_uuid c)) c in
  set_connections (map_erase uuid (connections c)) c.

Definition Cluster_addTopoNode (node : CNode) (c : Cluster) : Cluster :=
  set_topo (map_assign (UUID node) node (topo c)) c.

Definition Cluster_delTopoNode (uuid : Z) (c : Cluster) : Cluster :=
  let c := Cluster_delConnection uuid c in
  let c := set_topo (map_erase uuid (topo c)) c in
  set_heartbeat_time (map_erase uuid (heartbeat_time c)) c.

(** [draw] is the index the generator draws, below [topo.size()]. *)
Definition Cluster_randomNode (draw : nat) (c : Cluster) : res Z :=
  match topo c with
  | [] => Ok 0
  | _ => match topo c !! draw with None => UB | Some (u, _) => Ok u end
  end.

(** ** Heartbeats *)

(** [now - ts] as the usual arithmetic conversions compute it. *)
Definition elapsed (now ts : Z) : Z := u64 (now - ts).

Definition Cluster_updateHeartbeat (now fd : Z) (c : Cluster) : Cluster :=
  match map_find fd (fd_to_uuid c) with
  | None => c
  | Some uuid => set_heartbeat_time (map_assign uuid (u64 now) (heartbeat_time c)) c
  end.

Definition heartbeat_msg (self : Z) : bytes :=
  str "*2" ++ CRLF ++ str "+HEARTBEAT" ++ CRLF ++ str "+" ++ to_string self ++ CRLF.

(** The messages handed to [send_cb] (when [cb] is set), with their sockets. *)
Fixpoint heartbeat_loop (cb : bool) (now : Z) (conns : list (Z * Z)) (c : Cluster)
    : list (bytes * Z) * Cluster :=
  match conns with
  | [] => ([], c)
  | (uuid, fd) :: conns' =>
      if (fd =? -1) || negb cb then heartbeat_loop cb now conns' c
      else
        let self := UUID (self_node c) in
        let c := set_heartbeat_time (map_assign self (u64 now) (heartbeat_time c)) c in
        let '(msgs, c') := heartbeat_loop cb now conns' c in
        ((heartbeat_msg self, fd) :: msgs, c')
  end.
Definition Cluster_sendHeartbeats (cb : bool) (now : Z) (c : Cluster) : list (bytes * Z) * Cluster :=
  heartbeat_loop cb now (connections c) c.

(** The nodes collected in [dead]. *)
Definition timed_out (now : Z) (c : Cluster) : list Z :=
  map fst (filter (λ e : Z * Z,
    e.1 ≠ UUID (self_node c) ∧ HEARTBEAT_TIMEOUT_MS < elapsed now e.2) (heartbeat_time c)).

Definition remove_dead (uuid : Z) (c : Cluster) : Cluster :=
  Cluster_delTopoNode uuid (Cluster_delNodeToHash uuid c).

(** Returns the arguments of the [failure_cb] calls. *)
Definition Cluster_checkTimeouts (now : Z) (c : Cluster) : list Z * Cluster :=
  let dead := timed_out now c in
  (dead, foldl (λ c uuid, remove_dead uuid c) c dead).

Definition Cluster_isAlive (now node_id : Z) (c : Cluster) : bool :=
  match map_find node_id (heartbeat_time c) with
  | None => false
  | Some ts => elapsed now ts <? HEARTBEAT_TIMEOUT_MS
  end.

(** One round of [heartbeatLoop]. *)
Definition Cluster_heartbeatRound (cb : bool) (now1 now2 : Z) (c : Cluster)
    : list (bytes * Z) * list Z * Cluster :=
  let '(msgs, c1) := Cluster_sendHeartbeats cb now1 c in
  let '(dead, c2) := Cluster_checkTimeouts now2 c1 in
  (msgs, dead, c2).

(** ** Gossip *)

Definition Cluster_findGossip (uuid : Z) (c : Cluster) : bool :=
  match map_find uuid (gossip_cache c) with Some _ => true | None => false end.

Definition Cluster_addGossip (now uuid : Z) (c : Cluster) : Cluster :=
  let g := map_assign uuid (u64 now) (gossip_cache c) in
  let g := filter (λ e : Z * Z, elapsed now e.2 <= GOSSIP_TIMEOUT_MS) g in
  let g := if (GOSSIP_CACHE_SIZE <? length g)%nat then tail g else g in
  set_gossip_cache g c.

(** ** Invariant: every map is a map *)

Record Cluster_ok (c : Cluster) : Prop := {
  cok_ring : map_sorted (node_hash c);
  cok_hb : map_sorted (heartbeat_time c);
  cok_conn : map_sorted (connections c);
  cok_fd : map_sorted (fd_to_uuid c);
  cok_topo : map_sorted (topo c);
  cok_gossip : map_sorted (gossip_cache c)
}.

Lemma tail_sorted {V} (m : list (Z * V)) : map_sorted m → map_sorted (tail m).
Proof. destruct m as [|[k v] m]; [done|]. intros H. by apply map_sorted_inv in H as [? _]. Qed.
#[export] Hint Resolve tail_sorted map_sorted_filter : kvjet.

Lemma addGossip_ok now uuid c : Cluster_ok c → Cluster_ok (Cluster_addGossip now uuid c).
Proof.
  intros [? ? ? ? ? Hg]. constructor; try done. simpl. case_match; eauto with kvjet.
Qed.

Lemma delConnection_ok uuid c : Cluster_ok c → Cluster_ok (Cluster_delConnection uuid c).
Proof.
  intros [? ? ? ? ? ?]. unfold Cluster_delConnection. destruct (_ =? -1); constructor; simpl; eauto with kvjet.
Qed.

Lemma delTopoNode_ok uuid c : Cluster_ok c → Cluster_ok (Cluster_delTopoNode uuid c).
Proof.
  intros Hc. destruct (delConnection_ok uuid c Hc). constructor; simpl; eauto with kvjet.
Qed.

Lemma remove_dead_ok uuid c : Cluster_ok c → Cluster_ok (remove_dead uuid c).
Proof.
  intros [? ? ? ? ? ?]. apply delTopoNode_ok. constructor; simpl; eauto with kvjet.
Qed.

Lemma addConnection_ok uuid fd c : Cluster_ok c → Cluster_ok (Cluster_addConnection uuid fd c).
Proof. intros [? ? ? ? ? ?]. constructor; simpl; eauto with kvjet. Qed.

Lemma updateHeartbeat_ok now fd c : Cluster_ok c → Cluster_ok (Cluster_updateHeartbeat now fd c).
Proof.
  intros Hc. unfold Cluster_updateHeartbeat. case_match; [|done].
  destruct Hc. constructor; simpl; eauto with kvjet.
Qed.

Lemma heartbeat_loop_ok cb now conns c : Cluster_ok c → Cluster_ok (heartbeat_loop cb now conns c).2.
Proof.
  revert c. induction conns as [|[u fd] conns IH]; intros c Hc; simpl; [done|].
  case_match; [by apply IH|].
  destruct (heartbeat_loop _ _ _ _) as [msgs c'] eqn:E. simpl.
  change c' with (msgs, c').2. rewrite <- E. apply IH. destruct Hc. constructor; simpl; eauto with kvjet.
Qed.

(** ** What [checkTimeouts] removes *)

Lemma timed_out_elem now c u :
  Cluster_ok c →
  u ∈ timed_out now c ↔
  u ≠ UUID (self_node c) ∧ ∃ ts, map_find u (heartbeat_time c) = Some ts ∧ HEARTBEAT_TIMEOUT_MS < elapsed now ts.
Proof.
  intros Hc. unfold timed_out. rewrite list_elem_of_fmap. split.
  - intros ([u' ts] & -> & Hin). apply list_elem_of_filter in Hin as [[Hne Ht] Hin]. simpl in *.
    split; [done|]. exists ts. split; [|done]. apply map_find_elem; [apply Hc|done].
  - intros (Hne & ts & Hf & Ht). exists (u, ts). split; [done|]. apply list_elem_of_filter.
    split; [done|]. by apply map_find_Some_elem.
Qed.

(** Unsigned subtraction of time stamps: late, or from the future. *)
Lemma elapsed_late now ts :
  0 <= now < 2 ^ 63 → 0 <= ts < 2 ^ 63 →
  HEARTBEAT_TIMEOUT_MS < elapsed now ts ↔ ts + HEARTBEAT_TIMEOUT_MS < now ∨ now < ts.
Proof.
  intros Hn Ht. unfold elapsed, u64, HEARTBEAT_TIMEOUT_MS. destruct (Z.lt_ge_cases now ts).
  - replace (now - ts) with (now - ts + 2 ^ 64 + -1 * 2 ^ 64) by lia.
    rewrite Z_mod_plus_full, Z.mod_small by lia. lia.
  - rewrite Z.mod_small by lia. lia.
Qed.

(** What one removal leaves of the other nodes' entries. *)
Lemma remove_dead_find u d c :
  Cluster_ok c →
  map_find u (heartbeat_time (remove_dead d c)) =
    (if u =? d then None else map_find u (heartbeat_time c)) ∧
  map_find u (topo (remove_dead d c)) = (if u =? d then None else map_find u (topo c)) ∧
  map_find u (connections (remove_dead d c)) = (if u =? d then None else map_find u (connections c)) ∧
  ∀ p, map_find p (node_hash (remove_dead d c)) =
    (if decide (p ∈ node_points d) then None else map_find p (node_hash c)).
Proof.
  intros [Hr Hh Hc Hf Ht Hg]. unfold remove_dead, Cluster_delTopoNode, Cluster_delConnection.
  case_match; simpl; split_and!; try (by apply map_find_erase); intros p; by apply ring_del_find.
Qed.

Lemma remove_all_dead dead c :
  Cluster_ok c →
  let c' := foldl (λ c uuid, remove_dead uuid c) c dead in
  Cluster_ok c' ∧ self_node c' = self_node c ∧
  (∀ u, map_find u (heartbeat_time c') = (if decide (u ∈ dead) then None else map_find u (heartbeat_time c)) ∧
    map_find u (topo c') = (if decide (u ∈ dead) then None else map_find u (topo c)) ∧
    map_find u (connections c') = (if decide (u ∈ dead) then None else map_find u (connections c))) ∧
  (∀ p, map_find p (node_hash c') =
    if decide (Exists (λ d, p ∈ node_points d) dead) then None else map_find p (node_hash c)).
Proof.
  revert c. induction dead as [|d dead IH]; intros c Hc; simpl.
  { by split_and!. }
  destruct (IH (remove_dead d c) (remove_dead_ok d c Hc)) as (Hok & Hself & Hmaps & Hring).
  split; [done|]. split.
  { rewrite Hself. unfold remove_dead, Cluster_delTopoNode, Cluster_delConnection. by case_match. }
  split.
  - intros u. destruct (remove_dead_find u d c Hc) as (E1 & E2 & E3 & _).
    destruct (Hmaps u) as (M1 & M2 & M3). rewrite M1, M2, M3, E1, E2, E3.
    clear E1 E2 E3 M1 M2 M3. destruct (Z.eqb_spec u d) as [Hud|Hne].
    + rewrite !(decide_True (P := u ∈ d :: dead)) by (rewrite Hud; left). by case_decide.
    + split_and!; repeat case_decide; try done; exfalso; rewrite elem_of_cons in *; tauto.
  - intros p. destruct (remove_dead_find 0 d c Hc) as (_ & _ & _ & E). rewrite Hring, E.
    repeat case_decide; try done; exfalso; rewrite Exists_cons in *; tauto.
Qed.

(** ** Properties *)

(** A timeout round removes exactly the nodes it reports: those, other than
    itself, whose last heartbeat is more than three seconds old, and also any
    whose time stamp is ahead of the clock (the difference is unsigned).  A
    removed node leaves the heartbeat table, the topology, the connections and
    the ring; every other node keeps its entries. *)
Theorem cluster_timeouts_exact (now : Z) (c : Cluster) :
  Cluster_ok c → 0 <= now < 2 ^ 63 →
  (∀ u ts, map_find u (heartbeat_time c) = Some ts → 0 <= ts < 2 ^ 63) →
  let '(dead, c') := Cluster_checkTimeouts now c in
  Cluster_ok c' ∧
  (∀ u, u ∈ dead ↔ u ≠ UUID (self_node c) ∧ ∃ ts, map_find u (heartbeat_time c) = Some ts ∧
     (ts + HEARTBEAT_TIMEOUT_MS < now ∨ now < ts)) ∧
  (∀ u, u ∈ dead → map_find u (heartbeat_time c') = None ∧ map_find u (topo c') = None ∧
     Cluster_getConnection u c' = -1 ∧ ∀ p, p ∈ node_points u → map_find p (node_hash c') = None) ∧
  (∀ u, u ∉ dead → map_find u (heartbeat_time c') = map_find u (heartbeat_time c) ∧
     map_find u (topo c') = map_find u (topo c) ∧
     Cluster_getConnection u c' = Cluster_getConnection u c).
Proof.
  intros Hc Hnow Hts. unfold Cluster_checkTimeouts.
  destruct (remove_all_dead (timed_out now c) c Hc) as (Hok & _ & Hmaps & Hring).
  split_and!; [done|..].
  - intros u. rewrite timed_out_elem by done. split; intros (Hne & ts & Hf & Ht); (split; [done|]);
      exists ts; (split; [done|]); by apply (elapsed_late now ts Hnow (Hts u ts Hf)).
  - intros u Hu. destruct (Hmaps u) as (E1 & E2 & E3). unfold Cluster_getConnection.
    rewrite E1, E2, E3, !decide_True by done. split_and!; try done. intros p Hp. rewrite Hring.
    rewrite decide_True; [done|]. apply Exists_exists. by exists u.
  - intros u Hu. destruct (Hmaps u) as (E1 & E2 & E3). unfold Cluster_getConnection.
    by rewrite E1, E2, E3, !decide_False.
Qed.

(** The gossip cache stays a map of at most 1000 entries, and a message just
    recorded is recognised as a duplicate, except when 1000 unexpired entries
    with larger identifiers are cached: the entry evicted is then the new one,
    since the smallest identifier goes, not the oldest. *)
Theorem cluster_gossip_cache (now uuid : Z) (c : Cluster) :
  Cluster_ok c → is_u64 now →
  let c' := Cluster_addGossip now uuid c in
  let others := filter (λ e : Z * Z, elapsed now e.2 <= GOSSIP_TIMEOUT_MS)
                  (filter (λ e : Z * Z, e.1 ≠ uuid) (gossip_cache c)) in
  Cluster_ok c' ∧
  (length (gossip_cache c) <= GOSSIP_CACHE_SIZE → length (gossip_cache c') <= GOSSIP_CACHE_SIZE)%nat ∧
  (Cluster_findGossip uuid c' = false ↔
   (GOSSIP_CACHE_SIZE <= length others)%nat ∧ Forall (λ e : Z * Z, uuid < e.1) others).
Proof.
  intros Hc Hnow c' others. split; [by apply addGossip_ok|].
  destruct (map_assign_split uuid (u64 now) (gossip_cache c) (cok_gossip _ Hc)) as (l & r & Ha & Hl & Hr & Hf).
  set (P := λ e : Z * Z, elapsed now e.2 <= GOSSIP_TIMEOUT_MS) in *.
  assert (gossip_cache c' = let g := filter P l ++ (uuid, u64 now) :: filter P r in
    if (GOSSIP_CACHE_SIZE <? length g)%nat then tail g else g) as Hg.
  { subst c'. unfold Cluster_addGossip. simpl. fold P. rewrite Ha, filter_app, filter_cons.
    rewrite decide_True; [done|]. unfold P, elapsed. simpl. rewrite (u64_id now) by done.
    rewrite Z.sub_diag. by vm_compute. }
  assert (others = filter P l ++ filter P r) as Ho by (subst others; rewrite Hf; apply filter_app).
  assert (Forall (λ e : Z * Z, e.1 < uuid) (filter P l)) as Hl' by (by apply Forall_filter_sub).
  assert (Forall (λ e : Z * Z, uuid < e.1) (filter P r)) as Hr' by (by apply Forall_filter_sub).
  split.
  - intros Hle. rewrite Hg. cbv zeta.
    set (g := filter P l ++ (uuid, u64 now) :: filter P r).
    assert (length g = length (filter P l) + S (length (filter P r)))%nat as Hlg
      by (subst g; by rewrite length_app).
    assert (length (tail g) = length g - 1)%nat as Htl by (destruct g; simpl; lia).
    pose proof (length_filter P l). pose proof (length_filter P r).
    pose proof (length_filter (λ e : Z * Z, e.1 ≠ uuid) (gossip_cache c)) as Hlen.
    rewrite Hf, length_app in Hlen.
    destruct (Nat.ltb_spec GOSSIP_CACHE_SIZE (length g)); lia.
  - unfold Cluster_findGossip. rewrite Hg, Ho. cbv zeta. rewrite Forall_app, !length_app. cbn [length].
    destruct (Nat.ltb_spec GOSSIP_CACHE_SIZE (length (filter P l) + S (length (filter P r)))) as [Hb|Hs].
    + destruct (filter P l) as [|e l']; cbn [tail app].
      * rewrite map_find_larger by done. split; [intros _|done]. cbn [length] in *.
        split_and!; [lia|constructor|done].
      * apply Forall_cons in Hl' as [He Hl']. rewrite map_find_middle by done. split; [done|].
        intros [_ [Hall _]]. apply Forall_cons in Hall as [? _]. lia.
    + rewrite map_find_middle by done. split; [done|]. intros [? _]. lia.
Qed.

(** A connection is found from both ends while it is registered and from
    neither after it is dropped; other nodes' connections are untouched. *)
Theorem cluster_connection_roundtrip (c : Cluster) (uuid fd : Z) :
  Cluster_ok c → fd ≠ -1 →
  let c1 := Cluster_addConnection uuid fd c in
  let c2 := Cluster_delConnection uuid c1 in
  Cluster_getConnection uuid c1 = fd ∧ Cluster_getUuidByFd fd c1 = uuid ∧
  Cluster_getConnection uuid c2 = -1 ∧ Cluster_getUuidByFd fd c2 = 0 ∧ Cluster_ok c2 ∧
  ∀ u, u ≠ uuid → Cluster_getConnection u c2 = Cluster_getConnection u c.
Proof.
  intros Hc Hfd c1 c2. pose proof (addConnection_ok uuid fd c Hc) as Hc1. fold c1 in Hc1.
  assert (map_find uuid (connections c1) = Some fd) as E1 by apply map_find_assign_eq.
  assert (map_find fd (fd_to_uuid c1) = Some uuid) as E2 by apply map_find_assign_eq.
  assert (connections c2 = map_erase uuid (connections c1) ∧
    fd_to_uuid c2 = map_erase fd (fd_to_uuid c1)) as [D1 D2].
  { subst c2. unfold Cluster_delConnection. rewrite E1. by destruct (Z.eqb_spec fd (-1)). }
  unfold Cluster_getConnection, Cluster_getUuidByFd. rewrite E1, E2, D1, D2.
  rewrite (map_find_erase uuid uuid) by apply Hc1. rewrite (map_find_erase fd fd) by apply Hc1.
  rewrite !Z.eqb_refl. split_and!; try done; [by apply delConnection_ok|].
  intros u Hu. rewrite map_find_erase_ne by done. subst c1. simpl. by rewrite map_find_assign_ne.
Qed.

(** Nodes that know the same set of nodes, in whatever order they learnt of
    it, agree on exactly one master for every key. *)
Theorem cluster_unique_master (ids : list Z) (key : bytes) :
  disjoint_points ids → ids ≠ [] →
  ∃ master, master ∈ ids ∧
    ∀ c ids', ids' ≡ₚ ids → node_hash c = ring_of ids' →
      Cluster_queryNode key c = Ok master ∧
      Cluster_isMasterFor key c = Ok (bool_decide (UUID (self_node c) = master)).
Proof.
  intros Hd Hne.
  assert (ring_of ids ≠ []) as Hr.
  { destruct ids as [|a ids]; [done|]. intros E.
    assert (map_find (Cluster_hash a) (ring_of (a :: ids)) = Some a) as H.
    { simpl. rewrite ring_add_find. rewrite decide_True; [done|]. unfold node_points. rewrite points_elem.
      exists 0%nat. split; [vm_compute; lia|done]. }
    by rewrite E in H. }
  destruct (ring_start_node (Cluster_hash_str key) (ring_of ids) Hr) as (m & Hq & Hn).
  exists m. split.
  - unfold node_at in Hn. apply fmap_Some in Hn as ([p v] & Hp & ->). simpl.
    apply list_elem_of_lookup_2 in Hp. apply map_find_elem in Hp; [|apply ring_of_sorted].
    by apply ring_of_find in Hp as [? _].
  - intros c ids' Hp Hring. assert (ring_of ids' = ring_of ids) as E by (by apply ring_of_perm).
    unfold Cluster_isMasterFor, Cluster_queryNode, ring_queryNode. rewrite Hring, E, Hq. split; [done|].
    simpl. f_equal. destruct (Z.eqb_spec m (UUID (self_node c))) as [->|Hm].
    + by rewrite bool_decide_true.
    + rewrite bool_decide_false; [done|]. congruence.
Qed.

(** A cluster of three nodes: node 2 silent since 0, node 3 ahead of the clock. *)
Definition cluster3 : Cluster :=
  let c := Cluster_init 1 7801 (str "127.0.0.1") in
  let c := Cluster_addTopoNode (mkCNode (str "10.0.0.2") 7800 2) (Cluster_addConnection 2 5 c) in
  let c := Cluster_addTopoNode (mkCNode (str "10.0.0.3") 7800 3) (Cluster_addConnection 3 6 c) in
  Cluster_updateHeartbeat 6001 6 (Cluster_updateHeartbeat 0 5 c).

Lemma cluster3_ok : Cluster_ok cluster3.
Proof. repeat first [apply updateHeartbeat_ok|constructor]. Qed.

Lemma cluster_timeouts_exact_witness :
  timed_out 6000 cluster3 = [2; 3] ∧
  let '(dead, c') := Cluster_checkTimeouts 6000 cluster3 in
  Cluster_ok c' ∧
  (∀ u, u ∈ dead ↔ u ≠ UUID (self_node cluster3) ∧ ∃ ts, map_find u (heartbeat_time cluster3) = Some ts ∧
     (ts + HEARTBEAT_TIMEOUT_MS < 6000 ∨ 6000 < ts)) ∧
  (∀ u, u ∈ dead → map_find u (heartbeat_time c') = None ∧ map_find u (topo c') = None ∧
     Cluster_getConnection u c' = -1 ∧ ∀ p, p ∈ node_points u → map_find p (node_hash c') = None) ∧
  (∀ u, u ∉ dead → map_find u (heartbeat_time c') = map_find u (heartbeat_time cluster3) ∧
     map_find u (topo c') = map_find u (topo cluster3) ∧
     Cluster_getConnection u c' = Cluster_getConnection u cluster3).
Proof.
  split; [by vm_compute|]. apply (cluster_timeouts_exact 6000 cluster3).
  - apply cluster3_ok.
  - lia.
  - intros u ts. change (heartbeat_time cluster3) with [(2, 0); (3, 6001)]. simpl.
    repeat case_match; intros; simplify_eq; lia.
Defined.

(** A thousand fresh entries above the new identifier. *)
Definition full_gossip : Cluster :=
  set_gossip_cache (map (λ i, (Z.of_nat i, 0)) (seq 1 1000)) (Cluster_init 1 7801 (str "127.0.0.1")).

Lemma seq_entries_sorted n i : map_sorted (map (λ i, (Z.of_nat i, 0)) (seq i n)).
Proof.
  unfold map_sorted. rewrite <- list_fmap_compose.
  revert i. induction n as [|n IH]; intros i; simpl; [constructor|].
  constructor; [apply IH|]. apply Forall_fmap, Forall_forall. intros j Hj%elem_of_seq. simpl. lia.
Qed.

Lemma full_gossip_ok : Cluster_ok full_gossip.
Proof. constructor; [constructor..|by repeat constructor|apply seq_entries_sorted]. Qed.

Lemma cluster_gossip_cache_witness :
  Cluster_findGossip 0 (Cluster_addGossip 0 0 full_gossip) = false ∧
  let c' := Cluster_addGossip 0 0 full_gossip in
  let others := filter (λ e : Z * Z, elapsed 0 e.2 <= GOSSIP_TIMEOUT_MS)
                  (filter (λ e : Z * Z, e.1 ≠ 0) (gossip_cache full_gossip)) in
  Cluster_ok c' ∧
  (length (gossip_cache full_gossip) <= GOSSIP_CACHE_SIZE → length (gossip_cache c') <= GOSSIP_CACHE_SIZE)%nat ∧
  (Cluster_findGossip 0 c' = false ↔
   (GOSSIP_CACHE_SIZE <= length others)%nat ∧ Forall (λ e : Z * Z, 0 < e.1) others).
Proof.
  split; [by vm_compute|]. apply (cluster_gossip_cache 0 0 full_gossip); [apply full_gossip_ok|].
  unfold is_u64. lia.
Defined.

Lemma cluster_connection_roundtrip_witness :
  Cluster_getConnection 9 (Cluster_addConnection 9 7 cluster3) = 7.
Proof. apply (cluster_connection_roundtrip cluster3 9 7); [apply cluster3_ok|lia]. Defined.

Lemma cluster_unique_master_witness :
  ∃ master, master ∈ [1; 2] ∧
    ∀ c ids', ids' ≡ₚ [1; 2] → node_hash c = ring_of ids' →
      Cluster_queryNode (str "k") c = Ok master ∧
      Cluster_isMasterFor (str "k") c = Ok (bool_decide (UUID (self_node c) = master)).
Proof.
  apply (cluster_unique_master [1; 2] (str "k")); [|done].
  apply disjoint_pointsb_sound. by vm_compute.
Defined.
