(* ===== verification/Utils.v ===== *)
(** * Topology on the wire (util/Utils.cpp, resp::encodeNode, resp::encodeTopo,
      Handler::GETNETWORK)

    The text of the topology messages and the functions that read it back. *)
From Stdlib Require Import ZArith Ascii String Lia.
From stdpp Require Import base numbers list strings.
From S2P Require Import Prelude CppStd RespValue RespParser Ring Cluster.
Local Open Scope Z_scope.

(** [ret += c - '0'] in [uint64_t]; no character is rejected. *)
Definition Utils_to_uint64_t (s : bytes) : Z :=
  foldl (λ ret c, u64 (u64 (ret * 10) + (schar c - 48))) 0 s.

Definition Utils_getNode (v : RespValue) : res CNode :=
  match v with
  | Array (Some [ip_; port_; UUID_]) =>
      match ip_, port_, UUID_ with
      | SimpleString addr, Integer p, SimpleString u =>
          Ok (mkCNode addr (u16 p) (Utils_to_uint64_t u))
      | _, _, _ => Throw (RuntimeError "getNode: Invalid node element types")
      end
  | _ => Throw (RuntimeError "getNode: Invalid node format, expected Array of 3 elements")
  end.

Fixpoint getNodes (l : list RespValue) : res (list CNode) :=
  match l with
  | [] => Ok []
  | v :: l' => n ← Utils_getNode v; ns ← getNodes l'; Ok (n :: ns)
  end.

Definition Utils_getTopo (v : RespValue) : res (list CNode) :=
  match v with
  | Array (Some l) => getNodes l
  | _ => Throw (RuntimeError "getTopo: Invalid topo format, expected Array")
  end.

#[warnings="-notation-for-abbreviation"] Notation Groups := (list (Z * list Z)).

(** The members of one group: simple strings other than zero. *)
Definition group_members (l : list RespValue) : list Z :=
  omap (λ v, match v with
             | SimpleString s => let uid := Utils_to_uint64_t s in if uid =? 0 then None else Some uid
             | _ => None
             end) l.

(** The loop over the groups; a group whose id is not a simple string is a
    null dereference. *)
Fixpoint read_groups (l : list RespValue) (groups : Groups) : res Groups :=
  match l with
  | [] => Ok groups
  | Array (Some (g :: m :: ms)) :: l' =>
      match g with
      | SimpleString s =>
          read_groups l' (map_assign (Utils_to_uint64_t s) (group_members (m :: ms)) groups)
      | _ => UB
      end
  | _ :: l' => read_groups l' groups
  end.

Definition Utils_getTopoV2 (v : RespValue) (groups : Groups) : res (list CNode * Groups) :=
  match v with
  | Array (Some (first :: more)) =>
      nodes ← Utils_getTopo first;
      groups ← (match more with
                | Array (Some l) :: _ => read_groups l groups
                | _ => Ok groups
                end);
      Ok (nodes, groups)
  | _ => Throw (RuntimeError "getTopoV2: Invalid format")
  end.

Definition encodeNode (node : CNode) : bytes :=
  str "*3" ++ CRLF ++ str "+" ++ ip node ++ CRLF ++ str ":" ++ to_string (port node) ++ CRLF ++
  str "+" ++ to_string (UUID node) ++ CRLF.

Definition encodeTopo (t : list (Z * CNode)) : bytes :=
  foldl (λ ret e, ret ++ encodeNode e.2)
    (str "*" ++ to_string (Z.of_nat (length t)) ++ CRLF) t.

(** One group of [GETNETWORK]: its id and three members, [0] where there are fewer. *)
Definition encodeGroup (e : Z * list Z) : bytes :=
  let '(gid, members) := e in
  str "*4" ++ CRLF ++ str "+" ++ to_string gid ++ CRLF ++
  flat_map (λ i, str "+" ++ to_string (default 0 (members !! i)) ++ CRLF) (seq 0 3).

Definition Handler_GETNETWORK (t : list (Z * CNode)) (gm : Groups) : bytes :=
  str "*2" ++ CRLF ++ encodeTopo t ++
  str "*" ++ to_string (Z.of_nat (length gm)) ++ CRLF ++ flat_map encodeGroup gm.

(** ** Reading back what was written *)

Lemma to_uint64_t_digit acc d :
  0 <= d < 10 → u64 (u64 (acc * 10) + (schar (digit d) - 48)) = u64 (acc * 10 + d).
Proof.
  intros Hd. assert (schar (digit d) = 48 + d) as ->.
  { unfold schar. rewrite uchar_digit by done. by destruct (Z.ltb_spec (48 + d) 128); [|lia]. }
  unfold u64. rewrite Zplus_mod_idemp_l. f_equal. lia.
Qed.

Lemma to_uint64_t_to_string z : is_u64 z → Utils_to_uint64_t (to_string z) = z.
Proof.
  intros Hz. unfold to_string. destruct (Z.ltb_spec z 0); [unfold is_u64 in Hz; lia|].
  assert (0 <= z) as Hpos by apply Hz. revert z Hpos Hz H. apply (digits_ind (λ z, is_u64 z → _ → _)).
  - intros z Hd Hz _. rewrite digits_small by done. unfold Utils_to_uint64_t. cbn [foldl].
    rewrite to_uint64_t_digit by done. rewrite Z.mul_0_l. by apply u64_id.
  - intros z H10 IH Hz _. rewrite digits_step by done. unfold Utils_to_uint64_t in *.
    rewrite foldl_app. pose proof (Z.div_mod z 10). pose proof (Z.mod_pos_bound z 10).
    assert (0 <= z / 10 <= z) by (split; [apply Z.div_pos; lia|apply Z.div_le_upper_bound; lia]).
    rewrite IH by (unfold is_u64 in *; lia). cbn [foldl]. rewrite to_uint64_t_digit by lia.
    rewrite u64_id; [lia|]. by replace (z / 10 * 10 + z mod 10) with z by lia.
Qed.

(** The values these messages are the encodings of. *)
Definition node_value (node : CNode) : RespValue :=
  Array (Some [SimpleString (ip node); Integer (port node); SimpleString (to_string (UUID node))]).
Definition group_value (e : Z * list Z) : RespValue :=
  Array (Some (SimpleString (to_string e.1) ::
    map (λ i, SimpleString (to_string (default 0 (e.2 !! i)))) (seq 0 3))).
Definition network_value (t : list (Z * CNode)) (gm : Groups) : RespValue :=
  Array (Some [Array (Some (map (λ e, node_value e.2) t)); Array (Some (map group_value gm))]).

Lemma encode_all_flat_map {A} (f : A → RespValue) l : encode_all (map f l) = flat_map (λ x, encode (f x)) l.
Proof. unfold encode_all. rewrite map_map, flat_map_concat_map. done. Qed.

Lemma encodeNode_eq node : encodeNode node = encode (node_value node).
Proof.
  unfold node_value. rewrite encode_array, !encode_all_cons. unfold encodeNode, encode.
  cbn [encodeElement]. unfold encodeSimpleString, encodeInteger, encode_all.
  by rewrite ?app_nil_l, <- !(assoc_L app), app_nil_r.
Qed.

Lemma encodeGroup_eq e : encodeGroup e = encode (group_value e).
Proof.
  destruct e as [gid members]. unfold group_value. rewrite encode_array, encode_all_cons, encode_all_flat_map.
  unfold encodeGroup, encode. cbn [encodeElement fst snd]. unfold encodeSimpleString.
  by rewrite ?app_nil_l, <- !(assoc_L app).
Qed.

Lemma foldl_app_flat_map {A} (f : A → bytes) l s : foldl (λ r e, r ++ f e) s l = s ++ flat_map f l.
Proof.
  revert s. induction l as [|x l IH]; intros s; simpl; [by rewrite app_nil_r|].
  by rewrite IH, <- (assoc_L app).
Qed.

Lemma encodeTopo_eq t : encodeTopo t = encode (Array (Some (map (λ e, node_value e.2) t))).
Proof.
  unfold encodeTopo. rewrite (foldl_app_flat_map (λ e, encodeNode e.2)), encode_array, encode_all_flat_map.
  rewrite length_map, <- !(assoc_L app). do 3 f_equal. apply flat_map_ext. intros e. apply encodeNode_eq.
Qed.

Lemma GETNETWORK_eq t gm : Handler_GETNETWORK t gm = encode (network_value t gm).
Proof.
  unfold network_value. rewrite (encode_array [_; _]). unfold Handler_GETNETWORK.
  rewrite !encode_all_cons, <- encodeTopo_eq, encode_array, encode_all_flat_map, length_map.
  rewrite (flat_map_ext encodeGroup _ encodeGroup_eq). unfold encode_all at 1. cbn [map concat].
  by rewrite app_nil_r.
Qed.

(** ** Properties *)

Record node_ok (n : CNode) : Prop := {
  nok_ip : no_CR (ip n) = true;
  nok_port : is_u16 (port n);
  nok_uuid : is_u64 (UUID n)
}.

Lemma getNode_value n : node_ok n → Utils_getNode (node_value n) = Ok n.
Proof.
  intros [Hi Hp Hu]. unfold node_value, Utils_getNode.
  rewrite to_uint64_t_to_string, u16_id by done. by destruct n.
Qed.

Lemma getNodes_value (t : list (Z * CNode)) :
  Forall (λ e, node_ok e.2) t → getNodes (map (λ e, node_value e.2) t) = Ok (map snd t).
Proof.
  induction 1 as [|e t He _ IH]; [done|]. cbn [map getNodes].
  rewrite getNode_value by done. simpl. by rewrite IH.
Qed.

(** What the reader makes of a group: three members at most, zeros dropped. *)
Definition trimmed (members : list Z) : list Z :=
  filter (λ u, u ≠ 0) (map (λ i, default 0 (members !! i)) (seq 0 3)).

Lemma group_members_value l :
  Forall is_u64 l → group_members (map (λ z, SimpleString (to_string z)) l) = filter (λ u, u ≠ 0) l.
Proof.
  unfold group_members. induction 1 as [|z l Hz _ IH]; [done|]. simpl.
  rewrite to_uint64_t_to_string by done. rewrite filter_cons. destruct (Z.eqb_spec z 0).
  - rewrite decide_False by tauto. done.
  - rewrite decide_True by done. by rewrite <- IH.
Qed.

Definition group_ok (e : Z * list Z) : Prop := is_u64 e.1 ∧ Forall is_u64 e.2.

Lemma default_u64 l i : Forall is_u64 l → is_u64 (default 0 (l !! i)).
Proof.
  intros H. destruct (l !! i) eqn:E; simpl; [by eapply Forall_lookup_1 in H|unfold is_u64; lia].
Qed.

Lemma read_groups_value gm groups :
  Forall group_ok gm →
  read_groups (map group_value gm) groups =
    Ok (foldl (λ g e, map_assign e.1 (trimmed e.2) g) groups gm).
Proof.
  intros H. revert groups. induction H as [|[gid ms] gm [Hg Hm] _ IH]; intros groups; [done|].
  cbn [map foldl]. rewrite <- IH. cbn [fst snd] in *. unfold group_value at 1. cbn [seq map read_groups fst].
  rewrite to_uint64_t_to_string by done. unfold trimmed.
  rewrite <- group_members_value; [done|]. apply Forall_map, Forall_forall. intros i _. by apply default_u64.
Qed.

(** A topology and a group table that messages can carry. *)
Record network_ok (t : list (Z * CNode)) (gm : Groups) : Prop := {
  net_nodes : Forall (λ e, node_ok e.2) t;
  net_groups : Forall group_ok gm;
  net_sorted : map_sorted gm;
  net_size : vector_fits (Z.of_nat (length t)) = true;
  net_gsize : vector_fits (Z.of_nat (length gm)) = true
}.

Lemma to_string_no_CR z : 0 <= z → no_CR (to_string z) = true.
Proof.
  intros Hz. unfold to_string. destruct (Z.ltb_spec z 0); [lia|].
  pose proof (digits_all z Hz) as H'. unfold no_CR. apply forallb_forall. intros c Hc.
  rewrite <- list_elem_of_In in Hc. rewrite Forall_forall in H'. specialize (H' c Hc).
  apply negb_true_iff. apply is_digit_ne; [done|by vm_compute].
Qed.

Lemma node_value_ok n : node_ok n → resp_ok (node_value n) = true.
Proof.
  intros [Hi Hp Hu]. unfold node_value. cbn [resp_ok forallb length]. rewrite Hi, to_string_no_CR by apply Hu.
  unfold is_u16 in Hp. rewrite !andb_true_r.
  assert (- 2 ^ 63 <=? port n = true) as -> by (apply Z.leb_le; lia).
  assert (port n <? 2 ^ 63 = true) as -> by (apply Z.ltb_lt; lia). by vm_compute.
Qed.

Lemma group_value_ok e : group_ok e → resp_ok (group_value e) = true.
Proof.
  intros [Hg Hm]. unfold group_value. cbn [resp_ok forallb length map seq].
  rewrite !to_string_no_CR; [by vm_compute|by apply default_u64..|apply Hg].
Qed.

Lemma network_value_ok t gm : network_ok t gm → resp_ok (network_value t gm) = true.
Proof.
  intros [Ht Hg _ H1 H2]. unfold network_value. cbn [resp_ok forallb length].
  rewrite !length_map, H1, H2.
  rewrite (forallb_map_Forall (λ e : Z * CNode, node_value e.2)), (forallb_map_Forall group_value).
  - by vm_compute.
  - apply (Forall_impl _ _ _ Hg). apply group_value_ok.
  - apply (Forall_impl _ _ _ Ht). intros e. apply node_value_ok.
Qed.

Lemma getTopoV2_merge t gm groups :
  network_ok t gm →
  Utils_getTopoV2 (network_value t gm) groups =
    Ok (map snd t, foldl (λ g e, map_assign e.1 (trimmed e.2) g) groups gm).
Proof.
  intros [Ht Hg _ _ _]. unfold network_value, Utils_getTopoV2, Utils_getTopo.
  rewrite getNodes_value by done. cbn [mbind res_bind]. by rewrite read_groups_value by done.
Qed.

Lemma getTopoV2_network t gm :
  network_ok t gm →
  Utils_getTopoV2 (network_value t gm) [] = Ok (map snd t, map (λ e, (e.1, trimmed e.2)) gm).
Proof.
  intros Hok. rewrite getTopoV2_merge by done. destruct Hok as [_ _ Hs _ _].
  rewrite (foldl_assign_sorted_map trimmed gm []); [done|done|]. intros e e' He. by apply elem_of_nil in He.
Qed.

(** The reply to [GETNETWORK] parses to one value, from which the client
    reads back every node of the topology in order and, for every group, its
    identifier and its first three members. *)
Theorem network_reply_roundtrip (t : list (Z * CNode)) (gm : Groups) :
  network_ok t gm →
  ∃ p v p', RespParser_append (Handler_GETNETWORK t gm) RespParser_init = Ok p ∧
    RespParser_getResult p = (Some v, p') ∧ RespParser_hasResult p' = false ∧
    Utils_getTopoV2 v [] = Ok (map snd t, map (λ e, (e.1, trimmed e.2)) gm).
Proof.
  intros Hok. rewrite GETNETWORK_eq, append_encode_one by (by apply network_value_ok).
  eexists _, (network_value t gm), _. split_and!; [done..|]. by apply getTopoV2_network.
Qed.

(** A group of three whose members are in place is read back unchanged. *)
Lemma trimmed_id (a b c : Z) : a ≠ 0 → b ≠ 0 → c ≠ 0 → trimmed [a; b; c] = [a; b; c].
Proof. intros. unfold trimmed. simpl. by rewrite !filter_cons, !decide_True by done. Qed.

Lemma network_reply_roundtrip_witness :
  let t := [(1, mkCNode (str "10.0.0.1") 7800 1); (2, mkCNode (str "10.0.0.2") 7801 2)] in
  let gm := [(1, [1; 2]); (2, [2; 1])] in
  ∃ p v p', RespParser_append (Handler_GETNETWORK t gm) RespParser_init = Ok p ∧
    RespParser_getResult p = (Some v, p') ∧ RespParser_hasResult p' = false ∧
    Utils_getTopoV2 v [] = Ok (map snd t, gm).
Proof.
  intros t gm. apply (network_reply_roundtrip t gm). constructor.
  - repeat constructor; by vm_compute.
  - repeat constructor; by vm_compute.
  - repeat constructor.
  - by vm_compute.
  - by vm_compute.
Defined.
