(* ===== verification/RaftNode.v ===== *)
(** * One Raft group member (raft/RaftNode.h, raft/RaftNode.cpp)

    The members of [class RaftNode] as a record; a method is a computation in
    [M RaftNode].  [sent] collects the arguments of [sendCb]; the log file and
    its write buffer are members, and what is inserted into the open stream
    counts as written to the file (the insertions are flushed by [flushDisk], or
    are blocks of at least 1024 bytes, which [std::filebuf] of libstdc++ hands to
    [write] at once).  [std::rand] is a parameter: its [i]-th
    result is [rand i], and [rands] counts the calls.  Each method runs under
    its mutex, as one step ([propose] releases it between its two halves: they
    are two definitions). *)
From Stdlib Require Import ZArith Ascii String Lia.
From stdpp Require Import base numbers list strings gmap.
From S2P Require Import Prelude CppStd.
Local Open Scope Z_scope.

Record RaftMessage := mkRaftMessage { target : Z; payload : bytes }.
Record LogEntry := mkLogEntry { le_term : Z; le_command : bytes }.
Inductive RState := Follower | Candidate | Leader.
#[global] Instance RState_eq_dec : EqDecision RState.
Proof. solve_decision. Defined.
#[global] Instance LogEntry_eq_dec : EqDecision LogEntry.
Proof. solve_decision. Defined.

Record RaftNode := mkRaftNode {
  currentTerm : Z;
  votedFor : option Z;
  log : list LogEntry;
  commitIndex : Z;
  lastApplied : Z;
  state_ : RState;
  groupId_ : Z;
  selfId : Z;
  peers : list Z;
  nextIndex : list Z;
  matchIndex : list Z;
  voteCount : Z;
  electionTimer : Z;
  heartbeatTimer : Z;
  logFile_ : option bytes;
  diskBuf_ : bytes;
  sent : list RaftMessage;
  rands : nat
}.

Definition set_currentTerm (x : Z) (n : RaftNode) : RaftNode :=
  mkRaftNode x (votedFor n) (log n) (commitIndex n) (lastApplied n) (state_ n) (groupId_ n)
    (selfId n) (peers n) (nextIndex n) (matchIndex n) (voteCount n) (electionTimer n)
    (heartbeatTimer n) (logFile_ n) (diskBuf_ n) (sent n) (rands n).
Definition set_votedFor (x : option Z) (n : RaftNode) : RaftNode :=
  mkRaftNode (currentTerm n) x (log n) (commitIndex n) (lastApplied n) (state_ n) (groupId_ n)
    (selfId n) (peers n) (nextIndex n) (matchIndex n) (voteCount n) (electionTimer n)
    (heartbeatTimer n) (logFile_ n) (diskBuf_ n) (sent n) (rands n).
Definition set_log (x : list LogEntry) (n : RaftNode) : RaftNode :=
  mkRaftNode (currentTerm n) (votedFor n) x (commitIndex n) (lastApplied n) (state_ n)
    (groupId_ n) (selfId n) (peers n) (nextIndex n) (matchIndex n) (voteCount n)
    (electionTimer n) (heartbeatTimer n) (logFile_ n) (diskBuf_ n) (sent n) (rands n).
Definition set_commitIndex (x : Z) (n : RaftNode) : RaftNode :=
  mkRaftNode (currentTerm n) (votedFor n) (log n) x (lastApplied n) (state_ n) (groupId_ n)
    (selfId n) (peers n) (nextIndex n) (matchIndex n) (voteCount n) (electionTimer n)
    (heartbeatTimer n) (logFile_ n) (diskBuf_ n) (sent n) (rands n).
Definition set_lastApplied (x : Z) (n : RaftNode) : RaftNode :=
  mkRaftNode (currentTerm n) (votedFor n) (log n) (commitIndex n) x (state_ n) (groupId_ n)
    (selfId n) (peers n) (nextIndex n) (matchIndex n) (voteCount n) (electionTimer n)
    (heartbeatTimer n) (logFile_ n) (diskBuf_ n) (sent n) (rands n).
Definition set_state (x : RState) (n : RaftNode) : RaftNode :=
  mkRaftNode (currentTerm n) (votedFor n) (log n) (commitIndex n) (lastApplied n) x (groupId_ n)
    (selfId n) (peers n) (nextIndex n) (matchIndex n) (voteCount n) (electionTimer n)
    (heartbeatTimer n) (logFile_ n) (diskBuf_ n) (sent n) (rands n).
Definition set_nextIndex (x : list Z) (n : RaftNode) : RaftNode :=
  mkRaftNode (currentTerm n) (votedFor n) (log n) (commitIndex n) (lastApplied n) (state_ n)
    (groupId_ n) (selfId n) (peers n) x (matchIndex n) (voteCount n) (electionTimer n)
    (heartbeatTimer n) (logFile_ n) (diskBuf_ n) (sent n) (rands n).
Definition set_matchIndex (x : list Z) (n : RaftNode) : RaftNode :=
  mkRaftNode (currentTerm n) (votedFor n) (log n) (commitIndex n) (lastApplied n) (state_ n)
    (groupId_ n) (selfId n) (peers n) (nextIndex n) x (voteCount n) (electionTimer n)
    (heartbeatTimer n) (logFile_ n) (diskBuf_ n) (sent n) (rands n).
Definition set_voteCount (x : Z) (n : RaftNode) : RaftNode :=
  mkRaftNode (currentTerm n) (votedFor n) (log n) (commitIndex n) (lastApplied n) (state_ n)
    (groupId_ n) (selfId n) (peers n) (nextIndex n) (matchIndex n) x (electionTimer n)
    (heartbeatTimer n) (logFile_ n) (diskBuf_ n) (sent n) (rands n).
Definition set_electionTimer (x : Z) (n : RaftNode) : RaftNode :=
  mkRaftNode (currentTerm n) (votedFor n) (log n) (commitIndex n) (lastApplied n) (state_ n)
    (groupId_ n) (selfId n) (peers n) (nextIndex n) (matchIndex n) (voteCount n) x
    (heartbeatTimer n) (logFile_ n) (diskBuf_ n) (sent n) (rands n).
Definition set_heartbeatTimer (x : Z) (n : RaftNode) : RaftNode :=
  mkRaftNode (currentTerm n) (votedFor n) (log n) (commitIndex n) (lastApplied n) (state_ n)
    (groupId_ n) (selfId n) (peers n) (nextIndex n) (matchIndex n) (voteCount n)
    (electionTimer n) x (logFile_ n) (diskBuf_ n) (sent n) (rands n).
Definition set_logFile (x : option bytes) (n : RaftNode) : RaftNode :=
  mkRaftNode (currentTerm n) (votedFor n) (log n) (commitIndex n) (lastApplied n) (state_ n)
    (groupId_ n) (selfId n) (peers n) (nextIndex n) (matchIndex n) (voteCount n)
    (electionTimer n) (heartbeatTimer n) x (diskBuf_ n) (sent n) (rands n).
Definition set_diskBuf (x : bytes) (n : RaftNode) : RaftNode :=
  mkRaftNode (currentTerm n) (votedFor n) (log n) (commitIndex n) (lastApplied n) (state_ n)
    (groupId_ n) (selfId n) (peers n) (nextIndex n) (matchIndex n) (voteCount n)
    (electionTimer n) (heartbeatTimer n) (logFile_ n) x (sent n) (rands n).
Definition set_sent (x : list RaftMessage) (n : RaftNode) : RaftNode :=
  mkRaftNode (currentTerm n) (votedFor n) (log n) (commitIndex n) (lastApplied n) (state_ n)
    (groupId_ n) (selfId n) (peers n) (nextIndex n) (matchIndex n) (voteCount n)
    (electionTimer n) (heartbeatTimer n) (logFile_ n) (diskBuf_ n) x (rands n).
Definition set_rands (x : nat) (n : RaftNode) : RaftNode :=
  mkRaftNode (currentTerm n) (votedFor n) (log n) (commitIndex n) (lastApplied n) (state_ n)
    (groupId_ n) (selfId n) (peers n) (nextIndex n) (matchIndex n) (voteCount n)
    (electionTimer n) (heartbeatTimer n) (logFile_ n) (diskBuf_ n) (sent n) x.

Definition ELECTION_TIMEOUT_MIN : Z := 150.
Definition ELECTION_TIMEOUT_MAX : Z := 300.
Definition HEARTBEAT_INTERVAL : Z := 50.

(** ** Messages *)

(** ["+" + s + "\r\n"] *)
Definition line (s : bytes) : bytes := str "+" ++ s ++ CRLF.

Definition encodeAppendEntries (gid term prevIdx prevTerm leaderCommit : Z) (entries : list LogEntry) : bytes :=
  let cnt := i32 (Z.of_nat (length entries)) in
  let total := i32 (7 + cnt) in
  str "*" ++ to_string total ++ CRLF ++ line (str "RAFT_AE") ++ line (to_string gid) ++
  line (to_string term) ++ line (to_string prevIdx) ++ line (to_string prevTerm) ++
  line (to_string leaderCommit) ++ line (to_string cnt) ++
  flat_map (λ e, line (le_command e)) entries.

(** The flag is written as ["+" + "+1\r\n"]. *)
Definition encodeAppendEntriesReply (gid term : Z) (success : bool) (matchIdx : Z) : bytes :=
  str "*5" ++ CRLF ++ line (str "RAFT_AER") ++ line (to_string gid) ++ line (to_string term) ++
  str "+" ++ (if success then str "+1" ++ CRLF else str "+0" ++ CRLF) ++ line (to_string matchIdx).

Definition encodeRequestVote (gid term lastIdx lastTerm : Z) : bytes :=
  str "*5" ++ CRLF ++ line (str "RAFT_RV") ++ line (to_string gid) ++ line (to_string term) ++
  line (to_string lastIdx) ++ line (to_string lastTerm).

Definition encodeRequestVoteReply (gid term : Z) (granted : bool) : bytes :=
  str "*4" ++ CRLF ++ line (str "RAFT_RVR") ++ line (to_string gid) ++ line (to_string term) ++
  str "+" ++ (if granted then str "+1" ++ CRLF else str "+0" ++ CRLF).

(** [cur] is the chunk read since [start]; the character after each ['\r'] is
    skipped unseen. *)
Fixpoint parse_chunks (cur raw : bytes) : list bytes :=
  match raw with
  | [] => []
  | c :: raw' =>
      if Ascii.eqb c CR then
        let rest := match raw' with [] => [] | _ :: raw'' => parse_chunks [] raw'' end in
        match cur with
        | c0 :: cur' => if Ascii.eqb c0 "+" then cur' :: rest else rest
        | [] => rest
        end
      else parse_chunks (cur ++ [c]) raw'
  end.
Definition parseParts (raw : bytes) : list bytes := parse_chunks [] raw.

(** [parts[i]] *)
Definition part (parts : list bytes) (i : nat) : res bytes :=
  match parts !! i with None => UB | Some s => Ok s end.
Definition part_u64 (parts : list bytes) (i : nat) : res Z := s ← part parts i; stoull s.

Section RaftNode.
Context (rand : nat → Z).
Implicit Types n : RaftNode.

(** ** Helpers *)

Definition sendCb (tgt : Z) (msg : bytes) : M RaftNode unit :=
  mmodify (λ n, set_sent (sent n ++ [mkRaftMessage tgt msg]) n).

Definition log_size n : Z := Z.of_nat (length (log n)).
Definition lastLogIndex n : Z := u64 (log_size n - 1).
(** [log.back()] of an empty log is excluded by the test before it. *)
Definition lastLogTerm n : Z :=
  if log_size n <=? 1 then 0 else match last (log n) with Some e => le_term e | None => 0 end.

(** [log[i].term] *)
Definition log_term (i : Z) n : res Z :=
  match log n !! Z.to_nat i with None => UB | Some e => Ok (le_term e) end.

(** The index of [uuid] in [peers], [peers.size()] if it is not there. *)
Fixpoint find_index (uuid : Z) (l : list Z) : nat :=
  match l with
  | [] => 0
  | p :: l' => if p =? uuid then 0 else S (find_index uuid l')
  end.
Definition peerIndex (uuid : Z) n : nat := find_index uuid (peers n).

Definition resetElectionTimer : M RaftNode unit :=
  mmodify (λ n, set_rands (S (rands n)) (set_electionTimer
    (ELECTION_TIMEOUT_MIN + Z.rem (rand (rands n)) (ELECTION_TIMEOUT_MAX - ELECTION_TIMEOUT_MIN + 1)) n)).

Definition becomeFollower (term : Z) : M RaftNode unit :=
  _ ← mmodify (λ n, set_votedFor None (set_currentTerm term (set_state Follower n)));
  _ ← resetElectionTimer;
  mmodify (set_voteCount 0).

Definition becomeCandidate : M RaftNode unit :=
  _ ← mmodify (λ n, set_voteCount 1 (set_votedFor (Some (selfId n))
        (set_currentTerm (u64 (currentTerm n + 1)) (set_state Candidate n))));
  resetElectionTimer.

Definition becomeLeader : M RaftNode unit :=
  mmodify (λ n, set_heartbeatTimer 0 (set_voteCount 0
    (set_matchIndex (replicate (length (peers n)) 0)
    (set_nextIndex (replicate (length (peers n)) (u64 (lastLogIndex n + 1))) (set_state Leader n))))).

(** ** The log file *)

Definition log_line (e : LogEntry) : bytes := to_string (le_term e) ++ str " " ++ le_command e ++ [LF].

Definition write_buffer n : RaftNode :=
  set_diskBuf [] (set_logFile (Some (default [] (logFile_ n) ++ diskBuf_ n)) n).

Definition appendToDisk (e : LogEntry) : M RaftNode unit :=
  _ ← mmodify (λ n, set_diskBuf (diskBuf_ n ++ log_line e) n);
  mmodify (λ n, if 1024 <=? Z.of_nat (length (diskBuf_ n)) then write_buffer n else n).

Definition flushDisk : M RaftNode unit :=
  mmodify (λ n, match diskBuf_ n with [] => n | _ => write_buffer n end).

Definition rewriteDisk : M RaftNode unit :=
  mmodify (λ n, set_logFile (Some (flat_map log_line (tail (log n)))) n).

(** [std::getline] until it fails. *)
Fixpoint getlines (cur s : bytes) : list bytes :=
  match s with
  | [] => match cur with [] => [] | _ => [cur] end
  | c :: s' => if Ascii.eqb c LF then cur :: getlines [] s' else getlines (cur ++ [c]) s'
  end.

(** [line.find(' ')], as the text before and after it. *)
Fixpoint split_space (s : bytes) : option (bytes * bytes) :=
  match s with
  | [] => None
  | c :: s' =>
      if Ascii.eqb c " " then Some ([], s')
      else '(a, b) ← split_space s'; Some (c :: a, b)
  end.

Fixpoint load_lines (ls : list bytes) : res (list LogEntry) :=
  match ls with
  | [] => Ok []
  | l :: ls' =>
      match split_space l with
      | None => load_lines ls'
      | Some (a, b) => t ← stoull a; es ← load_lines ls'; Ok (mkLogEntry t b :: es)
      end
  end.

Definition loadFromDisk : M RaftNode unit :=
  n ← mget;
  match logFile_ n with
  | None => mret tt
  | Some content =>
      es ← mlift (load_lines (getlines [] content));
      _ ← mmodify (λ n, set_log (log n ++ es) n);
      _ ← mmodify (λ n,
            match log n with
            | e :: _ => if le_term e =? 0 then n else set_log (mkLogEntry 0 [] :: log n) n
            | [] => set_log [mkLogEntry 0 []] n
            end);
      mmodify (λ n, set_lastApplied 0 (set_commitIndex (lastLogIndex n) n))
  end.

(** The constructor, on the content of the log file if there is one. *)
Definition RaftNode_init (group_id self_id : Z) (ps : list Z) (file : option bytes) : res unit * RaftNode :=
  let n := mkRaftNode 0 None [] 0 0 Follower group_id self_id ps [] [] 0 0 0 file [] [] 0 in
  (_ ← mmodify (λ n, set_log (log n ++ [mkLogEntry 0 []]) n);
   _ ← loadFromDisk;
   match ps with
   | [] => becomeLeader
   | _ => resetElectionTimer
   end) n.

(** ** Sending *)

Definition sendAppendEntries (peer : Z) : M RaftNode unit :=
  n ← mget;
  let pi := peerIndex peer n in
  if (length (peers n) <=? pi)%nat then mret tt
  else
    match nextIndex n !! pi with
    | None => mub
    | Some next =>
        let prevIdx := u64 (next - 1) in
        let prevTerm := match log n !! Z.to_nat prevIdx with Some e => le_term e | None => 0 end in
        sendCb peer (encodeAppendEntries (groupId_ n) (currentTerm n) prevIdx prevTerm (commitIndex n)
                       (drop (Z.to_nat next) (log n)))
    end.

Definition sendRequestVote : M RaftNode unit :=
  n ← mget;
  mfor (peers n) (λ peer, n ← mget;
    sendCb peer (encodeRequestVote (groupId_ n) (currentTerm n) (lastLogIndex n) (lastLogTerm n))).

(** ** tick *)

Definition RaftNode_tick : M RaftNode unit :=
  _ ← flushDisk;
  n ← mget;
  if decide (state_ n = Leader) then
    _ ← mmodify (λ n, set_heartbeatTimer (heartbeatTimer n - 1) n);
    n ← mget;
    if heartbeatTimer n <=? 0 then
      _ ← mmodify (set_heartbeatTimer HEARTBEAT_INTERVAL);
      mfor (peers n) sendAppendEntries
    else mret tt
  else
    _ ← mmodify (λ n, set_electionTimer (electionTimer n - 1) n);
    n ← mget;
    if electionTimer n <=? 0 then
      _ ← becomeCandidate;
      sendRequestVote
    else mret tt.

(** ** AppendEntries *)

(** [if (idx >= log.size()) { log.push_back(...); appendToDisk(log.back()); }] *)
Definition push_entry (term idx : Z) (cmd : bytes) : M RaftNode unit :=
  n ← mget;
  if log_size n <=? idx then
    let e := mkLogEntry term cmd in
    _ ← mput (set_log (log n ++ [e]) n);
    appendToDisk e
  else mret tt.

(** One iteration of the append loop; returns [truncated]. *)
Definition append_entry (term idx : Z) (cmd : bytes) (truncated : bool) : M RaftNode bool :=
  n ← mget;
  t ← (if idx <? log_size n then
         lt ← mlift (log_term idx n);
         if lt =? term then mret truncated
         else _ ← mput (set_log (take (Z.to_nat idx) (log n)) n); mret true
       else mret truncated);
  _ ← push_entry term idx cmd;
  mret t.

Fixpoint append_entries (term prevIdx : Z) (i : Z) (cmds : list bytes) (truncated : bool) : M RaftNode bool :=
  match cmds with
  | [] => mret truncated
  | cmd :: cmds' =>
      t ← append_entry term (u64 (prevIdx + 1 + i)) cmd truncated;
      append_entries term prevIdx (i + 1) cmds' t
  end.

(** The commands of the message: [cnt] of them, or as many as there are. *)
Definition entries_of (cnt : Z) (parts : list bytes) : list bytes :=
  take (Z.to_nat (Z.min cnt (Z.of_nat (length parts)))) (drop 7 parts).

Definition handleAppendEntries (from_peer : Z) (raw : bytes) : M RaftNode unit :=
  let parts := parseParts raw in
  if (length parts <? 6)%nat then mret tt
  else
    term ← mlift (part_u64 parts 2);
    prevIdx ← mlift (part_u64 parts 3);
    prevTerm ← mlift (part_u64 parts 4);
    leaderCommit ← mlift (part_u64 parts 5);
    n ← mget;
    if term <? currentTerm n then
      sendCb from_peer (encodeAppendEntriesReply (groupId_ n) (currentTerm n) false 0)
    else
      _ ← (if (currentTerm n <? term) || bool_decide (state_ n = Candidate)
           then becomeFollower term else mret tt);
      _ ← resetElectionTimer;
      n ← mget;
      mismatch ← mlift (if 0 <? prevIdx then
                          if log_size n <=? prevIdx then Ok true
                          else lt ← log_term prevIdx n; Ok (negb (lt =? prevTerm))
                        else Ok false);
      if mismatch : bool then
        sendCb from_peer (encodeAppendEntriesReply (groupId_ n) (currentTerm n) false 0)
      else
        truncated ← (if (6 <? length parts)%nat then
                       cnt ← mlift (part_u64 parts 6);
                       append_entries term prevIdx 0 (entries_of cnt parts) false
                     else mret false);
        _ ← (if truncated : bool then rewriteDisk else mret tt);
        _ ← mmodify (λ n, if commitIndex n <? leaderCommit
                          then set_commitIndex (Z.min leaderCommit (lastLogIndex n)) n else n);
        n ← mget;
        sendCb from_peer (encodeAppendEntriesReply (groupId_ n) (currentTerm n) true (lastLogIndex n)).

(** ** AppendEntriesReply *)

(** [std::sort] with [std::greater] *)
Fixpoint insert_desc (x : Z) (l : list Z) : list Z :=
  match l with
  | [] => [x]
  | y :: l' => if y <=? x then x :: l else y :: insert_desc x l'
  end.
Definition sort_desc (l : list Z) : list Z := foldr insert_desc [] l.

Definition advanceCommitIndex : M RaftNode unit :=
  n ← mget;
  let sorted := sort_desc (matchIndex n ++ [lastLogIndex n]) in
  let quorum := (length (peers n) / 2 + 1)%nat in
  match sorted !! (quorum - 1)%nat with
  | None => mub
  | Some newCommit =>
      if commitIndex n <? newCommit then
        t ← mlift (log_term newCommit n);
        if t =? currentTerm n then mput (set_commitIndex newCommit n) else mret tt
      else mret tt
  end.

Definition handleAppendEntriesReply (from_peer : Z) (raw : bytes) : M RaftNode unit :=
  n ← mget;
  if decide (state_ n ≠ Leader) then mret tt
  else
    let parts := parseParts raw in
    if (length parts <? 4)%nat then mret tt
    else
      term ← mlift (part_u64 parts 2);
      p3 ← mlift (part parts 3);
      let success := bool_decide (p3 = str "1") in
      matchIdx ← mlift (part_u64 parts 4);
      if currentTerm n <? term then becomeFollower term
      else
        let pi := peerIndex from_peer n in
        if (length (peers n) <=? pi)%nat then mret tt
        else
          match nextIndex n !! pi, matchIndex n !! pi with
          | Some next, Some _ =>
              if success then
                _ ← mput (set_matchIndex (<[pi := matchIdx]> (matchIndex n))
                           (set_nextIndex (<[pi := u64 (matchIdx + 1)]> (nextIndex n)) n));
                advanceCommitIndex
              else
                _ ← mput (if 1 <? next then set_nextIndex (<[pi := next - 1]> (nextIndex n)) n else n);
                sendAppendEntries from_peer
          | _, _ => mub
          end.

(** ** RequestVote *)

Definition handleRequestVote (from_peer : Z) (raw : bytes) : M RaftNode unit :=
  let parts := parseParts raw in
  if (length parts <? 5)%nat then mret tt
  else
    term ← mlift (part_u64 parts 2);
    candLastIdx ← mlift (part_u64 parts 3);
    candLastTerm ← mlift (part_u64 parts 4);
    n ← mget;
    if term <? currentTerm n then
      sendCb from_peer (encodeRequestVoteReply (groupId_ n) (currentTerm n) false)
    else
      _ ← (if currentTerm n <? term then becomeFollower term else mret tt);
      n ← mget;
      let logOk := (lastLogTerm n <? candLastTerm) ||
                   ((candLastTerm =? lastLogTerm n) && (lastLogIndex n <=? candLastIdx)) in
      let canVote := match votedFor n with None => true | Some v => v =? from_peer end in
      if canVote && logOk then
        _ ← mput (set_votedFor (Some from_peer) n);
        _ ← resetElectionTimer;
        sendCb from_peer (encodeRequestVoteReply (groupId_ n) (currentTerm n) true)
      else
        sendCb from_peer (encodeRequestVoteReply (groupId_ n) (currentTerm n) false).

Definition handleRequestVoteReply (from_peer : Z) (raw : bytes) : M RaftNode unit :=
  n ← mget;
  if decide (state_ n ≠ Candidate) then mret tt
  else
    let parts := parseParts raw in
    if (length parts <? 4)%nat then mret tt
    else
      term ← mlift (part_u64 parts 2);
      p3 ← mlift (part parts 3);
      let granted := bool_decide (p3 = str "1") in
      if currentTerm n <? term then becomeFollower term
      else if granted then
        _ ← mput (set_voteCount (voteCount n + 1) n);
        n ← mget;
        let quorum := (length (peers n) / 2 + 1)%nat in
        if Z.of_nat quorum <=? u64 (voteCount n) then becomeLeader else mret tt
      else mret tt.

(** ** step *)

Definition RaftNode_step (from_peer : Z) (raw : bytes) : M RaftNode unit :=
  match parseParts raw with
  | [] => mret tt
  | p0 :: _ =>
      if decide (p0 = str "RAFT_AE") then handleAppendEntries from_peer raw
      else if decide (p0 = str "RAFT_AER") then handleAppendEntriesReply from_peer raw
      else if decide (p0 = str "RAFT_RV") then handleRequestVote from_peer raw
      else if decide (p0 = str "RAFT_RVR") then handleRequestVoteReply from_peer raw
      else mret tt
  end.

(** ** propose: under the mutex, then the disk, then under the mutex again *)

Definition propose_append (cmd : bytes) : M RaftNode (option LogEntry) :=
  n ← mget;
  if decide (state_ n ≠ Leader) then mret None
  else
    let entry := mkLogEntry (currentTerm n) cmd in
    _ ← mput (set_log (log n ++ [entry]) n);
    _ ← mmodify (λ n, match peers n with [] => set_commitIndex (lastLogIndex n) n | _ => n end);
    mret (Some entry).
Definition propose_send : M RaftNode unit := n ← mget; mfor (peers n) sendAppendEntries.

Definition RaftNode_propose (cmd : bytes) : M RaftNode unit :=
  entry ← propose_append cmd;
  match entry with
  | None => mret tt
  | Some e => _ ← appendToDisk e; propose_send
  end.

(** ** Applying *)

Definition hasPendingApply n : bool := lastApplied n <? commitIndex n.

(** [todo] is [commitIndex - lastApplied]. *)
Fixpoint take_loop (todo : nat) (result : list LogEntry) : M RaftNode (list LogEntry) :=
  match todo with
  | O => mret result
  | S todo' =>
      _ ← mmodify (λ n, set_lastApplied (lastApplied n + 1) n);
      n ← mget;
      take_loop todo' (match log n !! Z.to_nat (lastApplied n) with
                       | Some e => result ++ [e]
                       | None => result
                       end)
  end.
Definition takePendingApply : M RaftNode (list LogEntry) :=
  n ← mget; take_loop (Z.to_nat (commitIndex n - lastApplied n)) [].
End RaftNode.

(** ** Messages are read as they are written *)

(** A chunk without carriage return, as [parseParts] delivers it. *)
Lemma parse_chunks_line cur s rest :
  forallb (λ c, negb (Ascii.eqb c CR)) s = true →
  parse_chunks cur (s ++ CRLF ++ rest) =
    match cur ++ s with
    | c0 :: cur' => if Ascii.eqb c0 "+" then cur' :: parse_chunks [] rest else parse_chunks [] rest
    | [] => parse_chunks [] rest
    end.
Proof.
  revert cur. induction s as [|c s IH]; intros cur Hs; simpl in Hs.
  - rewrite app_nil_r. done.
  - apply andb_true_iff in Hs as [Hc Hs]. apply negb_true_iff in Hc.
    rewrite <- app_comm_cons. cbn [parse_chunks]. rewrite Hc, IH by done.
    by rewrite <- (assoc_L app).
Qed.

Definition plain (s : bytes) : bool := forallb (λ c, negb (Ascii.eqb c CR)) s.

Lemma parse_line s rest :
  plain s = true → parse_chunks [] (line s ++ rest) = s :: parse_chunks [] rest.
Proof.
  intros Hs. unfold line. rewrite <- !(assoc_L app).
  change (str "+" ++ s ++ CRLF ++ rest) with (("+"%char :: s) ++ CRLF ++ rest).
  rewrite parse_chunks_line by done. done.
Qed.

Lemma plain_to_string z : plain (to_string z) = true.
Proof.
  assert (∀ y, 0 <= y → plain (digits y) = true) as Hd.
  { intros y Hy. apply forallb_forall. intros c Hc. rewrite <- list_elem_of_In in Hc.
    pose proof (digits_all y Hy) as H. rewrite Forall_forall in H. specialize (H c Hc).
    apply negb_true_iff. destruct (Ascii.eqb_spec c CR) as [->|]; [by vm_compute in H|done]. }
  unfold to_string. destruct (Z.ltb_spec z 0); [simpl; apply Hd; lia|by apply Hd].
Qed.

(** The header line of a message is skipped. *)
Lemma parse_header s rest :
  plain s = true → head s = Some "*"%char → parse_chunks [] (s ++ CRLF ++ rest) = parse_chunks [] rest.
Proof.
  intros Hs Hh. rewrite parse_chunks_line by done. destruct s; [done|]. by simplify_eq/=.
Qed.

(** The flag of a reply, as its reader sees it. *)
Definition wire_flag (b : bool) : bytes := if b then str "+1" else str "+0".

Lemma parse_flag (b : bool) rest :
  parse_chunks [] ((str "+" ++ (if b then str "+1" ++ CRLF else str "+0" ++ CRLF)) ++ rest) =
    wire_flag b :: parse_chunks [] rest.
Proof. by destruct b. Qed.

Ltac parse_lines :=
  repeat (rewrite parse_line by (first [apply plain_to_string | by vm_compute])).

Lemma parse_RequestVote gid term li lt :
  parseParts (encodeRequestVote gid term li lt) =
    [str "RAFT_RV"; to_string gid; to_string term; to_string li; to_string lt].
Proof.
  unfold parseParts, encodeRequestVote.
  rewrite <- (app_nil_r (line (to_string lt))).
  rewrite parse_header by done. by parse_lines.
Qed.

Lemma parse_RequestVoteReply gid term b :
  parseParts (encodeRequestVoteReply gid term b) =
    [str "RAFT_RVR"; to_string gid; to_string term; wire_flag b].
Proof.
  unfold parseParts, encodeRequestVoteReply. rewrite parse_header by done. parse_lines.
  do 3 f_equal. rewrite <- (app_nil_r (str "+" ++ _)). by rewrite parse_flag.
Qed.

Lemma parse_AppendEntriesReply gid term b mi :
  parseParts (encodeAppendEntriesReply gid term b mi) =
    [str "RAFT_AER"; to_string gid; to_string term; wire_flag b; to_string mi].
Proof.
  unfold parseParts, encodeAppendEntriesReply. rewrite parse_header by done. parse_lines.
  do 3 f_equal. rewrite (assoc_L app), parse_flag. f_equal.
  rewrite <- (app_nil_r (line _)). by parse_lines.
Qed.

Lemma parse_AppendEntries gid term pi pt lc es :
  Forall (λ e, plain (le_command e) = true) es →
  parseParts (encodeAppendEntries gid term pi pt lc es) =
    [str "RAFT_AE"; to_string gid; to_string term; to_string pi; to_string pt; to_string lc;
     to_string (i32 (Z.of_nat (length es)))] ++ map le_command es.
Proof.
  intros Hes. unfold parseParts, encodeAppendEntries. rewrite (assoc_L app), parse_header;
    [|unfold plain; rewrite forallb_app; apply plain_to_string|done].
  parse_lines. cbn [app]. do 7 f_equal. induction Hes as [|e es He _ IH]; [done|].
  cbn [flat_map map]. by rewrite parse_line, IH.
Qed.

(** ** What no message can change *)

(** [n'] comes after [n]: same identity, terms and sent messages only grow, the
    sentinel stays, and a node that is not a candidate keeps its vote as long
    as the term is the same. *)
Record raft_le (n n' : RaftNode) : Prop := {
  rle_id : groupId_ n' = groupId_ n ∧ selfId n' = selfId n ∧ peers n' = peers n;
  rle_term : currentTerm n <= currentTerm n';
  rle_sentinel : log n ≠ [] → head (log n') = head (log n);
  rle_sent : sent n `prefix_of` sent n';
  rle_candidate : state_ n ≠ Candidate → state_ n' ≠ Candidate;
  rle_vote v : state_ n ≠ Candidate → votedFor n = Some v → currentTerm n' = currentTerm n →
    votedFor n' = Some v;
  rle_applied : lastApplied n' = lastApplied n
}.

#[global] Instance raft_le_refl : Reflexive raft_le.
Proof. intros n. by constructor. Qed.

#[global] Instance raft_le_trans : Transitive raft_le.
Proof.
  intros n1 n2 n3 [(A1 & A2 & A3) B C D E F G] [(A1' & A2' & A3') B' C' D' E' F' G']. constructor.
  - split_and!; congruence.
  - lia.
  - intros H. assert (log n2 ≠ []) as H2.
    { intros E2. specialize (C H). rewrite E2 in C. by destruct (log n1). }
    by rewrite C', C.
  - by transitivity (sent n2).
  - auto.
  - intros v Hs Hv Ht. apply F'; [auto| |lia]. apply F; [done..|lia].
  - congruence.
Qed.

(** Sequencing, one call at a time. *)
Lemma le_bind {A B} (m : M RaftNode A) (f : A → M RaftNode B) n :
  raft_le n (m n).2 → (∀ a n', m n = (Ok a, n') → raft_le n n' → raft_le n' (f a n').2) →
  raft_le n ((m ≫= f) n).2.
Proof.
  intros Hm Hf. unfold mbind, M_bind. destruct (m n) as [[a|e| |] n'] eqn:E; simpl in *; try done.
  transitivity n'; [done|]. by apply Hf.
Qed.

Lemma le_lift {A B} (r : res A) (f : A → M RaftNode B) n :
  (∀ a, r = Ok a → raft_le n (f a n).2) → raft_le n ((mlift r ≫= f) n).2.
Proof. intros Hf. unfold mbind, M_bind, mlift. destruct r; simpl; try done. by apply Hf. Qed.

Lemma le_get {B} (f : RaftNode → M RaftNode B) n : raft_le n (f n n).2 → raft_le n ((mget ≫= f) n).2.
Proof. done. Qed.

Lemma le_sendCb tgt msg n : raft_le n (sendCb tgt msg n).2.
Proof. constructor; simpl; try done. by apply prefix_app_r. Qed.

Section raft_le.
Context (rand : nat → Z).

Lemma le_resetElectionTimer n : raft_le n (resetElectionTimer rand n).2.
Proof. by constructor. Qed.

Lemma le_becomeFollower term n :
  currentTerm n <= term → state_ n = Candidate ∨ currentTerm n < term →
  raft_le n (becomeFollower rand term n).2.
Proof.
  intros Ht Hc. unfold becomeFollower. simpl. constructor; simpl; try done.
  intros v Hs Hv Heq. destruct Hc; [done|lia].
Qed.

Lemma le_flushDisk n : raft_le n (flushDisk n).2.
Proof. unfold flushDisk. simpl. destruct (diskBuf_ n); by constructor. Qed.

Lemma le_appendToDisk e n : raft_le n (appendToDisk e n).2.
Proof. unfold appendToDisk. simpl. destruct (_ <=? _); by constructor. Qed.

Lemma le_rewriteDisk n : raft_le n (rewriteDisk n).2.
Proof. by constructor. Qed.

Lemma le_append_entry term idx cmd t n : 0 < idx → raft_le n (append_entry term idx cmd t n).2.
Proof.
  intros Hidx. unfold append_entry. apply le_get. apply le_bind.
  - destruct (idx <? log_size n); [|done]. apply le_lift. intros lt _. destruct (lt =? term); [done|].
    constructor; simpl; try done. intros Hl. destruct (log n); [done|]. by destruct (Z.to_nat idx) eqn:E; [lia|].
  - intros t' n' _ _. apply le_bind; [|done]. apply le_get. destruct (log_size n' <=? idx); [|done].
    apply le_bind; [|intros; apply le_appendToDisk].
    constructor; simpl; try done. intros Hl. by destruct (log n').
Qed.

Lemma le_append_entries term prevIdx i cmds t n :
  0 <= prevIdx → 0 <= i → prevIdx + 1 + i + Z.of_nat (length cmds) <= 2 ^ 64 →
  raft_le n (append_entries term prevIdx i cmds t n).2.
Proof.
  revert i t n. induction cmds as [|cmd cmds IH]; intros i t n Hp Hi Hb; simpl; [done|].
  simpl in Hb. apply le_bind.
  - apply le_append_entry. rewrite u64_id by (unfold is_u64; lia). lia.
  - intros t' n' _ _. apply IH; lia.
Qed.

Lemma le_sendAppendEntries peer n : raft_le n (sendAppendEntries peer n).2.
Proof.
  unfold sendAppendEntries. apply le_get. case_match; [done|]. case_match; [apply le_sendCb|done].
Qed.

Lemma le_mfor {A} (l : list A) (body : A → M RaftNode unit) n :
  (∀ x n, raft_le n (body x n).2) → raft_le n (mfor l body n).2.
Proof.
  intros Hb. revert n. induction l as [|x l IH]; intros n; simpl; [done|].
  apply le_bind; [apply Hb|]. intros _ n' _ _. apply IH.
Qed.
End raft_le.

Lemma part_u64_range parts i z : part_u64 parts i = Ok z → is_u64 z.
Proof. unfold part_u64, part. destruct (parts !! i); [|done]. apply stoull_range. Qed.

Lemma entries_of_length cnt parts : (length (entries_of cnt parts) <= length parts)%nat.
Proof. unfold entries_of. rewrite length_take, length_drop. lia. Qed.

Lemma parse_chunks_length cur raw : (length (parse_chunks cur raw) <= length raw)%nat.
Proof.
  assert (∀ k cur raw, (length raw <= k)%nat → (length (parse_chunks cur raw) <= length raw)%nat) as H;
    [|by apply (H (length raw))].
  clear cur raw. induction k as [|k IH]; intros cur [|c raw] Hk; simpl in *; try lia.
  destruct (Ascii.eqb c CR).
  - assert (length (match raw with [] => [] | _ :: raw'' => parse_chunks [] raw'' end) <= length raw)%nat as Hr.
    { destruct raw as [|c' raw]; simpl in *; [lia|]. specialize (IH [] raw). lia. }
    destruct cur as [|c0 cur]; [lia|]. destruct (Ascii.eqb c0 "+"); simpl; lia.
  - specialize (IH (cur ++ [c]) raw). lia.
Qed.

Section raft_step_le.
Context (rand : nat → Z).

Lemma le_handleAppendEntries from raw n :
  Z.of_nat (length (log n)) + Z.of_nat (length raw) < 2 ^ 64 →
  raft_le n (handleAppendEntries rand from raw n).2.
Proof.
  intros Hsz. unfold handleAppendEntries. case_match; [done|].
  apply le_lift. intros term Hterm. apply le_lift. intros prevIdx Hprev%part_u64_range.
  apply le_lift. intros prevTerm _. apply le_lift. intros lc _. apply le_get.
  destruct (Z.ltb_spec term (currentTerm n)); [apply le_sendCb|]. apply le_bind.
  { destruct (Z.ltb_spec (currentTerm n) term); simpl; [apply le_becomeFollower; auto; lia|].
    case_bool_decide; [apply le_becomeFollower; auto; lia|done]. }
  intros [] n1 Hn1 Hle1. apply le_bind; [apply le_resetElectionTimer|].
  intros [] n2 Hn2 Hle2. apply le_get. apply le_lift. intros mismatch Hmm.
  assert (log n2 = log n) as Hlog.
  { transitivity (log n1); [by injection Hn2 as <-|].
    revert Hn1. destruct (_ || _); by intros [= <-]. }
  destruct mismatch; [apply le_sendCb|]. apply le_bind.
  { destruct (6 <? length (parseParts raw))%nat; [|reflexivity]. apply le_lift. intros cnt _. apply le_append_entries; [apply Hprev|lia|].
    pose proof (entries_of_length cnt (parseParts raw)) as Hel.
    pose proof (parse_chunks_length [] raw) as Hpl. fold (parseParts raw) in Hpl.
    assert (prevIdx < log_size n2 ∨ prevIdx = 0) as Hpi.
    { destruct (Z.ltb_spec 0 prevIdx); [|unfold is_u64 in Hprev; lia].
      destruct (Z.leb_spec (log_size n2) prevIdx); [done|lia]. }
    unfold log_size in Hpi. rewrite Hlog in Hpi. lia. }
  intros truncated n3 _ _. apply le_bind; [destruct truncated; [apply le_rewriteDisk|done]|].
  intros _ n4 _ _. apply le_bind; [unfold mmodify; cbn [snd]; destruct (commitIndex n4 <? lc); by constructor|]. intros _ n5 _ _.
  apply le_get, le_sendCb.
Qed.

Lemma le_advanceCommitIndex n : raft_le n (advanceCommitIndex n).2.
Proof.
  unfold advanceCommitIndex. apply le_get. case_match; [|done]. case_match; [|done].
  apply le_lift. intros t _. case_match; [by constructor|done].
Qed.

Lemma le_handleAppendEntriesReply from raw n : raft_le n (handleAppendEntriesReply rand from raw n).2.
Proof.
  unfold handleAppendEntriesReply. apply le_get. case_decide; [done|]. case_match; [done|].
  apply le_lift. intros term _. apply le_lift. intros p3 _. apply le_lift. intros mi _.
  destruct (Z.ltb_spec (currentTerm n) term); [apply le_becomeFollower; auto; lia|].
  case_match; [done|]. case_match; [|done]. case_match; [|done]. case_bool_decide.
  - apply le_bind; [by constructor|]. intros _ n' _ _. apply le_advanceCommitIndex.
  - apply le_bind; [unfold mput; cbn [snd]; destruct (1 <? _); by constructor|]. intros _ n' _ _.
    apply le_sendAppendEntries.
Qed.

Lemma le_handleRequestVote from raw n : raft_le n (handleRequestVote rand from raw n).2.
Proof.
  unfold handleRequestVote. case_match; [done|].
  apply le_lift. intros term _. apply le_lift. intros li _. apply le_lift. intros lt _. apply le_get.
  destruct (Z.ltb_spec term (currentTerm n)); [apply le_sendCb|]. apply le_bind.
  { destruct (Z.ltb_spec (currentTerm n) term); [apply le_becomeFollower; auto; lia|done]. }
  intros _ n1 _ _. apply le_get. case_match eqn:Hv; [|apply le_sendCb]. apply le_bind.
  - constructor; simpl; try done. intros v _ Hvote _. rewrite Hvote in Hv.
    apply andb_true_iff in Hv as [Hv _]. by apply Z.eqb_eq in Hv as ->.
  - intros _ n2 _ _. apply le_bind; [apply le_resetElectionTimer|]. intros _ n3 _ _. apply le_sendCb.
Qed.

Lemma le_handleRequestVoteReply from raw n : raft_le n (handleRequestVoteReply rand from raw n).2.
Proof.
  unfold handleRequestVoteReply. apply le_get. case_decide as Hs; [done|]. case_match; [done|].
  apply le_lift. intros term _. apply le_lift. intros p3 _.
  destruct (Z.ltb_spec (currentTerm n) term); [apply le_becomeFollower; auto; lia|].
  case_match; [|done]. apply le_bind; [by constructor|]. intros _ n' _ _. apply le_get.
  case_match; [by constructor|done].
Qed.

Lemma le_step from raw n :
  Z.of_nat (length (log n)) + Z.of_nat (length raw) < 2 ^ 64 → raft_le n (RaftNode_step rand from raw n).2.
Proof.
  intros Hsz. unfold RaftNode_step. case_match; [done|]. repeat case_decide; try done.
  - by apply le_handleAppendEntries.
  - apply le_handleAppendEntriesReply.
  - apply le_handleRequestVote.
  - apply le_handleRequestVoteReply.
Qed.
End raft_step_le.

(** ** The append loop *)

(** Only the log and its file change. *)
Record same_but_log (n n' : RaftNode) : Prop := {
  sbl_term : currentTerm n' = currentTerm n;
  sbl_vote : votedFor n' = votedFor n;
  sbl_commit : commitIndex n' = commitIndex n;
  sbl_state : state_ n' = state_ n;
  sbl_gid : groupId_ n' = groupId_ n;
  sbl_sent : sent n' = sent n
}.

#[global] Instance same_but_log_refl : Reflexive same_but_log.
Proof. by constructor. Qed.
#[global] Instance same_but_log_trans : Transitive same_but_log.
Proof. intros ? ? ? [] []. constructor; congruence. Qed.

Lemma appendToDisk_eq e n :
  appendToDisk e n =
    (Ok tt, let n1 := set_diskBuf (diskBuf_ n ++ log_line e) n in
            if 1024 <=? Z.of_nat (length (diskBuf_ n1)) then write_buffer n1 else n1).
Proof. done. Qed.

Lemma appendToDisk_ok e n : ∃ n', appendToDisk e n = (Ok tt, n') ∧ same_but_log n n' ∧ log n' = log n.
Proof.
  eexists. split; [done|]. destruct (_ <=? _); split; try done; by constructor.
Qed.

Lemma push_entry_ok term idx cmd n m :
  0 <= idx <= log_size n → same_but_log n m → log m = take (Z.to_nat idx) (log n) →
  ∃ n', push_entry term idx cmd m = (Ok tt, n') ∧ same_but_log n n' ∧
    log n' = take (Z.to_nat idx) (log n) ++ [mkLogEntry term cmd].
Proof.
  intros Hidx Hsame Hlog. unfold push_entry, log_size in *. erewrite M_bind_Ok by done.
  rewrite Hlog, length_take.
  destruct (Z.leb_spec (Z.of_nat (Z.to_nat idx `min` length (log n))) idx); [|lia].
  erewrite M_bind_Ok by done.
  destruct (appendToDisk_ok (mkLogEntry term cmd)
    (set_log (take (Z.to_nat idx) (log n) ++ [mkLogEntry term cmd]) m)) as (n' & Hr & Hs & Hl).
  exists n'. rewrite Hr, Hl. split_and!; [done| |done].
  transitivity m; [done|]. etransitivity; [|apply Hs]. by constructor.
Qed.

Lemma append_entry_ok term idx cmd t n :
  0 <= idx <= log_size n →
  ∃ t' n', append_entry term idx cmd t n = (Ok t', n') ∧ same_but_log n n' ∧
    ((∃ e, log n !! Z.to_nat idx = Some e ∧ le_term e = term ∧ log n' = log n) ∨
     (∀ e, log n !! Z.to_nat idx = Some e → le_term e ≠ term) ∧
     log n' = take (Z.to_nat idx) (log n) ++ [mkLogEntry term cmd]).
Proof.
  intros Hidx. unfold append_entry. erewrite M_bind_Ok by done.
  destruct (Z.ltb_spec idx (log_size n)) as [Hlt|Hge].
  - destruct (lookup_lt_is_Some_2 (log n) (Z.to_nat idx)) as [e He]; [unfold log_size in *; lia|].
    assert (log_term idx n = Ok (le_term e)) as Hlt' by (unfold log_term; by rewrite He).
    destruct (Z.eqb_spec (le_term e) term) as [Ht|Ht].
    + exists t, n. split_and!; [|done|left; by exists e].
      rewrite (M_bind_Ok _ _ n t n); [|rewrite Hlt'; unfold mlift; erewrite M_bind_Ok by done;
        by rewrite Ht, Z.eqb_refl].
      rewrite (M_bind_Ok _ _ n tt n); [done|]. unfold push_entry. erewrite M_bind_Ok by done.
      by destruct (Z.leb_spec (log_size n) idx); [lia|].
    + set (n1 := set_log (take (Z.to_nat idx) (log n)) n).
      destruct (push_entry_ok term idx cmd n n1) as (n' & Hr & Hs & Hl); [done|by constructor|done|].
      exists true, n'. split_and!; [|done|right; split; [by rewrite He; intros ? [= <-]|done]].
      rewrite (M_bind_Ok _ _ n true n1); [by rewrite (M_bind_Ok _ _ _ _ _ Hr)|].
      rewrite Hlt'. unfold mlift. erewrite M_bind_Ok by done.
      by destruct (Z.eqb_spec (le_term e) term).
  - destruct (push_entry_ok term idx cmd n n) as (n' & Hr & Hs & Hl);
      [done|done|by rewrite take_ge by (unfold log_size in *; lia)|].
    exists t, n'. split_and!; [|done|right; split; [|done]].
    2:{ intros e He%lookup_lt_Some. unfold log_size in *. lia. }
    rewrite (M_bind_Ok _ _ n t n) by done. by rewrite (M_bind_Ok _ _ _ _ _ Hr).
Qed.

(** What becomes of the entries [old] behind the leader's previous one: as long as
    they are of the leader's term they stay as they are, whatever their command;
    the first one of another term and all behind it give way to the commands. *)
Fixpoint merge_log (term : Z) (old : list LogEntry) (cmds : list bytes) {struct cmds} : list LogEntry :=
  match cmds, old with
  | [], _ => old
  | cmd :: cmds', e :: old' =>
      if le_term e =? term then e :: merge_log term old' cmds' else map (mkLogEntry term) cmds
  | _, [] => map (mkLogEntry term) cmds
  end.

Lemma merge_nil term cmds : merge_log term [] cmds = map (mkLogEntry term) cmds.
Proof. by destruct cmds. Qed.

(** One command at a time. *)
Lemma merge_cons term idx cmd cmds (l l1 : list LogEntry) :
  (idx <= length l)%nat →
  ((∃ e, l !! idx = Some e ∧ le_term e = term ∧ l1 = l) ∨
   (∀ e, l !! idx = Some e → le_term e ≠ term) ∧ l1 = take idx l ++ [mkLogEntry term cmd]) →
  take (S idx) l1 ++ merge_log term (drop (S idx) l1) cmds = take idx l ++ merge_log term (drop idx l) (cmd :: cmds).
Proof.
  intros Hidx [(e & He & <- & ->)|[Hne ->]].
  - rewrite (take_S_r _ _ _ He), (drop_S _ _ _ He). cbn [merge_log]. by rewrite Z.eqb_refl, <- (assoc_L app).
  - assert (length (take idx l ++ [mkLogEntry term cmd]) = S idx) as Hl by (rewrite length_app, length_take; simpl; lia).
    rewrite take_ge, drop_ge, merge_nil, <- (assoc_L app) by lia. f_equal. cbn [app].
    destruct (drop idx l) as [|e old] eqn:E; [done|]. cbn [merge_log].
    assert (l !! idx = Some e) as He by (rewrite <- (Nat.add_0_r idx), <- lookup_drop, E; done).
    by destruct (Z.eqb_spec (le_term e) term); [destruct (Hne e He)|].
Qed.

Lemma append_entries_ok term prevIdx i cmds t n :
  0 <= prevIdx → 0 <= i → prevIdx + 1 + i <= log_size n →
  prevIdx + 1 + i + Z.of_nat (length cmds) < 2 ^ 64 →
  ∃ t' n', append_entries term prevIdx i cmds t n = (Ok t', n') ∧ same_but_log n n' ∧
    log n' = take (Z.to_nat (prevIdx + 1 + i)) (log n) ++ merge_log term (drop (Z.to_nat (prevIdx + 1 + i)) (log n)) cmds.
Proof.
  revert i t n. induction cmds as [|cmd cmds IH]; intros i t n Hp Hi Hle Hb; simpl.
  { exists t, n. split_and!; [done..|]. cbn [merge_log]. by rewrite take_drop. }
  simpl in Hb. rewrite u64_id by (unfold is_u64; lia).
  destruct (append_entry_ok term (prevIdx + 1 + i) cmd t n) as (t1 & n1 & Hr & Hs & Hl); [lia|].
  assert (prevIdx + 1 + (i + 1) <= log_size n1) as Hle'.
  { unfold log_size in *. destruct Hl as [(e & He & _ & ->)|[_ ->]].
    - apply lookup_lt_Some in He. lia.
    - rewrite length_app, length_take. simpl. lia. }
  destruct (IH (i + 1) t1 n1) as (t2 & n2 & Hr2 & Hs2 & Ha); [lia..|].
  exists t2, n2. rewrite (M_bind_Ok _ _ _ _ _ Hr). split_and!; [done|by transitivity n1|].
  rewrite Ha. replace (Z.to_nat (prevIdx + 1 + (i + 1))) with (S (Z.to_nat (prevIdx + 1 + i))) by lia.
  apply merge_cons; [unfold log_size in *; lia|done].
Qed.

(** ** Applying committed entries *)

Lemma take_loop_ok todo result n :
  0 <= lastApplied n →
  take_loop todo result n =
    (Ok (result ++ take todo (drop (S (Z.to_nat (lastApplied n))) (log n))),
     set_lastApplied (lastApplied n + Z.of_nat todo) n).
Proof.
  revert result n. induction todo as [|todo IH]; intros result n Hn.
  { simpl. rewrite take_0, app_nil_r, Z.add_0_r. by destruct n. }
  cbn [take_loop]. erewrite M_bind_Ok by done. erewrite M_bind_Ok by done.
  rewrite IH by (simpl; lia). unfold set_lastApplied. cbn [log lastApplied].
  replace (lastApplied n + 1 + Z.of_nat todo) with (lastApplied n + Z.of_nat (S todo)) by lia.
  replace (Z.to_nat (lastApplied n + 1)) with (S (Z.to_nat (lastApplied n))) by lia.
  f_equal. f_equal. destruct (log n !! S (Z.to_nat (lastApplied n))) as [e|] eqn:E.
  - rewrite (drop_S _ _ _ E), firstn_cons. by rewrite <- (assoc_L app).
  - apply lookup_ge_None in E. by rewrite !drop_ge, take_nil by lia.
Qed.

(** ** The log file *)

Definition no_LF (s : bytes) : bool := forallb (λ c, negb (Ascii.eqb c LF)) s.

Lemma getlines_line cur s rest :
  no_LF s = true → getlines cur (s ++ [LF] ++ rest) = (cur ++ s) :: getlines [] rest.
Proof.
  revert cur. induction s as [|c s IH]; intros cur Hs; simpl in Hs.
  - by rewrite app_nil_r.
  - apply andb_true_iff in Hs as [Hc Hs]. apply negb_true_iff in Hc.
    rewrite <- app_comm_cons. cbn [getlines]. rewrite Hc, IH by done. by rewrite <- (assoc_L app).
Qed.

Lemma split_space_app a b :
  forallb (λ c, negb (Ascii.eqb c " ")) a = true → split_space (a ++ str " " ++ b) = Some (a, b).
Proof.
  induction a as [|c a IH]; intros Ha; [done|]. simpl in Ha. apply andb_true_iff in Ha as [Hc Ha].
  apply negb_true_iff in Hc. rewrite <- app_comm_cons. cbn [split_space]. by rewrite Hc, IH.
Qed.

Lemma digits_avoid d z :
  0 <= z → is_digit d = false → forallb (λ c, negb (Ascii.eqb c d)) (to_string z) = true.
Proof.
  intros Hz Hd. unfold to_string. destruct (Z.ltb_spec z 0); [lia|].
  apply forallb_forall. intros c Hc. rewrite <- list_elem_of_In in Hc.
  pose proof (digits_all z Hz) as H'. rewrite Forall_forall in H'. specialize (H' c Hc).
  apply negb_true_iff. destruct (Ascii.eqb_spec c d) as [->|]; [congruence|done].
Qed.

(** An entry whose line can be read back. *)
Definition entry_ok (e : LogEntry) : Prop := is_u64 (le_term e) ∧ no_LF (le_command e) = true.

Lemma load_lines_ok es :
  Forall entry_ok es → load_lines (getlines [] (flat_map log_line es)) = Ok es.
Proof.
  induction 1 as [|e es [Ht Hc] _ IH]; [done|]. cbn [flat_map]. unfold log_line at 1.
  assert (0 <= le_term e) as Hpos by apply Ht.
  replace ((to_string (le_term e) ++ str " " ++ le_command e ++ [LF]) ++ flat_map log_line es)
    with ((to_string (le_term e) ++ str " " ++ le_command e) ++ [LF] ++ flat_map log_line es)
    by (by rewrite <- !(assoc_L app)).
  rewrite getlines_line.
  - cbn [app load_lines]. rewrite split_space_app by (by apply digits_avoid).
    rewrite stoull_to_string by done. cbn [mbind res_bind]. rewrite IH. simpl. by destruct e.
  - unfold no_LF in *. rewrite !forallb_app, Hc, digits_avoid by done. done.
Qed.

(** File and buffer together hold the log. *)
Definition persisted (n : RaftNode) : Prop :=
  default [] (logFile_ n) ++ diskBuf_ n = flat_map log_line (tail (log n)).

Lemma appendToDisk_persisted e n :
  default [] (logFile_ (appendToDisk e n).2) ++ diskBuf_ (appendToDisk e n).2 =
    (default [] (logFile_ n) ++ diskBuf_ n) ++ log_line e.
Proof.
  rewrite appendToDisk_eq. cbv zeta. cbn [snd]. destruct (1024 <=? _); simpl.
  - by rewrite app_nil_r, (assoc_L app).
  - by rewrite (assoc_L app).
Qed.

Lemma flushDisk_file n :
  diskBuf_ (flushDisk n).2 = [] ∧
  default [] (logFile_ (flushDisk n).2) = default [] (logFile_ n) ++ diskBuf_ n.
Proof.
  unfold flushDisk, mmodify. cbn [snd]. destruct (diskBuf_ n) eqn:E; [by rewrite E, app_nil_r|].
  unfold write_buffer. simpl. by rewrite E.
Qed.

(** The state of a group of one: it leads, and everything is committed. *)
Record solo_ok (n : RaftNode) (cmds : list bytes) : Prop := {
  solo_leader : state_ n = Leader;
  solo_peers : peers n = [];
  solo_log : log n = mkLogEntry 0 [] :: map (mkLogEntry (currentTerm n)) cmds;
  solo_commit : commitIndex n = Z.of_nat (length cmds);
  solo_disk : persisted n;
  solo_term : currentTerm n = 0
}.

Lemma solo_propose n cmds cmd :
  solo_ok n cmds → Z.of_nat (length cmds) < 2 ^ 63 →
  ∃ n', RaftNode_propose cmd n = (Ok tt, n') ∧ solo_ok n' (cmds ++ [cmd]) ∧
    lastApplied n' = lastApplied n ∧ sent n' = sent n.
Proof.
  intros [Hl Hp Hlog Hc Hd Ht] Hb. unfold RaftNode_propose, propose_append.
  set (e := mkLogEntry (currentTerm n) cmd).
  set (n1 := set_commitIndex (lastLogIndex (set_log (log n ++ [e]) n)) (set_log (log n ++ [e]) n)).
  erewrite (M_bind_Ok _ _ n (Some e) n1).
  2:{ erewrite M_bind_Ok by done. rewrite decide_False by (intros Hne; by apply Hne).
      erewrite M_bind_Ok by done. 
      rewrite (M_bind_Ok _ _ _ tt n1); [done|]. unfold mmodify.
      change (peers (set_log (log n ++ [mkLogEntry (currentTerm n) cmd]) n)) with (peers n). by rewrite Hp. }
  destruct (appendToDisk_ok e n1) as (n2 & Hr & Hs & Hlog2). exists n2.
  assert (n2 = (appendToDisk e n1).2) as Hn2 by (by rewrite Hr).
  assert (peers n2 = [] ∧ lastApplied n2 = lastApplied n ∧ sent n2 = sent n) as (Hp2 & Hla & Hse).
  { rewrite Hn2, appendToDisk_eq. cbv zeta. cbn [snd]. by destruct (1024 <=? _). }
  destruct Hs as [S1 S2 S3 S4 S5 S6]. split_and!; [| |done..].
  - rewrite (M_bind_Ok _ _ _ _ _ Hr). unfold propose_send. erewrite M_bind_Ok by done. by rewrite Hp2.
  - constructor; rewrite ?S4, ?Hlog2, ?S1; simpl; try done.
    + rewrite Hlog, map_app. done.
    + rewrite S3. simpl. unfold lastLogIndex, log_size. simpl. rewrite Hlog. simpl.
      rewrite !length_app, length_map. simpl. rewrite u64_id; unfold is_u64; lia.
    + unfold persisted in *. rewrite Hlog2. simpl. rewrite Hn2, appendToDisk_persisted. simpl.
      rewrite Hd, Hlog. simpl. rewrite flat_map_app. simpl. by rewrite app_nil_r.
Qed.

(** ** Which outcomes a message can have *)

(** The call returns, or lets an exception of [std::stoull] escape. *)
Definition tame {A} (r : res A) : Prop :=
  match r with
  | Ok _ => True
  | Throw e => e = InvalidArgument ∨ e = OutOfRange
  | UB | OutOfFuel => False
  end.

Lemma tame_bind {A B} (m : M RaftNode A) (f : A → M RaftNode B) n :
  tame (m n).1 → (∀ a n', m n = (Ok a, n') → tame (f a n').1) → tame ((m ≫= f) n).1.
Proof.
  intros Hm Hf. unfold mbind, M_bind. destruct (m n) as [[a|e| |] n'] eqn:E; simpl in *; try done. by apply Hf.
Qed.

Lemma tame_lift {A B} (r : res A) (f : A → M RaftNode B) n :
  tame r → (∀ a, r = Ok a → tame (f a n).1) → tame ((mlift r ≫= f) n).1.
Proof. intros Hr Hf. apply tame_bind; [done|]. intros a n' [= -> ->]. by apply Hf. Qed.

Lemma tame_get {B} (f : RaftNode → M RaftNode B) n : tame (f n n).1 → tame ((mget ≫= f) n).1.
Proof. done. Qed.

Lemma tame_part parts i : (i < length parts)%nat → tame (part parts i).
Proof. intros Hi. unfold part. by destruct (lookup_lt_is_Some_2 parts i Hi) as [s ->]. Qed.

Lemma tame_part_u64 parts i : (i < length parts)%nat → tame (part_u64 parts i).
Proof.
  intros Hi. unfold part_u64, part. destruct (lookup_lt_is_Some_2 parts i Hi) as [s ->]. simpl.
  destruct (stoull_outcome s) as [[z ->]|[->| ->]]; simpl; auto.
Qed.

Lemma tame_log_term i n : 0 <= i < log_size n → tame (log_term i n).
Proof.
  intros Hi. unfold log_term, log_size in *.
  destruct (lookup_lt_is_Some_2 (log n) (Z.to_nat i)) as [e He]; [lia|]. by rewrite He.
Qed.

Lemma tame_append_entry term idx cmd t n : 0 <= idx → tame (append_entry term idx cmd t n).1.
Proof.
  intros Hidx. unfold append_entry. apply tame_get, tame_bind.
  - destruct (Z.ltb_spec idx (log_size n)); [|done]. apply tame_lift; [apply tame_log_term; lia|].
    intros lt _. by destruct (lt =? term).
  - intros t' n' _. apply tame_bind; [|done]. unfold push_entry. apply tame_get.
    by destruct (log_size n' <=? idx).
Qed.

Lemma tame_append_entries term prevIdx i cmds t n : tame (append_entries term prevIdx i cmds t n).1.
Proof.
  revert i t n. induction cmds as [|cmd cmds IH]; intros i t n; simpl; [done|].
  apply tame_bind; [apply tame_append_entry, u64_range|]. intros t' n' _. apply IH.
Qed.

Section outcomes.
Context (rand : nat → Z).

Lemma tame_handleAppendEntries from raw n : tame (handleAppendEntries rand from raw n).1.
Proof.
  unfold handleAppendEntries. destruct (Nat.ltb_spec (length (parseParts raw)) 6); [done|].
  apply tame_lift; [apply tame_part_u64; lia|]. intros term _.
  apply tame_lift; [apply tame_part_u64; lia|]. intros prevIdx Hp%part_u64_range.
  apply tame_lift; [apply tame_part_u64; lia|]. intros prevTerm _.
  apply tame_lift; [apply tame_part_u64; lia|]. intros lc _.
  apply tame_get. destruct (term <? currentTerm n); [done|].
  apply tame_bind; [by destruct (_ || _)|]. intros [] n1 _. apply tame_bind; [done|].
  intros [] n2 _. apply tame_get, tame_lift.
  { destruct (0 <? prevIdx); [|done]. destruct (Z.leb_spec (log_size n2) prevIdx); [done|].
    pose proof (tame_log_term prevIdx n2) as Ht. unfold is_u64 in Hp.
    destruct (log_term prevIdx n2); try done; apply Ht; lia. }
  intros [] _; [done|]. apply tame_bind.
  { destruct (Nat.ltb_spec 6 (length (parseParts raw))); [|done].
    apply tame_lift; [by apply tame_part_u64|]. intros cnt _. apply tame_append_entries. }
  intros truncated n3 _. apply tame_bind; [by destruct truncated|]. intros [] n4 _. done.
Qed.

Lemma tame_handleRequestVote from raw n : tame (handleRequestVote rand from raw n).1.
Proof.
  unfold handleRequestVote. destruct (Nat.ltb_spec (length (parseParts raw)) 5); [done|].
  apply tame_lift; [apply tame_part_u64; lia|]. intros term _.
  apply tame_lift; [apply tame_part_u64; lia|]. intros li _.
  apply tame_lift; [apply tame_part_u64; lia|]. intros lt _.
  apply tame_get. destruct (term <? currentTerm n); [done|].
  apply tame_bind; [by destruct (_ <? _)|]. intros [] n1 _. apply tame_get. by destruct (_ && _).
Qed.

Lemma tame_handleRequestVoteReply from raw n : tame (handleRequestVoteReply rand from raw n).1.
Proof.
  unfold handleRequestVoteReply. apply tame_get. case_decide; [done|].
  destruct (Nat.ltb_spec (length (parseParts raw)) 4); [done|].
  apply tame_lift; [apply tame_part_u64; lia|]. intros term _.
  apply tame_lift; [apply tame_part; lia|]. intros p3 _.
  destruct (currentTerm n <? term); [done|]. case_bool_decide; [|done].
  apply tame_bind; [done|]. intros [] n1 _. apply tame_get. by destruct (_ <=? _).
Qed.

Lemma tame_step from raw n : state_ n ≠ Leader → tame (RaftNode_step rand from raw n).1.
Proof.
  intros Hs. unfold RaftNode_step. destruct (parseParts raw); [done|]. repeat case_decide; try done.
  - apply tame_handleAppendEntries.
  - unfold handleAppendEntriesReply. apply tame_get. by rewrite decide_True.
  - apply tame_handleRequestVote.
  - apply tame_handleRequestVoteReply.
Qed.
End outcomes.

(** ** Properties *)

(** C26: whatever bytes arrive, from whomever: a node keeps its identity, never
    goes back to an earlier term, never loses the sentinel of its log, unsends
    nothing, does not move what it has applied, never becomes a candidate, and,
    unless it is one, keeps the vote it has given in its current term. *)
Theorem raft_step_monotone (rand : nat → Z) (from : Z) (raw : bytes) (n : RaftNode) :
  Z.of_nat (length (log n)) + Z.of_nat (length raw) < 2 ^ 64 →
  raft_le n (RaftNode_step rand from raw n).2.
Proof. apply le_step. Qed.

(** The state in which the log check runs: a newer term, or a candidate hearing
    of a leader, becomes a follower; the election timer restarts. *)
Definition accept_term (rand : nat → Z) (term : Z) (n : RaftNode) : RaftNode :=
  (resetElectionTimer rand
     (if (currentTerm n <? term) || bool_decide (state_ n = Candidate)
      then (becomeFollower rand term n).2 else n)).2.

Lemma accept_term_same rand term n :
  log (accept_term rand term n) = log n ∧ commitIndex (accept_term rand term n) = commitIndex n ∧
  groupId_ (accept_term rand term n) = groupId_ n ∧ sent (accept_term rand term n) = sent n ∧
  (currentTerm n <= term → currentTerm (accept_term rand term n) = term) .
Proof.
  unfold accept_term. destruct (Z.ltb_spec (currentTerm n) term); simpl; [done|].
  case_bool_decide; simpl; split_and!; try done; lia.
Qed.

(** The header of a well-formed AppendEntries message is decoded as sent. *)
Lemma handleAE_decode rand from gid term prevIdx prevTerm lc es n :
  Forall (λ e, plain (le_command e) = true) es →
  is_u64 term → is_u64 prevIdx → is_u64 prevTerm → is_u64 lc → currentTerm n <= term →
  let raw := encodeAppendEntries gid term prevIdx prevTerm lc es in
  let n1 := accept_term rand term n in
  handleAppendEntries rand from raw n =
    (mismatch ← mlift (if 0 <? prevIdx then
                          if log_size n1 <=? prevIdx then Ok true
                          else lt ← log_term prevIdx n1; Ok (negb (lt =? prevTerm))
                        else Ok false);
     if mismatch : bool then
       sendCb from (encodeAppendEntriesReply (groupId_ n1) (currentTerm n1) false 0)
     else
       truncated ← (cnt ← mlift (stoull (to_string (i32 (Z.of_nat (length es)))));
                    append_entries term prevIdx 0 (entries_of cnt (parseParts raw)) false);
       _ ← (if truncated : bool then rewriteDisk else mret tt);
       _ ← mmodify (λ n, if commitIndex n <? lc
                         then set_commitIndex (Z.min lc (lastLogIndex n)) n else n);
       n ← mget;
       sendCb from (encodeAppendEntriesReply (groupId_ n) (currentTerm n) true (lastLogIndex n))) n1.
Proof.
  intros Hes Ht Hp Hpt Hlc Hle raw n1. unfold handleAppendEntries.
  assert (parseParts raw = [str "RAFT_AE"; to_string gid; to_string term; to_string prevIdx;
    to_string prevTerm; to_string lc; to_string (i32 (Z.of_nat (length es)))] ++ map le_command es) as Hparts
    by (by apply parse_AppendEntries).
  generalize dependent (parseParts raw). intros parts ->. clear raw.
  cbn [length app]. change (S _ <? 6)%nat with false. cbn match.
  unfold part_u64, part. cbn [lookup list_lookup app mbind res_bind].
  rewrite (stoull_to_string term), (stoull_to_string prevIdx), (stoull_to_string prevTerm),
    (stoull_to_string lc) by done.
  do 4 (erewrite M_bind_Ok by done). erewrite M_bind_Ok by done.
  destruct (Z.ltb_spec term (currentTerm n)); [lia|].
  rewrite (M_bind_Ok _ _ n tt (if (currentTerm n <? term) || bool_decide (state_ n = Candidate)
      then (becomeFollower rand term n).2 else n)).
  2:{ by destruct (_ || _). }
  erewrite M_bind_Ok by done. erewrite M_bind_Ok by done. reflexivity.
Qed.

Lemma entries_of_encoded gid term pi pt lc es :
  Forall (λ e, plain (le_command e) = true) es → Z.of_nat (length es) < 2 ^ 31 →
  stoull (to_string (i32 (Z.of_nat (length es)))) = Ok (Z.of_nat (length es)) ∧
  entries_of (Z.of_nat (length es)) (parseParts (encodeAppendEntries gid term pi pt lc es)) =
    map le_command es.
Proof.
  intros Hes Hlen. assert (i32 (Z.of_nat (length es)) = Z.of_nat (length es)) as E.
  { unfold i32. rewrite Z.mod_small by lia. lia. }
  split; [rewrite E; apply stoull_to_string; unfold is_u64; lia|].
  rewrite parse_AppendEntries by done. unfold entries_of. cbn [app drop].
  apply take_ge. simpl. rewrite !length_map. lia.
Qed.


(** Entries from an older term, or after an entry the follower does not
    have, are refused with a negative reply: log and commit index stay. *)
Theorem raft_append_reject (rand : nat → Z) (from gid term prevIdx prevTerm lc : Z)
    (es : list LogEntry) (n : RaftNode) :
  Forall (λ e, plain (le_command e) = true) es →
  is_u64 term → is_u64 prevIdx → is_u64 prevTerm → is_u64 lc →
  term < currentTerm n ∨
    0 < prevIdx ∧ (∀ e, log n !! Z.to_nat prevIdx = Some e → le_term e ≠ prevTerm) →
  let raw := encodeAppendEntries gid term prevIdx prevTerm lc es in
  ∃ n', handleAppendEntries rand from raw n = (Ok tt, n') ∧
    log n' = log n ∧ commitIndex n' = commitIndex n ∧
    sent n' = sent n ++ [mkRaftMessage from
      (encodeAppendEntriesReply (groupId_ n) (Z.max term (currentTerm n)) false 0)].
Proof.
  intros Hes Ht Hp Hpt Hlc Hor raw. subst raw. destruct (Z.lt_ge_cases term (currentTerm n)) as [Hlt|Hge].
  - eexists. split_and!.
    + unfold handleAppendEntries. rewrite (parse_AppendEntries gid term prevIdx prevTerm lc es Hes).
      cbn [length app]. change (S _ <? 6)%nat with false. cbn match.
      unfold part_u64, part. cbn [lookup list_lookup app mbind res_bind].
      rewrite (stoull_to_string term), (stoull_to_string prevIdx), (stoull_to_string prevTerm),
        (stoull_to_string lc) by done.
      do 5 (erewrite M_bind_Ok by done). by destruct (Z.ltb_spec term (currentTerm n)); [|lia].
    + done.
    + done.
    + simpl. by rewrite Z.max_r by lia.
  - destruct Hor as [?|[Hpos Hno]]; [lia|]. rewrite handleAE_decode by done.
    destruct (accept_term_same rand term n) as (Elog & Ecommit & Egid & Esent & Eterm).
    specialize (Eterm Hge). set (n1 := accept_term rand term n) in *. clearbody n1.
    rewrite (M_bind_Ok _ _ n1 true n1).
    2:{ unfold mlift, log_term, log_size. rewrite Elog. destruct (Z.ltb_spec 0 prevIdx); [|lia].
        destruct (Z.leb_spec (Z.of_nat (length (log n))) prevIdx); [done|].
        destruct (lookup_lt_is_Some_2 (log n) (Z.to_nat prevIdx)) as [e He]; [lia|].
        rewrite He. simpl. by destruct (Z.eqb_spec (le_term e) prevTerm) as [E|]; [apply Hno in He|]. }
    eexists. split_and!; [done|done|done|]. simpl. by rewrite Esent, Egid, Eterm, Z.max_l by lia.
Qed.

(** The four messages are decoded to the fields they were built from, the
    flags of the replies apart: these arrive as ["+1"] and ["+0"], since the
    encoder writes the simple-string mark twice. *)
Theorem raft_messages_decode (gid term a b c : Z) (flag : bool) (es : list LogEntry) :
  Forall (λ e, plain (le_command e) = true) es →
  parseParts (encodeAppendEntries gid term a b c es) =
    str "RAFT_AE" :: map to_string [gid; term; a; b; c; i32 (Z.of_nat (length es))] ++
    map le_command es ∧
  parseParts (encodeAppendEntriesReply gid term flag a) =
    [str "RAFT_AER"; to_string gid; to_string term; wire_flag flag; to_string a] ∧
  parseParts (encodeRequestVote gid term a b) =
    str "RAFT_RV" :: map to_string [gid; term; a; b] ∧
  parseParts (encodeRequestVoteReply gid term flag) =
    [str "RAFT_RVR"; to_string gid; to_string term; wire_flag flag] ∧
  wire_flag true ≠ str "1".
Proof.
  intros Hes. split_and!; [by apply parse_AppendEntries|apply parse_AppendEntriesReply|
    apply parse_RequestVote|apply parse_RequestVoteReply|done].
Qed.

(** [takePendingApply] hands out the committed entries that were not applied
    yet, each once and in log order, and leaves nothing pending. *)
Theorem raft_apply_in_order (n : RaftNode) :
  0 <= lastApplied n <= commitIndex n →
  ∃ n', takePendingApply n =
      (Ok (take (Z.to_nat (commitIndex n - lastApplied n)) (drop (S (Z.to_nat (lastApplied n))) (log n))), n') ∧
    lastApplied n' = commitIndex n ∧ hasPendingApply n' = false ∧ log n' = log n ∧
    takePendingApply n' = (Ok [], n').
Proof.
  intros Hn. set (k := Z.to_nat (commitIndex n - lastApplied n)).
  set (n' := set_lastApplied (lastApplied n + Z.of_nat k) n).
  assert (lastApplied n' = commitIndex n) as Hl by (subst n' k; simpl; lia).
  exists n'. split_and!; try done.
  - unfold takePendingApply. erewrite M_bind_Ok by done. by rewrite take_loop_ok by lia.
  - unfold hasPendingApply. rewrite Hl. by rewrite Z.ltb_irrefl.
  - unfold takePendingApply. erewrite M_bind_Ok by done. rewrite Hl. simpl commitIndex. by rewrite Z.sub_diag.
Qed.

(** Proposing a list of commands, one after the other. *)
Definition propose_all (cmds : list bytes) : M RaftNode unit := mfor cmds RaftNode_propose.

Lemma solo_propose_all cmds done_ n :
  solo_ok n done_ → Z.of_nat (length done_ + length cmds) < 2 ^ 63 →
  ∃ n', propose_all cmds n = (Ok tt, n') ∧ solo_ok n' (done_ ++ cmds) ∧ lastApplied n' = lastApplied n.
Proof.
  revert done_ n. induction cmds as [|cmd cmds IH]; intros done_ n Hn Hb.
  { exists n. by rewrite app_nil_r. }
  simpl in Hb. destruct (solo_propose n done_ cmd Hn) as (n1 & Hr1 & H1 & L1 & _); [lia|].
  destruct (IH (done_ ++ [cmd]) n1 H1) as (n2 & Hr2 & H2 & L2); [rewrite length_app; simpl; lia|].
  exists n2. unfold propose_all in *. cbn [mfor]. rewrite (M_bind_Ok _ _ _ _ _ Hr1).
  split_and!; [done| |congruence]. by rewrite <- (assoc_L app) in H2.
Qed.

(** A restart on the file of a log. *)
Lemma init_load rand gid self file es :
  Forall entry_ok es → Z.of_nat (length es) < 2 ^ 62 → default [] file = flat_map log_line es →
  ∃ n, RaftNode_init rand gid self [] file = (Ok tt, n) ∧ log n = mkLogEntry 0 [] :: es ∧
    commitIndex n = Z.of_nat (length es) ∧ lastApplied n = 0.
Proof.
  intros Hes Hlen Hfile. destruct file as [content|]; simpl in Hfile.
  - eexists. split_and!.
    + unfold RaftNode_init, loadFromDisk. erewrite M_bind_Ok by done.
      erewrite M_bind_Ok; [done|]. erewrite M_bind_Ok by done. cbn [logFile_ set_log].
      rewrite Hfile. rewrite load_lines_ok by done. unfold mlift. erewrite M_bind_Ok by done.
      erewrite M_bind_Ok by done. erewrite M_bind_Ok by done. done.
    + done.
    + simpl. unfold lastLogIndex, log_size. simpl length. rewrite u64_id; unfold is_u64; lia.
    + done.
  - destruct es as [|e es]; [by eexists|]. unfold log_line in Hfile. simpl in Hfile.
    by destruct (to_string (le_term e)).
Qed.

Lemma tick_solo rand n :
  peers n = [] → state_ n = Leader →
  ∃ n', RaftNode_tick rand n = (Ok tt, n') ∧ logFile_ n' = logFile_ (flushDisk n).2 ∧
    log n' = log n ∧ commitIndex n' = commitIndex n ∧ lastApplied n' = lastApplied n ∧ sent n' = sent n.
Proof.
  intros Hp Hs. set (n1 := (flushDisk n).2).
  assert (peers n1 = [] ∧ state_ n1 = Leader ∧ log n1 = log n ∧ commitIndex n1 = commitIndex n ∧
    lastApplied n1 = lastApplied n ∧ sent n1 = sent n) as (Hp1 & Hs1 & Hkeep).
  { subst n1. unfold flushDisk, mmodify. simpl. by destruct (diskBuf_ n). }
  unfold RaftNode_tick. rewrite (M_bind_Ok _ _ n tt n1) by done. erewrite M_bind_Ok by done.
  rewrite decide_True by done. erewrite M_bind_Ok by done. erewrite M_bind_Ok by done.
  destruct (heartbeatTimer _ <=? 0); [|by eexists]. erewrite M_bind_Ok by done.
  change (peers (set_heartbeatTimer _ n1)) with (peers n1). rewrite Hp1. by eexists.
Qed.

(** C28: a group of one member that starts without a log file is durable, as long
    as no command holds a line feed (one that does breaks the file, see
    [raft_newline_breaks_restart]): after any proposals of such commands (fewer
    than [2 ^ 62]) and one tick, a restart on the log file brings back exactly the
    proposed commands, in order, all of them committed and pending application. *)
Theorem raft_solo_durable (rand : nat → Z) (gid self : Z) (cmds : list bytes) :
  Forall (λ cmd, no_LF cmd = true) cmds → Z.of_nat (length cmds) < 2 ^ 62 →
  ∃ n1 n2 n3 n4 n5,
    RaftNode_init rand gid self [] None = (Ok tt, n1) ∧
    propose_all cmds n1 = (Ok tt, n2) ∧ RaftNode_tick rand n2 = (Ok tt, n3) ∧
    RaftNode_init rand gid self [] (logFile_ n3) = (Ok tt, n4) ∧ log n4 = log n2 ∧
    takePendingApply n4 = (Ok (map (mkLogEntry 0) cmds), n5).
Proof.
  intros Hno Hlen. set (n1 := (RaftNode_init rand gid self [] None).2).
  destruct (solo_propose_all cmds [] n1) as (n2 & Hr2 & [A B C D E F] & Hla); [by constructor|simpl; lia|].
  simpl in C, D. rewrite F in C.
  destruct (flushDisk_file n2) as [_ Hfile]. rewrite E, C in Hfile.
  destruct (tick_solo rand n2 B A) as (n3 & Hr3 & Hf3 & _). rewrite <- Hf3 in Hfile.
  destruct (init_load rand gid self (logFile_ n3) (map (mkLogEntry 0) cmds)) as (n4 & Hr4 & L4 & C4 & A4).
  { apply Forall_map, (Forall_impl _ _ _ Hno). intros cmd Hc. split; [unfold is_u64; simpl; lia|done]. }
  { by rewrite length_map. }
  { done. }
  exists n1, n2, n3, n4. eexists. split_and!; try done; [by rewrite L4, C|].
  unfold takePendingApply. erewrite M_bind_Ok by done. rewrite take_loop_ok by lia.
  rewrite A4, C4, L4. simpl. f_equal. f_equal. apply take_ge. rewrite length_map. lia.
Qed.

(** For a node that does not lead, no message whatever reaches undefined
    behaviour: handling it returns or throws what [std::stoull] throws. *)
Theorem raft_step_outcomes (rand : nat → Z) (from : Z) (raw : bytes) (n : RaftNode) :
  state_ n ≠ Leader → tame (RaftNode_step rand from raw n).1.
Proof. apply tame_step. Qed.

(** ** Witnesses *)

(** A member of a group of three, before any message; [rand] always draws 0. *)
Definition rand0 : nat → Z := λ _, 0.
Definition member : RaftNode := (RaftNode_init rand0 7 1 [2; 3] None).2.

Definition SET_a : bytes := str "SET k a".
Definition AE_term1 : bytes := encodeAppendEntries 7 1 0 0 0 [mkLogEntry 1 SET_a].

Lemma raft_step_monotone_witness : raft_le member (RaftNode_step rand0 2 AE_term1 member).2.
Proof. apply (raft_step_monotone rand0 2 AE_term1 member). by vm_compute. Defined.


Lemma raft_append_reject_witness :
  ∃ n', handleAppendEntries rand0 2 (encodeAppendEntries 7 1 4 1 0 []) member = (Ok tt, n') ∧
    log n' = log member ∧ commitIndex n' = commitIndex member ∧
    sent n' = sent member ++ [mkRaftMessage 2
      (encodeAppendEntriesReply (groupId_ member) (Z.max 1 (currentTerm member)) false 0)].
Proof.
  apply (raft_append_reject rand0 2 7 1 4 1 0 [] member); try by vm_compute; try (by repeat constructor).
Defined.

Lemma raft_messages_decode_witness :
  parseParts (encodeRequestVote 7 1 0 0) = str "RAFT_RV" :: map to_string [7; 1; 0; 0] ∧
  parseParts (encodeRequestVoteReply 7 1 true) = [str "RAFT_RVR"; to_string 7; to_string 1; wire_flag true].
Proof.
  destruct (raft_messages_decode 7 1 0 0 0 true [mkLogEntry 1 SET_a]) as (_ & _ & H1 & H2 & _);
    [by repeat constructor|]. by split.
Defined.

Lemma raft_apply_in_order_witness :
  let n := set_commitIndex 1 (set_log [mkLogEntry 0 []; mkLogEntry 1 SET_a] member) in
  ∃ n', takePendingApply n = (Ok [mkLogEntry 1 SET_a], n') ∧ lastApplied n' = 1 ∧
    hasPendingApply n' = false ∧ log n' = log n ∧ takePendingApply n' = (Ok [], n').
Proof. intros n. apply (raft_apply_in_order n). vm_compute. by split. Defined.

Lemma raft_solo_durable_witness :
  ∃ n1 n2 n3 n4 n5,
    RaftNode_init rand0 7 1 [] None = (Ok tt, n1) ∧
    propose_all [SET_a; str "DEL k"] n1 = (Ok tt, n2) ∧ RaftNode_tick rand0 n2 = (Ok tt, n3) ∧
    RaftNode_init rand0 7 1 [] (logFile_ n3) = (Ok tt, n4) ∧ log n4 = log n2 ∧
    takePendingApply n4 = (Ok (map (mkLogEntry 0) [SET_a; str "DEL k"]), n5).
Proof.
  apply (raft_solo_durable rand0 7 1 [SET_a; str "DEL k"]); [by repeat constructor|by vm_compute].
Defined.

Lemma raft_step_outcomes_witness : tame (RaftNode_step rand0 2 (str "garbage") member).1.
Proof. apply (raft_step_outcomes rand0 2 (str "garbage") member). by vm_compute. Defined.

(** ** Behaviours outside the protocol *)

Definition run_steps (msgs : list (Z * bytes)) : M RaftNode unit :=
  mfor msgs (λ m, RaftNode_step rand0 m.1 m.2).

(** A candidate that hears of a leader of its own term forgets that it voted
    for itself, and then votes for another candidate in the same term. *)
Theorem raft_second_vote_same_term :
  let n0 := (becomeCandidate rand0 member).2 in
  let n1 := (run_steps [(2, encodeAppendEntries 7 1 0 0 0 []); (3, encodeRequestVote 7 1 0 0)] n0).2 in
  currentTerm n0 = 1 ∧ votedFor n0 = Some 1 ∧ currentTerm n1 = 1 ∧ votedFor n1 = Some 3 ∧
  last (sent n1) = Some (mkRaftMessage 3 (encodeRequestVoteReply 7 1 true)).
Proof. split_and!; by vm_compute. Qed.

(** Rewriting the file after a truncation leaves the write buffer as it was:
    the next flush appends its entries again, truncated ones included, and a
    restart reads them all as committed. *)
Theorem raft_truncation_duplicates_entries :
  let n0 := (run_steps [(2, encodeAppendEntries 7 1 0 0 0 [mkLogEntry 1 (str "SET k a")])] member).2 in
  let n1 := (run_steps [(3, encodeAppendEntries 7 2 0 0 0 [mkLogEntry 2 (str "SET k b")])] n0).2 in
  let n2 := (RaftNode_tick rand0 n1).2 in
  let n3 := (RaftNode_init rand0 7 1 [2; 3] (logFile_ n2)).2 in
  log n2 = [mkLogEntry 0 []; mkLogEntry 2 (str "SET k b")] ∧
  log n3 = [mkLogEntry 0 []; mkLogEntry 2 (str "SET k b"); mkLogEntry 1 (str "SET k a");
            mkLogEntry 2 (str "SET k b")] ∧ commitIndex n3 = 3.
Proof. split_and!; by vm_compute. Qed.

(** A reply with four fields passes the size test, and the fifth is read. *)
Theorem raft_reply_reads_past_end :
  (RaftNode_step rand0 2 (encodeRequestVoteReply 7 0 true) (RaftNode_init rand0 7 1 [] None).2).1 = Ok tt ∧
  (RaftNode_step rand0 2 (str "*4" ++ CRLF ++ line (str "RAFT_AER") ++ line (str "7") ++ line (str "0") ++
     line (str "1")) (RaftNode_init rand0 7 1 [] None).2).1 = UB.
Proof. split; by vm_compute. Qed.

(** A command with a line feed makes the log unreadable: the restart throws. *)
Theorem raft_newline_breaks_restart :
  let n1 := (RaftNode_init rand0 7 1 [] None).2 in
  let n2 := (RaftNode_propose (str "SET k a" ++ [LF] ++ str "b c") n1).2 in
  let n3 := (RaftNode_tick rand0 n2).2 in
  (RaftNode_init rand0 7 1 [] (logFile_ n3)).1 = Throw InvalidArgument.
Proof. by vm_compute. Qed.

(** The term and the vote are not on disk: after a restart the node is in term
    0 whatever the terms of its log, and may vote again in an old term. *)
Theorem raft_term_not_persisted :
  let n := (RaftNode_init rand0 7 1 [2; 3] (Some (log_line (mkLogEntry 5 SET_a)))).2 in
  currentTerm n = 0 ∧ votedFor n = None ∧ lastLogTerm n = 5.
Proof. split_and!; by vm_compute. Qed.

(** Replicated entries take the leader's current term instead of their own, so
    the follower refuses what comes after them. *)
Theorem raft_replicated_term_rewritten :
  let n1 := (run_steps [(2, encodeAppendEntries 7 2 0 0 0 [mkLogEntry 1 SET_a])] member).2 in
  let n2 := (run_steps [(2, encodeAppendEntries 7 2 1 1 0 [mkLogEntry 2 (str "DEL k")])] n1).2 in
  log n1 = [mkLogEntry 0 []; mkLogEntry 2 SET_a] ∧ log n2 = log n1 ∧
  last (sent n2) = Some (mkRaftMessage 2 (encodeAppendEntriesReply 7 2 false 0)).
Proof. split_and!; by vm_compute. Qed.
