(* ===== verification/RaftSystem.v ===== *)
(** * Raft groups as a distributed system

    The nodes of a deployment exchange the messages that [RaftNode] hands to
    [sendCb] over a network that may delay, lose, duplicate and reorder them:
    any message sent so far may be delivered at any time, with any sender
    identity the server attributes to the connection.  A step is one tick, one
    delivery, one proposal or one application of committed entries. *)
From Stdlib Require Import ZArith Ascii String Lia.
From stdpp Require Import base numbers list strings gmap relations.
From S2P Require Import Prelude CppStd RaftNode.
Local Open Scope Z_scope.

#[warnings="-notation-for-abbreviation"] Notation Sys := (gmap Z RaftNode).

Section system.
Context (rand : nat → Z).

Inductive sys_step : Sys → Sys → Prop :=
  | sys_tick σ id n : σ !! id = Some n → sys_step σ (<[id := (RaftNode_tick rand n).2]> σ)
  | sys_deliver σ id n src m from msg :
      σ !! id = Some n → σ !! src = Some m → msg ∈ sent m → target msg = id →
      sys_step σ (<[id := (RaftNode_step rand from (payload msg) n).2]> σ)
  | sys_propose σ id n cmd :
      σ !! id = Some n → sys_step σ (<[id := (RaftNode_propose cmd n).2]> σ)
  | sys_apply σ id n :
      σ !! id = Some n → sys_step σ (<[id := (takePendingApply n).2]> σ).

(** A deployment at start: every member has peers and came out of the constructor. *)
Definition sys_init (σ : Sys) : Prop :=
  ∀ id n, σ !! id = Some n →
    ∃ gid ps file, ps ≠ [] ∧ (RaftNode_init rand gid id ps file) = (Ok tt, n).

(** ** Only votes are ever exchanged *)

Inductive vote_message : bytes → Prop :=
  | vote_request gid t li lt : vote_message (encodeRequestVote gid t li lt)
  | vote_reply gid t b : vote_message (encodeRequestVoteReply gid t b).

(** A node that does not lead and has sent votes only; its log is [l]. *)
Record quiet (l : list LogEntry) (n : RaftNode) : Prop := {
  q_state : state_ n ≠ Leader;
  q_sent : Forall (λ m, vote_message (payload m)) (sent n);
  q_log : log n = l
}.

Lemma quiet_send l n tgt msg : quiet l n → vote_message msg → quiet l (sendCb tgt msg n).2.
Proof.
  intros [Hs Hm Hl] Hv. constructor; simpl; [done| |done]. apply Forall_app. by split; [|constructor].
Qed.

Lemma quiet_bind {A B} l (m : M RaftNode A) (f : A → M RaftNode B) n :
  quiet l (m n).2 → (∀ a n', quiet l n' → quiet l (f a n').2) → quiet l ((m ≫= f) n).2.
Proof.
  intros Hm Hf. unfold mbind, M_bind. destruct (m n) as [[a|e| |] n']; simpl in *; try done. by apply Hf.
Qed.

Lemma quiet_reset l n : quiet l n → quiet l (resetElectionTimer rand n).2.
Proof. intros []. by constructor. Qed.

Lemma quiet_follower l term n : quiet l n → quiet l (becomeFollower rand term n).2.
Proof. intros []. by constructor. Qed.

Lemma quiet_flush l n : quiet l n → quiet l (flushDisk n).2.
Proof. intros []. unfold flushDisk, mmodify. simpl. destruct (diskBuf_ n); by constructor. Qed.

Lemma quiet_get {B} l (f : RaftNode → M RaftNode B) n :
  quiet l (f n n).2 → quiet l ((mget ≫= f) n).2.
Proof. done. Qed.

Lemma quiet_lift {A B} l (r : res A) (f : A → M RaftNode B) n :
  quiet l n → (∀ a, r = Ok a → quiet l (f a n).2) → quiet l ((mlift r ≫= f) n).2.
Proof. intros Hn Hf. unfold mbind, M_bind, mlift. destruct r; simpl; try done. by apply Hf. Qed.

Lemma quiet_sendRequestVote l n : quiet l n → quiet l (sendRequestVote n).2.
Proof.
  intros Hq. unfold sendRequestVote. apply quiet_get. generalize (peers n) as ps. intros ps.
  revert n Hq. induction ps as [|p ps IH]; intros n Hq; [done|]. cbn [mfor].
  apply quiet_bind; [|intros [] n' H'; by apply IH]. apply quiet_get, quiet_send; [done|constructor].
Qed.

Lemma quiet_tick l n : quiet l n → quiet l (RaftNode_tick rand n).2.
Proof.
  intros Hq. unfold RaftNode_tick. apply quiet_bind; [by apply quiet_flush|].
  intros [] n1 H1. apply quiet_get. rewrite decide_False by apply H1.
  apply quiet_bind; [destruct H1; by constructor|]. intros [] n2 H2. apply quiet_get.
  destruct (_ <=? 0); [|done]. apply quiet_bind; [destruct H2; by constructor|].
  intros [] n3 H3. by apply quiet_sendRequestVote.
Qed.

Lemma quiet_requestVote l from raw n : quiet l n → quiet l (handleRequestVote rand from raw n).2.
Proof.
  intros Hq. unfold handleRequestVote. destruct (_ <? 5)%nat; [done|].
  apply quiet_lift; [done|]. intros term _. apply quiet_lift; [done|]. intros li _.
  apply quiet_lift; [done|]. intros lt _. apply quiet_get.
  destruct (term <? currentTerm n); [by apply quiet_send; [|constructor]|].
  apply quiet_bind; [destruct (_ <? _); [by apply quiet_follower|done]|]. intros [] n1 H1. apply quiet_get.
  destruct (_ && _); [|by apply quiet_send; [|constructor]].
  apply quiet_bind; [destruct H1; by constructor|]. intros [] n2 H2.
  apply quiet_bind; [by apply quiet_reset|]. intros [] n3 H3. apply quiet_send; [done|constructor].
Qed.

(** A reply is never counted, granted or not: its flag reads ["+1"], not ["1"]. *)
Lemma quiet_voteReply l from gid t b n :
  quiet l n → quiet l (handleRequestVoteReply rand from (encodeRequestVoteReply gid t b) n).2.
Proof.
  intros Hq. unfold handleRequestVoteReply. apply quiet_get. case_decide; [done|].
  rewrite parse_RequestVoteReply. simpl length. change (4 <? 4)%nat with false. cbn match.
  apply quiet_lift; [done|]. intros term _. apply quiet_lift; [done|]. intros p3 [= <-].
  destruct (currentTerm n <? term); [by apply quiet_follower|].
  rewrite bool_decide_false by (by destruct b). done.
Qed.

Lemma quiet_step l from raw n :
  quiet l n → vote_message raw → quiet l (RaftNode_step rand from raw n).2.
Proof.
  intros Hq Hv. unfold RaftNode_step. destruct Hv as [gid t li lt|gid t b].
  - rewrite parse_RequestVote. by apply quiet_requestVote.
  - rewrite parse_RequestVoteReply. by apply quiet_voteReply.
Qed.

Lemma quiet_propose l cmd n : quiet l n → quiet l (RaftNode_propose cmd n).2.
Proof.
  intros Hq. unfold RaftNode_propose, propose_append.
  rewrite (M_bind_Ok _ _ n None n); [done|]. erewrite M_bind_Ok by done.
  by rewrite decide_True by apply Hq.
Qed.

Lemma quiet_take_loop l todo result n : quiet l n → quiet l (take_loop todo result n).2.
Proof.
  revert result n. induction todo as [|todo IH]; intros result n Hq; [done|]. cbn [take_loop].
  apply quiet_bind; [destruct Hq; by constructor|]. intros [] n1 H1. apply quiet_get. by apply IH.
Qed.

Lemma quiet_init gid id ps file n :
  ps ≠ [] → RaftNode_init rand gid id ps file = (Ok tt, n) → quiet (log n) n.
Proof.
  intros Hps. unfold RaftNode_init. destruct ps as [|p ps]; [done|].
  intros H. apply M_bind_inv in H as (a & n1 & E1 & H). apply M_bind_inv in H as (a' & n2 & E2 & H).
  assert (state_ n2 = Follower ∧ sent n2 = []) as [Hs Hm].
  { revert E2. injection E1 as <- <-. unfold loadFromDisk. erewrite M_bind_Ok by done.
    destruct file as [content|]; simpl; [|by intros [= <- <-]].
    unfold mlift, mbind, M_bind. simpl. destruct (load_lines _) as [es| | |]; [|done..].
    by intros [= <- <-]. }
  injection H as <-. constructor; simpl; [by rewrite Hs|by rewrite Hm|done].
Qed.

Lemma quiet_sys_step σ σ' (ls : gmap Z (list LogEntry)) :
  (∀ id n, σ !! id = Some n → ∃ l, ls !! id = Some l ∧ quiet l n) → sys_step σ σ' →
  ∀ id n, σ' !! id = Some n → ∃ l, ls !! id = Some l ∧ quiet l n.
Proof.
  intros Hall Hstep.
  assert (∀ id n n', σ !! id = Some n → (∀ l, quiet l n → quiet l n') →
    ∀ id' m, <[id := n']> σ !! id' = Some m → ∃ l, ls !! id' = Some l ∧ quiet l m) as Hupd.
  { intros id n n' Hid Hn' id' m Hm. apply lookup_insert_Some in Hm as [[<- <-]|[_ Hm]]; [|by apply Hall].
    destruct (Hall id n Hid) as (l & Hl & Hq). exists l. auto. }
  destruct Hstep as [σ id n Hid|σ id n src m from msg Hid Hsrc Hin Ht|σ id n cmd Hid|σ id n Hid].
  - apply (Hupd id n); [done|]. intros l. apply quiet_tick.
  - apply (Hupd id n); [done|]. intros l Hq. apply quiet_step; [done|].
    destruct (Hall src m Hsrc) as (l' & _ & [_ Hsent _]). by eapply Forall_forall in Hsent.
  - apply (Hupd id n); [done|]. intros l. apply quiet_propose.
  - apply (Hupd id n); [done|]. intros l Hq. unfold takePendingApply. by apply quiet_get, quiet_take_loop.
Qed.
End system.

(** ** Properties *)

(** C27: in a deployment whose groups have more than one member no node ever
    becomes leader, in any execution: granted votes are not recognised.  As a
    consequence no log ever changes, so no command is ever replicated. *)
Theorem raft_no_leader_ever (rand : nat → Z) (σ0 σ : Sys) :
  sys_init rand σ0 → rtc (sys_step rand) σ0 σ →
  ∀ id n, σ !! id = Some n →
    state_ n ≠ Leader ∧ ∃ n0, σ0 !! id = Some n0 ∧ log n = log n0.
Proof.
  intros Hinit Hrtc. set (ls := log <$> σ0).
  assert (∀ id n, σ !! id = Some n → ∃ l, ls !! id = Some l ∧ quiet l n) as Hall.
  { assert (∀ id n, σ0 !! id = Some n → ∃ l, ls !! id = Some l ∧ quiet l n) as H0.
    { intros id n Hid. exists (log n). unfold ls. rewrite lookup_fmap, Hid. split; [done|].
      destruct (Hinit id n Hid) as (gid & ps & file & Hps & Hr). by eapply quiet_init. }
    clearbody ls. clear Hinit. induction Hrtc as [|σ1 σ2 σ3 Hstep _ IH]; [done|].
    apply IH. by eapply quiet_sys_step. }
  intros id n Hid. destruct (Hall id n Hid) as (l & Hl & [Hs _ Hlog]). split; [done|].
  unfold ls in Hl. rewrite lookup_fmap, fmap_Some in Hl. destruct Hl as (n0 & Hn0 & ->). by exists n0.
Qed.

(** [k] ticks of one node. *)
Definition tick_n (k : nat) (n : RaftNode) : RaftNode := Nat.iter k (λ n, (RaftNode_tick rand0 n).2) n.

Lemma sys_ticks k σ id n :
  σ !! id = Some n → rtc (sys_step rand0) σ (<[id := tick_n k n]> σ).
Proof.
  intros Hid. induction k as [|k IH]; simpl; [by rewrite insert_id|].
  eapply rtc_r; [apply IH|].
  pose proof (sys_tick rand0 (<[id := tick_n k n]> σ) id (tick_n k n)) as H.
  rewrite insert_insert_eq in H. apply H, lookup_insert_eq.
Qed.

(** Two members; the election timer of the first runs out, it asks for the vote
    of the second, which grants it; the reply arrives. *)
Definition duo : Sys :=
  {[ 1 := (RaftNode_init rand0 7 1 [2] None).2; 2 := (RaftNode_init rand0 7 2 [1] None).2 ]}.
Definition candidate1 : RaftNode := tick_n 150 (RaftNode_init rand0 7 1 [2] None).2.
Definition voter2 : RaftNode :=
  (RaftNode_step rand0 1 (encodeRequestVote 7 1 0 0) (RaftNode_init rand0 7 2 [1] None).2).2.
Definition elected1 : RaftNode := (RaftNode_step rand0 2 (encodeRequestVoteReply 7 1 true) candidate1).2.

Lemma duo_ticks : rtc (sys_step rand0) duo (<[1 := candidate1]> duo).
Proof. unfold candidate1. apply (sys_ticks 150 duo 1). apply lookup_insert_eq. Qed.

Lemma candidate1_sent : sent candidate1 = [mkRaftMessage 2 (encodeRequestVote 7 1 0 0)].
Proof. by vm_compute. Qed.
Lemma candidate1_state : state_ candidate1 = Candidate.
Proof. by vm_compute. Qed.

Lemma deliver_to σ id n n' src m from msg :
  σ !! id = Some n → σ !! src = Some m → msg ∈ sent m → target msg = id →
  n' = (RaftNode_step rand0 from (payload msg) n).2 → sys_step rand0 σ (<[id := n']> σ).
Proof. intros ? ? ? ? ->. by eapply sys_deliver. Qed.

Lemma duo_election : rtc (sys_step rand0) duo (<[1 := elected1]> (<[2 := voter2]> (<[1 := candidate1]> duo))).
Proof.
  pose proof candidate1_sent as S1. pose proof duo_ticks as T1. unfold elected1.
  generalize dependent candidate1. intros c1 S1 T1. transitivity (<[1 := c1]> duo); [done|].
  apply (rtc_l _ _ (<[2 := voter2]> (<[1 := c1]> duo))); [|apply rtc_once].
  - eapply (deliver_to _ 2 _ voter2 1 c1 1 (mkRaftMessage 2 (encodeRequestVote 7 1 0 0)));
      [|apply lookup_insert_eq|rewrite S1; left|done|reflexivity].
    by rewrite lookup_insert_ne.
  - eapply (deliver_to _ 1 c1 _ 2 voter2 2 (mkRaftMessage 1 (encodeRequestVoteReply 7 1 true)));
      [|apply lookup_insert_eq|by vm_compute; left|done|reflexivity].
    rewrite lookup_insert_ne by done. apply lookup_insert_eq.
Qed.

Lemma raft_no_leader_ever_witness :
  state_ candidate1 = Candidate ∧
  ∀ id n, <[1 := elected1]> (<[2 := voter2]> (<[1 := candidate1]> duo)) !! id = Some n →
    state_ n ≠ Leader ∧ ∃ n0, duo !! id = Some n0 ∧ log n = log n0.
Proof.
  split; [apply candidate1_state|]. apply (raft_no_leader_ever rand0 duo); [|apply duo_election].
  intros id n Hid. unfold duo in Hid. apply lookup_insert_Some in Hid as [[<- <-]|[_ Hid]]; [by exists 7, [2], None|].
  apply lookup_singleton_Some in Hid as [<- <-]. by exists 7, [1], None.
Defined.
