(* ===== verification/Server.v ===== *)
(** * The server's state and group management (server/Server.h, server/Server.cpp)

    The members of [class Server] that survive a call, and the methods the
    command handlers and the event loop use.  [held] tells whether the calling
    thread already owns [queueMutex]: [std::mutex] is not recursive, locking it
    again is undefined.  The clocks and [std::rand] are parameters: [steady i]
    and [wall i] are the [i]-th readings of the clock of the log and of
    [system_clock], [rand k g i] is the [i]-th draw of group [g] after the
    [k]-th construction of the groups. *)
From Stdlib Require Import ZArith Ascii String Lia.
From stdpp Require Import base numbers list strings gmap.
From S2P Require Import Prelude CppStd RespValue RespParser KVStore Snapshot AOF Ring Cluster Utils RaftNode.
Local Open Scope Z_scope.

Record Server := mkServer {
  kvstore : KVStore RespValue;
  aof : AOF;
  cluster : Cluster;
  running : bool;
  syncing : bool;
  pending_sync_nodes : Z;
  out_queue : list (bytes * Z);
  raft_groups : list (Z * RaftNode);
  masterToGroup : list (Z * Z);
  groupMembers_ : Groups;
  raft_files : gmap Z bytes;
  rebuilds : nat;
  wall_reads : nat
}.

Definition set_kvstore x s :=
  mkServer x (aof s) (cluster s) (running s) (syncing s) (pending_sync_nodes s) (out_queue s)
    (raft_groups s) (masterToGroup s) (groupMembers_ s) (raft_files s) (rebuilds s) (wall_reads s).
Definition set_aof x s :=
  mkServer (kvstore s) x (cluster s) (running s) (syncing s) (pending_sync_nodes s) (out_queue s)
    (raft_groups s) (masterToGroup s) (groupMembers_ s) (raft_files s) (rebuilds s) (wall_reads s).
Definition set_cluster x s :=
  mkServer (kvstore s) (aof s) x (running s) (syncing s) (pending_sync_nodes s) (out_queue s)
    (raft_groups s) (masterToGroup s) (groupMembers_ s) (raft_files s) (rebuilds s) (wall_reads s).
Definition set_sync b n s :=
  mkServer (kvstore s) (aof s) (cluster s) (running s) b n (out_queue s)
    (raft_groups s) (masterToGroup s) (groupMembers_ s) (raft_files s) (rebuilds s) (wall_reads s).
Definition set_out_queue x s :=
  mkServer (kvstore s) (aof s) (cluster s) (running s) (syncing s) (pending_sync_nodes s) x
    (raft_groups s) (masterToGroup s) (groupMembers_ s) (raft_files s) (rebuilds s) (wall_reads s).
Definition set_raft gs mg gm s :=
  mkServer (kvstore s) (aof s) (cluster s) (running s) (syncing s) (pending_sync_nodes s) (out_queue s)
    gs mg gm (raft_files s) (rebuilds s) (wall_reads s).
Definition set_raft_files x k s :=
  mkServer (kvstore s) (aof s) (cluster s) (running s) (syncing s) (pending_sync_nodes s) (out_queue s)
    (raft_groups s) (masterToGroup s) (groupMembers_ s) x k (wall_reads s).
Definition set_wall_reads x s :=
  mkServer (kvstore s) (aof s) (cluster s) (running s) (syncing s) (pending_sync_nodes s) (out_queue s)
    (raft_groups s) (masterToGroup s) (groupMembers_ s) (raft_files s) (rebuilds s) x.

Section Server.
Context (wall : nat → Z) (rand : nat → Z → nat → Z).

Definition wall_now : M Server Z :=
  s ← mget; _ ← mput (set_wall_reads (S (wall_reads s)) s); mret (wall (wall_reads s)).

Definition on_kvstore {A} (m : M (KVStore RespValue) A) : M Server A := mzoom kvstore set_kvstore m.
Definition on_aof {A} (m : M AOF A) : M Server A := mzoom aof set_aof m.
Definition on_cluster (f : Cluster → Cluster) : M Server unit :=
  mmodify (λ s, set_cluster (f (cluster s)) s).

(** [message_queue.emplace(msg, fd)] under [queueMutex]. *)
Definition push_queue (held : bool) (msg : bytes) (fd : Z) : M Server unit :=
  if held then mub else mmodify (λ s, set_out_queue (out_queue s ++ [(msg, fd)]) s).

(** ** Synchronisation state *)

Definition Server_markSyncing (expected_nodes : Z) : M Server unit :=
  mmodify (set_sync true expected_nodes).

Definition Server_onSyncDone : M Server unit :=
  s ← mget;
  let old := pending_sync_nodes s in
  mput (set_sync (if old =? 1 then false else syncing s) (i32 (old - 1)) s).

(** ** Data migration *)

Definition set_command (key : bytes) (v : RespValue) : bytes :=
  str "*3" ++ CRLF ++ str "+SET" ++ CRLF ++ str "+" ++ key ++ CRLF ++ encode v.

Definition syncdone_command (self : Z) : bytes :=
  str "*2" ++ CRLF ++ str "+SYNCDONE" ++ CRLF ++ str "+" ++ to_string self ++ CRLF.

Definition Server_sendDataToNode (held : bool) (target_uuid : Z) : M Server unit :=
  s ← mget;
  let target_fd := Cluster_getConnection target_uuid (cluster s) in
  if target_fd =? -1 then mret tt
  else
    _ ← mfor (KVStore_forEach (kvstore s)) (λ kv,
          s ← mget;
          owner_uuid ← mlift (Cluster_queryNode kv.1 (cluster s));
          if owner_uuid =? target_uuid
          then push_queue held (set_command kv.1 kv.2) target_fd else mret tt);
    push_queue held (syncdone_command (UUID (self_node (cluster s)))) target_fd.

(** ** Raft groups *)

Definition Server_getRaftGroup (gid : Z) (s : Server) : option RaftNode := map_find gid (raft_groups s).

Definition Server_getGroupForKey (key : bytes) (s : Server) : res (option Z) :=
  owner ← Cluster_queryNode key (cluster s);
  Ok (match map_find owner (masterToGroup s) with
      | Some gid => match Server_getRaftGroup gid s with Some _ => Some gid | None => None end
      | None => None
      end).

(** The callback of [makeRaftSendCb]. *)
Definition Server_raftSend (held : bool) (msg : RaftMessage) : M Server unit :=
  s ← mget;
  let fd := Cluster_getConnection (target msg) (cluster s) in
  if fd =? -1 then mret tt else push_queue held (payload msg) fd.

(** Call a method of group [gid]; what it sent goes through the callback. *)
Definition on_group {A} (held : bool) (gid : Z) (m : M RaftNode A) : M Server (option A) :=
  s ← mget;
  match Server_getRaftGroup gid s with
  | None => mret None
  | Some n =>
      let '(r, n') := m n in
      _ ← mput (set_raft (map_assign gid (RaftNode.set_sent [] n') (raft_groups s))
                 (masterToGroup s) (groupMembers_ s) s);
      _ ← mfor (sent n') (Server_raftSend held);
      a ← mlift r;
      mret (Some a)
  end.

(** [seen.insert(uid).second] keeps the first occurrences. *)
Fixpoint first_seen (seen l : list Z) : list Z :=
  match l with
  | [] => []
  | u :: l' => if decide (u ∈ seen) then first_seen seen l' else u :: first_seen (u :: seen) l'
  end.

(** [raft_groups.clear()]: each log file keeps what was written to it; the
    destructor drops [diskBuf_]. *)
Definition close_groups (s : Server) : Server :=
  set_raft_files (foldl (λ m e, match logFile_ e.2 with
                                | Some c => <[e.1 := c]> m
                                | None => m
                                end) (raft_files s) (raft_groups s)) (S (rebuilds s))
    (set_raft [] [] [] s).

(** [(selfIdx + offset + N) % N] in [size_t]. *)
Definition group_index (selfIdx N : nat) (offset : Z) : nat :=
  Z.to_nat (u64 (Z.of_nat selfIdx + offset + Z.of_nat N) mod Z.of_nat N).

(** [nodeIds[(gi + j) % N]] for [j = 0, 1, 2]. *)
Definition group_nodes (nodeIds : list Z) (gi : nat) : list Z :=
  map (λ j, nodeIds !!! ((gi + j) mod length nodeIds)%nat) [0%nat; 1%nat; 2%nat].

Definition group_peers (self_uuid : Z) (members : list Z) : list Z :=
  first_seen [] (filter (λ u, u ≠ self_uuid) members).

(** One round of the loop over [offset]. *)
Definition add_group (nodeIds : list Z) (selfIdx : nat) (self_uuid : Z) (offset : Z) : M Server unit :=
  let gi := group_index selfIdx (length nodeIds) offset in
  let gid := Z.of_nat gi in
  let members := group_nodes nodeIds gi in
  s ← mget;
  let '(r, n) := RaftNode_init (rand (rebuilds s) gid) gid self_uuid (group_peers self_uuid members)
                   (raft_files s !! gid) in
  _ ← mlift r;
  mput (set_raft (map_emplace gid n (raft_groups s))
         (map_assign (nodeIds !!! gi) gid (masterToGroup s))
         (map_assign gid (first_seen [] members) (groupMembers_ s)) s).

Definition index_of (u : Z) (l : list Z) : nat :=
  match list_find (λ x, x = u) l with Some (i, _) => i | None => 0%nat end.

Definition Server_initRaftGroups : M Server unit :=
  s ← mget;
  let nodeIds := map fst (topo (cluster s)) in
  match nodeIds with
  | [] => mret tt
  | _ =>
      let self_uuid := UUID (self_node (cluster s)) in
      let selfIdx := index_of self_uuid nodeIds in
      _ ← mmodify close_groups;
      _ ← mfor nodeIds (λ uid, on_cluster (Cluster_addNodeToHash uid));
      mfor [0; -1; -2] (add_group nodeIds selfIdx self_uuid)
  end.
End Server.

(** ** Proposing to a group always returns *)

(** A leader keeps a next index for every peer. *)
Definition leader_ready (n : RaftNode) : Prop :=
  state_ n = Leader → length (nextIndex n) = length (peers n).

Lemma send_entries_total peer n :
  length (nextIndex n) = length (peers n) →
  ∃ msgs, sendAppendEntries peer n = (Ok tt, RaftNode.set_sent (sent n ++ msgs) n).
Proof.
  intros Hlen. unfold sendAppendEntries. erewrite M_bind_Ok by done.
  destruct (Nat.leb_spec (length (peers n)) (peerIndex peer n)).
  - exists []. rewrite app_nil_r. by destruct n.
  - destruct (nextIndex n !! peerIndex peer n) as [next|] eqn:E; [by eexists [_]|].
    apply lookup_ge_None in E. lia.
Qed.

Lemma send_all_total (ps : list Z) n :
  length (nextIndex n) = length (peers n) →
  ∃ msgs, mfor ps sendAppendEntries n = (Ok tt, RaftNode.set_sent (sent n ++ msgs) n).
Proof.
  revert n. induction ps as [|p ps IH]; intros n Hlen.
  { exists []. rewrite app_nil_r. by destruct n. }
  destruct (send_entries_total p n Hlen) as (m1 & H1).
  destruct (IH (RaftNode.set_sent (sent n ++ m1) n) Hlen) as (m2 & H2).
  exists (m1 ++ m2). cbn [mfor]. rewrite (M_bind_Ok _ _ _ _ _ H1), H2.
  by rewrite (assoc_L app).
Qed.

Lemma propose_total cmd n :
  leader_ready n →
  ∃ n', RaftNode_propose cmd n = (Ok tt, n') ∧ state_ n' = state_ n ∧ peers n' = peers n ∧
    nextIndex n' = nextIndex n.
Proof.
  intros Hr. unfold RaftNode_propose, propose_append.
  destruct (decide (state_ n = Leader)) as [Hl|Hl].
  2:{ exists n. split_and!; try done. rewrite (M_bind_Ok _ _ n None n); [done|].
      erewrite M_bind_Ok by done. by rewrite decide_True. }
  set (e := mkLogEntry (currentTerm n) cmd).
  set (n1 := RaftNode.set_log (log n ++ [e]) n).
  set (n2 := match peers n1 with [] => RaftNode.set_commitIndex (lastLogIndex n1) n1 | _ => n1 end).
  assert (state_ n2 = state_ n ∧ peers n2 = peers n ∧ nextIndex n2 = nextIndex n) as (S2 & P2 & X2).
  { unfold n2. by destruct (peers n1). }
  rewrite (M_bind_Ok _ _ n (Some e) n2).
  2:{ erewrite M_bind_Ok by done. rewrite decide_False by tauto. by erewrite M_bind_Ok. }
  set (n3 := (appendToDisk e n2).2).
  assert (state_ n3 = state_ n ∧ peers n3 = peers n ∧ nextIndex n3 = nextIndex n) as (S3 & P3 & X3).
  { unfold n3. rewrite appendToDisk_eq. cbv zeta. cbn [snd]. by destruct (_ <=? _). }
  rewrite (M_bind_Ok _ _ n2 tt n3) by done. unfold propose_send. erewrite M_bind_Ok by done.
  destruct (send_all_total (peers n3) n3) as (msgs & Hm); [rewrite X3, P3; by apply Hr|].
  exists (RaftNode.set_sent (sent n3 ++ msgs) n3). by rewrite Hm.
Qed.

(** What the callback queues is all that a successful call changes outside its group. *)
Lemma raft_send_total msgs s :
  ∃ q, mfor msgs (Server_raftSend false) s = (Ok tt, set_out_queue (out_queue s ++ q) s).
Proof.
  revert s. induction msgs as [|m msgs IH]; intros s.
  { exists []. rewrite app_nil_r. by destruct s. }
  cbn [mfor].
  set (fd := Cluster_getConnection (target m) (cluster s)). destruct (Z.eqb fd (-1)) eqn:E.
  - destruct (IH s) as (q & Hq). exists q. rewrite (M_bind_Ok _ _ s tt s); [done|].
    unfold Server_raftSend. erewrite M_bind_Ok by done. fold fd. by rewrite E.
  - set (s1 := set_out_queue (out_queue s ++ [(payload m, fd)]) s). destruct (IH s1) as (q & Hq).
    exists ((payload m, fd) :: q). rewrite (M_bind_Ok _ _ s tt s1).
    + rewrite Hq. unfold s1. simpl. by rewrite <- (assoc_L app).
    + unfold Server_raftSend. erewrite M_bind_Ok by done. fold fd. by rewrite E.
Qed.

Lemma on_group_total {A} gid (m : M RaftNode A) n a n' s :
  Server_getRaftGroup gid s = Some n → m n = (Ok a, n') →
  ∃ q, on_group false gid m s =
    (Ok (Some a), set_out_queue (out_queue s ++ q)
       (set_raft (map_assign gid (RaftNode.set_sent [] n') (raft_groups s))
          (masterToGroup s) (groupMembers_ s) s)).
Proof.
  intros Hg Hm. unfold on_group. erewrite M_bind_Ok by done. rewrite Hg, Hm.
  erewrite M_bind_Ok by done.
  destruct (raft_send_total (sent n') (set_raft (map_assign gid (RaftNode.set_sent [] n') (raft_groups s))
    (masterToGroup s) (groupMembers_ s) s)) as (q & Hq).
  exists q. rewrite (M_bind_Ok _ _ _ _ _ Hq). done.
Qed.

(** Every group of the server can take a proposal. *)
Definition raft_ready (s : Server) : Prop :=
  ∀ gid n, Server_getRaftGroup gid s = Some n → leader_ready n.

(** ** The groups that [initRaftGroups] builds *)

Lemma first_seen_elem u seen l : u ∈ first_seen seen l ↔ u ∈ l ∧ u ∉ seen.
Proof.
  revert seen. induction l as [|v l IH]; intros seen; simpl; [set_solver|].
  case_decide as Hv; [|rewrite elem_of_cons]; rewrite IH; [set_solver|].
  destruct (decide (u = v)) as [->|]; set_solver.
Qed.

Lemma first_seen_nodup seen l : NoDup (first_seen seen l).
Proof.
  revert seen. induction l as [|v l IH]; intros seen; simpl; [constructor|].
  case_decide; [done|]. constructor; [|done]. rewrite first_seen_elem. set_solver.
Qed.

Lemma map_find_emplace {V} j k (v : V) m :
  map_find j (map_emplace k v m) =
    if j =? k then Some (default v (map_find k m)) else map_find j m.
Proof.
  unfold map_emplace. destruct (map_find k m) as [w|] eqn:E.
  - destruct (Z.eqb_spec j k) as [->|]; [by rewrite E|done].
  - rewrite map_find_assign. by destruct (j =? k).
Qed.

Lemma group_index_spec i N offset :
  (i < N)%nat → Z.of_nat N < 2 ^ 63 → -2 <= offset <= 0 →
  Z.of_nat (group_index i N offset) = (Z.of_nat i + offset) mod Z.of_nat N.
Proof.
  intros Hi HN Ho. unfold group_index.
  rewrite Z2Nat.id by (apply Z.mod_pos_bound; lia).
  destruct (decide (N = 1%nat)) as [->|]; [by rewrite !Z.mod_1_r|].
  rewrite u64_id by (unfold is_u64; lia).
  replace (Z.of_nat i + offset + Z.of_nat N) with (Z.of_nat i + offset + 1 * Z.of_nat N) by lia.
  by rewrite Z_mod_plus_full.
Qed.

(** Position [i] is one of the three that follow position [g] on the circle of
    the node list exactly when [g] is one of the three that precede [i]. *)
Lemma group_index_inv i g N j :
  (i < N)%nat → (g < N)%nat → Z.of_nat N < 2 ^ 63 → (j <= 2)%nat →
  g = group_index i N (- Z.of_nat j) ↔ ((g + j) mod N)%nat = i.
Proof.
  intros Hi Hg HN Hj.
  pose proof (group_index_spec i N (- Z.of_nat j) Hi HN ltac:(lia)) as Hs.
  assert (Z.of_nat ((g + j) mod N) = (Z.of_nat g + Z.of_nat j) mod Z.of_nat N) as Hm
    by (rewrite Nat2Z.inj_mod, Nat2Z.inj_add; done).
  split; intros H.
  - rewrite <- H in Hs. apply Nat2Z.inj. rewrite Hm, Hs, Zplus_mod_idemp_l.
    rewrite Z.mod_small; lia.
  - apply Nat2Z.inj. rewrite Hs, <- H, Hm, Zplus_mod_idemp_l. rewrite Z.mod_small; lia.
Qed.

Definition held_groups (i N : nat) : list nat := map (group_index i N) [0; -1; -2].

Lemma held_groups_elem ids i self g :
  NoDup ids → ids !! i = Some self → Z.of_nat (length ids) < 2 ^ 63 →
  g ∈ held_groups i (length ids) ↔ (g < length ids)%nat ∧ self ∈ group_nodes ids g.
Proof.
  intros Hnd Hi HN. pose proof (lookup_lt_Some _ _ _ Hi) as Hlt.
  assert (∀ j, (j <= 2)%nat → (g < length ids)%nat →
    g = group_index i (length ids) (- Z.of_nat j) ↔ self = ids !!! ((g + j) mod length ids)%nat) as Hj.
  { intros j Hj Hg. rewrite group_index_inv by done. split.
    - intros ->. symmetry. by apply list_lookup_total_correct.
    - intros Hs. assert (((g + j) mod length ids < length ids)%nat) as Hm by (apply Nat.mod_upper_bound; lia).
      eapply NoDup_lookup; [done| |done]. rewrite Hs. by apply list_lookup_lookup_total_lt. }
  assert (∀ o, -2 <= o <= 0 → g = group_index i (length ids) o → (g < length ids)%nat) as Hb.
  { intros o Ho ->. pose proof (group_index_spec i (length ids) o Hlt HN Ho).
    pose proof (Z.mod_pos_bound (Z.of_nat i + o) (Z.of_nat (length ids))). lia. }
  unfold held_groups, group_nodes. cbn [map].
  rewrite !(elem_of_cons (A := nat)), !(elem_of_cons (A := Z)), !elem_of_nil. split.
  - intros [H|[H|[H|[]]]].
    + split; [by apply (Hb 0)|]. left. by apply (Hj 0%nat); [lia|apply (Hb 0)|].
    + split; [by apply (Hb (-1))|]. right. left. by apply (Hj 1%nat); [lia|apply (Hb (-1))|].
    + split; [by apply (Hb (-2))|]. do 2 right. left. by apply (Hj 2%nat); [lia|apply (Hb (-2))|].
  - intros [Hg [H|[H|[H|[]]]]].
    + left. by apply (Hj 0%nat); [lia|..].
    + right. left. by apply (Hj 1%nat); [lia|..].
    + do 2 right. left. by apply (Hj 2%nat); [lia|..].
Qed.

(** A log file the constructor can read. *)
Definition readable (file : option bytes) : Prop :=
  ∀ c, file = Some c → is_ok (load_lines (getlines [] c)) = true.

Lemma RaftNode_init_ok rnd gid self ps file :
  readable file →
  ∃ n, RaftNode_init rnd gid self ps file = (Ok tt, n) ∧ groupId_ n = gid ∧ selfId n = self ∧
    peers n = ps ∧ leader_ready n ∧ sent n = [] ∧ logFile_ n = file.
Proof.
  intros Hr.
  assert (∃ n1, (_ ← mmodify (λ n, RaftNode.set_log (log n ++ [mkLogEntry 0 []]) n); loadFromDisk)
      (mkRaftNode 0 None [] 0 0 Follower gid self ps [] [] 0 0 0 file [] [] 0) = (Ok tt, n1) ∧
    groupId_ n1 = gid ∧ selfId n1 = self ∧ peers n1 = ps ∧ sent n1 = [] ∧ logFile_ n1 = file ∧
    state_ n1 = Follower) as (n1 & Hn1 & G & I & P & Se & F & St).
  { erewrite M_bind_Ok by done. unfold loadFromDisk. erewrite M_bind_Ok by done.
    destruct file as [c|]; [|by eexists]. cbn [logFile_ RaftNode.set_log].
    pose proof (Hr c eq_refl) as Hc. destruct (load_lines (getlines [] c)) as [es| | |] eqn:E; try done.
    by eexists. }
  unfold RaftNode_init. erewrite M_bind_Ok by done. erewrite M_bind_Ok in Hn1 by done.
  rewrite (M_bind_Ok _ _ _ _ _ Hn1). destruct ps as [|p ps].
  - eexists. split; [done|]. simpl. split_and!; try done. intros _. simpl. by rewrite P.
  - eexists. split; [done|]. simpl. split_and!; try done. intros Hl. simpl in Hl. congruence.
Qed.

Section groups.
Context (rand : nat → Z → nat → Z) (ids : list Z) (self : Z) (i : nat).

(** What the loop has built after the groups [done]. *)
Record groups_inv (gs : list nat) (s : Server) : Prop := {
  gi_held : ∀ g, is_Some (Server_getRaftGroup g s) ↔ ∃ gi, gi ∈ gs ∧ g = Z.of_nat gi;
  gi_node : ∀ g n, Server_getRaftGroup g s = Some n →
    groupId_ n = g ∧ selfId n = self ∧ leader_ready n ∧
    peers n = group_peers self (group_nodes ids (Z.to_nat g));
  gi_members : ∀ gi, gi ∈ gs →
    map_find (Z.of_nat gi) (groupMembers_ s) = Some (first_seen [] (group_nodes ids gi));
  gi_master : ∀ u g, map_find u (masterToGroup s) = Some g ↔
    ∃ gi, gi ∈ gs ∧ g = Z.of_nat gi ∧ ids !! gi = Some u
}.

Lemma add_group_inv gs offset s :
  NoDup ids → ids !! i = Some self → Z.of_nat (length ids) < 2 ^ 63 → -2 <= offset <= 0 →
  (∀ gid, readable (raft_files s !! gid)) → groups_inv gs s →
  ∃ s', add_group rand ids i self offset s = (Ok tt, s') ∧
    groups_inv (gs ++ [group_index i (length ids) offset]) s' ∧
    raft_files s' = raft_files s ∧ cluster s' = cluster s ∧ kvstore s' = kvstore s.
Proof.
  intros Hnd Hi HN Ho Hr [H1 H2 H3 H4]. unfold add_group.
  set (gi := group_index i (length ids) offset). set (gid := Z.of_nat gi).
  assert (gi < length ids)%nat as Hgi.
  { pose proof (group_index_spec i (length ids) offset (lookup_lt_Some _ _ _ Hi) HN Ho) as Hs.
    pose proof (Z.mod_pos_bound (Z.of_nat i + offset) (Z.of_nat (length ids))).
    pose proof (lookup_lt_Some _ _ _ Hi). unfold gi. lia. }
  destruct (RaftNode_init_ok (rand (rebuilds s) gid) gid self (group_peers self (group_nodes ids gi))
    (raft_files s !! gid) (Hr gid)) as (n & Hn & G & I & P & L & _).
  erewrite M_bind_Ok by done. rewrite Hn. erewrite M_bind_Ok by done.
  eexists. split; [done|]. split; [|done]. unfold Server_getRaftGroup in *.
  assert (∀ gi' : nat, gi' ∈ gs ++ [gi] ↔ gi' ∈ gs ∨ gi' = gi) as Hin.
  { intros gi'. rewrite elem_of_app, list_elem_of_singleton. done. }
  constructor; simpl.
  - intros g. unfold Server_getRaftGroup. simpl. rewrite map_find_emplace.
    destruct (Z.eqb_spec g gid) as [->|Hne].
    + split; [|done]. intros _. exists gi. rewrite Hin. auto.
    + rewrite H1. setoid_rewrite Hin. split; [naive_solver|].
      intros (gi' & [?| ->] & ->); [eauto|done].
  - intros g n'. unfold Server_getRaftGroup. simpl. rewrite map_find_emplace.
    destruct (Z.eqb_spec g gid) as [->|Hne]; [|by apply H2].
    destruct (map_find gid (raft_groups s)) as [w|] eqn:E; simpl; intros [= <-]; [by apply H2|].
    unfold gid. rewrite Nat2Z.id. done.
  - intros gi' Hgi'. rewrite map_find_assign. destruct (Z.eqb_spec (Z.of_nat gi') gid) as [He|Hne].
    + apply Nat2Z.inj in He as ->. done.
    + apply H3. apply Hin in Hgi' as [Hg| ->]; done.
  - intros u g. rewrite map_find_assign. setoid_rewrite Hin.
    destruct (Z.eqb_spec u (ids !!! gi)) as [->|Hne].
    + pose proof (list_lookup_lookup_total_lt ids gi Hgi) as Hu. split.
      * intros [= <-]. exists gi. auto.
      * intros (gi' & _ & -> & Hl). f_equal. unfold gid. f_equal. by eapply NoDup_lookup.
    + rewrite H4. split; [naive_solver|]. intros (gi' & [?| ->] & -> & Hl); [eauto|].
      by apply list_lookup_total_correct in Hl.
Qed.
End groups.

Lemma add_nodes_cluster uids s :
  mfor uids (λ uid, on_cluster (Cluster_addNodeToHash uid)) s =
    (Ok tt, set_cluster (foldl (λ c uid, Cluster_addNodeToHash uid c) (cluster s) uids) s).
Proof.
  revert s. induction uids as [|u uids IH]; intros s; [by destruct s|]. cbn [mfor].
  erewrite M_bind_Ok by done. by rewrite IH.
Qed.

Lemma add_nodes_ring uids c :
  map_sorted (node_hash c) →
  let c' := foldl (λ c uid, Cluster_addNodeToHash uid c) c uids in
  map_sorted (node_hash c') ∧
  (∀ p, (∃ u, u ∈ uids ∧ p ∈ node_points u) ∨ is_Some (map_find p (node_hash c)) →
     is_Some (map_find p (node_hash c'))).
Proof.
  revert c. induction uids as [|u uids IH]; intros c Hs; simpl.
  { split; [done|]. intros p [(u & Hu & _)|Hp]; [|done]. by apply elem_of_nil in Hu. }
  destruct (IH (Cluster_addNodeToHash u c)) as [Hs' Hp']; [by apply ring_add_sorted|].
  split; [done|]. intros p Hp. apply Hp'.
  destruct (decide (p ∈ node_points u)) as [Hin|Hni].
  - right. simpl. rewrite ring_add_find by done. rewrite decide_True by done. done.
  - destruct Hp as [(v & Hv & Hpv)|Hp].
    + apply elem_of_cons in Hv as [->|Hv]; [done|]. left. eauto.
    + right. simpl. rewrite ring_add_find by done. by rewrite decide_False.
Qed.

Lemma index_of_lookup u l : u ∈ l → l !! index_of u l = Some u.
Proof.
  intros Hu. unfold index_of. destruct (list_find (λ x, x = u) l) as [[j x]|] eqn:E.
  - apply list_find_Some in E as (Hj & -> & _). done.
  - apply list_find_None in E. rewrite Forall_forall in E. by destruct (E u Hu).
Qed.

Lemma initRaftGroups_eq rand s (ids := map fst (topo (cluster s))) (self := UUID (self_node (cluster s))) :
  ids ≠ [] →
  Server_initRaftGroups rand s =
    mfor [0; -1; -2] (add_group rand ids (index_of self ids) self)
      (set_cluster (foldl (λ c uid, Cluster_addNodeToHash uid c) (cluster s) ids) (close_groups s)).
Proof.
  intros Hne. unfold Server_initRaftGroups. erewrite M_bind_Ok by done. fold ids self.
  destruct ids as [|u ids'] eqn:E; [done|]. rewrite <- E. erewrite M_bind_Ok by done.
  by rewrite (M_bind_Ok _ _ _ _ _ (add_nodes_cluster ids _)).
Qed.

(** ** Properties *)

(** [initRaftGroups] puts every node of the topology on the ring and builds
    exactly the groups this node belongs to: group [g] consists of the three
    nodes that follow position [g] of the sorted topology, so two servers with
    the same topology agree on its members; the peers of the local replica are
    the other members, each once; and the masters map names, for each group
    held, the node at its position, the node's own group among them. *)
Theorem raft_groups_members (rand : nat → Z → nat → Z) (s : Server) :
  let ids := map fst (topo (cluster s)) in
  let self := UUID (self_node (cluster s)) in
  Cluster_ok (cluster s) → self ∈ ids → Z.of_nat (length ids) < 2 ^ 63 →
  (∀ gid, readable (raft_files (close_groups s) !! gid)) →
  ∃ s', Server_initRaftGroups rand s = (Ok tt, s') ∧ kvstore s' = kvstore s ∧
    (∀ u p, u ∈ ids → p ∈ node_points u → is_Some (map_find p (node_hash (cluster s')))) ∧
    (∀ g, is_Some (Server_getRaftGroup g s') ↔
       0 <= g < Z.of_nat (length ids) ∧ self ∈ group_nodes ids (Z.to_nat g)) ∧
    (∀ g n, Server_getRaftGroup g s' = Some n →
       groupId_ n = g ∧ selfId n = self ∧ leader_ready n ∧ NoDup (peers n) ∧
       (∀ u, u ∈ peers n ↔ u ≠ self ∧ u ∈ group_nodes ids (Z.to_nat g)) ∧
       map_find g (groupMembers_ s') = Some (first_seen [] (group_nodes ids (Z.to_nat g)))) ∧
    (∀ u g, map_find u (masterToGroup s') = Some g ↔
       is_Some (Server_getRaftGroup g s') ∧ ids !! Z.to_nat g = Some u) ∧
    map_find self (masterToGroup s') = Some (Z.of_nat (index_of self ids)).
Proof.
  intros ids self Hc Hself HN Hr.
  assert (NoDup ids) as Hnd by (apply map_sorted_nodup, Hc).
  set (i := index_of self ids). pose proof (index_of_lookup self ids Hself) as Hi. fold i in Hi.
  set (c1 := foldl (λ c uid, Cluster_addNodeToHash uid c) (cluster s) ids).
  set (s1 := set_cluster c1 (close_groups s)).
  assert (groups_inv ids self [] s1) as H0.
  { constructor; simpl; unfold Server_getRaftGroup; simpl.
    - intros g. split; [by intros []|]. intros (? & H & _). by apply elem_of_nil in H.
    - done.
    - intros ? H. by apply elem_of_nil in H.
    - intros u g. split; [done|]. intros (? & H & _). by apply elem_of_nil in H. }
  destruct (add_group_inv rand ids self i [] 0 s1) as (s2 & R2 & I2 & F2 & C2 & K2); [done..|lia|done|done|].
  destruct (add_group_inv rand ids self i _ (-1) s2 Hnd Hi HN ltac:(lia) ltac:(by rewrite F2) I2)
    as (s3 & R3 & I3 & F3 & C3 & K3).
  destruct (add_group_inv rand ids self i _ (-2) s3 Hnd Hi HN ltac:(lia) ltac:(by rewrite F3, F2) I3)
    as (s4 & R4 & I4 & F4 & C4 & K4).
  change (_ ++ [group_index i (length ids) (-2)]) with (held_groups i (length ids)) in I4.
  destruct I4 as [G1 G2 G3 G4].
  assert (∀ g, is_Some (Server_getRaftGroup g s4) ↔
       0 <= g < Z.of_nat (length ids) ∧ self ∈ group_nodes ids (Z.to_nat g)) as Hheld.
  { intros g. rewrite G1. setoid_rewrite (held_groups_elem ids i self _ Hnd Hi HN). split.
    - intros (gi & [Hlt Hm] & ->). rewrite Nat2Z.id. split; [lia|done].
    - intros [Hg Hm]. exists (Z.to_nat g). split_and!; [lia|done|lia]. }
  exists s4. split_and!.
  - rewrite initRaftGroups_eq by (intros E; change (ids = []) in E; rewrite E in Hself; by apply elem_of_nil in Hself).
    cbn [mfor]. erewrite M_bind_Ok by exact R2. erewrite M_bind_Ok by exact R3.
    by erewrite M_bind_Ok by exact R4.
  - by rewrite K4, K3, K2.
  - intros u p Hu Hp. rewrite C4, C3, C2. simpl. apply add_nodes_ring; [apply Hc|]. left. eauto.
  - done.
  - intros g n Hg. destruct (G2 g n Hg) as (A & B & C & D). split_and!; try done.
    + rewrite D. apply first_seen_nodup.
    + intros u. rewrite D. unfold group_peers. rewrite first_seen_elem, list_elem_of_filter.
      set_solver.
    + assert (is_Some (Server_getRaftGroup g s4)) as Hs by (by rewrite Hg).
      apply G1 in Hs as (gi & Hgi & ->). rewrite Nat2Z.id. by apply G3.
  - intros u g. rewrite G4, G1. split.
    + intros (gi & Hgi & -> & Hu). rewrite Nat2Z.id. eauto.
    + intros [(gi & Hgi & ->) Hu]. rewrite Nat2Z.id in Hu. eauto.
  - apply G4. exists i. split_and!; try done. apply (held_groups_elem ids i self i Hnd Hi HN).
    split; [by eapply lookup_lt_Some|]. unfold group_nodes. cbn [map]. apply elem_of_cons. left.
    rewrite Nat.add_0_r, Nat.mod_small by (by eapply lookup_lt_Some). symmetry. by apply list_lookup_total_correct.
Qed.

(** ** The server before recovery *)

(** The constructor up to the recovery of the snapshot and the log: [uuid] is
    the generated identifier, [content] what the log file holds, [files] the
    log files of earlier groups. *)
Definition Server_new (steady : nat → Z) (uuid : Z) (addr : bytes) (port : Z) (content : bytes)
    (files : gmap Z bytes) : Server :=
  mkServer (KVStore_init SHARD_COUNT) (AOF_init steady content) (Cluster_init uuid (u16 (port + 1)) addr)
    false false 0 [] [] [] [] files 0 0.

Definition server3 : Server :=
  let s := Server_new (λ _, 0) 2 (str "10.0.0.2") 7800 [] ∅ in
  set_cluster (Cluster_addTopoNode (mkCNode (str "10.0.0.1") 7800 1)
    (Cluster_addTopoNode (mkCNode (str "10.0.0.3") 7800 3) (cluster s))) s.

Lemma raft_groups_members_witness :
  ∃ s', Server_initRaftGroups (λ _ _ _, 0) server3 = (Ok tt, s') ∧
    map_find 2 (masterToGroup s') = Some 1 ∧ is_Some (Server_getRaftGroup 0 s').
Proof.
  destruct (raft_groups_members (λ _ _ _, 0) server3) as (s' & H & _ & _ & Hg & _ & _ & Hm).
  - constructor; by repeat constructor.
  - set_solver.
  - done.
  - intros gid c Hc. change (raft_files (close_groups server3)) with (∅ : gmap Z bytes) in Hc.
    by rewrite lookup_empty in Hc.
  - exists s'. split_and!; [done|exact Hm|]. apply Hg. split; [done|].
    unfold group_nodes. cbn. set_solver.
Defined.
