(* ===== verification/Handler.v ===== *)
(** * The command handlers (server/Handler.h, server/Handler.cpp)

    A handler takes the parsed request and returns the reply, [""] for none.
    Handlers run on the worker threads, so they do not own [queueMutex].  A
    [std::get_if] that is dereferenced without a test and the value of an empty
    [std::optional] are undefined behaviour. *)
From Stdlib Require Import ZArith Ascii String Lia.
From stdpp Require Import base numbers list strings gmap.
From S2P Require Import Prelude CppStd RespValue RespParser HashTable LRU KVStore Snapshot AOF Ring Cluster Utils.
From S2P Require Import RaftNode Server.
Local Open Scope Z_scope.

(** [std::get_if<resp::Array>(request.getPtr())->value.value()] *)
Definition elements (request : RespValue) : res (list RespValue) :=
  match request with Array (Some l) => Ok l | _ => UB end.

(** [resp::encode] of an array of [std::unique_ptr]s, [None] where one was
    moved from: its element is a null pointer. *)
Definition encode_slots (slots : list (option RespValue)) : res bytes :=
  if forallb (λ o, match o with Some _ => true | None => false end) slots
  then Ok (encode (Array (Some (omap id slots)))) else UB.

Definition OK : bytes := encode (SimpleString (str "OK")).

Section Handler.
Context (steady wall : nat → Z) (rand : nat → Z → nat → Z).

Definition Handler_SET_noAOF (request : RespValue) : M Server bytes :=
  l ← mlift (elements request);
  match l with
  | [_; key; value] =>
      match key with
      | SimpleString key_ => _ ← on_kvstore (KVStore_set key_ value); mret OK
      | _ => mthrow (RuntimeError "SET: Key is not a SimpleString")
      end
  | _ => mthrow (RuntimeError "SET: Wrong number of arguments")
  end.

(** The reply of a node that is not the key's master. *)
Definition moved_reply (key_str : bytes) : M Server bytes :=
  s ← mget;
  master_uuid ← mlift (Cluster_queryNode key_str (cluster s));
  let addr := match map_find master_uuid (topo (cluster s)) with
              | Some ni => ip ni ++ str ":" ++ to_string (port ni)
              | None => to_string master_uuid
              end in
  mret (encode (Error (str "MOVED " ++ addr))).

(** [auto *rn = server.getGroupForKey(key_str); if (rn) rn->propose(cmd);] *)
Definition propose_for (key_str cmd : bytes) : M Server unit :=
  s ← mget;
  gid ← mlift (Server_getGroupForKey key_str s);
  match gid with
  | Some g => _ ← on_group false g (RaftNode_propose cmd); mret tt
  | None => mret tt
  end.

(** The value as text; a nil bulk string is dereferenced. *)
Definition value_text (v : RespValue) : res bytes :=
  match v with
  | BulkString (Some d) => Ok d
  | BulkString None => UB
  | SimpleString d => Ok d
  | _ => Ok []
  end.

Definition Handler_SET (request : RespValue) : M Server bytes :=
  l ← mlift (elements request);
  match l with
  | [_; key; value] =>
      match key with
      | SimpleString key_str =>
          s ← mget;
          master ← mlift (Cluster_isMasterFor key_str (cluster s));
          if negb master then moved_reply key_str
          else
            val_str ← mlift (value_text value);
            _ ← propose_for key_str (str "SET " ++ key_str ++ str " " ++ val_str);
            _ ← on_aof (AOF_append steady request);
            _ ← on_kvstore (KVStore_set key_str value);
            mret OK
      | _ => mthrow (RuntimeError "SET: Key is not a SimpleString")
      end
  | _ => mthrow (RuntimeError "SET: Wrong number of arguments")
  end.

Definition Handler_GET (request : RespValue) : M Server bytes :=
  l ← mlift (elements request);
  match l with
  | [_; key] =>
      match key with
      | SimpleString key_ =>
          result ← on_kvstore (KVStore_getValue key_);
          match result with
          | [] => mret (encode (BulkString None))
          | _ => mret result
          end
      | _ => mthrow (RuntimeError "GET: Key is not a SimpleString")
      end
  | _ => mthrow (RuntimeError "GET: Wrong number of arguments")
  end.

Definition int_reply (b : bool) : bytes := encode (Integer (if b then 1 else 0)).

Definition Handler_DEL_noAOF (request : RespValue) : M Server bytes :=
  l ← mlift (elements request);
  match l with
  | [_; key] =>
      match key with
      | SimpleString key_ => ret ← on_kvstore (KVStore_del key_); mret (int_reply ret)
      | _ => mthrow (RuntimeError "DEL_noAOF: Key is not a SimpleString")
      end
  | _ => mthrow (RuntimeError "DEL_noAOF: Usage: DEL key")
  end.

(** The key element is moved out of the request before the request is logged. *)
Definition Handler_DEL (request : RespValue) : M Server bytes :=
  l ← mlift (elements request);
  match l with
  | [command; key] =>
      match key with
      | SimpleString key_str =>
          s ← mget;
          master ← mlift (Cluster_isMasterFor key_str (cluster s));
          if negb master then moved_reply key_str
          else
            _ ← propose_for key_str (str "DEL " ++ key_str);
            text ← mlift (encode_slots [Some command; None]);
            _ ← on_aof (AOF_append_text steady text);
            ret ← on_kvstore (KVStore_del key_str);
            mret (int_reply ret)
      | _ => mthrow (RuntimeError "DEL: Key is not a SimpleString")
      end
  | _ => mthrow (RuntimeError "DEL: Usage: DEL key")
  end.

Definition Handler_EXIST (request : RespValue) : M Server bytes :=
  l ← mlift (elements request);
  match l with
  | [_; key] =>
      match key with
      | SimpleString key_ =>
          p ← on_kvstore (KVStore_get key_);
          mret (int_reply (match p with Some _ => true | None => false end))
      | _ => mthrow (RuntimeError "EXIST: Key is not a SimpleString")
      end
  | _ => mthrow (RuntimeError "EXIST: Usage: EXIST key")
  end.

(** [cluster.updateHeartbeat(fd)]: the clock is read only for a known socket. *)
Definition server_updateHeartbeat (fd : Z) : M Server unit :=
  s ← mget;
  match map_find fd (fd_to_uuid (cluster s)) with
  | None => mret tt
  | Some _ => now ← wall_now wall; on_cluster (Cluster_updateHeartbeat now fd)
  end.

(** Record a gossip message; [true] if it was seen before. *)
Definition note_gossip (id : Z) : M Server bool :=
  s ← mget;
  if Cluster_findGossip id (cluster s) then mret true
  else now ← wall_now wall; _ ← on_cluster (Cluster_addGossip now id); mret false.

(** Queue the request for every connected node. *)
Definition broadcast (request : RespValue) : M Server unit :=
  s ← mget;
  mfor (connections (cluster s)) (λ c, push_queue false (encode request) c.2).

Definition REBUILD_RAFTS : bytes := str "REBUILD_RAFTS".

Definition connect_message (n : CNode) : bytes :=
  ip n ++ str " " ++ to_string (port n) ++ str " " ++ to_string (UUID n).

Definition join_node (node : RespValue) : M Server bytes :=
  new_node ← mlift (Utils_getNode node);
  s ← mget;
  if negb (Cluster_getConnection (UUID new_node) (cluster s) =? -1) then
    _ ← on_cluster (Cluster_addNodeToHash (UUID new_node));
    _ ← on_cluster (Cluster_addTopoNode new_node);
    _ ← Server_sendDataToNode false (UUID new_node);
    _ ← push_queue false REBUILD_RAFTS (-2);
    mret []
  else
    _ ← push_queue false (connect_message new_node) (-1);
    _ ← on_cluster (Cluster_addNodeToHash (UUID new_node));
    _ ← on_cluster (Cluster_addTopoNode new_node);
    _ ← push_queue false REBUILD_RAFTS (-2);
    mret [].

Definition Handler_NODEIN (request : RespValue) : M Server bytes :=
  l ← mlift (elements request);
  match l with
  | [_; uuid; node] =>
      match uuid with
      | SimpleString uuid_ =>
          seen ← note_gossip (Utils_to_uint64_t uuid_);
          if seen : bool then mret []
          else _ ← broadcast request; join_node node
      | _ => mthrow (RuntimeError "NODEIN: UUID is not a SimpleString")
      end
  | _ => mthrow (RuntimeError "NODEIN: Wrong number of arguments")
  end.

(** [int uuid = Utils::to_uint64_t(...)], converted back to [uint64_t]. *)
Definition int_uuid (z : Z) : Z := u64 (i32 z).

Definition Handler_NODEOUT (request : RespValue) : M Server bytes :=
  l ← mlift (elements request);
  match l with
  | [_; uuid; node_id] =>
      match uuid with
      | SimpleString uuid_ =>
          seen ← note_gossip (Utils_to_uint64_t uuid_);
          if seen : bool then mret []
          else
            _ ← broadcast request;
            match node_id with
            | SimpleString node_id_ =>
                let uuid := int_uuid (Utils_to_uint64_t node_id_) in
                _ ← on_cluster (Cluster_delNodeToHash uuid);
                _ ← on_cluster (Cluster_delTopoNode uuid);
                _ ← on_cluster (Cluster_delConnection uuid);
                mret []
            | _ => mthrow (RuntimeError "NODEOUT: node_id is not a SimpleString")
            end
      | _ => mthrow (RuntimeError "NODEOUT:UUID is not a SimpleString")
      end
  | _ => mthrow (RuntimeError "NODEOUT: Wrong number of arguments")
  end.

Definition Handler_handleRaft (request : RespValue) (fd : Z) : M Server bytes :=
  l ← mlift (elements request);
  match l with
  | _ :: gid_val :: _ =>
      let gid := match gid_val with SimpleString g => Utils_to_uint64_t g | _ => 0 end in
      s ← mget;
      match Server_getRaftGroup gid s with
      | None => mret []
      | Some _ =>
          _ ← server_updateHeartbeat fd;
          s ← mget;
          _ ← on_group false gid (RaftNode_step (rand (rebuilds s) gid)
                (Cluster_getUuidByFd fd (cluster s)) (encode request));
          mret []
      end
  | _ => mret []
  end.

Definition Handler_HEARTBEAT (fd : Z) : M Server bytes := _ ← server_updateHeartbeat fd; mret [].

Definition Handler_SYNCDONE (request : RespValue) : M Server bytes :=
  l ← mlift (elements request);
  if (length l <? 2)%nat then mthrow (RuntimeError "SYNCDONE: missing node UUID")
  else _ ← Server_onSyncDone; mret [].

Definition Handler_HELLO (request : RespValue) (fd : Z) : M Server bytes :=
  l ← mlift (elements request);
  match l with
  | [_; UUID] =>
      match UUID with
      | SimpleString UUID_ => _ ← on_cluster (Cluster_addConnection (Utils_to_uint64_t UUID_) fd); mret OK
      | _ => mthrow (RuntimeError "HELLO: UUID is not a SimpleString")
      end
  | _ => mthrow (RuntimeError "HELLO: Wrong number of arguments")
  end.

Definition is_cmd (c : bytes) (s : string) : bool := bool_decide (c = str s).

Definition is_raft_cmd (c : bytes) : bool :=
  is_cmd c "RAFT_AE" || is_cmd c "RAFT_AER" || is_cmd c "RAFT_RV" || is_cmd c "RAFT_RVR".
Definition is_data_cmd (c : bytes) : bool :=
  is_cmd c "SET" || is_cmd c "GET" || is_cmd c "DEL" || is_cmd c "EXIST".

Definition LOADING : bytes := encode (Error (str "LOADING server is syncing, please retry")).

Definition Handler_handle (request : RespValue) (fd : Z) : M Server bytes :=
  match request with
  | Array None => mub
  | Array (Some []) => mthrow (RuntimeError "Empty request!!")
  | Array (Some (SimpleString command :: _)) =>
      if is_cmd command "SYNCDONE" then Handler_SYNCDONE request
      else if is_cmd command "HEARTBEAT" then Handler_HEARTBEAT fd
      else if is_raft_cmd command then Handler_handleRaft request fd
      else
        s ← mget;
        if syncing s && is_data_cmd command then mret LOADING
        else if is_cmd command "GET" then Handler_GET request
        else if is_cmd command "SET" then Handler_SET request
        else if is_cmd command "DEL" then Handler_DEL request
        else if is_cmd command "EXIST" then Handler_EXIST request
        else if is_cmd command "NODEIN" then Handler_NODEIN request
        else if is_cmd command "NODEOUT" then Handler_NODEOUT request
        else if is_cmd command "GETNETWORK" then mret (Handler_GETNETWORK (topo (cluster s)) (groupMembers_ s))
        else if is_cmd command "HELLO" then Handler_HELLO request fd
        else mthrow (RuntimeError "Unknown request!!")
  | Array (Some _) => mthrow (RuntimeError "Command is not a SimpleString!!")
  | SimpleString c => if is_cmd c "OK" then mret [] else mthrow (RuntimeError "Unknown request!")
  | _ => mthrow (RuntimeError "Unknown request!")
  end.

Definition Handler_handle_noAOF (request : RespValue) : M Server bytes :=
  match request with
  | Array None => mub
  | Array (Some []) => mthrow (RuntimeError "Empty request!!")
  | Array (Some (SimpleString command :: _)) =>
      if is_cmd command "GET" then Handler_GET request
      else if is_cmd command "SET" then Handler_SET_noAOF request
      else if is_cmd command "DEL" then Handler_DEL_noAOF request
      else if is_cmd command "EXIST" then Handler_EXIST request
      else mthrow (RuntimeError "Unknown request!!")
  | Array (Some _) => mthrow (RuntimeError "Command is not a SimpleString!!")
  | _ => mthrow (RuntimeError "Request is not an Array!!")
  end.

(** [Server::handleCommand]: handle a request and queue the reply. *)
Definition Server_handleCommand (sock : Z) (value : RespValue) : M Server unit :=
  message ← Handler_handle value sock;
  match message with
  | [] => mret tt
  | _ => push_queue false message sock
  end.
End Handler.

(** ** Dispatch of the data commands *)

Definition request (cmd : string) (args : list RespValue) : RespValue :=
  Array (Some (SimpleString (str cmd) :: args)).

Section dispatch.
Context (steady wall : nat → Z) (rand : nat → Z → nat → Z).
Implicit Types (s : Server) (fd : Z) (args : list RespValue).

Lemma handle_SET args fd s :
  syncing s = false →
  Handler_handle steady wall rand (request "SET" args) fd s = Handler_SET steady (request "SET" args) s.
Proof.
  intros Hs. unfold Handler_handle, request. simpl. erewrite M_bind_Ok by done. by rewrite Hs.
Qed.
Lemma handle_GET args fd s :
  syncing s = false →
  Handler_handle steady wall rand (request "GET" args) fd s = Handler_GET (request "GET" args) s.
Proof.
  intros Hs. unfold Handler_handle, request. simpl. erewrite M_bind_Ok by done. by rewrite Hs.
Qed.
Lemma handle_DEL args fd s :
  syncing s = false →
  Handler_handle steady wall rand (request "DEL" args) fd s = Handler_DEL steady (request "DEL" args) s.
Proof.
  intros Hs. unfold Handler_handle, request. simpl. erewrite M_bind_Ok by done. by rewrite Hs.
Qed.
Lemma handle_EXIST args fd s :
  syncing s = false →
  Handler_handle steady wall rand (request "EXIST" args) fd s = Handler_EXIST (request "EXIST" args) s.
Proof.
  intros Hs. unfold Handler_handle, request. simpl. erewrite M_bind_Ok by done. by rewrite Hs.
Qed.

Lemma handle_syncing cmd args fd s :
  syncing s = true → is_data_cmd (str cmd) = true →
  Handler_handle steady wall rand (request cmd args) fd s = (Ok LOADING, s).
Proof.
  intros Hs Hd. unfold Handler_handle, request. simpl.
  unfold is_data_cmd, is_cmd in Hd. rewrite !orb_true_iff, !bool_decide_eq_true in Hd.
  destruct Hd as [[[Hd|Hd]|Hd]|Hd]; rewrite Hd; simpl; erewrite M_bind_Ok by done; by rewrite Hs.
Qed.

(** ** Proposals *)

Record Server_ok (s : Server) : Prop := {
  srv_kv : KVStore_ok (kvstore s);
  srv_cluster : Cluster_ok (cluster s);
  srv_raft : raft_ready s
}.

Lemma propose_for_total key cmd owner s :
  Cluster_queryNode key (cluster s) = Ok owner → raft_ready s →
  ∃ gs q s', propose_for key cmd s = (Ok tt, s') ∧ raft_ready s' ∧
    s' = set_out_queue (out_queue s ++ q) (set_raft gs (masterToGroup s) (groupMembers_ s) s).
Proof.
  intros Hq Hr. unfold propose_for. erewrite M_bind_Ok by done.
  unfold Server_getGroupForKey. rewrite Hq. cbn [mbind res_bind]. unfold mlift. erewrite M_bind_Ok by done.
  assert (s = set_out_queue (out_queue s ++ []) (set_raft (raft_groups s) (masterToGroup s) (groupMembers_ s) s))
    as Heq by (rewrite app_nil_r; by destruct s).
  destruct (map_find owner (masterToGroup s)) as [gid|]; [|by exists (raft_groups s), [], s].
  destruct (Server_getRaftGroup gid s) as [n|] eqn:Hg; [|by exists (raft_groups s), [], s].
  destruct (propose_total cmd n (Hr _ _ Hg)) as (n' & Hn' & Hst & Hp & Hx).
  destruct (on_group_total gid _ n tt n' s Hg Hn') as (q & Ho).
  eexists _, q, _. split_and!; [by rewrite (M_bind_Ok _ _ _ _ _ Ho)| |done].
  intros g m. unfold Server_getRaftGroup. simpl. rewrite map_find_assign.
  destruct (Z.eqb_spec g gid); [|by apply Hr]. intros [= <-]. unfold leader_ready. simpl.
  rewrite Hst, Hp, Hx. by apply (Hr gid).
Qed.

Lemma master_owner key c :
  Cluster_isMasterFor key c = Ok true → Cluster_queryNode key c = Ok (UUID (self_node c)).
Proof.
  unfold Cluster_isMasterFor. destruct (Cluster_queryNode key c) as [q| | |]; simpl; intros H; try done.
  injection H as H. by apply Z.eqb_eq in H as ->.
Qed.

Lemma not_master_owner key c :
  Cluster_isMasterFor key c = Ok false →
  ∃ owner, Cluster_queryNode key c = Ok owner ∧ owner ≠ UUID (self_node c).
Proof.
  unfold Cluster_isMasterFor. destruct (Cluster_queryNode key c) as [q| | |]; simpl; intros H; try done.
  injection H as H. apply Z.eqb_neq in H. eauto.
Qed.

Lemma on_kvstore_run {A} (m : M (KVStore RespValue) A) s r k :
  m (kvstore s) = (r, k) → on_kvstore m s = (r, set_kvstore k s).
Proof. intros H. unfold on_kvstore, mzoom. by rewrite H. Qed.

Lemma on_aof_run {A} (m : M AOF A) s r a : m (aof s) = (r, a) → on_aof m s = (r, set_aof a s).
Proof. intros H. unfold on_aof, mzoom. by rewrite H. Qed.

(** A [SET] on the master, given what the store does. *)
Lemma SET_run key v fd s r k :
  raft_ready s → syncing s = false → Cluster_isMasterFor key (cluster s) = Ok true →
  is_ok (value_text v) = true → KVStore_set key v (kvstore s) = (Ok r, k) →
  let req := request "SET" [SimpleString key; v] in
  ∃ s', Handler_handle steady wall rand req fd s = (Ok OK, s') ∧ kvstore s' = k ∧ raft_ready s' ∧
    logged (aof s') = logged (aof s) ++ encode req ∧ cluster s' = cluster s ∧ syncing s' = false.
Proof.
  intros Hraft Hsync Hm Hv Hk req. unfold req. rewrite handle_SET by done.
  destruct (value_text v) as [text| | |] eqn:Ev; try done.
  destruct (propose_for_total key (str "SET " ++ key ++ str " " ++ text) _ s (master_owner _ _ Hm) Hraft)
    as (gs & q & s1 & Hp & Hr1 & Hs1).
  destruct (AOF_append_text_ok steady (encode req) (aof s1)) as (a & Ha & La & _).
  exists (set_kvstore k (set_aof a s1)). split.
  - unfold Handler_SET. erewrite M_bind_Ok by done. cbn match.
    erewrite M_bind_Ok by done. rewrite Hm. erewrite M_bind_Ok by done. cbn [negb].
    rewrite Ev. erewrite M_bind_Ok by done. rewrite (M_bind_Ok _ _ _ _ _ Hp).
    rewrite (M_bind_Ok _ _ _ tt (set_aof a s1)) by (by apply on_aof_run).
    erewrite M_bind_Ok; [done|]. apply on_kvstore_run. subst s1. exact Hk.
  - subst s1. split_and!; try done.
Qed.

(** ** Properties *)

(** C12: on the master of a key, not synchronising, with room for the key in its
    shard (the key stored there, or an empty bucket left), [SET] of a value that
    is not nil answers [+OK], stores the value under the key and nothing else,
    appends exactly the request to the log, keeps the server well formed and
    leaves the cluster state alone; it does so whether the key's group leads,
    follows or does not exist. *)
Theorem handler_set_stores (key : bytes) (v : RespValue) (fd : Z) (s : Server) :
  Server_ok s → syncing s = false → Cluster_isMasterFor key (cluster s) = Ok true →
  kv_avail (kvstore s) key → is_ok (value_text v) = true →
  let req := request "SET" [SimpleString key; v] in
  ∃ s', Handler_handle steady wall rand req fd s = (Ok OK, s') ∧ Server_ok s' ∧
    kv_map (kvstore s') = <[key := v]> (kv_map (kvstore s)) ∧
    logged (aof s') = logged (aof s) ++ encode req ∧ cluster s' = cluster s ∧ syncing s' = false.
Proof.
  intros [Hkv Hc Hraft] Hsync Hm Hav Hv req.
  destruct (KVStore_set_ok (kvstore s) key v Hkv Hav) as (k & sh & _ & Hk & Hkok & Hmap).
  destruct (SET_run key v fd s _ k Hraft Hsync Hm Hv Hk) as (s' & Hr & Hk' & Hr' & Hl & Hc' & Hs').
  exists s'. rewrite Hk'. split_and!; try done. constructor; [by rewrite Hk'|by rewrite Hc'|done].
Qed.

(** [GET] answers the stored value encoded, or the nil bulk string, and
    [EXIST] answers one or zero, exactly as the contents of the store say;
    neither changes the contents, the log or the cluster state. *)
Theorem handler_reads (key : bytes) (fd : Z) (s : Server) :
  Server_ok s → syncing s = false → kv_avail (kvstore s) key →
  (∃ s', Handler_handle steady wall rand (request "GET" [SimpleString key]) fd s =
     (Ok (encode (default (BulkString None) (kv_map (kvstore s) !! key))), s') ∧
     kv_map (kvstore s') = kv_map (kvstore s) ∧ Server_ok s' ∧ aof s' = aof s ∧ cluster s' = cluster s) ∧
  (∃ s', Handler_handle steady wall rand (request "EXIST" [SimpleString key]) fd s =
     (Ok (encode (Integer (if decide (is_Some (kv_map (kvstore s) !! key)) then 1 else 0))), s') ∧
     kv_map (kvstore s') = kv_map (kvstore s) ∧ Server_ok s' ∧ aof s' = aof s ∧ cluster s' = cluster s).
Proof.
  intros [Hkv Hc Hraft] Hsync Hav. rewrite handle_GET, handle_EXIST by done.
  destruct (KVStore_get_ok (kvstore s) key Hkv Hav) as (k & Hk & Hkok & Hmap).
  split; exists (set_kvstore k s).
  - split; [|split_and!; done]. unfold Handler_GET. erewrite M_bind_Ok by done. cbn match.
    erewrite M_bind_Ok.
    2:{ apply on_kvstore_run. unfold KVStore_getValue. by rewrite (M_bind_Ok _ _ _ _ _ Hk). }
    destruct (kv_map (kvstore s) !! key) as [v|]; [|done]. simpl.
    pose proof (encode_nonempty v) as Hne. by destruct (encode v).
  - split; [|split_and!; done]. unfold Handler_EXIST. erewrite M_bind_Ok by done. cbn match.
    erewrite M_bind_Ok by (by apply on_kvstore_run). unfold int_reply.
    destruct (kv_map (kvstore s) !! key) as [v|] eqn:E.
    + by rewrite decide_True.
    + rewrite decide_False; [done|]. by intros [].
Qed.

(** A node that is not the master of a key answers [SET] and [DEL] with
    [MOVED] and the master's address (its identifier when the address is not
    known), and changes nothing. *)
Theorem handler_moved (key : bytes) (v : RespValue) (fd : Z) (s : Server) :
  syncing s = false → Cluster_isMasterFor key (cluster s) = Ok false →
  ∃ owner addr, Cluster_queryNode key (cluster s) = Ok owner ∧ owner ≠ UUID (self_node (cluster s)) ∧
    addr = match map_find owner (topo (cluster s)) with
           | Some n => ip n ++ str ":" ++ to_string (port n)
           | None => to_string owner
           end ∧
    Handler_handle steady wall rand (request "SET" [SimpleString key; v]) fd s =
      (Ok (encode (Error (str "MOVED " ++ addr))), s) ∧
    Handler_handle steady wall rand (request "DEL" [SimpleString key]) fd s =
      (Ok (encode (Error (str "MOVED " ++ addr))), s).
Proof.
  intros Hsync Hm. destruct (not_master_owner _ _ Hm) as (owner & Ho & Hne).
  eexists owner, _. split_and!; [done|done|done|..].
  - rewrite handle_SET by done. unfold Handler_SET. erewrite M_bind_Ok by done. cbn match.
    erewrite M_bind_Ok by done. rewrite Hm. erewrite M_bind_Ok by done. cbn [negb].
    unfold moved_reply. erewrite M_bind_Ok by done. unfold mlift. rewrite Ho. by erewrite M_bind_Ok by done.
  - rewrite handle_DEL by done. unfold Handler_DEL. erewrite M_bind_Ok by done. cbn match.
    erewrite M_bind_Ok by done. rewrite Hm. erewrite M_bind_Ok by done. cbn [negb].
    unfold moved_reply. erewrite M_bind_Ok by done. unfold mlift. rewrite Ho. by erewrite M_bind_Ok by done.
Qed.

(** On the master of a key, [DEL] is undefined behaviour, whatever the
    store holds: the key element was moved out of the request before the
    request is encoded for the log. *)
Theorem handler_del_undefined (key : bytes) (fd : Z) (s : Server) :
  raft_ready s → syncing s = false → Cluster_isMasterFor key (cluster s) = Ok true →
  (Handler_handle steady wall rand (request "DEL" [SimpleString key]) fd s).1 = UB.
Proof.
  intros Hraft Hsync Hm. rewrite handle_DEL by done.
  destruct (propose_for_total key (str "DEL " ++ key) _ s (master_owner _ _ Hm) Hraft)
    as (gs & q & s1 & Hp & _ & _).
  unfold Handler_DEL. erewrite M_bind_Ok by done. cbn match.
  erewrite M_bind_Ok by done. rewrite Hm. erewrite M_bind_Ok by done. cbn [negb].
  by rewrite (M_bind_Ok _ _ _ _ _ Hp).
Qed.
End dispatch.

(** ** Witnesses *)

(** A single node with its ring. *)
Definition solo : Server :=
  (Server_initRaftGroups (λ _ _ _, 0) (Server_new (λ _, 0) 7 (str "10.0.0.7") 7800 [] ∅)).2.

(** The same node on a ring that another node owns. *)
Definition guest : Server :=
  set_cluster (Cluster_addTopoNode (mkCNode (str "10.0.0.1") 7800 1)
    (set_node_hash (ring_addNodeToHash 1 []) (cluster solo))) solo.

Lemma solo_kvstore : kvstore solo = KVStore_init SHARD_COUNT.
Proof. done. Qed.

Lemma solo_cluster :
  cluster solo = set_node_hash (ring_addNodeToHash 7 []) (Cluster_init 7 (u16 7801) (str "10.0.0.7")).
Proof. reflexivity. Qed.

Lemma solo_server_ok : Server_ok solo.
Proof.
  constructor.
  - rewrite solo_kvstore. apply KVStore_init_ok. unfold SHARD_COUNT. lia.
  - rewrite solo_cluster. constructor; [apply (ring_add_sorted 7 []); constructor|by repeat constructor..].
  - intros gid n. unfold Server_getRaftGroup.
    replace (raft_groups solo) with [(0, snd (RaftNode_init (λ _, 0) 0 7 [] None))] by reflexivity.
    cbn [map_find]. destruct (gid =? 0); [|done]. by intros [= <-].
Qed.

Lemma solo_avail key : kv_avail (kvstore solo) key.
Proof. rewrite solo_kvstore. apply (store_of_avail SHARD_COUNT (N.to_nat LRU_MAX_SIZE)). Qed.

Lemma handler_set_stores_witness :
  let req := request "SET" [SimpleString (str "k"); BulkString (Some (str "v"))] in
  ∃ s', Handler_handle (λ _, 0) (λ _, 0) (λ _ _ _, 0) req 5 solo = (Ok OK, s') ∧ Server_ok s' ∧
    kv_map (kvstore s') = <[str "k" := BulkString (Some (str "v"))]> (kv_map (kvstore solo)) ∧
    logged (aof s') = logged (aof solo) ++ encode req ∧ cluster s' = cluster solo ∧ syncing s' = false.
Proof.
  apply (handler_set_stores (λ _, 0) (λ _, 0) (λ _ _ _, 0) (str "k") (BulkString (Some (str "v"))) 5 solo);
    [apply solo_server_ok|done|by vm_compute|apply solo_avail|done].
Defined.

Lemma handler_reads_witness :
  ∃ s', Handler_handle (λ _, 0) (λ _, 0) (λ _ _ _, 0) (request "GET" [SimpleString (str "k")]) 5 solo =
    (Ok (encode (default (BulkString None) (kv_map (kvstore solo) !! str "k"))), s').
Proof.
  destruct (handler_reads (λ _, 0) (λ _, 0) (λ _ _ _, 0) (str "k") 5 solo) as [(s' & H & _) _];
    [apply solo_server_ok|done|apply solo_avail|]. by exists s'.
Defined.

Lemma handler_moved_witness :
  ∃ addr, Handler_handle (λ _, 0) (λ _, 0) (λ _ _ _, 0) (request "DEL" [SimpleString (str "k")]) 5 guest =
    (Ok (encode (Error (str "MOVED " ++ addr))), guest).
Proof.
  destruct (handler_moved (λ _, 0) (λ _, 0) (λ _ _ _, 0) (str "k") (Integer 1) 5 guest)
    as (owner & addr & _ & _ & _ & _ & H); [done|by vm_compute|]. by exists addr.
Defined.

Lemma handler_del_undefined_witness :
  (Handler_handle (λ _, 0) (λ _, 0) (λ _ _ _, 0) (request "DEL" [SimpleString (str "k")]) 5 solo).1 = UB.
Proof.
  apply (handler_del_undefined (λ _, 0) (λ _, 0) (λ _ _ _, 0) (str "k") 5 solo);
    [apply solo_server_ok|done|by vm_compute].
Defined.
