(* ===== verification/Heartbeat.v ===== *)
(** * The heartbeat thread (Cluster::start, stop, heartbeatLoop, Server::Server)

    The cluster object keeps a thread that sends heartbeats and removes nodes
    that have timed out.  It reaches the server through two callbacks, set by
    the constructor of the server: heartbeats and the order to rebuild the Raft
    groups are put into the message queue, under its lock.  [checkTimeouts] is
    also called by the main thread, which then owns that lock already
    ([held]). *)
From Stdlib Require Import ZArith Ascii String Lia.
From stdpp Require Import base numbers list strings gmap.
From S2P Require Import Prelude CppStd RespValue RespParser KVStore Snapshot AOF Ring Cluster Utils RaftNode Server Handler.
Local Open Scope Z_scope.

(** config/Config.h *)
Definition HEARTBEAT_INTERVAL_MS : Z := 1000.

Section heartbeat.
Context (wall : nat → Z).

(** ** The callbacks *)

Definition Server_sendCallback (msg : bytes) (fd : Z) : M Server unit := push_queue false msg fd.
Definition Server_failureCallback (held : bool) (dead_uuid : Z) : M Server unit :=
  push_queue held REBUILD_RAFTS (-2).

(** ** One round *)

(** [Cluster::sendHeartbeats] with the callback of the server. *)
Definition Server_sendHeartbeats : M Server unit :=
  now ← wall_now wall;
  s ← mget;
  mfor (connections (cluster s)) (λ c,
    if c.2 =? -1 then mret tt
    else
      _ ← on_cluster (λ k, set_heartbeat_time (map_assign (UUID (self_node k)) (u64 now) (heartbeat_time k)) k);
      s ← mget;
      Server_sendCallback (heartbeat_msg (UUID (self_node (cluster s)))) c.2).

(** [Cluster::checkTimeouts] with the callback of the server. *)
Definition Server_checkTimeouts (held : bool) : M Server unit :=
  now ← wall_now wall;
  s ← mget;
  mfor (timed_out now (cluster s)) (λ uuid,
    _ ← on_cluster (remove_dead uuid);
    Server_failureCallback held uuid).

Definition Server_heartbeatRound : M Server unit :=
  _ ← Server_sendHeartbeats; Server_checkTimeouts false.

(** ** The thread

    What [heartbeatLoop] does when it wakes up: [running] is read at the head
    of the loop and again after the sleep, so it does not matter when during
    the sleep it was cleared.  An exception of a round is caught. *)
Inductive hb_thread := HbNone | HbSleeping | HbDone.
#[global] Instance hb_thread_eq_dec : EqDecision hb_thread.
Proof. solve_decision. Defined.

Record Heart := mkHeart { hb_running : bool; hb_state : hb_thread }.

(** Assigning to a thread object that is still joinable terminates the program. *)
Definition Cluster_start : M Heart unit :=
  h ← mget;
  match hb_state h with
  | HbNone => mput (mkHeart true HbSleeping)
  | _ => mub
  end.

(** [stop] sets the flag and waits; [heart_wake] is what the thread does then. *)
Definition Cluster_stop_request (h : Heart) : Heart := mkHeart false (hb_state h).
Definition Cluster_stop_joined (h : Heart) : bool := bool_decide (hb_state h ≠ HbSleeping).

Definition heart_wake (h : Heart) (s : Server) : res unit * (Heart * Server) :=
  match hb_state h with
  | HbSleeping =>
      if hb_running h then
        match Server_heartbeatRound s with
        | (Throw _, s') => (Ok tt, (h, s'))
        | (r, s') => (r, (h, s'))
        end
      else (Ok tt, (mkHeart false HbDone, s))
  | _ => (Ok tt, (h, s))
  end.
End heartbeat.

(** ** The round is that of the cluster *)

Section rounds.
Context (wall : nat → Z).

(** The sending loop, the callback being the queue. *)
Lemma send_loop_eq conns now s :
  mfor conns (λ c : Z * Z,
    if c.2 =? -1 then mret tt
    else
      _ ← on_cluster (λ k, set_heartbeat_time (map_assign (UUID (self_node k)) (u64 now) (heartbeat_time k)) k);
      s ← mget;
      Server_sendCallback (heartbeat_msg (UUID (self_node (cluster s)))) c.2) s =
  let '(msgs, c') := heartbeat_loop true now conns (cluster s) in
  (Ok tt, set_out_queue (out_queue s ++ msgs) (set_cluster c' s)).
Proof.
  revert s. induction conns as [|[u fd] conns IH]; intros s.
  { simpl. rewrite app_nil_r. by destruct s. }
  cbn [mfor heartbeat_loop snd negb]. rewrite orb_false_r. destruct (fd =? -1).
  { erewrite M_bind_Ok by done. apply IH. }
  set (c1 := set_heartbeat_time _ (cluster s)).
  set (s1 := set_out_queue (out_queue s ++ [(heartbeat_msg (UUID (self_node (cluster s))), fd)]) (set_cluster c1 s)).
  rewrite (M_bind_Ok _ _ s tt s1) by reflexivity. rewrite IH. unfold s1. cbn [cluster set_out_queue set_cluster out_queue].
  destruct (heartbeat_loop true now conns c1) as [msgs c']. by rewrite <- (assoc_L app).
Qed.

Lemma dead_loop_eq dead s :
  mfor dead (λ uuid, _ ← on_cluster (remove_dead uuid); Server_failureCallback false uuid) s =
    (Ok tt, set_out_queue (out_queue s ++ map (λ _, (REBUILD_RAFTS, -2)) dead)
      (set_cluster (foldl (λ c uuid, remove_dead uuid c) (cluster s) dead) s)).
Proof.
  revert s. induction dead as [|d dead IH]; intros s.
  { simpl. rewrite app_nil_r. by destruct s. }
  cbn [mfor map foldl].
  rewrite (M_bind_Ok _ _ s tt (set_out_queue (out_queue s ++ [(REBUILD_RAFTS, -2)]) (set_cluster (remove_dead d (cluster s)) s)))
    by reflexivity.
  rewrite IH. cbn [cluster set_out_queue set_cluster out_queue]. by rewrite <- (assoc_L app).
Qed.

(** The round of the thread, on the server, is the round of the cluster object:
    it always returns, and what the callbacks were called with is in the message
    queue, heartbeats first, then one order to rebuild the groups per node lost. *)
Theorem heartbeat_round_refines (s : Server) :
  let now1 := wall (wall_reads s) in let now2 := wall (S (wall_reads s)) in
  let '(msgs, dead, c') := Cluster_heartbeatRound true now1 now2 (cluster s) in
  Server_heartbeatRound wall s =
    (Ok tt, set_out_queue (out_queue s ++ msgs ++ map (λ _, (REBUILD_RAFTS, -2)) dead)
      (set_cluster c' (set_wall_reads (S (S (wall_reads s))) s))).
Proof.
  cbv zeta. unfold Cluster_heartbeatRound, Cluster_sendHeartbeats, Cluster_checkTimeouts.
  destruct (heartbeat_loop true _ _ (cluster s)) as [msgs c1] eqn:E. unfold Server_heartbeatRound.
  set (s1 := set_wall_reads (S (wall_reads s)) s).
  rewrite (M_bind_Ok _ _ s tt (set_out_queue (out_queue s ++ msgs) (set_cluster c1 s1))).
  2:{ unfold Server_sendHeartbeats. rewrite (M_bind_Ok _ _ s (wall (wall_reads s)) s1) by done.
      erewrite M_bind_Ok by done. rewrite send_loop_eq. cbn [cluster set_wall_reads s1]. by rewrite E. }
  unfold Server_checkTimeouts. erewrite M_bind_Ok by reflexivity. erewrite M_bind_Ok by done.
  rewrite dead_loop_eq. cbn [cluster set_wall_reads set_out_queue set_cluster out_queue wall_reads s1].
  by rewrite <- (assoc_L app).
Qed.

(** [stop] returns: whenever the thread next wakes up after the flag was
    cleared, it ends, without another round. *)
Theorem heartbeat_stops (h : Heart) (s : Server) :
  hb_state h = HbSleeping →
  ∃ h', heart_wake wall (Cluster_stop_request h) s = (Ok tt, (h', s)) ∧ Cluster_stop_joined h' = true.
Proof. intros Hh. unfold heart_wake. simpl. rewrite Hh. by eexists. Qed.
End rounds.

Lemma heartbeat_stops_witness :
  ∃ h', heart_wake (λ _, 0) (Cluster_stop_request (mkHeart true HbSleeping)) solo = (Ok tt, (h', solo)) ∧
    Cluster_stop_joined h' = true.
Proof. apply (heartbeat_stops (λ _, 0) (mkHeart true HbSleeping) solo). reflexivity. Defined.
