(* ===== verification/Locks.v ===== *)
(** * The locks of a server (server/Server, server/Handler, util/Cluster, kvstore/KVStore, kvstore/AOF, raft/RaftNode)

    What each operation locks and unlocks, in order, as a list of actions; the
    threads of a server as such lists, run in any interleaving; which of them
    can never block each other for good, by an order on the locks, and which
    can, by the cycles the code has.  What the code decides at run time (is the
    peer connected, does the key move, which shard) are arguments.  A
    [std::unique_lock] or [std::lock_guard] is [locked], a [std::shared_lock] is
    [shared], both around what is done in its scope. *)
From Stdlib Require Import ZArith Lia.
From stdpp Require Import base numbers list relations.
From S2P Require Import Prelude.

(** ** Locks and threads *)

Inductive mutex :=
  | queueMutex | raftQueueMutex | pool_queueMutex
  | connections_lock | heartbeat_time_lock | topo_lock | node_hash_lock | fd_to_uuid_lock | gossip_cache_lock
  | shard_lock (i : nat) | aof_mut | raft_mtx (gid : Z) | raft_diskMtx (gid : Z).
#[global] Instance mutex_eq_dec : EqDecision mutex.
Proof. solve_decision. Defined.

Inductive action := Lock (m : mutex) | LockShared (m : mutex) | Unlock (m : mutex).

(** What a thread holds ([true]: exclusively) and what it has yet to do. *)
Record thread := mkThread { held : list (mutex * bool); todo : list action }.

Definition holds (m : mutex) (t : thread) : bool := existsb (λ x, bool_decide (x.1 = m)) (held t).
Definition holds_excl (m : mutex) (t : thread) : bool := existsb (λ x, bool_decide (x.1 = m) && x.2) (held t).

(** A lock is granted when nobody, the thread itself included, is in the way. *)
Definition grant (ts : list thread) (a : action) : bool :=
  match a with
  | Lock m => negb (existsb (holds m) ts)
  | LockShared m => negb (existsb (holds_excl m) ts)
  | Unlock _ => true
  end.

Fixpoint release (m : mutex) (h : list (mutex * bool)) : list (mutex * bool) :=
  match h with
  | [] => []
  | x :: h => if bool_decide (x.1 = m) then h else x :: release m h
  end.

Definition after_action (h : list (mutex * bool)) (a : action) : list (mutex * bool) :=
  match a with Lock m => (m, true) :: h | LockShared m => (m, false) :: h | Unlock m => release m h end.

Inductive lstep (ts : list thread) : list thread → Prop :=
  | lstep_act i h a rest :
      ts !! i = Some (mkThread h (a :: rest)) → grant ts a = true →
      lstep ts (<[i := mkThread (after_action h a) rest]> ts).

Definition all_done (ts : list thread) : Prop := ∀ t, t ∈ ts → todo t = [].
Definition start (a : list action) : thread := mkThread [] a.

(** ** What the operations lock *)

Definition locked (m : mutex) (body : list action) : list action := Lock m :: body ++ [Unlock m].
Definition shared (m : mutex) (body : list action) : list action := LockShared m :: body ++ [Unlock m].

(** *** Cluster *)

Definition addNodeToHash_locks : list action := locked node_hash_lock [].
Definition delNodeToHash_locks : list action := locked node_hash_lock [].
Definition queryNode_locks : list action := shared node_hash_lock [].
Definition findGossip_locks : list action := shared gossip_cache_lock [].
Definition addGossip_locks : list action := locked gossip_cache_lock [].
Definition getTopo_locks : list action := shared topo_lock [].
Definition addTopoNode_locks : list action := locked topo_lock [].
Definition getConnections_locks : list action := shared connections_lock [].
Definition getConnection_locks : list action := shared connections_lock [].
Definition getUuidByFd_locks : list action := shared fd_to_uuid_lock [].
Definition addConnection_locks : list action := locked connections_lock [] ++ locked fd_to_uuid_lock [].

(** [known]: the node has a connection. *)
Definition delConnection_locks (known : bool) : list action :=
  shared connections_lock [] ++ (if known then locked fd_to_uuid_lock [] else []) ++ locked connections_lock [].
Definition delTopoNode_locks (known : bool) : list action :=
  delConnection_locks known ++ locked topo_lock [] ++ locked heartbeat_time_lock [].
Definition updateHeartbeat_locks (known : bool) : list action :=
  shared fd_to_uuid_lock [] ++ (if known then locked heartbeat_time_lock [] else []).

(** The two callbacks of the server, and a round; [live]: which connections have
    a descriptor; [dead]: the nodes timed out, each with a connection or not. *)
Definition sendCallback_locks : list action := locked queueMutex [].
Definition failureCallback_locks : list action := locked queueMutex [].

Definition sendHeartbeats_locks (live : list bool) : list action :=
  shared connections_lock
    (concat (map (λ fd : bool, if fd then locked heartbeat_time_lock [] ++ sendCallback_locks else []) live)).

Definition checkTimeouts_locks (dead : list bool) : list action :=
  shared heartbeat_time_lock [] ++
  concat (map (λ known, delNodeToHash_locks ++ delTopoNode_locks known ++ failureCallback_locks) dead).

Definition heartbeatRound_locks (live dead : list bool) : list action :=
  sendHeartbeats_locks live ++ checkTimeouts_locks dead.

(** *** Store and log *)

Definition KVStore_op_locks (i : nat) : list action := locked (shard_lock i) [].

(** [forEach] on shard after shard, with what the callback does for each key. *)
Fixpoint forEach_locks (i : nat) (callback : list (list (list action))) : list action :=
  match callback with
  | [] => []
  | keys :: rest => shared (shard_lock i) (concat keys) ++ forEach_locks (S i) rest
  end.

Definition AOF_append_locks : list action := locked aof_mut [].

(** [connected]: the target has a connection; [moves]: for each key of each
    shard, whether the target owns it. *)
Definition migrate_locks (moves : bool) : list action :=
  queryNode_locks ++ (if moves then locked queueMutex [] else []).
Definition sendDataToNode_locks (connected : bool) (moves : list (list bool)) : list action :=
  getConnection_locks ++
  (if connected then forEach_locks 0 (map (map migrate_locks) moves) ++ locked queueMutex [] else []).

(** *** Raft *)

(** What [step] does under the lock of the member: appends to the disk buffer
    and sends, to connected peers or others. *)
Inductive raft_act := RDisk | RSend (connected : bool).
#[global] Instance raft_act_eq_dec : EqDecision raft_act.
Proof. solve_decision. Defined.

Definition sendCb_locks (connected : bool) : list action :=
  getConnection_locks ++ (if connected then locked queueMutex [] else []).
Definition raft_act_locks (gid : Z) (a : raft_act) : list action :=
  match a with RDisk => locked (raft_diskMtx gid) [] | RSend c => sendCb_locks c end.
Definition raft_acts_locks (gid : Z) (acts : list raft_act) : list action := concat (map (raft_act_locks gid) acts).

Definition RaftNode_step_locks (gid : Z) (acts : list raft_act) : list action :=
  locked (raft_mtx gid) (raft_acts_locks gid acts).
Definition RaftNode_tick_locks (gid : Z) (sends : list bool) : list action :=
  locked (raft_diskMtx gid) [] ++ locked (raft_mtx gid) (raft_acts_locks gid (map RSend sends)).
Definition RaftNode_takePendingApply_locks (gid : Z) : list action := locked (raft_mtx gid) [].

(** [leader]: the member leads, with its peers connected or not. *)
Definition RaftNode_propose_locks (gid : Z) (leader : option (list bool)) : list action :=
  locked (raft_mtx gid) [] ++
  match leader with
  | None => []
  | Some peers => locked (raft_diskMtx gid) [] ++ locked (raft_mtx gid) (raft_acts_locks gid (map RSend peers))
  end.

(** *** Commands *)

Inductive command_locks :=
  | CGet (shard : nat)                                          (* GET, EXIST *)
  | CMoved                                                      (* SET, DEL of another node's key *)
  | CSet (shard : nat) (group : option (Z * option (list bool))) (* SET, DEL of an own key *)
  | CNetwork | CHello | CHeartbeat (known : bool) | CSyncdone
  | CNodeinAgain
  | CNodein (conns : nat) (joined : option (bool * list (list bool)))
  | CNodeout (conns : nat) (known : bool)
  | CRaft (gid : Z) (known : bool) (acts : list raft_act).

Definition broadcast_locks (conns : nat) : list action := concat (replicate conns (locked queueMutex [])).

Definition Handler_locks (c : command_locks) : list action :=
  match c with
  | CGet i => KVStore_op_locks i
  | CMoved => queryNode_locks ++ queryNode_locks ++ getTopo_locks
  | CSet i group =>
      queryNode_locks ++ queryNode_locks ++
      match group with Some (gid, leader) => RaftNode_propose_locks gid leader | None => [] end ++
      AOF_append_locks ++ KVStore_op_locks i
  | CNetwork => getTopo_locks
  | CHello => addConnection_locks
  | CHeartbeat known => updateHeartbeat_locks known
  | CSyncdone => []
  | CNodeinAgain => findGossip_locks
  | CNodein conns joined =>
      findGossip_locks ++ addGossip_locks ++ getConnections_locks ++ broadcast_locks conns ++ getConnection_locks ++
      match joined with
      | Some (connected, moves) =>
          addNodeToHash_locks ++ addTopoNode_locks ++ sendDataToNode_locks connected moves ++ locked queueMutex []
      | None => locked queueMutex [] ++ addNodeToHash_locks ++ addTopoNode_locks ++ locked queueMutex []
      end
  | CNodeout conns known =>
      findGossip_locks ++ addGossip_locks ++ getConnections_locks ++ broadcast_locks conns ++
      delNodeToHash_locks ++ delTopoNode_locks known ++ delConnection_locks false
  | CRaft gid known acts =>
      updateHeartbeat_locks known ++ getUuidByFd_locks ++ RaftNode_step_locks gid acts
  end.

(** A task of a worker, taken from the pool. *)
Inductive task_locks := THandle_locks (c : command_locks) (replies : bool) | TSend_locks (connected : bool) (moves : list (list bool)).

Definition worker_locks (t : task_locks) : list action :=
  locked pool_queueMutex [] ++
  match t with
  | THandle_locks c replies => Handler_locks c ++ (if replies then locked queueMutex [] else [])
  | TSend_locks connected moves => sendDataToNode_locks connected moves
  end.

(** *** The main thread *)

Inductive message_locks := MReply | MRebuild (nodes : nat) | MConnect.
#[global] Instance message_locks_eq_dec : EqDecision message_locks.
Proof. solve_decision. Defined.

Definition dispatch_locks (m : message_locks) : list action :=
  match m with
  | MReply => []
  | MRebuild nodes => getTopo_locks ++ concat (replicate nodes addNodeToHash_locks)
  | MConnect => addConnection_locks ++ locked pool_queueMutex []
  end.

(** One Raft group's turn at the end of a round: what it sends, and the shards
    of the keys it applies. *)
Definition group_locks (gid : Z) (sends : list bool) (applies : option (list nat)) : list action :=
  RaftNode_tick_locks gid sends ++
  match applies with
  | None => []
  | Some keys => RaftNode_takePendingApply_locks gid ++ concat (map KVStore_op_locks keys)
  end.

Record round := mkRound {
  r_requests : nat;                          (* requests queued for the pool *)
  r_messages : list message_locks;
  r_raft : list (Z * list raft_act);         (* messages of the Raft queue *)
  r_live : list bool;                        (* connections found alive *)
  r_dead : list bool;                        (* nodes timed out *)
  r_groups : list (Z * list bool * option (list nat))
}.

(** The Raft queue is unlocked around each step. *)
Definition raft_queue_locks (r : round) : list action :=
  locked raftQueueMutex
    (concat (map (λ x, Unlock raftQueueMutex :: RaftNode_step_locks x.1 x.2 ++ [Lock raftQueueMutex]) (r_raft r))).

(** [epoll_step]: the lock of the message queue is held to its end. *)
Definition epoll_step_locks (r : round) : list action :=
  concat (replicate (r_requests r) (locked pool_queueMutex [])) ++
  locked queueMutex
    (concat (map dispatch_locks (r_messages r)) ++ raft_queue_locks r ++
     getConnections_locks ++ concat (map updateHeartbeat_locks (r_live r)) ++ checkTimeouts_locks (r_dead r) ++
     concat (map (λ g, group_locks g.1.1 g.1.2 g.2) (r_groups r))).

(** ** Ordered locks

    [readonly] are locks that nobody takes exclusively; the others have a rank,
    and a thread takes a lock only above all it holds. *)
Section order.
Context (readonly : mutex → bool) (rank : mutex → nat).

Definition above (m : mutex) (h : list (mutex * bool)) : bool :=
  forallb (λ x, readonly x.1 || (rank x.1 <? rank m)%nat) h.

Fixpoint ordered (h : list (mutex * bool)) (a : list action) : bool :=
  match a with
  | [] => bool_decide (h = [])
  | Lock m :: a => negb (readonly m) && above m h && ordered ((m, true) :: h) a
  | LockShared m :: a => (readonly m || above m h) && ordered ((m, false) :: h) a
  | Unlock m :: a => ordered (release m h) a
  end.

(** Every thread keeps to the order from here on, and holds no read-only lock
    exclusively. *)
Definition disciplined (ts : list thread) : Prop :=
  ∀ t, t ∈ ts → ordered (held t) (todo t) = true ∧ ∀ m, (m, true) ∈ held t → readonly m = false.

Lemma release_subset m h x : x ∈ release m h → x ∈ h.
Proof.
  induction h as [|y h IH]; [done|]. simpl. case_bool_decide; [by right|].
  rewrite elem_of_cons. intros [->|Hin]; [by left|right; by apply IH].
Qed.

Lemma lstep_disciplined ts ts' : disciplined ts → lstep ts ts' → disciplined ts'.
Proof.
  intros Hd [i h a rest Hi Hg] t Ht. apply list_elem_of_lookup in Ht as [j Hj].
  destruct (decide (j = i)) as [->|Hne].
  - rewrite list_lookup_insert_eq in Hj by (by eapply lookup_lt_Some). injection Hj as <-. simpl.
    destruct (Hd _ (list_elem_of_lookup_2 _ _ _ Hi)) as [Ho Hr]. simpl in Ho, Hr. destruct a as [m|m|m]; simpl in *.
    + apply andb_true_iff in Ho as [[H1 H2]%andb_true_iff H3]. split; [done|]. intros m' [[= ->]|H]%elem_of_cons; [|by apply Hr].
      by destruct (readonly m).
    + apply andb_true_iff in Ho as [_ H3]. split; [done|]. intros m' [[=]|H]%elem_of_cons. by apply Hr.
    + split; [done|]. intros m' H%release_subset. by apply Hr.
  - rewrite list_lookup_insert_ne in Hj by done. apply Hd. by eapply list_elem_of_lookup_2.
Qed.

Lemma holds_true m t : holds m t = true → ∃ b, (m, b) ∈ held t.
Proof.
  unfold holds. rewrite existsb_exists. intros ([m' b] & Hin & Hm). apply bool_decide_eq_true in Hm. simpl in Hm. subst m'.
  exists b. by apply list_elem_of_In.
Qed.
Lemma holds_excl_true m t : holds_excl m t = true → (m, true) ∈ held t.
Proof.
  unfold holds_excl. rewrite existsb_exists. intros ([m' b] & Hin & Hm). apply andb_true_iff in Hm as [Hm Hb].
  apply bool_decide_eq_true in Hm. simpl in Hm, Hb. subst m' b. by apply list_elem_of_In.
Qed.

(** A thread that is blocked waits for a lock of somebody who has more to do and
    waits, if at all, for a lock of higher rank. *)
Definition wanted (a : action) : mutex := match a with Lock m | LockShared m | Unlock m => m end.

Lemma blocked_by ts h a rest :
  disciplined ts → mkThread h (a :: rest) ∈ ts → grant ts a = false →
  readonly (wanted a) = false ∧ ∃ h' a' rest', mkThread h' (a' :: rest') ∈ ts ∧
    (readonly (wanted a') = false → grant ts a' = false → rank (wanted a) < rank (wanted a'))%nat.
Proof.
  intros Hd Ht Hg.
  assert (readonly (wanted a) = false ∧ ∃ t, t ∈ ts ∧ ∃ b, (wanted a, b) ∈ held t) as [Hr (t & Hin & b & Hb)].
  { destruct (Hd _ Ht) as [Ho _]. destruct a as [m|m|m]; simpl in *; [| |done].
    - apply negb_false_iff, existsb_exists in Hg as (t & Hin & [b Hb]%holds_true).
      apply andb_true_iff in Ho as [[H1 _]%andb_true_iff _]. split; [by destruct (readonly m)|].
      exists t. split; [by apply list_elem_of_In|by exists b].
    - apply negb_false_iff, existsb_exists in Hg as (t & Hin & Hb%holds_excl_true). apply list_elem_of_In in Hin.
      destruct (Hd _ Hin) as [_ Hx]. split; [by apply Hx|]. exists t. split; [done|by exists true]. }
  split; [done|]. destruct t as [h' [|a' rest']].
  - destruct (Hd _ Hin) as [Ho _]. simpl in Ho. apply bool_decide_eq_true in Ho. subst. by apply elem_of_nil in Hb.
  - exists h', a', rest'. split; [done|]. intros Hr' Hg'. destruct (Hd _ Hin) as [Ho _]. cbn [held todo] in Ho, Hb.
    assert (above (wanted a') h' = true) as Ha.
    { destruct a' as [m|m|m]; simpl in *; [| |done].
      - by apply andb_true_iff in Ho as [[_ H]%andb_true_iff _].
      - rewrite Hr' in Ho. by apply andb_true_iff in Ho as [H _]. }
    unfold above in Ha. rewrite forallb_forall in Ha. specialize (Ha _ (proj1 (list_elem_of_In _ _) Hb)).
    simpl in Ha. rewrite Hr in Ha. by apply Nat.ltb_lt in Ha.
Qed.

Lemma disciplined_progress (bound : nat) ts :
  (∀ m, rank m <= bound)%nat → disciplined ts → all_done ts ∨ ∃ ts', lstep ts ts'.
Proof.
  intros Hb Hd.
  assert (∀ k h a rest, (bound - rank (wanted a) <= k)%nat → mkThread h (a :: rest) ∈ ts → ∃ ts', lstep ts ts') as H.
  { induction k as [|k IH]; intros h a rest Hk Ht;
      (destruct (grant ts a) eqn:Hg; [apply list_elem_of_lookup in Ht as [i Hi]; eexists; by apply (lstep_act ts i h a rest)|]);
      destruct (blocked_by ts h a rest Hd Ht Hg) as (_ & h' & a' & rest' & Ht' & Hlt);
      (destruct (grant ts a') eqn:Hg'; [apply list_elem_of_lookup in Ht' as [i Hi]; eexists; by apply (lstep_act ts i h' a' rest')|]);
      (destruct (blocked_by ts h' a' rest' Hd Ht' Hg') as [Hr' _]); specialize (Hlt Hr' eq_refl); pose proof (Hb (wanted a')); [lia|].
    apply (IH h' a' rest'); [lia|done]. }
  destruct (decide (Exists (λ t, todo t ≠ []) ts)) as [He|Hn].
  - right. apply Exists_exists in He as ([h [|a rest]] & Hin & Hne); [done|]. by apply (H _ h a rest (le_n _)).
  - left. intros t Ht. destruct (todo t) eqn:E; [done|]. destruct Hn. apply Exists_exists. exists t. by rewrite E.
Qed.

(** *** What is left to do shrinks *)

Definition work (ts : list thread) : nat := sum_list_with (λ t, length (todo t)) ts.

Lemma lstep_work ts ts' : lstep ts ts' → (work ts' < work ts)%nat.
Proof.
  intros [i h a rest Hi _]. revert i Hi. unfold work.
  induction ts as [|t ts IH]; intros [|i] Hi; try done; simpl in *; [injection Hi as ->; simpl; lia|].
  specialize (IH i Hi). lia.
Qed.

(** Ordered threads always finish: whatever they have done, they can go on. *)
Lemma disciplined_finishes (bound : nat) ts ts1 :
  (∀ m, rank m <= bound)%nat → disciplined ts → rtc lstep ts ts1 → ∃ ts2, rtc lstep ts1 ts2 ∧ all_done ts2.
Proof.
  intros Hb Hd Hr. assert (disciplined ts1) as Hd1.
  { revert Hd. induction Hr as [|t1 t2 t3 H12 _ IH]; [done|]. intros Hd. by apply IH, (lstep_disciplined t1). }
  clear Hd Hr ts. remember (work ts1) as n eqn:Hn. revert ts1 Hn Hd1.
  induction (lt_wf n) as [n _ IH]. intros ts -> Hd.
  destruct (disciplined_progress bound ts Hb Hd) as [Hdone|[ts' Hs]]; [by exists ts|].
  destruct (IH _ (lstep_work _ _ Hs) ts' eq_refl) as (ts2 & Hr & H2); [by apply (lstep_disciplined ts)|].
  exists ts2. split; [by apply rtc_l with ts'|done].
Qed.

(** *** Traces that keep the order piece by piece *)

Definition fits (h : list (mutex * bool)) (a : list action) : Prop :=
  ∀ b, ordered h b = true → ordered h (a ++ b) = true.

Lemma fits_nil h : fits h [].
Proof. by intros b. Qed.
Lemma fits_app h a1 a2 : fits h a1 → fits h a2 → fits h (a1 ++ a2).
Proof. intros H1 H2 b Hb. rewrite <- app_assoc. by apply H1, H2. Qed.
Lemma fits_concat h l : Forall (fits h) l → fits h (concat l).
Proof. induction 1 as [|a l Ha _ IH]; [apply fits_nil|by apply fits_app]. Qed.
Lemma fits_concat_map {A} h (f : A → list action) l : (∀ x, x ∈ l → fits h (f x)) → fits h (concat (map f l)).
Proof. intros H. apply fits_concat, Forall_forall. intros a Ha. apply list_elem_of_fmap in Ha as (x & -> & Hx). by apply H. Qed.
Lemma fits_replicate h n a : fits h a → fits h (concat (replicate n a)).
Proof. intros H. apply fits_concat, Forall_replicate, H. Qed.

Lemma fits_locked h m body :
  readonly m = false → above m h = true → fits ((m, true) :: h) body → fits h (locked m body).
Proof.
  intros Hr Ha Hf b Hb. unfold locked. simpl. rewrite Hr, Ha, <- app_assoc. simpl. apply Hf. simpl.
  by rewrite bool_decide_eq_true_2.
Qed.
Lemma fits_shared h m body :
  readonly m || above m h = true → fits ((m, false) :: h) body → fits h (shared m body).
Proof.
  intros Ha Hf b Hb. unfold shared. simpl. rewrite Ha, <- app_assoc. simpl. apply Hf. simpl. by rewrite bool_decide_eq_true_2.
Qed.
Lemma fits_unlocked h m body :
  readonly m = false → above m h = true → fits h body → fits ((m, true) :: h) (Unlock m :: body ++ [Lock m]).
Proof.
  intros Hr Ha Hf b Hb. simpl. rewrite bool_decide_eq_true_2 by done. rewrite <- app_assoc. apply Hf. simpl. by rewrite Hr, Ha.
Qed.

Lemma fits_ordered a : fits [] a → ordered [] a = true.
Proof. intros H. rewrite <- (app_nil_r a). by apply H. Qed.

Lemma disciplined_start as_ : (∀ a, a ∈ as_ → fits [] a) → disciplined (map start as_).
Proof.
  intros H t Ht. apply list_elem_of_fmap in Ht as (a & -> & Ha). split; [by apply fits_ordered, H|].
  intros m Hm. by apply elem_of_nil in Hm.
Qed.
End order.

(** One scope after the other. *)
Ltac fit :=
  repeat match goal with
    | |- fits _ _ _ [] => apply fits_nil
    | |- fits _ _ _ (_ ++ _) => apply fits_app
    | |- fits _ _ _ (concat (replicate _ _)) => apply fits_replicate
    | |- fits _ _ _ (concat (map _ _)) => apply fits_concat_map; intros ? ?; cbv beta
    | |- fits _ _ _ (locked _ _) => apply fits_locked; [reflexivity|reflexivity|]
    | |- fits _ _ _ (shared _ _) => apply fits_shared; [reflexivity|]
    | |- fits _ _ _ (if ?b then _ else _) => destruct b
    | |- fits _ _ _ (match ?x with _ => _ end) => destruct x
    end.

(** ** The workers and the heartbeat thread among themselves *)

Definition no_lock (m : mutex) : bool := false.

(** Raft members and shards first, connections next, everything else on top. *)
Definition worker_rank (m : mutex) : nat :=
  match m with raft_mtx _ | shard_lock _ => 0 | connections_lock => 1 | _ => 2 end.

Lemma worker_rank_le m : (worker_rank m <= 2)%nat.
Proof. destruct m; simpl; lia. Qed.

#[local] Notation wfits := (fits no_lock worker_rank).

Lemma wfits_acts gid acts : wfits [(raft_mtx gid, true)] (raft_acts_locks gid acts).
Proof. unfold raft_acts_locks. fit; unfold raft_act_locks, sendCb_locks, getConnection_locks; fit. Qed.

Lemma wfits_step gid acts : wfits [] (RaftNode_step_locks gid acts).
Proof. apply fits_locked; [done|done|apply wfits_acts]. Qed.

Lemma wfits_propose gid leader : wfits [] (RaftNode_propose_locks gid leader).
Proof. unfold RaftNode_propose_locks. fit. apply wfits_acts. Qed.

Lemma wfits_forEach i moves : wfits [] (forEach_locks i (map (map migrate_locks) moves)).
Proof.
  revert i. induction moves as [|keys rest IH]; intros i; [apply fits_nil|]. cbn [map forEach_locks]. apply fits_app; [|apply IH].
  apply fits_shared; [done|]. unfold migrate_locks, queryNode_locks. fit.
Qed.

Lemma wfits_sendData connected moves : wfits [] (sendDataToNode_locks connected moves).
Proof. unfold sendDataToNode_locks, getConnection_locks. fit. apply wfits_forEach. Qed.

Lemma wfits_handler c : wfits [] (Handler_locks c).
Proof.
  destruct c as [i| |i [[gid leader]|]| | |known| | |conns [[co moves]|]|conns known|gid known acts]; cbn [Handler_locks];
    unfold KVStore_op_locks, queryNode_locks, getTopo_locks, AOF_append_locks, addConnection_locks, updateHeartbeat_locks,
      findGossip_locks, addGossip_locks, getConnections_locks, broadcast_locks, getConnection_locks, addNodeToHash_locks,
      addTopoNode_locks, delNodeToHash_locks, delTopoNode_locks, delConnection_locks, getUuidByFd_locks; fit;
    auto using wfits_propose, wfits_sendData, wfits_step.
Qed.

Lemma wfits_worker t : wfits [] (worker_locks t).
Proof. unfold worker_locks. fit; auto using wfits_handler, wfits_sendData. Qed.

Lemma wfits_heartbeat live dead : wfits [] (heartbeatRound_locks live dead).
Proof.
  unfold heartbeatRound_locks, sendHeartbeats_locks, checkTimeouts_locks, sendCallback_locks, failureCallback_locks,
    delNodeToHash_locks, delTopoNode_locks, delConnection_locks. fit.
Qed.

(** The workers, each with its tasks in turn, and the heartbeat thread with its rounds. *)
Definition workers_threads (tasks : list (list task_locks)) (rounds : list (list bool * list bool)) : list thread :=
  map start (map (λ ts, concat (map worker_locks ts)) tasks ++ [concat (map (λ r, heartbeatRound_locks r.1 r.2) rounds)]).

(** C21: workers and the heartbeat thread never deadlock among themselves: however
    many workers there are, whatever commands they run (Raft steps that send,
    proposals of a leader, migrations and announcements included), however
    their steps interleave with each other and with heartbeat rounds that find
    nodes timed out, everything can always still be finished. *)
Theorem workers_never_deadlock (tasks : list (list task_locks)) (rounds : list (list bool * list bool)) (ts : list thread) :
  rtc lstep (workers_threads tasks rounds) ts → ∃ ts', rtc lstep ts ts' ∧ all_done ts'.
Proof.
  apply (disciplined_finishes no_lock worker_rank 2); [apply worker_rank_le|].
  apply disciplined_start. intros a [Ha|Ha]%elem_of_app.
  - apply list_elem_of_fmap in Ha as (ks & -> & _). apply fits_concat_map. intros t _. apply wfits_worker.
  - apply list_elem_of_singleton in Ha as ->. apply fits_concat_map. intros r _. apply wfits_heartbeat.
Qed.

(** ** With the main thread, on a cluster that does not change *)

(** Nobody writes the connection table; the message queue comes first. *)
Definition quiet_readonly (m : mutex) : bool := bool_decide (m = connections_lock).
Definition quiet_rank (m : mutex) : nat :=
  match m with queueMutex => 0 | raftQueueMutex | raft_mtx _ | shard_lock _ => 1 | _ => 2 end.

Lemma quiet_rank_le m : (quiet_rank m <= 2)%nat.
Proof. destruct m; simpl; lia. Qed.

(** What clients ask for, and heartbeats; no proposal of this node is sent on. *)
Definition quiet_command (c : command_locks) : Prop :=
  match c with
  | CGet _ | CMoved | CNetwork | CHeartbeat _ | CSyncdone => True
  | CSet _ (Some (_, Some peers)) => Forall (λ c, c = false) peers
  | CSet _ _ => True
  | _ => False
  end.
Definition quiet_task (t : task_locks) : Prop :=
  match t with THandle_locks c _ => quiet_command c | TSend_locks _ _ => False end.

(** Nothing to connect to, nobody timed out, nothing sent by a tick. *)
Record quiet_round (r : round) : Prop := {
  q_messages : MConnect ∉ r_messages r;
  q_raft : ∀ gid acts a, (gid, acts) ∈ r_raft r → a ∈ acts → a = RDisk ∨ a = RSend false;
  q_dead : r_dead r = [];
  q_groups : ∀ g, g ∈ r_groups r → Forall (λ c, c = false) g.1.2
}.

#[local] Notation qfits := (fits quiet_readonly quiet_rank).

Lemma qfits_acts h gid acts :
  (∀ a, a ∈ acts → a = RDisk ∨ a = RSend false) → above quiet_readonly quiet_rank (raft_diskMtx gid) h = true →
  qfits h (raft_acts_locks gid acts).
Proof.
  intros H Ha. apply fits_concat_map. intros a [-> | ->]%H; cbn [raft_act_locks]; unfold sendCb_locks, getConnection_locks; fit.
  by apply fits_locked; [done|done|apply fits_nil].
Qed.

Lemma unsent_acts (sends : list bool) : Forall (λ c, c = false) sends → ∀ a, a ∈ map RSend sends → a = RDisk ∨ a = RSend false.
Proof. intros H a (c & -> & Hc)%list_elem_of_fmap. rewrite Forall_forall in H. rewrite (H c Hc). by right. Qed.

Lemma qfits_worker t : quiet_task t → qfits [] (worker_locks t).
Proof.
  destruct t as [c replies|]; [|done]. intros Hc. unfold worker_locks. fit;
  (destruct c as [i| |i [[gid [peers|]]|]| | |known| | |conns j|conns known|gid known acts]; try done; cbn [Handler_locks];
    unfold KVStore_op_locks, queryNode_locks, getTopo_locks, AOF_append_locks, updateHeartbeat_locks, RaftNode_propose_locks; fit).
  all: by apply qfits_acts; [apply unsent_acts|].
Qed.

Lemma qfits_heartbeat live : qfits [] (sendHeartbeats_locks live ++ shared heartbeat_time_lock []).
Proof. unfold sendHeartbeats_locks, sendCallback_locks. fit. Qed.

Lemma qfits_group gid sends applies :
  Forall (λ c, c = false) sends → qfits [(queueMutex, true)] (group_locks gid sends applies).
Proof.
  intros Hs. unfold group_locks, RaftNode_tick_locks, RaftNode_takePendingApply_locks, KVStore_op_locks. fit;
    by apply qfits_acts; [apply unsent_acts|].
Qed.

Lemma qfits_round r : quiet_round r → qfits [] (epoll_step_locks r).
Proof.
  intros [H1 H2 H3 H4]. unfold epoll_step_locks, getConnections_locks, checkTimeouts_locks. rewrite H3.
  apply fits_app; [fit|]. apply fits_locked; [done|done|]. repeat apply fits_app.
  - apply fits_concat_map. intros [|n|] Hm; [apply fits_nil| |done]. cbn [dispatch_locks]. unfold getTopo_locks, addNodeToHash_locks. fit.
  - apply fits_locked; [done|done|]. apply fits_concat_map. intros [gid acts] Hm.
    apply fits_unlocked; [done|done|]. apply fits_locked; [done|done|]. apply qfits_acts; [|done]. intros a. by apply H2 with gid.
  - fit.
  - unfold updateHeartbeat_locks. fit.
  - fit.
  - apply fits_nil.
  - apply fits_concat_map. intros g Hg. apply qfits_group, H4, Hg.
Qed.

Definition quiet_threads (rounds : list round) (tasks : list (list task_locks)) (live : list (list bool)) : list thread :=
  map start (concat (map epoll_step_locks rounds) :: concat (map (λ l, heartbeatRound_locks l []) live) ::
    map (λ ts, concat (map worker_locks ts)) tasks).

(** C8: a server never deadlocks while nothing makes its main thread connect,
    drop a node or send for Raft: no node is announced, leaves or times out, no
    tick, queued Raft message or proposal sends to a connected peer (as on a node
    whose groups have no connected peers), and the workers serve the commands of
    clients, heartbeats and end marks.  Then the main thread with its rounds
    (replies, rebuilt groups, ticks and the commands they apply), the heartbeat
    thread and any number of workers can always finish, however they interleave;
    although the main thread takes nearly every lock while it holds the one of the
    message queue, and the heartbeat thread takes that one while it holds the
    connection table.  The restrictions are needed: a tick that sends to a
    connected peer locks the queue twice ([EventLoop.loop_relocks_queue]) and can
    block against a worker ([step_tick_deadlock]), and a change of the membership
    can block against the heartbeat ([connect_heartbeat_deadlock]). *)
Theorem quiet_never_deadlocks (rounds : list round) (tasks : list (list task_locks)) (live : list (list bool)) (ts : list thread) :
  Forall quiet_round rounds → Forall (Forall quiet_task) tasks →
  rtc lstep (quiet_threads rounds tasks live) ts → ∃ ts', rtc lstep ts ts' ∧ all_done ts'.
Proof.
  intros Hr Ht. apply (disciplined_finishes quiet_readonly quiet_rank 2); [apply quiet_rank_le|].
  rewrite Forall_forall in Hr. rewrite Forall_forall in Ht. apply disciplined_start.
  intros a [->|[->|Ha]%elem_of_cons]%elem_of_cons.
  - apply fits_concat_map. intros r Hin. by apply qfits_round, Hr.
  - apply fits_concat_map. intros l _. unfold heartbeatRound_locks, checkTimeouts_locks. simpl. apply qfits_heartbeat.
  - apply list_elem_of_fmap in Ha as (ks & -> & Hin). apply fits_concat_map. intros t Hk. apply qfits_worker.
    specialize (Ht ks Hin). rewrite Forall_forall in Ht. by apply Ht.
Qed.

(** ** Deadlocks *)

(** Two threads of which each waits for a lock that the other holds. *)
Definition waits_for (t u : thread) : bool :=
  match todo t with
  | Lock m :: _ => holds m u
  | LockShared m :: _ => holds_excl m u
  | _ => false
  end.

Definition deadlocked (i j : nat) (ts : list thread) : Prop :=
  ∃ t u, ts !! i = Some t ∧ ts !! j = Some u ∧ waits_for t u = true ∧ waits_for u t = true.

Lemma waiting_not_granted ts t u j a rest :
  ts !! j = Some u → todo t = a :: rest → waits_for t u = true → grant ts a = false.
Proof.
  intros Hj Ht Hw. unfold waits_for in Hw. rewrite Ht in Hw. apply list_elem_of_lookup_2, list_elem_of_In in Hj.
  destruct a; simpl; [apply negb_false_iff, existsb_exists; by exists u..|done].
Qed.

Lemma deadlock_forever i j ts ts' : deadlocked i j ts → rtc lstep ts ts' → deadlocked i j ts'.
Proof.
  intros Hd Hs. induction Hs as [|t1 t2 t3 H12 _ IH]; [done|]. apply IH. clear IH.
  destruct Hd as (t & u & Ht & Hu & Htu & Hut). destruct H12 as [k h a rest Hk Hg].
  assert (k ≠ i) as Hi.
  { intros ->. rewrite Hk in Ht. injection Ht as <-. by rewrite (waiting_not_granted _ (mkThread h (a :: rest)) u j a rest Hu eq_refl Htu) in Hg. }
  assert (k ≠ j) as Hj.
  { intros ->. rewrite Hk in Hu. injection Hu as <-. by rewrite (waiting_not_granted _ (mkThread h (a :: rest)) t i a rest Ht eq_refl Hut) in Hg. }
  exists t, u. by rewrite !list_lookup_insert_ne by done.
Qed.

(** *** A thread that runs alone for a while *)

(** What it holds after [a], if it never wants what it or, by [taken], somebody
    else may hold. *)
Fixpoint solo (taken : mutex → bool) (h : list (mutex * bool)) (a : list action) : option (list (mutex * bool)) :=
  match a with
  | [] => Some h
  | b :: a =>
      match b with
      | Unlock m => solo taken (release m h) a
      | Lock m | LockShared m =>
          if taken m || existsb (λ x, bool_decide (x.1 = m)) h then None else solo taken (after_action h b) a
      end
  end.

Lemma solo_app taken h a b : solo taken h (a ++ b) = match solo taken h a with Some h' => solo taken h' b | None => None end.
Proof. revert h. induction a as [|[m|m|m] a IH]; intros h; simpl; [done|by case_match..|done]. Qed.

Lemma solo_concat taken h l : (∀ a, a ∈ l → solo taken h a = Some h) → solo taken h (concat l) = Some h.
Proof.
  induction l as [|a l IH]; [done|]. intros H. cbn [concat]. rewrite solo_app, (H a) by (by left).
  apply IH. intros b Hb. apply H. by right.
Qed.
Lemma solo_concat_map {A} taken h (f : A → list action) l :
  (∀ x, x ∈ l → solo taken h (f x) = Some h) → solo taken h (concat (map f l)) = Some h.
Proof. intros H. apply solo_concat. intros a (x & -> & Hx)%list_elem_of_fmap. by apply H. Qed.
Lemma solo_replicate taken h n a : solo taken h a = Some h → solo taken h (concat (replicate n a)) = Some h.
Proof. intros H. apply solo_concat. by intros b [-> _]%elem_of_replicate. Qed.

(** The others hold nothing but what is [taken]. *)
Definition others_hold (taken : mutex → bool) (i : nat) (ts : list thread) : Prop :=
  ∀ j t m, ts !! j = Some t → j ≠ i → holds m t = true → taken m = true.

Lemma holds_excl_holds m t : holds_excl m t = true → holds m t = true.
Proof.
  unfold holds, holds_excl. rewrite !existsb_exists. intros (x & Hin & [H _]%andb_true_iff). by exists x.
Qed.

Lemma granted_alone taken i h m rest ts :
  others_hold taken i ts → ts !! i = Some (mkThread h rest) →
  taken m || existsb (λ x, bool_decide (x.1 = m)) h = false → grant ts (Lock m) = true ∧ grant ts (LockShared m) = true.
Proof.
  intros Ho Hi [Hm Hh]%orb_false_iff.
  assert (∀ t, t ∈ ts → holds m t = false) as H.
  { intros t (j & Hj)%list_elem_of_lookup. destruct (decide (j = i)) as [->|Hne].
    - rewrite Hi in Hj. injection Hj as <-. done.
    - destruct (holds m t) eqn:E; [|done]. by rewrite (Ho j t m Hj Hne E) in Hm. }
  split; apply negb_true_iff; apply not_true_is_false; rewrite existsb_exists; intros (t & Hin & Ht);
    apply list_elem_of_In, H in Hin; [congruence|apply holds_excl_holds in Ht; congruence].
Qed.

Lemma solo_runs taken i ts h a b h' :
  others_hold taken i ts → ts !! i = Some (mkThread h (a ++ b)) → solo taken h a = Some h' →
  rtc lstep ts (<[i := mkThread h' b]> ts).
Proof.
  revert ts h. induction a as [|c a IH]; intros ts h Ho Hi Hs.
  - injection Hs as <-. by rewrite list_insert_id.
  - assert (grant ts c = true ∧ solo taken (after_action h c) a = Some h') as [Hg Hs'].
    { destruct c as [m|m|m]; cbn [solo] in Hs; [..|done];
        (destruct (taken m || _) eqn:E; [done|]); by destruct (granted_alone _ _ _ _ _ _ Ho Hi E). }
    apply rtc_l with (<[i := mkThread (after_action h c) (a ++ b)]> ts); [by apply lstep_act|].
    rewrite <- (list_insert_insert_eq ts i (mkThread h' b) (mkThread (after_action h c) (a ++ b))).
    apply (IH _ (after_action h c)); [|apply list_lookup_insert_eq; by eapply lookup_lt_Some|done].
    intros j t m Hj Hne. rewrite list_lookup_insert_ne in Hj by done. by apply (Ho j).
Qed.

Definition nobody (m : mutex) : bool := false.
Definition in_held (h : list (mutex * bool)) (m : mutex) : bool := existsb (λ x, bool_decide (x.1 = m)) h.

(** Two threads run, one after the other, into each other's locks. *)
Lemma cross a1 c a2 b1 d b2 ha hb others :
  solo nobody [] a1 = Some ha → solo (in_held ha) [] b1 = Some hb →
  waits_for (mkThread ha (c :: a2)) (mkThread hb (d :: b2)) = true →
  waits_for (mkThread hb (d :: b2)) (mkThread ha (c :: a2)) = true →
  ∃ ts, rtc lstep (start (a1 ++ c :: a2) :: start (b1 ++ d :: b2) :: map start others) ts ∧
    ∀ ts', rtc lstep ts ts' → deadlocked 0 1 ts'.
Proof.
  intros Ha Hb Hab Hba.
  exists (mkThread ha (c :: a2) :: mkThread hb (d :: b2) :: map start others). split.
  - etrans.
    + apply (solo_runs nobody 0 _ [] a1 (c :: a2) ha); [|done|done].
      intros [|[|j]] t m Hj Hne Hm; [done|by injection Hj as <-|].
      change (map start others !! j = Some t) in Hj. by apply list_elem_of_lookup_2, list_elem_of_fmap in Hj as (x & -> & _).
    + apply (solo_runs (in_held ha) 1 (mkThread ha (c :: a2) :: start (b1 ++ d :: b2) :: map start others) [] b1 (d :: b2) hb);
        [|done|done].
      intros [|[|j]] t m Hj Hne Hm; [by injection Hj as <-|done|].
      change (map start others !! j = Some t) in Hj. by apply list_elem_of_lookup_2, list_elem_of_fmap in Hj as (x & -> & _).
  - intros ts'. apply deadlock_forever. by eexists _, _.
Qed.

(** *** What the main thread runs through before it blocks *)

Lemma solo_dispatch m : solo nobody [(queueMutex, true)] (dispatch_locks m) = Some [(queueMutex, true)].
Proof. destruct m as [|n|]; [done| |done]. cbn [dispatch_locks]. rewrite solo_app. by apply solo_replicate. Qed.

Lemma solo_beats l : solo nobody [(queueMutex, true)] (concat (map updateHeartbeat_locks l)) = Some [(queueMutex, true)].
Proof. apply solo_concat_map. by intros [|] _. Qed.

Definition before_timeouts (r : round) : list action :=
  concat (replicate (r_requests r) (locked pool_queueMutex [])) ++
  [Lock queueMutex] ++ concat (map dispatch_locks (r_messages r)) ++ locked raftQueueMutex [] ++
  getConnections_locks ++ concat (map updateHeartbeat_locks (r_live r)).

Lemma solo_before_timeouts r : solo nobody [] (before_timeouts r) = Some [(queueMutex, true)].
Proof.
  unfold before_timeouts. rewrite solo_app, solo_replicate by done. rewrite solo_app.
  change (solo nobody [] [Lock queueMutex]) with (Some [(queueMutex, true)]). cbv iota beta.
  rewrite solo_app, solo_concat_map by (intros m _; apply solo_dispatch). rewrite solo_app.
  change (solo nobody [(queueMutex, true)] (locked raftQueueMutex [])) with (Some [(queueMutex, true)]). cbv iota beta.
  rewrite solo_app. change (solo nobody [(queueMutex, true)] getConnections_locks) with (Some [(queueMutex, true)]).
  apply solo_beats.
Qed.

Lemma epoll_step_timeouts r :
  r_raft r = [] →
  epoll_step_locks r = before_timeouts r ++ checkTimeouts_locks (r_dead r) ++
    concat (map (λ g, group_locks g.1.1 g.1.2 g.2) (r_groups r)) ++ [Unlock queueMutex].
Proof.
  intros Hr. unfold epoll_step_locks, before_timeouts, raft_queue_locks, locked. rewrite Hr. cbn [map concat].
  cbn [app]. rewrite <- ?app_assoc. cbn [app]. rewrite <- ?app_assoc. reflexivity.
Qed.

(** The heartbeat thread up to its first heartbeat. *)
Lemma heartbeat_prefix live dead :
  true ∈ live → ∃ rest, heartbeatRound_locks live dead =
    [LockShared connections_lock; Lock heartbeat_time_lock; Unlock heartbeat_time_lock] ++ Lock queueMutex :: rest.
Proof.
  intros (l1 & l2 & -> & Hn)%list_elem_of_split_l. unfold heartbeatRound_locks, sendHeartbeats_locks, shared.
  assert (concat (map (λ fd : bool, if fd then locked heartbeat_time_lock [] ++ sendCallback_locks else []) l1) = []) as H.
  { induction l1 as [|[|] l1 IH]; [done|by destruct Hn; left|]. apply IH. intros H. apply Hn. by right. }
  rewrite map_app, concat_app, H. eexists. reflexivity.
Qed.

(** C38: connecting to an announced node deadlocks with the heartbeat thread: the
    main thread locks the connection table while it holds the message queue, the
    heartbeat thread queues its messages while it holds the connection table.
    As soon as one connection is live there is a schedule after which the two
    wait for each other for ever, whatever every other thread does. *)
Theorem connect_heartbeat_deadlock (r : round) (ms : list message_locks) (live dead : list bool) (others : list (list action)) :
  r_messages r = MConnect :: ms → true ∈ live →
  ∃ ts, rtc lstep (start (epoll_step_locks r) :: start (heartbeatRound_locks live dead) :: map start others) ts ∧
    ∀ ts', rtc lstep ts ts' → deadlocked 0 1 ts'.
Proof.
  intros Hm (rest & ->)%(heartbeat_prefix live dead). unfold epoll_step_locks, locked. rewrite Hm.
  cbn [map concat dispatch_locks addConnection_locks].
  set (pre := concat (replicate (r_requests r) (Lock pool_queueMutex :: [] ++ [Unlock pool_queueMutex]))).
  rewrite (cons_middle (Lock queueMutex)), (app_assoc pre).
  eapply (cross (pre ++ [Lock queueMutex]) (Lock connections_lock) _ _ (Lock queueMutex) _ [(queueMutex, true)] [(connections_lock, false)]);
    [|reflexivity..].
  rewrite solo_app. unfold pre. by rewrite solo_replicate.
Qed.

(** So does a node that times out, found in the loop of the main thread. *)
Theorem timeout_heartbeat_deadlock (r : round) (known : bool) (gone live dead : list bool) (others : list (list action)) :
  r_raft r = [] → r_dead r = known :: gone → true ∈ live →
  ∃ ts, rtc lstep (start (epoll_step_locks r) :: start (heartbeatRound_locks live dead) :: map start others) ts ∧
    ∀ ts', rtc lstep ts ts' → deadlocked 0 1 ts'.
Proof.
  intros Hr Hd (rest & ->)%(heartbeat_prefix live dead). rewrite (epoll_step_timeouts r Hr), Hd.
  set (more := if known then locked fd_to_uuid_lock [] else []).
  assert (∃ a2, checkTimeouts_locks (known :: gone) =
    (shared heartbeat_time_lock [] ++ delNodeToHash_locks ++ shared connections_lock [] ++ more) ++ Lock connections_lock :: a2) as [a2 ->].
  { unfold checkTimeouts_locks, delTopoNode_locks, delConnection_locks, more. destruct known; by eexists. }
  rewrite <- (app_assoc _ (Lock connections_lock :: a2)), (app_assoc (before_timeouts r)).
  eapply (cross _ (Lock connections_lock) _ _ (Lock queueMutex) _ [(queueMutex, true)] [(connections_lock, false)]);
    [|reflexivity..].
  rewrite solo_app, solo_before_timeouts. unfold more. by destruct known.
Qed.

(** *** Ticks *)

(** Up to the turn of the first group, on a round that finds nobody gone. *)
Definition before_groups (r : round) : list action := before_timeouts r ++ shared heartbeat_time_lock [].

Lemma solo_before_groups r : solo nobody [] (before_groups r) = Some [(queueMutex, true)].
Proof. unfold before_groups. by rewrite solo_app, solo_before_timeouts. Qed.

Lemma epoll_step_groups r g gs :
  r_raft r = [] → r_dead r = [] → r_groups r = g :: gs →
  ∃ rest, epoll_step_locks r = before_groups r ++ group_locks g.1.1 g.1.2 g.2 ++ rest.
Proof.
  intros Hr Hd Hg. rewrite (epoll_step_timeouts r Hr), Hd, Hg. unfold before_groups, checkTimeouts_locks.
  cbn [map concat]. eexists. rewrite app_nil_r, <- !app_assoc. reflexivity.
Qed.

(** The worker up to the first message it queues. *)
Lemma solo_stay taken keys h :
  taken node_hash_lock = false → existsb (λ x, bool_decide (x.1 = node_hash_lock)) h = false →
  Forall (λ m, m = false) keys → solo taken h (concat (map migrate_locks keys)) = Some h.
Proof.
  intros Ht Hh Hk. apply solo_concat_map. intros m Hm. rewrite Forall_forall in Hk. rewrite (Hk m Hm).
  cbn. rewrite Ht, Hh. done.
Qed.

Lemma solo_forEach_stay taken moves i :
  taken node_hash_lock = false → (∀ j, taken (shard_lock j) = false) → Forall (Forall (λ m, m = false)) moves →
  solo taken [] (forEach_locks i (map (map migrate_locks) moves)) = Some [].
Proof.
  intros Ht Hs. revert i. induction moves as [|keys rest IH]; intros i Hm; [done|]. apply Forall_cons in Hm as [Hk Hr].
  cbn [map forEach_locks]. rewrite solo_app. unfold shared. cbn [solo existsb]. rewrite Hs. cbn [orb after_action].
  rewrite solo_app, solo_stay by done. cbn [solo release fst]. rewrite bool_decide_eq_true_2 by done. by apply IH.
Qed.

Lemma forEach_app i l1 l2 : forEach_locks i (l1 ++ l2) = forEach_locks i l1 ++ forEach_locks (i + length l1) l2.
Proof.
  revert i. induction l1 as [|k l1 IH]; intros i; [simpl; by rewrite Nat.add_0_r|].
  cbn [forEach_locks app length]. rewrite IH, <- app_assoc. by rewrite Nat.add_succ_comm.
Qed.

Lemma send_prefix pre moving post :
  Forall (Forall (λ m, m = false)) pre → true ∈ moving →
  ∃ b1 b2, worker_locks (TSend_locks true (pre ++ moving :: post)) = b1 ++ Lock queueMutex :: b2 ∧
    solo (in_held [(queueMutex, true)]) [] b1 = Some [(shard_lock (length pre), false)].
Proof.
  intros Hpre (k1 & k2 & -> & Hn)%list_elem_of_split_l.
  assert (Forall (λ m, m = false) k1) as Hk.
  { apply Forall_forall. intros [|] H; [by destruct Hn|done]. }
  exists (locked pool_queueMutex [] ++ getConnection_locks ++ forEach_locks 0 (map (map migrate_locks) pre) ++
    [LockShared (shard_lock (length pre))] ++ concat (map migrate_locks k1) ++ queryNode_locks).
  eexists. split.
  - unfold worker_locks, sendDataToNode_locks. rewrite map_app, forEach_app, length_map. cbn [map forEach_locks].
    rewrite map_app, concat_app. unfold shared at 1. cbn [map concat]. unfold migrate_locks at 3.
    rewrite <- !app_assoc. cbn [app]. rewrite <- !app_assoc. cbn [app]. reflexivity.
  - rewrite solo_app. change (solo _ [] (locked pool_queueMutex [])) with (Some (@nil (mutex * bool))). cbv iota beta.
    rewrite solo_app. change (solo _ [] getConnection_locks) with (Some (@nil (mutex * bool))). cbv iota beta.
    rewrite solo_app, solo_forEach_stay by done. rewrite solo_app.
    change (solo (in_held [(queueMutex, true)]) [] [LockShared (shard_lock (length pre))]) with (Some [(shard_lock (length pre), false)]).
    cbv iota beta. rewrite solo_app, solo_stay by done. done.
Qed.

Lemma step_prefix gid known acts replies :
  RSend true ∈ acts →
  ∃ b1 b2, worker_locks (THandle_locks (CRaft gid known acts) replies) = b1 ++ Lock queueMutex :: b2 ∧
    solo (in_held [(queueMutex, true)]) [] b1 = Some [(raft_mtx gid, true)].
Proof.
  intros (k1 & k2 & -> & Hn)%list_elem_of_split_l.
  exists (locked pool_queueMutex [] ++ updateHeartbeat_locks known ++ getUuidByFd_locks ++ [Lock (raft_mtx gid)] ++
    raft_acts_locks gid k1 ++ getConnection_locks).
  eexists. split.
  - unfold worker_locks, Handler_locks, RaftNode_step_locks, raft_acts_locks, locked at 2. rewrite map_app, concat_app. cbn [map concat].
    unfold raft_act_locks at 2. unfold sendCb_locks at 1. cbv iota.
    rewrite <- !app_assoc. cbn [app]. rewrite <- !app_assoc. cbn [app]. reflexivity.
  - rewrite solo_app. change (solo _ [] (locked pool_queueMutex [])) with (Some (@nil (mutex * bool))). cbv iota beta.
    rewrite solo_app. replace (solo _ [] (updateHeartbeat_locks known)) with (Some (@nil (mutex * bool))) by (by destruct known).
    cbv iota beta. rewrite solo_app. change (solo _ [] getUuidByFd_locks) with (Some (@nil (mutex * bool))). cbv iota beta.
    rewrite solo_app. change (solo (in_held [(queueMutex, true)]) [] [Lock (raft_mtx gid)]) with (Some [(raft_mtx gid, true)]).
    cbv iota beta. rewrite solo_app. unfold raft_acts_locks. rewrite solo_concat_map; [done|].
    intros [|[|]] Hin; [|by destruct Hn|done]. cbn.
    repeat case_bool_decide; by try congruence.
Qed.

(** A migration deadlocks with the apply of a committed command: the worker
    queues each pair while it holds the pair's shard, the main thread writes to
    the shard while it holds the message queue. *)
Theorem migrate_apply_deadlock (r : round) (gid : Z) (keys : list nat) gs
    (pre : list (list bool)) (moving : list bool) (post : list (list bool)) (others : list (list action)) :
  r_raft r = [] → r_dead r = [] → r_groups r = (gid, [], Some (length pre :: keys)) :: gs →
  Forall (Forall (λ m, m = false)) pre → true ∈ moving →
  ∃ ts, rtc lstep (start (epoll_step_locks r) :: start (worker_locks (TSend_locks true (pre ++ moving :: post))) :: map start others) ts ∧
    ∀ ts', rtc lstep ts ts' → deadlocked 0 1 ts'.
Proof.
  intros Hr Hd Hg Hpre Hm. destruct (epoll_step_groups r _ _ Hr Hd Hg) as [rest ->]. cbn [fst snd].
  set (i := length pre).
  assert (∃ a2, group_locks gid [] (Some (i :: keys)) ++ rest =
    (locked (raft_diskMtx gid) [] ++ locked (raft_mtx gid) [] ++ locked (raft_mtx gid) []) ++ Lock (shard_lock i) :: a2)
    as [a2 ->] by (by eexists).
  rewrite app_assoc.
  destruct (send_prefix pre moving post Hpre Hm) as (b1 & b2 & -> & Hb).
  eapply (cross _ (Lock (shard_lock i)) _ _ (Lock queueMutex) _ [(queueMutex, true)] [(shard_lock i, false)]).
  - rewrite solo_app, solo_before_groups. cbn. repeat case_bool_decide; by try congruence.
  - exact Hb.
  - cbn. repeat case_bool_decide; by try congruence.
  - reflexivity.
Qed.

(** A Raft message that a worker answers deadlocks with the tick of the same
    group: the answer is queued under the lock of the member, the tick locks the
    member under the lock of the message queue. *)
Theorem step_tick_deadlock (r : round) (gid : Z) (sends : list bool) (applies : option (list nat)) gs
    (known : bool) (acts : list raft_act) (replies : bool) (others : list (list action)) :
  r_raft r = [] → r_dead r = [] → r_groups r = (gid, sends, applies) :: gs → RSend true ∈ acts →
  ∃ ts, rtc lstep (start (epoll_step_locks r) :: start (worker_locks (THandle_locks (CRaft gid known acts) replies)) :: map start others) ts ∧
    ∀ ts', rtc lstep ts ts' → deadlocked 0 1 ts'.
Proof.
  intros Hr Hd Hg Hs. destruct (epoll_step_groups r _ _ Hr Hd Hg) as [rest ->]. cbn [fst snd].
  assert (∃ a2, group_locks gid sends applies ++ rest = locked (raft_diskMtx gid) [] ++ Lock (raft_mtx gid) :: a2)
    as [a2 ->] by (by eexists).
  rewrite app_assoc. destruct (step_prefix gid known acts replies Hs) as (b1 & b2 & -> & Hb).
  eapply (cross _ (Lock (raft_mtx gid)) _ _ (Lock queueMutex) _ [(queueMutex, true)] [(raft_mtx gid, true)]).
  - rewrite solo_app, solo_before_groups. cbn. repeat case_bool_decide; by try congruence.
  - exact Hb.
  - cbn. repeat case_bool_decide; by try congruence.
  - reflexivity.
Qed.

(** ** At concrete servers *)

Definition busy_round : round := mkRound 2 [MReply; MRebuild 1; MReply] [] [true] [] [(0%Z, [], Some [3; 5]%nat)].
Definition two_workers : list (list task_locks) :=
  [[THandle_locks (CSet 3 (Some (0%Z, None))) true; THandle_locks (CGet 5) true]; [THandle_locks CMoved true]].

Lemma workers_never_deadlock_witness :
  ∃ ts', rtc lstep (workers_threads (two_workers ++ [[TSend_locks true [[true]; [false; true]]]]) [([true], [true])]) ts' ∧ all_done ts'.
Proof. apply (workers_never_deadlock (two_workers ++ [[TSend_locks true [[true]; [false; true]]]]) [([true], [true])]). reflexivity. Defined.

Lemma quiet_never_deadlocks_witness :
  ∃ ts', rtc lstep (quiet_threads [busy_round] two_workers [[true; false]]) ts' ∧ all_done ts'.
Proof.
  apply (quiet_never_deadlocks [busy_round] two_workers [[true; false]]).
  - apply Forall_singleton. constructor.
    + apply (bool_decide_eq_true_1 (MConnect ∉ r_messages busy_round)). reflexivity.
    + intros gid acts a H%elem_of_nil. destruct H.
    + reflexivity.
    + intros g H%list_elem_of_singleton. subst g. constructor.
  - repeat constructor.
  - reflexivity.
Defined.

Lemma connect_heartbeat_deadlock_witness :
  ∃ ts, rtc lstep [start (epoll_step_locks (mkRound 0 [MConnect] [] [] [] [])); start (heartbeatRound_locks [false; true] [])] ts ∧
    deadlocked 0 1 ts.
Proof.
  destruct (connect_heartbeat_deadlock (mkRound 0 [MConnect] [] [] [] []) [] [false; true] [] []) as (ts & H1 & H2).
  - reflexivity.
  - right. left.
  - exists ts. split; [exact H1|]. apply H2. reflexivity.
Defined.

Lemma timeout_heartbeat_deadlock_witness :
  ∃ ts, rtc lstep [start (epoll_step_locks (mkRound 0 [] [] [] [true] [])); start (heartbeatRound_locks [true] [])] ts ∧
    deadlocked 0 1 ts.
Proof.
  destruct (timeout_heartbeat_deadlock (mkRound 0 [] [] [] [true] []) true [] [true] [] []) as (ts & H1 & H2); [reflexivity..|left|].
  exists ts. split; [exact H1|]. apply H2. reflexivity.
Defined.

Lemma migrate_apply_deadlock_witness :
  ∃ ts, rtc lstep [start (epoll_step_locks (mkRound 0 [] [] [] [] [(0%Z, [], Some [1%nat])]));
      start (worker_locks (TSend_locks true ([[false]] ++ [[false; true]])))] ts ∧ deadlocked 0 1 ts.
Proof.
  destruct (migrate_apply_deadlock (mkRound 0 [] [] [] [] [(0%Z, [], Some [1%nat])]) 0%Z [] [] [[false]] [false; true] [] []) as (ts & H1 & H2);
    [reflexivity..|repeat constructor|right; left|].
  exists ts. split; [exact H1|]. apply H2. reflexivity.
Defined.

Lemma step_tick_deadlock_witness :
  ∃ ts, rtc lstep [start (epoll_step_locks (mkRound 0 [] [] [] [] [(0%Z, [], None)]));
      start (worker_locks (THandle_locks (CRaft 0%Z true [RSend true]) false))] ts ∧ deadlocked 0 1 ts.
Proof.
  destruct (step_tick_deadlock (mkRound 0 [] [] [] [] [(0%Z, [], None)]) 0%Z [] None [] true [RSend true] false []) as (ts & H1 & H2);
    [reflexivity..|left|].
  exists ts. split; [exact H1|]. apply H2. reflexivity.
Defined.
