(* ===== verification/Membership.v ===== *)
(** * Joining, leaving and data migration

    What the handlers of [Handler] and the methods of [Server] do together when
    nodes join and leave: gossip, the ring, and the transfer of keys. *)
From Stdlib Require Import ZArith Ascii String Lia.
From stdpp Require Import base numbers list strings gmap.
From S2P Require Import Prelude CppStd RespValue RespParser HashTable LRU KVStore Snapshot AOF Ring Cluster Utils.
From S2P Require Import RaftNode Server Handler.
Local Open Scope Z_scope.

(** ** Migration messages *)

Lemma encode_simple x : encode (SimpleString x) = str "+" ++ x ++ CRLF.
Proof. done. Qed.

Lemma set_command_encode key v : set_command key v = encode (request "SET" [SimpleString key; v]).
Proof.
  unfold request. rewrite encode_array, !encode_all_cons, !encode_simple, app_nil_r.
  unfold set_command. by rewrite <- !(assoc_L app).
Qed.

Lemma syncdone_encode self :
  syncdone_command self = encode (request "SYNCDONE" [SimpleString (to_string self)]).
Proof.
  unfold request. rewrite encode_array, !encode_all_cons, !encode_simple, app_nil_r.
  unfold syncdone_command. by rewrite <- !(assoc_L app).
Qed.

(** The pair belongs to [target] on the ring of [c]. *)
Definition owned (target : Z) (c : Cluster) (kv : bytes * RespValue) : Prop :=
  Cluster_queryNode kv.1 c = Ok target.
#[global] Instance owned_dec target c kv : Decision (owned target c kv).
Proof. unfold owned. apply _. Defined.

Lemma query_total key c : node_hash c ≠ [] → ∃ owner, Cluster_queryNode key c = Ok owner.
Proof.
  intros Hne. unfold Cluster_queryNode, ring_queryNode, ring_query.
  destruct (map_lower_bound _ _) as [|[? v] ?]; [|by exists v].
  destruct (node_hash c) as [|[? v] ?]; [done|by exists v].
Qed.

Lemma send_pairs_ok target fd kvs s :
  node_hash (cluster s) ≠ [] →
  mfor kvs (λ kv,
      s ← mget;
      owner_uuid ← mlift (Cluster_queryNode kv.1 (cluster s));
      if owner_uuid =? target then push_queue false (set_command kv.1 kv.2) fd else mret tt) s =
    (Ok tt, set_out_queue (out_queue s ++
       map (λ kv, (set_command kv.1 kv.2, fd)) (filter (owned target (cluster s)) kvs)) s).
Proof.
  intros Hne. revert s Hne. induction kvs as [|kv kvs IH]; intros s Hne.
  { rewrite app_nil_r. by destruct s. }
  destruct (query_total kv.1 (cluster s) Hne) as (owner & Ho). cbn [mfor].
  rewrite filter_cons. destruct (Z.eqb_spec owner target) as [->|Hno].
  - rewrite decide_True by done. cbn [map].
    erewrite M_bind_Ok by (erewrite M_bind_Ok by done; rewrite Ho; erewrite M_bind_Ok by done;
      by rewrite Z.eqb_refl).
    rewrite IH by done. simpl. by rewrite <- (assoc_L app).
  - rewrite decide_False by (unfold owned; congruence).
    rewrite (M_bind_Ok _ _ s tt s); [by apply IH|].
    erewrite M_bind_Ok by done. rewrite Ho. erewrite M_bind_Ok by done.
    by destruct (Z.eqb_spec owner target).
Qed.

(** The requests a node sends to [target]: its pairs, then the end mark. *)
Definition migration (target : Z) (s : Server) : list RespValue :=
  map (λ kv, request "SET" [SimpleString kv.1; kv.2])
    (filter (owned target (cluster s)) (KVStore_forEach (kvstore s))) ++
  [request "SYNCDONE" [SimpleString (to_string (UUID (self_node (cluster s))))]].

Lemma sendData_ok target fd s :
  Cluster_getConnection target (cluster s) = fd → fd ≠ -1 → node_hash (cluster s) ≠ [] →
  Server_sendDataToNode false target s =
    (Ok tt, set_out_queue (out_queue s ++ map (λ r, (encode r, fd)) (migration target s)) s).
Proof.
  intros Hfd Hne Hring. unfold Server_sendDataToNode. erewrite M_bind_Ok by done. rewrite Hfd.
  destruct (Z.eqb_spec fd (-1)); [done|].
  rewrite (M_bind_Ok _ _ _ _ _ (send_pairs_ok target fd _ s Hring)).
  unfold push_queue, mmodify, migration. simpl. rewrite map_app, map_map, syncdone_encode.
  rewrite <- (assoc_L app). erewrite map_ext; [done|]. intros kv. simpl. by rewrite set_command_encode.
Qed.

Section membership.
Context (steady wall : nat → Z) (rand : nat → Z → nat → Z).

(** The receiving side: one request after the other, on socket [fd]. *)
Definition handle_all (fd : Z) (reqs : list RespValue) : M Server unit :=
  mfor reqs (Server_handleCommand steady wall rand fd).

Lemma handleCommand_SET_syncing fd key v t :
  syncing t = true →
  Server_handleCommand steady wall rand fd (request "SET" [SimpleString key; v]) t =
    (Ok tt, set_out_queue (out_queue t ++ [(LOADING, fd)]) t).
Proof.
  intros Hs. unfold Server_handleCommand.
  by rewrite (M_bind_Ok _ _ _ _ _ (handle_syncing steady wall rand "SET" _ fd t Hs eq_refl)).
Qed.

Lemma handle_SYNCDONE u fd t :
  Server_handleCommand steady wall rand fd (request "SYNCDONE" [SimpleString u]) t = Server_onSyncDone t.
Proof. done. Qed.

Lemma handle_sets_syncing fd (kvs : list (bytes * RespValue)) t :
  syncing t = true →
  ∃ q, handle_all fd (map (λ kv, request "SET" [SimpleString kv.1; kv.2]) kvs) t =
    (Ok tt, set_out_queue (out_queue t ++ q) t) ∧ Forall (λ m, m = (LOADING, fd)) q ∧ length q = length kvs.
Proof.
  revert t. induction kvs as [|kv kvs IH]; intros t Hs.
  { exists []. rewrite app_nil_r. split_and!; [by destruct t|done..]. }
  set (t1 := set_out_queue (out_queue t ++ [(LOADING, fd)]) t).
  destruct (IH t1 Hs) as (q & Hq & Hf & Hl). exists ((LOADING, fd) :: q).
  unfold handle_all in *. cbn [map mfor].
  rewrite (M_bind_Ok _ _ _ _ _ (handleCommand_SET_syncing fd kv.1 kv.2 t Hs)). fold t1. rewrite Hq.
  split_and!; [unfold t1; simpl; by rewrite <- (assoc_L app)|by constructor|by simpl; rewrite Hl].
Qed.

Lemma handle_all_app fd l1 l2 t t1 :
  handle_all fd l1 t = (Ok tt, t1) → handle_all fd (l1 ++ l2) t = handle_all fd l2 t1.
Proof.
  unfold handle_all. revert t. induction l1 as [|r l1 IH]; intros t; cbn [mfor app].
  - unfold mret, M_ret. by intros [= ->].
  - intros H. apply M_bind_inv in H as ([] & t' & H1 & H2). rewrite (M_bind_Ok _ _ _ _ _ H1). by apply IH.
Qed.

(** ** Properties *)

(** What a node sends to a joining one is, as one byte stream, exactly a
    [SET] for every pair the ring assigns to it followed by the end mark; the
    joining node, being in its synchronisation phase, answers every [SET] with
    an error and stores none, and the last end mark still ends the phase: it
    then serves without the data. *)
Theorem migration_refused (target fd fd' : Z) (s t : Server) :
  Cluster_getConnection target (cluster s) = fd → fd ≠ -1 → node_hash (cluster s) ≠ [] →
  forallb resp_ok (migration target s) = true →
  syncing t = true → pending_sync_nodes t = 1 →
  ∃ s' t' msgs, Server_sendDataToNode false target s = (Ok tt, s') ∧
    out_queue s' = out_queue s ++ map (λ m, (m, fd)) msgs ∧ kvstore s' = kvstore s ∧
    feed msgs RespParser_init = Ok (migration target s, RespParser_init) ∧
    (∀ k v, request "SET" [SimpleString k; v] ∈ migration target s ↔
       (k, v) ∈ KVStore_forEach (kvstore s) ∧ Cluster_queryNode k (cluster s) = Ok target) ∧
    handle_all fd' (migration target s) t = (Ok tt, t') ∧
    kvstore t' = kvstore t ∧ aof t' = aof t ∧ syncing t' = false.
Proof.
  intros Hfd Hne Hring Hok Hs Hp.
  set (kvs := filter (owned target (cluster s)) (KVStore_forEach (kvstore s))).
  destruct (handle_sets_syncing fd' kvs t Hs) as (q & Hq & _).
  set (t1 := set_out_queue (out_queue t ++ q) t). fold t1 in Hq.
  exists (set_out_queue (out_queue s ++ map (λ r, (encode r, fd)) (migration target s)) s),
    (Server_onSyncDone t1).2, (map encode (migration target s)).
  split_and!.
  - by apply sendData_ok.
  - simpl. by rewrite map_map.
  - done.
  - erewrite feed_append; [| |done]; [|by apply append_encode_all]. done.
  - intros k v. unfold migration. rewrite elem_of_app, list_elem_of_singleton. split.
    + intros [H|H]; [|by simplify_eq]. apply list_elem_of_fmap in H as ([k' v'] & H & Hin).
      simplify_eq/=. apply list_elem_of_filter in Hin as [Ho Hin]. done.
    + intros [Hin Ho]. left. apply list_elem_of_fmap. exists (k, v). split; [done|].
      by apply list_elem_of_filter.
  - unfold migration. fold kvs. rewrite (handle_all_app _ _ _ _ _ Hq). unfold handle_all. cbn [mfor].
    by rewrite (M_bind_Ok _ _ t1 tt (Server_onSyncDone t1).2) by (by rewrite handle_SYNCDONE).
  - done.
  - done.
  - simpl. by rewrite Hp.
Qed.
End membership.

(** ** Gossip *)

(** A gossip message that fits in the cache is known from then on. *)
Lemma addGossip_found now id c :
  map_sorted (gossip_cache c) → (length (gossip_cache c) < GOSSIP_CACHE_SIZE)%nat → is_u64 now →
  Cluster_findGossip id (Cluster_addGossip now id c) = true.
Proof.
  intros Hs Hlen Hnow. unfold Cluster_findGossip, Cluster_addGossip. cbv zeta.
  set (g := filter _ _).
  assert ((length g <= GOSSIP_CACHE_SIZE)%nat) as Hg.
  { unfold g. etransitivity; [apply length_filter|]. etransitivity; [apply map_assign_length|]. lia. }
  destruct (Nat.ltb_spec GOSSIP_CACHE_SIZE (length g)); [lia|]. cbn [gossip_cache set_gossip_cache].
  unfold g. rewrite map_find_filter by auto with kvjet. rewrite map_find_assign_eq. simpl.
  rewrite decide_True; [done|]. unfold elapsed. simpl. rewrite (u64_id now), Z.sub_diag by done. done.
Qed.

Lemma broadcast_ok req s :
  broadcast req s = (Ok tt, set_out_queue (out_queue s ++
    map (λ c, (encode req, c.2)) (connections (cluster s))) s).
Proof.
  unfold broadcast. erewrite M_bind_Ok by done. generalize (connections (cluster s)). intros l.
  revert s. induction l as [|[u fd] l IH]; intros s; [rewrite app_nil_r; by destruct s|].
  cbn [mfor map]. erewrite M_bind_Ok by done. rewrite IH. simpl. by rewrite <- (assoc_L app).
Qed.

Lemma ring_add_nonempty id ring : ring_addNodeToHash id ring ≠ [].
Proof.
  intros E. assert (orbit 1 id ∈ node_points id) as Hp.
  { apply points_elem. exists 0%nat. split; [|done]. apply Nat.ltb_lt. by vm_compute. }
  pose proof (ring_add_find id ring (orbit 1 id)) as H. by rewrite E, decide_True in H.
Qed.

Section gossip.
Context (steady wall : nat → Z) (rand : nat → Z → nat → Z).

Lemma handle_NODEIN args fd s :
  Handler_handle steady wall rand (request "NODEIN" args) fd s = Handler_NODEIN wall (request "NODEIN" args) s.
Proof. unfold Handler_handle, request. simpl. erewrite M_bind_Ok by done. by rewrite andb_false_r. Qed.
Lemma handle_NODEOUT args fd s :
  Handler_handle steady wall rand (request "NODEOUT" args) fd s = Handler_NODEOUT wall (request "NODEOUT" args) s.
Proof. unfold Handler_handle, request. simpl. erewrite M_bind_Ok by done. by rewrite andb_false_r. Qed.

Lemma note_gossip_new id s :
  Cluster_findGossip id (cluster s) = false →
  note_gossip wall id s = (Ok false, set_cluster (Cluster_addGossip (wall (wall_reads s)) id (cluster s))
    (set_wall_reads (S (wall_reads s)) s)).
Proof. intros H. unfold note_gossip. erewrite M_bind_Ok by done. by rewrite H. Qed.

Lemma note_gossip_seen id s :
  Cluster_findGossip id (cluster s) = true → note_gossip wall id s = (Ok true, s).
Proof. intros H. unfold note_gossip. erewrite M_bind_Ok by done. by rewrite H. Qed.

(** The node is on the ring and in the topology; either its data or a request
    to connect to it was queued, then the rebuilding of the groups. *)
Lemma join_node_ok node n s :
  Utils_getNode node = Ok n →
  ∃ q s', join_node node s = (Ok [], s') ∧
    cluster s' = Cluster_addTopoNode n (Cluster_addNodeToHash (UUID n) (cluster s)) ∧
    kvstore s' = kvstore s ∧ out_queue s' = out_queue s ++ q ++ [(REBUILD_RAFTS, -2)] ∧
    (q = if Cluster_getConnection (UUID n) (cluster s) =? -1 then [(connect_message n, -1)]
         else map (λ r, (encode r, Cluster_getConnection (UUID n) (cluster s)))
                (migration (UUID n) (set_cluster (cluster s') s))) ∧ syncing s' = syncing s.
Proof.
  intros Hn. unfold join_node. rewrite Hn. erewrite M_bind_Ok by done. erewrite M_bind_Ok by done.
  set (fd := Cluster_getConnection (UUID n) (cluster s)).
  set (c1 := Cluster_addTopoNode n (Cluster_addNodeToHash (UUID n) (cluster s))).
  destruct (Z.eqb_spec fd (-1)) as [E|E]; cbn [negb].
  - eexists [_], _. split_and!; [done|done|done| |done|done]. simpl. by rewrite <- (assoc_L app).
  - erewrite M_bind_Ok by done. erewrite M_bind_Ok by done.
    erewrite M_bind_Ok by (apply (sendData_ok (UUID n) fd (set_cluster c1 s)); [done|done|apply ring_add_nonempty]).
    erewrite M_bind_Ok by done. eexists _, _. split_and!; [done|done|done| |done|done]. simpl.
    by rewrite <- (assoc_L app).
Qed.

(** The first delivery of an announcement. *)
Lemma nodein_first (id fd : Z) (node : RespValue) (n : CNode) (s : Server) :
  is_u64 id → Utils_getNode node = Ok n → Cluster_findGossip id (cluster s) = false →
  let req := request "NODEIN" [SimpleString (to_string id); node] in
  ∃ s' q, Handler_handle steady wall rand req fd s = (Ok [], s') ∧ kvstore s' = kvstore s ∧
    cluster s' = Cluster_addTopoNode n (Cluster_addNodeToHash (UUID n) (Cluster_addGossip (wall (wall_reads s)) id (cluster s))) ∧
    out_queue s' = out_queue s ++ map (λ c, (encode req, c.2)) (connections (cluster s)) ++
                   q ++ [(REBUILD_RAFTS, -2)] ∧
    q = (if Cluster_getConnection (UUID n) (cluster s) =? -1 then [(connect_message n, -1)]
         else map (λ r, (encode r, Cluster_getConnection (UUID n) (cluster s))) (migration (UUID n) s')) ∧
    syncing s' = syncing s.
Proof.
  intros Hid Hn Hg req. unfold req. rewrite !handle_NODEIN.
  set (s1 := set_cluster (Cluster_addGossip (wall (wall_reads s)) id (cluster s))
    (set_wall_reads (S (wall_reads s)) s)).
  set (s2 := set_out_queue (out_queue s1 ++ map (λ c, (encode req, c.2)) (connections (cluster s1))) s1).
  destruct (join_node_ok node n s2 Hn) as (q & s' & Hj & Hcl & Hkv & Hq & Hqe & Hsy).
  exists s', q. split_and!; [|done|done| | |done].
  - unfold Handler_NODEIN. erewrite M_bind_Ok by done. cbn match. rewrite to_uint64_t_to_string by done.
    rewrite (M_bind_Ok _ _ _ _ _ (note_gossip_new id s Hg)). fold s1.
    by rewrite (M_bind_Ok _ _ _ _ _ (broadcast_ok req s1)).
  - rewrite Hq. simpl. by rewrite <- (assoc_L app).
  - rewrite Hqe. change (Cluster_getConnection (UUID n) (cluster s2))
      with (Cluster_getConnection (UUID n) (cluster s)).
    unfold migration. simpl. by rewrite Hkv.
Qed.

(** Any other delivery. *)
Lemma nodein_again (id fd : Z) (node : RespValue) (s : Server) :
  is_u64 id → Cluster_findGossip id (cluster s) = true →
  Handler_handle steady wall rand (request "NODEIN" [SimpleString (to_string id); node]) fd s = (Ok [], s).
Proof.
  intros Hid Hg. rewrite handle_NODEIN. unfold Handler_NODEIN. erewrite M_bind_Ok by done. cbn match.
  rewrite to_uint64_t_to_string by done. by rewrite (M_bind_Ok _ _ s true s) by (by apply note_gossip_seen).
Qed.

(** A [NODEIN] announcement is acted on once: its first delivery is
    forwarded once to every connected node, puts the new node on the ring and in
    the topology, and queues the transfer of its data or the connection to it
    before the rebuilding of the groups; any later delivery changes nothing,
    so the flooding ends. *)
Theorem nodein_once (id fd fd' : Z) (node : RespValue) (n : CNode) (s : Server) :
  Cluster_ok (cluster s) → is_u64 id → Utils_getNode node = Ok n →
  Cluster_findGossip id (cluster s) = false →
  (length (gossip_cache (cluster s)) < GOSSIP_CACHE_SIZE)%nat → is_u64 (wall (wall_reads s)) →
  let req := request "NODEIN" [SimpleString (to_string id); node] in
  ∃ s' q, Handler_handle steady wall rand req fd s = (Ok [], s') ∧ kvstore s' = kvstore s ∧
    out_queue s' = out_queue s ++ map (λ c, (encode req, c.2)) (connections (cluster s)) ++
                   q ++ [(REBUILD_RAFTS, -2)] ∧
    q = (if Cluster_getConnection (UUID n) (cluster s) =? -1 then [(connect_message n, -1)]
         else map (λ r, (encode r, Cluster_getConnection (UUID n) (cluster s))) (migration (UUID n) s')) ∧
    map_find (UUID n) (topo (cluster s')) = Some n ∧
    (∀ p, p ∈ node_points (UUID n) → map_find p (node_hash (cluster s')) = Some (UUID n)) ∧
    Handler_handle steady wall rand req fd' s' = (Ok [], s').
Proof.
  intros Hc Hid Hn Hg Hlen Hw req. destruct (nodein_first id fd node n s Hid Hn Hg) as (s' & q & H1 & H2 & H3 & H4 & H5 & _).
  exists s', q. split_and!; [done..| | |].
  - rewrite H3. simpl. apply map_find_assign_eq.
  - intros p Hp. rewrite H3. simpl. by rewrite ring_add_find, decide_True.
  - apply nodein_again; [done|]. rewrite H3. by apply addGossip_found; [apply Hc|..].
Qed.

Lemma int_uuid_id u : is_u64 u → int_uuid u = u ↔ u < 2 ^ 31 ∨ 2 ^ 64 - 2 ^ 31 <= u.
Proof.
  unfold is_u64, int_uuid, i32, u64. intros Hu.
  pose proof (Z.div_mod (u + 2 ^ 31) (2 ^ 32)) as H1. pose proof (Z.mod_pos_bound (u + 2 ^ 31) (2 ^ 32)) as H2.
  set (r := (u + 2 ^ 31) mod 2 ^ 32) in *. set (d := (u + 2 ^ 31) / 2 ^ 32) in *.
  destruct (Z.lt_ge_cases (r - 2 ^ 31) 0).
  - replace (r - 2 ^ 31) with (r - 2 ^ 31 + 2 ^ 64 + -1 * 2 ^ 64) by lia.
    rewrite Z_mod_plus_full, Z.mod_small by lia. lia.
  - rewrite Z.mod_small by lia. lia.
Qed.

(** A [NODEOUT] announcement acted on is forwarded to every connected node
    and removes one node from the topology: the announced identifier passed
    through a 32-bit [int].  The announced node itself stays in the topology
    unless its 64-bit identifier survives that conversion. *)
Theorem nodeout_truncates (id u fd : Z) (s : Server) :
  Cluster_ok (cluster s) → is_u64 id → is_u64 u → Cluster_findGossip id (cluster s) = false →
  let req := request "NODEOUT" [SimpleString (to_string id); SimpleString (to_string u)] in
  ∃ s', Handler_handle steady wall rand req fd s = (Ok [], s') ∧ kvstore s' = kvstore s ∧
    out_queue s' = out_queue s ++ map (λ c, (encode req, c.2)) (connections (cluster s)) ∧
    topo (cluster s') = map_erase (int_uuid u) (topo (cluster s)) ∧
    (is_Some (map_find u (topo (cluster s))) →
     map_find u (topo (cluster s')) = None ↔ u < 2 ^ 31 ∨ 2 ^ 64 - 2 ^ 31 <= u).
Proof.
  intros Hc Hid Hu Hg req. unfold req. rewrite handle_NODEOUT.
  set (s1 := set_cluster (Cluster_addGossip (wall (wall_reads s)) id (cluster s))
    (set_wall_reads (S (wall_reads s)) s)).
  set (s2 := set_out_queue (out_queue s1 ++ map (λ c, (encode req, c.2)) (connections (cluster s1))) s1).
  exists (set_cluster (Cluster_delConnection (int_uuid u) (Cluster_delTopoNode (int_uuid u)
    (Cluster_delNodeToHash (int_uuid u) (cluster s2)))) s2). split.
  - unfold Handler_NODEOUT. erewrite M_bind_Ok by done. cbn match. rewrite !to_uint64_t_to_string by done.
    rewrite (M_bind_Ok _ _ _ _ _ (note_gossip_new id s Hg)). fold s1.
    rewrite (M_bind_Ok _ _ _ _ _ (broadcast_ok req s1)). done.
  - assert (∀ d c, topo (Cluster_delConnection d c) = topo c) as Hd.
    { intros d c. unfold Cluster_delConnection. by destruct (_ =? _). }
    assert (∀ d c, topo (Cluster_delTopoNode d c) = map_erase d (topo c)) as Hd'.
    { intros d c. change (map_erase d (topo (Cluster_delConnection d c)) = map_erase d (topo c)). by rewrite Hd. }
    cbn [kvstore out_queue cluster set_cluster]. rewrite Hd, Hd'.
    change (topo (Cluster_delNodeToHash _ _)) with (topo (cluster s)).
    split_and!; [done|done|done|]. intros [w Hw]. rewrite map_find_erase by apply Hc.
    rewrite <- (int_uuid_id u Hu). destruct (Z.eqb_spec u (int_uuid u)) as [E|E].
    + by rewrite <- E.
    + rewrite Hw. split; [done|]. intros E'. congruence.
Qed.
End gossip.

(** ** Witnesses *)

(** A node that stores a pair of node 1, to which it is connected. *)
Definition source : Server :=
  let s := set_cluster (Cluster_addConnection 1 9 (cluster guest)) guest in
  set_kvstore (KVStore_set (str "k") (Integer 1) (kvstore s)).2 s.
(** A node waiting for one more end mark. *)
Definition joining : Server := set_sync true 1 solo.

Lemma migration_refused_witness :
  ∃ t', length (migration 1 source) = 2%nat ∧
    handle_all (λ _, 0) (λ _, 0) (λ _ _ _, 0) 4 (migration 1 source) joining = (Ok tt, t') ∧
    kvstore t' = kvstore joining ∧ syncing t' = false.
Proof.
  destruct (migration_refused (λ _, 0) (λ _, 0) (λ _ _ _, 0) 1 9 4 source joining)
    as (s' & t' & msgs & _ & _ & _ & _ & _ & H & Hk & _ & Hs).
  - done.
  - done.
  - exact (ring_add_nonempty 1 []).
  - by vm_compute.
  - done.
  - done.
  - exists t'. split; [by vm_compute|]. split; [exact H|]. split; [exact Hk|exact Hs].
Defined.

Lemma nodein_once_witness :
  let node := node_value (mkCNode (str "10.0.0.9") 7800 9) in
  let req := request "NODEIN" [SimpleString (to_string 55); node] in
  ∃ s', Handler_handle (λ _, 0) (λ _, 0) (λ _ _ _, 0) req 4 solo = (Ok [], s') ∧
    Handler_handle (λ _, 0) (λ _, 0) (λ _ _ _, 0) req 5 s' = (Ok [], s').
Proof.
  intros node req.
  destruct (nodein_once (λ _, 0) (λ _, 0) (λ _ _ _, 0) 55 4 5 node (mkCNode (str "10.0.0.9") 7800 9) solo)
    as (s' & q & H & _ & _ & _ & _ & _ & H').
  - apply solo_server_ok.
  - done.
  - done.
  - done.
  - apply Nat.ltb_lt. by vm_compute.
  - done.
  - exists s'. split; [exact H|exact H'].
Defined.

Lemma nodeout_truncates_witness :
  let req := request "NODEOUT" [SimpleString (to_string 55); SimpleString (to_string (2 ^ 40 + 7))] in
  ∃ s', Handler_handle (λ _, 0) (λ _, 0) (λ _ _ _, 0) req 4 solo = (Ok [], s') ∧
    topo (cluster s') = map_erase 7 (topo (cluster solo)).
Proof.
  intros req. destruct (nodeout_truncates (λ _, 0) (λ _, 0) (λ _ _ _, 0) 55 (2 ^ 40 + 7) 4 solo)
    as (s' & H & _ & _ & Ht & _).
  - apply solo_server_ok.
  - done.
  - done.
  - done.
  - exists s'. split; [exact H|exact Ht].
Defined.
