(* ===== verification/Recovery.v ===== *)
(** * Recovery after a restart (AOF::recover, Server::Server, Server::snapshotLoop)

    The log is read in blocks of [AOF_BUFFER_SIZE] bytes, parsed, and every
    complete command is executed by [Handler::handle_noAOF]. *)
From Stdlib Require Import ZArith Ascii String Lia.
From stdpp Require Import base numbers list strings gmap.
From S2P Require Import Prelude CppStd RespValue RespParser StringTable HashTable LRU KVStore Snapshot AOF Ring Cluster.
From S2P Require Import Utils RaftNode Server Handler Membership.
Local Open Scope Z_scope.

(** [while (in.read(buf, sizeof(buf)) || in.gcount() > 0)]: the blocks read.
    The fuel is the length of the file: every block takes at least a byte. *)
Fixpoint read_blocks (fuel : nat) (size : nat) (s : bytes) : list bytes :=
  match fuel, s with
  | S f, _ :: _ => take size s :: read_blocks f size (drop size s)
  | _, _ => []
  end.

Section recover.
Context (steady : nat → Z).

Definition execute (cmd : RespValue) : M Server unit := _ ← Handler_handle_noAOF cmd; mret tt.

Fixpoint recover_loop (blocks : list bytes) (parser : RespParser) : M Server unit :=
  match blocks with
  | [] => mret tt
  | block :: blocks' =>
      p1 ← mlift (RespParser_append block parser);
      let '(cmds, p2) := drain p1 in
      _ ← mfor cmds execute;
      recover_loop blocks' p2
  end.

Definition AOF_recover : M Server unit :=
  s ← mget;
  let content := file (aof s) in
  recover_loop (read_blocks (length content) (Z.to_nat AOF_BUFFER_SIZE) content) RespParser_init.

(** The constructor of the server: the snapshot directory, then the log. *)
Definition Server_start (uuid : Z) (addr : bytes) (port : Z) (dir : Dir) (content : bytes)
    (files : gmap Z bytes) : res unit * Server :=
  (_ ← on_kvstore (KVStore_readfromfile dir);
   AOF_recover) (Server_new steady uuid addr port content files).

(** One round of [snapshotLoop]: the child writes the store as it was at the
    fork while other threads go on ([meanwhile]); then the log is truncated,
    whether or not [fork] succeeded. *)
Definition Server_snapshotRound (forked : bool) (meanwhile : M Server unit) (dir : option Dir)
    : M Server (option Dir) :=
  s ← mget;
  dir' ← mlift (if forked then Some <$> KVStore_writetofileFork (kvstore s) dir else Ok dir);
  _ ← meanwhile;
  _ ← on_aof (mmodify (λ a, mkAOF [] (buffer a) (last_fsync a) (clock_reads a)));
  mret dir'.
End recover.

(** ** The blocks are the file *)

Lemma read_blocks_concat fuel size s :
  (0 < size)%nat → (length s <= fuel)%nat → concat (read_blocks fuel size s) = s.
Proof.
  intros Hsz. revert s. induction fuel as [|f IH]; intros s Hl.
  { destruct s; simpl in *; [done|lia]. }
  destruct s as [|c s]; [done|]. cbn [read_blocks concat].
  rewrite IH; [apply take_drop|]. rewrite length_drop. simpl in *. lia.
Qed.

Lemma recover_loop_feed blocks p cmds p' s r :
  feed blocks p = Ok (cmds, p') → mfor cmds execute s = (Ok tt, r) → recover_loop blocks p s = (Ok tt, r).
Proof.
  revert p cmds s. induction blocks as [|b blocks IH]; intros p cmds s Hf Hr.
  { simpl in Hf. by simplify_eq. }
  simpl in Hf. destruct (RespParser_append b p) as [p1| | |] eqn:E1; try done. simpl in Hf.
  destruct (drain p1) as [vs p2] eqn:E2. apply res_bind_inv in Hf as ([vs' p3] & Hf & [= <- <-]).
  cbn [recover_loop]. rewrite E1. erewrite M_bind_Ok by done. rewrite E2.
  assert (∃ s1, mfor vs execute s = (Ok tt, s1) ∧ mfor vs' execute s1 = (Ok tt, r)) as (s1 & H1 & H2).
  { clear -Hr. revert s Hr. induction vs as [|v vs IH]; intros s Hr; [by exists s|].
    cbn [mfor app] in Hr. apply M_bind_inv in Hr as ([] & s0 & Hv & Hr).
    destruct (IH s0 Hr) as (s1 & H1 & H2). exists s1. cbn [mfor]. by rewrite (M_bind_Ok _ _ _ _ _ Hv). }
  rewrite (M_bind_Ok _ _ _ _ _ H1). by eapply IH.
Qed.

(** ** Replaying and serving insertions *)

Definition set_request (kv : bytes * RespValue) : RespValue := request "SET" [SimpleString kv.1; kv.2].

Definition insert_all (kvs : list (bytes * RespValue)) (m : gmap bytes RespValue) : gmap bytes RespValue :=
  foldl (λ m kv, <[kv.1 := kv.2]> m) m kvs.

Lemma execute_set kv s r k :
  KVStore_set kv.1 kv.2 (kvstore s) = (Ok r, k) → execute (set_request kv) s = (Ok tt, set_kvstore k s).
Proof.
  intros Hk. unfold execute. erewrite M_bind_Ok; [done|]. unfold Handler_handle_noAOF, set_request, request.
  simpl. unfold Handler_SET_noAOF. erewrite M_bind_Ok by done. cbn match.
  by rewrite (M_bind_Ok _ _ _ _ _ (on_kvstore_run _ _ _ _ Hk)).
Qed.

Lemma replay_sets kvs s :
  KVStore_ok (kvstore s) → kv_fresh (length kvs) (kvstore s) →
  ∃ k, mfor (map set_request kvs) execute s = (Ok tt, set_kvstore k s) ∧ KVStore_ok k ∧
    kv_map k = insert_all kvs (kv_map (kvstore s)).
Proof.
  revert s. induction kvs as [|kv kvs IH]; intros s Hok Hf.
  { exists (kvstore s). split_and!; [by destruct s|done..]. }
  destruct (KVStore_set_fresh (length kvs) (kvstore s) kv.1 kv.2 Hok Hf) as (k1 & H1 & Hok1 & Hf1 & Hm1).
  destruct (IH (set_kvstore k1 s) Hok1 Hf1) as (k2 & H2 & Hok2 & Hm2). exists k2. split_and!; [|done|].
  - cbn [map mfor]. by rewrite (M_bind_Ok _ _ _ _ _ (execute_set kv s _ k1 H1)).
  - simpl in Hm2. by rewrite Hm2, Hm1.
Qed.

(** A pair that a client can set and the log can carry. *)
Record settable (c : Cluster) (kv : bytes * RespValue) : Prop := {
  sb_master : Cluster_isMasterFor kv.1 c = Ok true;
  sb_text : is_ok (value_text kv.2) = true;
  sb_wire : resp_ok (set_request kv) = true
}.

Section serve.
Context (steady wall : nat → Z) (rand : nat → Z → nat → Z).

Lemma serve_sets fd kvs s :
  Server_ok s → syncing s = false → kv_fresh (length kvs) (kvstore s) → Forall (settable (cluster s)) kvs →
  ∃ s', handle_all steady wall rand fd (map set_request kvs) s = (Ok tt, s') ∧
    kv_map (kvstore s') = insert_all kvs (kv_map (kvstore s)) ∧
    logged (aof s') = logged (aof s) ++ encode_all (map set_request kvs).
Proof.
  intros Hok Hsync Hf Hset. revert s Hok Hsync Hf Hset.
  induction kvs as [|kv kvs IH]; intros s [Hkv Hc Hraft] Hsync Hf Hset.
  { exists s. by rewrite app_nil_r. }
  apply Forall_cons in Hset as [[Hm Ht _] Hset].
  destruct (KVStore_set_fresh (length kvs) (kvstore s) kv.1 kv.2 Hkv Hf) as (k1 & H1 & Hok1 & Hf1 & Hm1).
  destruct (SET_run steady wall rand kv.1 kv.2 fd s _ k1 Hraft Hsync Hm Ht H1)
    as (s1 & Hr & Hk & Hr1 & Hl & Hcl & Hs1).
  set (s1' := set_out_queue (out_queue s1 ++ [(OK, fd)]) s1).
  destruct (IH s1') as (s2 & H2 & Hm2 & Hl2).
  - constructor; simpl; [by rewrite Hk|by rewrite Hcl|done].
  - done.
  - simpl. by rewrite Hk.
  - simpl. by rewrite Hcl.
  - exists s2. split_and!.
    + unfold handle_all in *. cbn [map mfor]. rewrite (M_bind_Ok _ _ s tt s1'); [done|].
      unfold Server_handleCommand. by rewrite (M_bind_Ok _ _ _ _ _ Hr).
    + rewrite Hm2. simpl. by rewrite Hk, Hm1.
    + rewrite Hl2. simpl. rewrite Hl, encode_all_cons. by rewrite (assoc_L app).
Qed.
End serve.

Lemma set_requests_ok c kvs : Forall (settable c) kvs → forallb resp_ok (map set_request kvs) = true.
Proof. intros H. apply forallb_map_Forall. eapply Forall_impl; [done|]. intros kv Hkv. apply Hkv. Qed.

Lemma snapshot_missing (s : KVStore RespValue) :
  KVStore_readfromfile ∅ s = (Ok tt, s).
Proof.
  unfold KVStore_readfromfile. erewrite M_bind_Ok by done. generalize (seq 0 (shardCount s)). intros l.
  induction l as [|i l IH]; [done|]. cbn [mfor]. rewrite (M_bind_Ok _ _ s tt s); [done|].
  unfold read_shard. by rewrite lookup_empty.
Qed.

Lemma init_fresh n :
  (N.of_nat n <= LRU_MAX_SIZE)%N → kv_fresh n (KVStore_init SHARD_COUNT : KVStore RespValue).
Proof.
  intros Hn i sh Hi. destruct (store_of_fresh SHARD_COUNT (N.to_nat LRU_MAX_SIZE) i sh Hi) as (? & ? & Hb).
  split_and!; [done..|]. lia.
Qed.

(** The snapshot directories that a server can start on: what the constructor
    reads from them into its empty store is a well-formed store.  (A snapshot that
    holds a tombstone is not one: see [snapshot_tombstone_loses_key].) *)
Definition restorable (dir : option Dir) : Prop :=
  ∀ k, KVStore_readfromfile (default ∅ dir) (KVStore_init SHARD_COUNT) = (Ok tt, k) → KVStore_ok k.

Lemma init_store_ok : KVStore_ok (KVStore_init SHARD_COUNT : KVStore RespValue).
Proof. apply KVStore_init_ok. unfold SHARD_COUNT. lia. Qed.

Lemma restorable_missing : restorable None.
Proof. intros k H. cbn [from_option id] in H. rewrite snapshot_missing in H. injection H as <-. exact init_store_ok. Qed.

(** Every snapshot of a store without tombstones is one, whatever was there before. *)
Lemma restorable_snapshot (s : KVStore RespValue) old dir :
  KVStore_ok s → snapshot_ready s → shardCount s = SHARD_COUNT → KVStore_writetofile s old = Ok dir → restorable (Some dir).
Proof.
  intros Hok Hr Hc Hw k H. destruct (snapshot_restores s (KVStore_init SHARD_COUNT) old) as (dir' & s' & Hw' & Hr' & Hok' & _);
    [done|done|exact init_store_ok|by rewrite Hc|].
  rewrite Hw in Hw'. injection Hw' as <-. cbn [from_option id] in H. rewrite Hr' in H. by injection H as <-.
Qed.

Lemma kv_map_init n : kv_map (KVStore_init n : KVStore RespValue) = ∅.
Proof.
  unfold kv_map, KVStore_init. cbn [shards]. induction n as [|n IH]; [done|]. cbn [replicate foldr].
  rewrite IH. by rewrite (right_id_L ∅ (∪)).
Qed.

(** Replaying a log of insertions into a new server, in any number of blocks. *)
Lemma start_replays steady uuid addr port files kvs :
  forallb resp_ok (map set_request kvs) = true → (N.of_nat (length kvs) <= LRU_MAX_SIZE)%N →
  ∃ s, Server_start steady uuid addr port ∅ (encode_all (map set_request kvs)) files = (Ok tt, s) ∧
    KVStore_ok (kvstore s) ∧ kv_map (kvstore s) = insert_all kvs ∅.
Proof.
  intros Hok Hlen. set (content := encode_all (map set_request kvs)).
  set (s0 := Server_new steady uuid addr port content files).
  destruct (replay_sets kvs s0) as (k & Hr & Hkok & Hm).
  { apply KVStore_init_ok. unfold SHARD_COUNT. lia. }
  { by apply init_fresh. }
  exists (set_kvstore k s0). split_and!; [|done|].
  - unfold Server_start. rewrite (M_bind_Ok _ _ s0 tt s0).
    2:{ unfold on_kvstore, mzoom. rewrite snapshot_missing. done. }
    unfold AOF_recover. erewrite M_bind_Ok by done. change (file (aof s0)) with content.
    eapply recover_loop_feed; [|exact Hr].
    rewrite (feed_append _ _ (mkRespParser WaitType RespState_default [] (map set_request kvs)));
      [done| |done].
    rewrite read_blocks_concat; [by apply append_encode_all|unfold AOF_BUFFER_SIZE; lia|lia].
  - change (kv_map k = insert_all kvs ∅). rewrite Hm. f_equal.
Qed.

(** ** Properties *)

(** C5: what a node acknowledged survives a restart: a server that starts empty
    with an empty log and is not synchronising serves at most [LRU_MAX_SIZE]
    insertions of keys it is the master of, of values that are not nil and that
    the wire can carry, its log is flushed by the destructor, and no tick (which
    would apply them a second time, see [EventLoop.solo_set_reapplied]) and no
    snapshot comes in between: then a new server started on the log file alone,
    without a snapshot, has exactly the same contents, those of the insertions
    in order, whatever the size of the log in bytes. *)
Theorem restart_recovers (steady wall steady' : nat → Z) (rand : nat → Z → nat → Z)
    (fd uuid port : Z) (addr : bytes) (files : gmap Z bytes) (kvs : list (bytes * RespValue)) (s : Server) :
  Server_ok s → syncing s = false → kvstore s = KVStore_init SHARD_COUNT → logged (aof s) = [] →
  Forall (settable (cluster s)) kvs → (N.of_nat (length kvs) <= LRU_MAX_SIZE)%N →
  ∃ s1 a s2, handle_all steady wall rand fd (map set_request kvs) s = (Ok tt, s1) ∧
    AOF_destroy steady (aof s1) = (Ok tt, a) ∧
    Server_start steady' uuid addr port ∅ (file a) files = (Ok tt, s2) ∧
    kv_map (kvstore s2) = kv_map (kvstore s1) ∧ kv_map (kvstore s1) = insert_all kvs ∅.
Proof.
  intros Hok Hsync Hkv Hlog Hset Hlen.
  destruct (serve_sets steady wall rand fd kvs s Hok Hsync) as (s1 & H1 & Hm1 & Hl1); [|done|].
  { rewrite Hkv. by apply init_fresh. }
  destruct (AOF_flush_ok steady (aof s1)) as (a & Ha & Hf & _).
  destruct (start_replays steady' uuid addr port files kvs) as (s2 & H2 & _ & Hm2);
    [by eapply set_requests_ok|done|].
  rewrite Hkv, kv_map_init in Hm1. rewrite Hl1, Hlog in Hf.
  exists s1, a, s2. rewrite Hf. split_and!; [done|done|exact H2|congruence|done].
Qed.

(** ** Witnesses *)

Definition demo_pairs : list (bytes * RespValue) :=
  [(str "a", BulkString (Some (str "1"))); (str "b", Integer 2); (str "a", SimpleString (str "3"))].

Lemma demo_settable : Forall (settable (cluster solo)) demo_pairs.
Proof. do 3 (constructor; [constructor; vm_compute; reflexivity|]). constructor. Qed.

Lemma restart_recovers_witness :
  ∃ s1 a s2, handle_all (λ _, 0) (λ _, 0) (λ _ _ _, 0) 5 (map set_request demo_pairs) solo = (Ok tt, s1) ∧
    AOF_destroy (λ _, 0) (aof s1) = (Ok tt, a) ∧
    Server_start (λ _, 0) 8 (str "10.0.0.8") 7800 ∅ (file a) ∅ = (Ok tt, s2) ∧
    kv_map (kvstore s2) = kv_map (kvstore s1) ∧ kv_map (kvstore s1) = insert_all demo_pairs ∅.
Proof.
  apply (restart_recovers (λ _, 0) (λ _, 0) (λ _, 0) (λ _ _ _, 0) 5 8 7800 (str "10.0.0.8") ∅ demo_pairs solo).
  - apply solo_server_ok.
  - done.
  - apply solo_kvstore.
  - done.
  - apply demo_settable.
  - done.
Defined.

(** ** The snapshot and the log *)

(** One insertion acknowledged while the snapshot was being written, and
    flushed to the log. *)
Definition late_write : M Server unit :=
  _ ← handle_all (λ _, 0) (λ _, 0) (λ _ _ _, 0) 5 [set_request (str "a", Integer 1)];
  on_aof (AOF_flush (λ _, 0)).

Definition stored (key : bytes) (s : Server) : res (option RespValue) := (KVStore_get key (kvstore s)).1.

(** The log is truncated after the snapshot was taken, so what was acknowledged
    in between is in neither: the restarted server does not have it.  A failed
    [fork] truncates the log as well. *)
Theorem snapshot_window_loses_write :
  match Server_snapshotRound true late_write None solo with
  | (Ok (Some dir), s1) =>
      stored (str "a") s1 = Ok (Some (Integer 1)) ∧
      match Server_start (λ _, 0) 8 (str "10.0.0.8") 7800 dir (file (aof s1)) ∅ with
      | (Ok tt, s2) => stored (str "a") s2 = Ok None
      | _ => False
      end
  | _ => False
  end ∧
  match Server_snapshotRound false late_write None solo with
  | (Ok None, s1) => file (aof s1) = []
  | _ => False
  end.
Proof. vm_compute. repeat split. Qed.
