(* ===== verification/Invariant.v ===== *)
(** * What every call of the server keeps

    The invariant of the server's state: tables, maps and Raft members are well
    formed, the gossip cache is bounded, the node keeps its identity, groups are
    filed under their own number and hold nothing unsent, and the masters map
    names groups that exist.  Every component keeps its part whatever the
    outcome of the call, and the handlers reach undefined behaviour exactly in
    the cases that [undefined_request] lists. *)
From Stdlib Require Import ZArith Ascii String Lia.
From stdpp Require Import base numbers list strings gmap.
From S2P Require Import Prelude CppStd RespValue RespParser StringTable HashTable LRU KVStore Snapshot AOF Ring Cluster.
From S2P Require Import Utils RaftNode Server Handler Membership Recovery.
Local Open Scope Z_scope.

(** ** The cluster *)

Record Cluster_inv (self : CNode) (c : Cluster) : Prop := {
  ci_ok : Cluster_ok c;
  ci_self : self_node c = self;
  ci_gossip : (length (gossip_cache c) <= GOSSIP_CACHE_SIZE)%nat
}.

Section cluster.
Context (self : CNode).
Implicit Types c : Cluster.

Lemma inv_addNodeToHash uuid c : Cluster_inv self c → Cluster_inv self (Cluster_addNodeToHash uuid c).
Proof. intros [[] ? ?]. constructor; [constructor|done..]; simpl; eauto with kvjet. Qed.
Lemma inv_delNodeToHash uuid c : Cluster_inv self c → Cluster_inv self (Cluster_delNodeToHash uuid c).
Proof. intros [[] ? ?]. constructor; [constructor|done..]; simpl; eauto with kvjet. Qed.
Lemma inv_addTopoNode n c : Cluster_inv self c → Cluster_inv self (Cluster_addTopoNode n c).
Proof. intros [[] ? ?]. constructor; [constructor|done..]; simpl; eauto with kvjet. Qed.
Lemma inv_addConnection uuid fd c : Cluster_inv self c → Cluster_inv self (Cluster_addConnection uuid fd c).
Proof. intros [? ? ?]. constructor; [by apply addConnection_ok|done..]. Qed.
Lemma inv_delConnection uuid c : Cluster_inv self c → Cluster_inv self (Cluster_delConnection uuid c).
Proof.
  intros [? <- Hg]. constructor; [by apply delConnection_ok| |]; unfold Cluster_delConnection; by destruct (_ =? -1).
Qed.
Lemma inv_delTopoNode uuid c : Cluster_inv self c → Cluster_inv self (Cluster_delTopoNode uuid c).
Proof.
  intros Hc. pose proof (inv_delConnection uuid c Hc) as [? <- Hg].
  constructor; [by apply delTopoNode_ok; destruct Hc|done..].
Qed.
Lemma inv_updateHeartbeat now fd c : Cluster_inv self c → Cluster_inv self (Cluster_updateHeartbeat now fd c).
Proof.
  intros [? <- Hg]. constructor; [by apply updateHeartbeat_ok| |]; unfold Cluster_updateHeartbeat; by case_match.
Qed.
Lemma inv_remove_dead uuid c : Cluster_inv self c → Cluster_inv self (remove_dead uuid c).
Proof. intros Hc. by apply inv_delTopoNode, inv_delNodeToHash. Qed.

Lemma inv_addGossip now uuid c : Cluster_inv self c → Cluster_inv self (Cluster_addGossip now uuid c).
Proof.
  intros [Hc <- Hg]. constructor; [by apply addGossip_ok|done|]. simpl.
  set (P := λ e : Z * Z, elapsed now e.2 <= GOSSIP_TIMEOUT_MS).
  pose proof (map_assign_length uuid (u64 now) (gossip_cache c)) as H1.
  pose proof (length_filter P (map_assign uuid (u64 now) (gossip_cache c))) as H2.
  destruct (Nat.ltb_spec GOSSIP_CACHE_SIZE (length (filter P (map_assign uuid (u64 now) (gossip_cache c))))); [|lia].
  destruct (filter P _); simpl in *; lia.
Qed.
End cluster.
#[export] Hint Resolve inv_addNodeToHash inv_delNodeToHash inv_addTopoNode inv_addConnection inv_delConnection
  inv_delTopoNode inv_updateHeartbeat inv_remove_dead inv_addGossip : kvjet.

(** ** A Raft member *)

(** The identity of the member, and the tables that a leader keeps. *)
Record node_inv (gid : Z) (self : Z) (ps : list Z) (n : RaftNode) : Prop := {
  ni_gid : groupId_ n = gid;
  ni_self : selfId n = self;
  ni_peers : peers n = ps;
  ni_next : state_ n = Leader → length (nextIndex n) = length ps;
  ni_match : state_ n = Leader → length (matchIndex n) = length ps
}.

Section node.
Context (rand : nat → Z) (gid self : Z) (ps : list Z).
Implicit Types n : RaftNode.
#[local] Notation inv := (node_inv gid self ps).

Lemma inv_sendCb ub tgt msg n : inv n → after ub inv (sendCb tgt msg) n.
Proof. intros []. by apply after_modify. Qed.
Lemma inv_resetElectionTimer ub n : inv n → after ub inv (resetElectionTimer rand) n.
Proof. intros []. by apply after_modify. Qed.
Lemma inv_becomeFollower ub term n : inv n → after ub inv (becomeFollower rand term) n.
Proof.
  intros []. split; [done|]. by constructor.
Qed.
Lemma inv_becomeCandidate ub n : inv n → after ub inv (becomeCandidate rand) n.
Proof. intros []. split; [done|]. by constructor. Qed.
Lemma inv_becomeLeader ub n : inv n → after ub inv becomeLeader n.
Proof. intros [? ? Hp ? ?]. apply after_modify. constructor; simpl; try done; intros _; by rewrite length_replicate, Hp. Qed.
Lemma inv_appendToDisk ub e n : inv n → after ub inv (appendToDisk e) n.
Proof. intros []. split; [done|]. rewrite appendToDisk_eq. cbv zeta. cbn [snd]. destruct (_ <=? _); by constructor. Qed.
Lemma inv_flushDisk ub n : inv n → after ub inv flushDisk n.
Proof. intros []. apply after_modify. destruct (diskBuf_ n); by constructor. Qed.
Lemma inv_rewriteDisk ub n : inv n → after ub inv rewriteDisk n.
Proof. intros []. by apply after_modify. Qed.
Lemma inv_set_log ub l n : inv n → after ub inv (mput (set_log l n)) n.
Proof. intros []. by apply after_put. Qed.

Lemma inv_sendAppendEntries ub peer n : inv n → (ub = true ∨ leader_ready n ∧ state_ n = Leader) → after ub inv (sendAppendEntries peer) n.
Proof.
  intros Hn Hub. unfold sendAppendEntries. apply after_get.
  destruct (Nat.leb_spec (length (peers n)) (peerIndex peer n)); [by apply after_ret|].
  destruct (nextIndex n !! peerIndex peer n) eqn:E; [by apply inv_sendCb|].
  destruct Hub as [?|[Hr Hl]]; [by apply after_ub|]. apply lookup_ge_None in E. specialize (Hr Hl). lia.
Qed.

Lemma inv_push_entry term idx cmd n : inv n → after true inv (push_entry term idx cmd) n.
Proof.
  intros Hn. unfold push_entry. apply after_get. case_match; [|done].
  apply after_bind; [by apply inv_set_log|]. intros _ n' _ Hn'. by apply inv_appendToDisk.
Qed.

Lemma inv_append_entry term idx cmd t n : inv n → after true inv (append_entry term idx cmd t) n.
Proof.
  intros Hn. unfold append_entry. apply after_get. apply after_bind.
  - case_match; [|done]. apply after_lift_bind; [done..|]. intros lt _. case_match; [done|].
    apply after_bind; [by apply inv_set_log|done].
  - intros t' n' _ Hn'. apply after_bind; [by apply inv_push_entry|done].
Qed.

Lemma inv_append_entries term prevIdx i cmds t n : inv n → after true inv (append_entries term prevIdx i cmds t) n.
Proof.
  revert i t n. induction cmds as [|cmd cmds IH]; intros i t n Hn; [done|]. cbn [append_entries].
  apply after_bind; [by apply inv_append_entry|]. intros t' n' _ Hn'. by apply IH.
Qed.

Lemma inv_handleAppendEntries from raw n : inv n → after true inv (handleAppendEntries rand from raw) n.
Proof.
  intros Hn. unfold handleAppendEntries. case_match; [done|].
  do 4 (apply after_lift_bind; [done..|]; intros ? _). apply after_get. case_match; [by apply inv_sendCb|].
  apply after_bind; [case_match; [by apply inv_becomeFollower|done]|]. intros _ n1 _ Hk1.
  apply after_bind; [by apply inv_resetElectionTimer|]. intros _ n2 _ Hk2. apply after_get.
  apply after_lift_bind; [done..|]. intros [] _; [by apply inv_sendCb|].
  apply after_bind.
  { case_match; [|done]. apply after_lift_bind; [done..|]. intros cnt _. by apply inv_append_entries. }
  intros t n3 _ Hk3. apply after_bind; [destruct t; [by apply inv_rewriteDisk|done]|]. intros _ n4 _ Hk4.
  apply after_bind; [apply after_modify; destruct Hk4; by case_match|]. intros _ n5 _ Hk5. apply after_get. by apply inv_sendCb.
Qed.

Lemma inv_advanceCommitIndex n : inv n → after true inv advanceCommitIndex n.
Proof.
  intros Hn. unfold advanceCommitIndex. apply after_get. case_match; [|by apply after_ub]. case_match; [|done].
  apply after_lift_bind; [done..|]. intros t _. destruct Hn. by case_match.
Qed.

Lemma inv_handleAppendEntriesReply from raw n : inv n → after true inv (handleAppendEntriesReply rand from raw) n.
Proof.
  intros Hn. unfold handleAppendEntriesReply. apply after_get. case_decide as Hs; [done|]. case_match; [done|].
  do 3 (apply after_lift_bind; [done..|]; intros ? _). case_match; [by apply inv_becomeFollower|].
  case_match; [done|]. destruct Hn as [? ? ? Hk4 Hk5]. assert (inv n) as Hn by done.
  case_match; [|by apply after_ub]. case_match; [|by apply after_ub]. case_match.
  - apply after_bind; [|intros _ n' _ Hn'; by apply inv_advanceCommitIndex]. apply after_put.
    constructor; simpl; try done; intros Hl; rewrite length_insert; auto.
  - apply after_bind; [|intros _ n' _ Hn'; apply inv_sendAppendEntries; [done|by left]]. apply after_put.
    case_match; [|done]. constructor; simpl; try done. intros Hl. rewrite length_insert. auto.
Qed.

(** The acknowledgements that a leader reads, or indexes its log with, out of
    range: exactly four parts behind the test [size() < 4] and a readable term, or
    a peer's success whose number makes the median point behind the log. *)
Definition ack_undefined (from : Z) (raw : bytes) (n : RaftNode) : bool :=
  let parts := parseParts raw in let pi := peerIndex from n in
  bool_decide (state_ n = Leader) && (4 <=? length parts)%nat &&
  match part_u64 parts 2, parts !! 4%nat with
  | Ok _, None => true
  | Ok term, Some p4 =>
      match stoull p4 with
      | Ok matchIdx =>
          (term <=? currentTerm n) && (pi <? length (peers n))%nat && bool_decide (parts !! 3%nat = Some (str "1")) &&
          match sort_desc (<[pi := matchIdx]> (matchIndex n) ++ [lastLogIndex n]) !! (length (peers n) / 2)%nat with
          | Some newCommit => (commitIndex n <? newCommit) && bool_decide (log n !! Z.to_nat newCommit = None)
          | None => false
          end
      | _ => false
      end
  | _, _ => false
  end.

Lemma length_insert_desc x l : length (insert_desc x l) = S (length l).
Proof. induction l as [|y l IH]; [done|]. simpl. case_match; simpl; by rewrite ?IH. Qed.
Lemma length_sort_desc l : length (sort_desc l) = length l.
Proof. induction l as [|x l IH]; [done|]. simpl. by rewrite length_insert_desc, IH. Qed.

(** The outcome of an acknowledgement is one or the other. *)
Definition outcome_is {A} (ub : bool) (r : res A) : Prop := if ub then r = UB else defined r.

Lemma advance_outcome n :
  length (matchIndex n) = length (peers n) →
  outcome_is (match sort_desc (matchIndex n ++ [lastLogIndex n]) !! (length (peers n) / 2)%nat with
    | Some newCommit => (commitIndex n <? newCommit) && bool_decide (log n !! Z.to_nat newCommit = None)
    | None => false end) (advanceCommitIndex n).1.
Proof.
  intros Hl. unfold advanceCommitIndex. erewrite M_bind_Ok by done. cbv zeta. rewrite Nat.add_sub.
  destruct (sort_desc _ !! _) as [newCommit|] eqn:E.
  2:{ apply lookup_ge_None in E. rewrite length_sort_desc, length_app, Hl in E. cbn [length] in E.
      assert (length (peers n) / 2 <= length (peers n))%nat by (apply Nat.Div0.div_le_upper_bound; lia). lia. }
  destruct (commitIndex n <? newCommit); [|done]. cbn [andb]. unfold log_term.
  destruct (log n !! Z.to_nat newCommit) as [e|]; [|done]. unfold outcome_is. rewrite bool_decide_eq_false_2 by done.
  erewrite M_bind_Ok by done. by case_match.
Qed.

Lemma ack_outcome from raw n : inv n → outcome_is (ack_undefined from raw n) (handleAppendEntriesReply rand from raw n).1.
Proof.
  intros Hn. unfold handleAppendEntriesReply, ack_undefined. erewrite M_bind_Ok by done. cbv zeta.
  destruct (decide (state_ n = Leader)) as [Hs|Hs].
  2:{ rewrite bool_decide_eq_false_2 by done. by rewrite decide_True. }
  rewrite bool_decide_eq_true_2 by done. rewrite decide_False by (intros H; by apply H). cbn [andb].
  destruct (Nat.ltb_spec (length (parseParts raw)) 4) as [Hp|Hp].
  { by rewrite (proj2 (Nat.leb_gt 4 _)) by done. }
  rewrite (proj2 (Nat.leb_le 4 _)) by done. cbn [andb].
  pose proof (tame_part_u64 (parseParts raw) 2) as H2.
  destruct (part_u64 (parseParts raw) 2) as [term|e| |]; [|done|by destruct H2; lia|by destruct H2; lia].
  erewrite M_bind_Ok by done. unfold part_u64 at 1, part.
  destruct (lookup_lt_is_Some_2 (parseParts raw) 3) as [p3 E3]; [lia|]. rewrite E3. erewrite M_bind_Ok by done.
  destruct (parseParts raw !! 4%nat) as [p4|]; [|done]. cbn [mbind res_bind].
  destruct (stoull_outcome p4) as [[m Em]|[Em|Em]]; rewrite Em; [|done..]. erewrite M_bind_Ok by done.
  destruct (Z.ltb_spec (currentTerm n) term) as [Ht|Ht].
  { by rewrite (proj2 (Z.leb_gt term _)) by lia. }
  rewrite (proj2 (Z.leb_le term _)) by lia. cbn [andb].
  destruct (Nat.leb_spec (length (peers n)) (peerIndex from n)) as [Hpi|Hpi].
  { by rewrite (proj2 (Nat.ltb_ge _ _)) by lia. }
  rewrite (proj2 (Nat.ltb_lt _ _)) by lia. cbn [andb].
  destruct Hn as [Hk1 Hk2 Hk3 Hk4 Hk5]. specialize (Hk4 Hs). specialize (Hk5 Hs). rewrite <- Hk3 in Hk4, Hk5.
  destruct (lookup_lt_is_Some_2 (nextIndex n) (peerIndex from n)) as [next ->]; [lia|].
  destruct (lookup_lt_is_Some_2 (matchIndex n) (peerIndex from n)) as [mi ->]; [lia|].
  destruct (decide (p3 = str "1")) as [->|Hne].
  - rewrite !bool_decide_eq_true_2 by done. cbn [andb]. erewrite M_bind_Ok by done.
    match goal with |- outcome_is _ (advanceCommitIndex ?n').1 => apply (advance_outcome n') end.
    simpl. by rewrite length_insert.
  - rewrite !bool_decide_eq_false_2 by congruence. cbn [andb]. erewrite M_bind_Ok by done.
    match goal with |- outcome_is _ (sendAppendEntries _ ?n').1 =>
      destruct (send_entries_total from n') as (msgs & ->); [|done] end.
    case_match; [|by rewrite Hk4]. cbn [nextIndex peers set_nextIndex]. by rewrite length_insert.
Qed.

Lemma inv_handleRequestVote from raw n : inv n → after true inv (handleRequestVote rand from raw) n.
Proof.
  intros Hn. unfold handleRequestVote. case_match; [done|].
  do 3 (apply after_lift_bind; [done..|]; intros ? _). apply after_get. case_match; [by apply inv_sendCb|].
  apply after_bind; [case_match; [by apply inv_becomeFollower|done]|]. intros _ n1 _ Hk1. apply after_get.
  case_match; [|by apply inv_sendCb]. apply after_bind; [apply after_put; by destruct Hk1|]. intros _ n2 _ Hk2.
  apply after_bind; [by apply inv_resetElectionTimer|]. intros _ n3 _ Hk3. by apply inv_sendCb.
Qed.

Lemma inv_handleRequestVoteReply from raw n : inv n → after true inv (handleRequestVoteReply rand from raw) n.
Proof.
  intros Hn. unfold handleRequestVoteReply. apply after_get. case_decide; [done|]. case_match; [done|].
  do 2 (apply after_lift_bind; [done..|]; intros ? _). case_match; [by apply inv_becomeFollower|].
  case_match; [|done]. apply after_bind; [apply after_put; by destruct Hn|]. intros _ n1 _ Hk1. apply after_get.
  case_match; [by apply inv_becomeLeader|done].
Qed.

Lemma inv_step from raw n : inv n → after true inv (RaftNode_step rand from raw) n.
Proof.
  intros Hn. unfold RaftNode_step. case_match; [done|].
  repeat case_decide; eauto using inv_handleAppendEntries, inv_handleAppendEntriesReply, inv_handleRequestVote,
    inv_handleRequestVoteReply, after_ret.
Qed.

Lemma inv_send_all n : inv n → state_ n = Leader → after false inv (mfor (peers n) sendAppendEntries) n.
Proof.
  intros Hn Hl. destruct (send_all_total (peers n) n) as (msgs & Hr).
  { rewrite (ni_next _ _ _ _ Hn Hl). by rewrite (ni_peers _ _ _ _ Hn). }
  unfold after. rewrite Hr. split; [done|]. destruct Hn. by constructor.
Qed.

Lemma inv_tick n : inv n → after false inv (RaftNode_tick rand) n.
Proof.
  intros Hn. unfold RaftNode_tick. apply after_bind; [by apply inv_flushDisk|]. intros _ n1 _ Hk1. apply after_get.
  case_decide as Hl.
  - apply after_bind; [apply after_modify; by destruct Hk1|]. intros [] n2 E Hk2. apply after_get.
    assert (state_ n2 = Leader) as Hl2 by (by injection E as <-). clear E Hk1 Hl.
    case_match; [|done]. apply after_bind; [apply after_modify; by destruct Hk2|]. intros [] n3 E Hk3.
    assert (peers n2 = peers n3 ∧ state_ n3 = Leader) as [-> Hl3] by (by injection E as <-). by apply inv_send_all.
  - apply after_bind; [apply after_modify; by destruct Hk1|]. intros _ n2 _ Hk2. apply after_get.
    case_match; [|done]. apply after_bind; [by apply inv_becomeCandidate|]. intros _ n3 _ Hk3.
    unfold sendRequestVote. apply after_get. apply after_mfor; [|done]. intros p n4 _ Hk4. apply after_get.
    by apply inv_sendCb.
Qed.

Lemma propose_append_leader cmd e n n1 : propose_append cmd n = (Ok (Some e), n1) → state_ n1 = Leader.
Proof.
  unfold propose_append. intros E. apply M_bind_inv in E as (n0 & n2 & [= -> ->] & E). revert E.
  destruct (decide (state_ n2 ≠ Leader)) as [|Hl%dec_stable]; [done|]. intros E.
  apply M_bind_inv in E as ([] & n3 & [= <-] & E). apply M_bind_inv in E as ([] & n4 & [= <-] & [= _ <-]).
  by case_match.
Qed.

Lemma inv_propose cmd n : inv n → after false inv (RaftNode_propose cmd) n.
Proof.
  intros Hn. unfold RaftNode_propose. apply after_bind.
  { unfold propose_append. apply after_get. case_decide; [done|]. apply after_bind; [by apply inv_set_log|].
    intros _ n1 _ Hk1. apply after_bind; [|done]. apply after_modify. destruct (peers n1); [|done]. by destruct Hk1. }
  intros [e|] n1 E Hk1; [|done]. apply propose_append_leader in E.
  apply after_bind; [by apply inv_appendToDisk|]. intros [] n2 E2 Hk2. unfold propose_send. apply after_get.
  apply inv_send_all; [done|]. revert E2. rewrite appendToDisk_eq. cbv zeta. intros [= <-]. by destruct (_ <=? _).
Qed.

Lemma inv_take_loop todo result n : inv n → after false inv (take_loop todo result) n.
Proof.
  revert result n. induction todo as [|todo IH]; intros result n Hn; [done|]. cbn [take_loop].
  apply after_bind; [apply after_modify; by destruct Hn|]. intros _ n1 _ Hk1. apply after_get. by apply IH.
Qed.

Lemma inv_takePendingApply n : inv n → after false inv takePendingApply n.
Proof. intros Hn. unfold takePendingApply. apply after_get. by apply inv_take_loop. Qed.

Lemma inv_init file n : RaftNode_init rand gid self ps file = (Ok tt, n) → inv n ∧ sent n = [].
Proof.
  unfold RaftNode_init. intros E. apply M_bind_inv in E as ([] & n1 & [= <-] & E).
  apply M_bind_inv in E as ([] & n2 & El & E).
  set (J := λ n, groupId_ n = gid ∧ selfId n = self ∧ peers n = ps ∧ sent n = [] ∧ state_ n = Follower).
  assert (J n2) as (H1 & H2 & H3 & H4 & H5).
  { assert (Hload : ∀ m, J m → after true J loadFromDisk m); [|apply (f_equal snd) in El; cbn [snd] in El; rewrite <- El; by apply Hload].
    intros m Hm.
    unfold loadFromDisk. apply after_get. destruct (logFile_ m); [|by apply after_ret]. apply after_lift_bind; [done|done|]. intros es _.
    apply after_bind; [by apply after_modify|]. intros _ n3 _ H3. apply after_bind; [|by intros; apply after_modify].
    apply after_modify. destruct (log n3); [done|]. by destruct (_ =? 0). }
  destruct ps as [|p ps'].
  - injection E as <-. split; [|done]. constructor; simpl; try done; intros _; by rewrite H3.
  - injection E as <-. split; [|done]. constructor; simpl; try done; rewrite H5; done.
Qed.

(** Only an acknowledgement can be read out of bounds. *)
Lemma step_defined from raw n :
  head (parseParts raw) ≠ Some (str "RAFT_AER") → defined (RaftNode_step rand from raw n).1.
Proof.
  intros Hh. assert (tame (RaftNode_step rand from raw n).1 → defined (RaftNode_step rand from raw n).1) as Hd
    by (by destruct (RaftNode_step rand from raw n).1).
  apply Hd. unfold RaftNode_step. destruct (parseParts raw) as [|p0 ?]; [done|]. simpl in Hh.
  repeat case_decide; try done; try congruence.
  - apply tame_handleAppendEntries.
  - apply tame_handleRequestVote.
  - apply tame_handleRequestVoteReply.
Qed.
End node.

Lemma load_lines_defined ls : defined (load_lines ls).
Proof.
  induction ls as [|l ls IH]; [done|]. cbn [load_lines]. destruct (split_space l) as [[a b]|]; [|done].
  destruct (stoull_outcome a) as [[z ->]|[->| ->]]; [|done..]. simpl. by destruct (load_lines ls).
Qed.

Lemma init_defined rand gid self ps file : defined (RaftNode_init rand gid self ps file).1.
Proof.
  unfold RaftNode_init. set (J := λ n : RaftNode, True).
  assert (∀ n, after false J loadFromDisk n) as Hload.
  { intros n. unfold loadFromDisk. apply after_get. destruct (logFile_ n); [|done].
    apply after_lift_bind; [intros _; apply load_lines_defined|done|done]. }
  eapply (after_bind false J); [done| |done]. intros _ n _ _. apply after_bind; [apply Hload|].
  intros _ n1 _ _. by destruct ps.
Qed.

(** ** The log

    File and buffer each hold whole commands that the parser can read back;
    all of them insertions, as no [DEL] gets as far as the log. *)
Definition insertions (kvs : list (bytes * RespValue)) (b : bytes) : Prop :=
  b = encode_all (map set_request kvs) ∧ forallb resp_ok (map set_request kvs) = true.
Definition commands (b : bytes) : Prop := ∃ kvs, insertions kvs b.
Record log_ok (a : AOF) : Prop := { lo_file : commands (file a); lo_buffer : commands (buffer a) }.

Lemma commands_nil : commands [].
Proof. by exists []. Qed.
Lemma commands_app b c : commands b → commands c → commands (b ++ c).
Proof.
  intros (vs & -> & Hv) (ws & -> & Hw). exists (vs ++ ws). split; rewrite map_app; [by rewrite encode_all_app|].
  by rewrite forallb_app, Hv, Hw.
Qed.
Lemma commands_one kv : resp_ok (set_request kv) = true → commands (encode (set_request kv)).
Proof. intros Hv. exists [kv]. split; cbn [map]; [by rewrite encode_all_cons, app_nil_r|]. cbn [forallb]. by rewrite Hv. Qed.

Section log.
Context (steady : nat → Z).

Lemma log_flush ub a : log_ok a → after ub log_ok (AOF_flush steady) a.
Proof. intros []. split; [done|]. constructor; [by apply commands_app|apply commands_nil]. Qed.

Lemma log_append ub kv a : resp_ok (set_request kv) = true → log_ok a → after ub log_ok (AOF_append steady (set_request kv)) a.
Proof.
  intros Hv [Hf Hb]. unfold AOF_append, AOF_append_text. apply after_bind; [by apply after_get|]. intros now a1 [= _ <-] [Hf1 Hb1].
  apply after_bind; [apply after_modify; constructor; [done|apply commands_app; [done|by apply commands_one]]|].
  intros _ a2 _ Ha2. apply after_get. case_match; [by apply log_flush|done].
Qed.
End log.

(** ** The server *)

Record Server_inv (self : CNode) (run : bool) (s : Server) : Prop := {
  si_running : running s = run;
  si_kv : KVStore_ok (kvstore s);
  si_log : log_ok (aof s);
  si_cluster : Cluster_inv self (cluster s);
  si_groups : ∀ gid n, Server_getRaftGroup gid s = Some n →
    node_inv gid (UUID self) (peers n) n ∧ sent n = [];
  si_masters : ∀ u g, map_find u (masterToGroup s) = Some g → is_Some (Server_getRaftGroup g s);
  si_sorted : map_sorted (raft_groups s) ∧ map_sorted (masterToGroup s) ∧ map_sorted (groupMembers_ s)
}.

Section server.
Context (self : CNode) (run ub : bool).
Implicit Types s : Server.
#[local] Notation inv := (Server_inv self run).

Lemma inv_ready s : inv s → raft_ready s.
Proof.
  intros [] gid n Hn Hl. destruct (si_groups0 gid n Hn) as [[] _]. auto.
Qed.

Lemma inv_server_ok s : inv s → Server_ok s.
Proof. intros Hs. pose proof (inv_ready s Hs). destruct Hs as [? ? ? [? ? ?] ? ? ?]. by constructor. Qed.

(** Parts of the state that the invariant does not look at. *)
Lemma inv_frame s s' :
  inv s → running s' = running s → kvstore s' = kvstore s → aof s' = aof s → cluster s' = cluster s → raft_groups s' = raft_groups s →
  masterToGroup s' = masterToGroup s → groupMembers_ s' = groupMembers_ s → inv s'.
Proof.
  intros [H0 H1 H2 H3 H4 H5 H6] E0 E1 E2 E3 E4 E5 E6. constructor; unfold Server_getRaftGroup in *; rewrite ?E0, ?E1, ?E2, ?E3, ?E4, ?E5, ?E6; done.
Qed.

Lemma inv_on_cluster f s : inv s → Cluster_inv self (f (cluster s)) → after ub inv (on_cluster f) s.
Proof. intros [] Hc. apply after_modify. by constructor. Qed.

Lemma inv_on_kvstore {A} (m : M (KVStore RespValue) A) s :
  inv s → after ub KVStore_ok m (kvstore s) → after ub inv (on_kvstore m) s.
Proof. intros [] Hm. eapply after_zoom; [|exact Hm]. by constructor. Qed.

Lemma inv_on_aof {A} (m : M AOF A) s : inv s → after ub log_ok m (aof s) → after ub inv (on_aof m) s.
Proof. intros [] Hm. eapply after_zoom; [|exact Hm]. by constructor. Qed.

Lemma inv_push held msg fd s : inv s → (held = true → ub = true) → after ub inv (push_queue held msg fd) s.
Proof.
  intros Hs Hh. destruct held; [by apply after_ub; auto|]. apply after_modify. by apply (inv_frame s).
Qed.

Lemma inv_wall wall s : inv s → after ub inv (wall_now wall) s.
Proof. intros Hs. apply after_get. apply after_bind; [|done]. apply after_put. by apply (inv_frame s). Qed.

Lemma inv_raftSend held msg s : inv s → (held = true → ub = true) → after ub inv (Server_raftSend held msg) s.
Proof. intros Hs Hh. unfold Server_raftSend. apply after_get. case_match; [done|]. by apply inv_push. Qed.

Lemma inv_set_group gid n s :
  inv s → is_Some (Server_getRaftGroup gid s) → node_inv gid (UUID self) (peers n) n →
  inv (set_raft (map_assign gid (RaftNode.set_sent [] n) (raft_groups s)) (masterToGroup s) (groupMembers_ s) s).
Proof.
  intros [H0 H1 Hlog H2 H3 H4 (H5 & H6 & H7)] Hg Hn. constructor; try done.
  - intros g m. unfold Server_getRaftGroup. simpl. rewrite map_find_assign.
    destruct (Z.eqb_spec g gid) as [->|]; [|apply H3]. intros [= <-]. split; [|done]. destruct Hn. by constructor.
  - intros u g Hu. unfold Server_getRaftGroup. simpl. rewrite map_find_assign. destruct (g =? gid); [done|].
    by apply (H4 u).
  - split_and!; [by apply map_assign_sorted|done..].
Qed.

Lemma inv_on_group {A} held gid (m : M RaftNode A) s :
  inv s → (held = true → ub = true) →
  (∀ n, Server_getRaftGroup gid s = Some n → after ub (node_inv gid (UUID self) (peers n)) m n) →
  after ub inv (on_group held gid m) s.
Proof.
  intros Hs Hh Hm. unfold on_group. apply after_get. destruct (Server_getRaftGroup gid s) as [n|] eqn:E; [|done].
  destruct (Hm n eq_refl) as [Hd Hn]. destruct (m n) as [r n']. simpl in *.
  apply after_bind.
  { apply after_put, inv_set_group; [done|by rewrite E|]. by rewrite (ni_peers _ _ _ _ Hn). }
  intros _ s1 _ Hs1. apply after_bind; [apply after_mfor; [intros msg s2 _ Hs2; by apply inv_raftSend|done]|].
  intros _ s2 _ Hs2. apply after_lift_bind; done.
Qed.

(** *** Rebuilding the groups *)

Lemma inv_close_groups s : inv s → inv (close_groups s).
Proof.
  intros [H0 H1 Hlog H2 H3 H4 H5]. constructor; try done. by split_and!; constructor.
Qed.

Lemma inv_add_group rand ids i self_uuid offset s :
  self_uuid = UUID self → inv s → after ub inv (add_group rand ids i self_uuid offset) s.
Proof.
  intros -> Hs. unfold add_group. apply after_get.
  set (gi := group_index i (length ids) offset). set (gid := Z.of_nat gi). set (ms := group_nodes ids gi).
  destruct (RaftNode_init _ _ _ _ _) as [r n] eqn:E.
  pose proof (init_defined (rand (rebuilds s) gid) gid (UUID self) (group_peers (UUID self) ms) (raft_files s !! gid)) as Hd.
  rewrite E in Hd. apply after_lift_bind; [done|done|]. intros [] ->. apply after_put.
  apply inv_init in E as [Hn Hse]. destruct Hs as [H0 H1 Hlog H2 H3 H4 (H5 & H6 & H7)].
  assert (∀ g, is_Some (map_find g (raft_groups s)) → is_Some (map_find g (map_emplace gid n (raft_groups s)))) as Hmono.
  { intros g Hg. rewrite map_find_emplace. by destruct (g =? gid). }
  constructor; try done; unfold Server_getRaftGroup in *; cbn [raft_groups masterToGroup set_raft groupMembers_].
  - intros g m. rewrite map_find_emplace. destruct (Z.eqb_spec g gid) as [->|]; [|apply H3].
    destruct (map_find gid (raft_groups s)) as [w|] eqn:Ew; simpl; intros [= <-]; [by apply H3|].
    split; [|done]. by rewrite (ni_peers _ _ _ _ Hn).
  - intros u g. rewrite map_find_assign. destruct (u =? ids !!! gi).
    + intros [= <-]. rewrite map_find_emplace, Z.eqb_refl. done.
    + intros Hu. by apply Hmono, (H4 u).
  - split_and!; [by apply map_emplace_sorted|by apply map_assign_sorted..].
Qed.

Lemma inv_initRaftGroups rand s : inv s → after ub inv (Server_initRaftGroups rand) s.
Proof.
  intros Hs. unfold Server_initRaftGroups. apply after_get. destruct (map fst (topo (cluster s))) as [|u ids]; [done|].
  apply after_bind; [by apply after_modify, inv_close_groups|]. intros _ s1 _ Hs1.
  apply after_bind.
  { apply after_mfor; [|done]. intros uid s2 _ Hs2. apply inv_on_cluster; [done|]. apply inv_addNodeToHash, Hs2. }
  intros _ s2 _ Hs2. apply after_mfor; [|done]. intros o s3 _ Hs3. apply inv_add_group; [|done].
  by rewrite (ci_self _ _ (si_cluster _ _ _ Hs)).
Qed.
End server.

(** ** The handlers *)

Definition nil_bulk (v : RespValue) : bool := match v with BulkString None => true | _ => false end.

(** The writes that reach undefined behaviour: [SET] of a nil bulk string and
    every [DEL] on the master of the key; either of them when the ring is
    empty. *)
Definition undefined_write (c : Cluster) (cmd : bytes) (args : list RespValue) : bool :=
  match args with
  | [SimpleString key; value] =>
      is_cmd cmd "SET" &&
      match Cluster_isMasterFor key c with Ok master => master && nil_bulk value | _ => true end
  | [SimpleString key] =>
      is_cmd cmd "DEL" && match Cluster_isMasterFor key c with Ok master => master | _ => true end
  | _ => false
  end.

(** An acknowledgement sent on [fd] to a group of this node that leads. *)
Definition undefined_ack (s : Server) (fd : Z) (args : list RespValue) : bool :=
  match args with
  | gid_val :: _ =>
      match Server_getRaftGroup (match gid_val with SimpleString g => Utils_to_uint64_t g | _ => 0 end) s with
      | Some n => ack_undefined (Cluster_getUuidByFd fd (cluster s)) (encode (request "RAFT_AER" args)) n
      | None => false
      end
  | [] => false
  end.

(** The requests that do: a nil array, such an acknowledgement, and those writes
    while the node is not synchronising. *)
Definition undefined_request (s : Server) (fd : Z) (req : RespValue) : bool :=
  match req with
  | Array None => true
  | Array (Some (SimpleString cmd :: args)) =>
      if is_cmd cmd "RAFT_AER" then undefined_ack s fd args
      else negb (syncing s) && undefined_write (cluster s) cmd args
  | _ => false
  end.

Section handlers.
Context (steady wall : nat → Z) (rand : nat → Z → nat → Z) (self : CNode) (run : bool).
Implicit Types (s : Server) (fd : Z).
#[local] Notation inv := (Server_inv self run).

Lemma inv_store_set k v s : inv s → after false inv (on_kvstore (KVStore_set k v)) s.
Proof.
  intros Hs. apply inv_on_kvstore; [done|]. destruct (KVStore_set_any (kvstore s) k v) as (r & k' & e & Hr & Hok & _ & Ht);
    [apply Hs|]. unfold after. rewrite Hr. split; [|done]. intros _. by destruct Ht as [[-> _]|[-> _]].
Qed.
Lemma inv_store_get k s : inv s → after false inv (on_kvstore (KVStore_get k)) s.
Proof.
  intros Hs. apply inv_on_kvstore; [done|]. destruct (KVStore_get_any (kvstore s) k) as (r & k' & Hr & Hok & _ & Ht);
    [apply Hs|]. unfold after. rewrite Hr. split; [|done]. intros _. by destruct Ht as [[-> _]|[-> _]].
Qed.
Lemma inv_store_getValue k s : inv s → after false inv (on_kvstore (KVStore_getValue k)) s.
Proof.
  intros Hs. apply inv_on_kvstore; [done|]. destruct (KVStore_get_any (kvstore s) k) as (r & k' & Hr & Hok & _ & Ht);
    [apply Hs|]. unfold KVStore_getValue. apply after_bind; [|done].
  unfold after. rewrite Hr. split; [|done]. intros _. by destruct Ht as [[-> _]|[-> _]].
Qed.
Lemma inv_store_del k s : inv s → after false inv (on_kvstore (KVStore_del k)) s.
Proof.
  intros Hs. apply inv_on_kvstore; [done|]. destruct (KVStore_del_any (kvstore s) k) as (r & k' & Hr & Hok & _ & Ht);
    [apply Hs|]. unfold after. rewrite Hr. split; [|done]. intros _. by destruct Ht as [[-> _]|[-> _]].
Qed.
Lemma inv_log kv s : resp_ok (set_request kv) = true → inv s → after false inv (on_aof (AOF_append steady (set_request kv))) s.
Proof. intros Hv Hs. apply inv_on_aof; [done|]. apply log_append; [done|apply Hs]. Qed.

Lemma query_cases key c : (∃ owner, Cluster_queryNode key c = Ok owner) ∨ Cluster_queryNode key c = UB.
Proof.
  unfold Cluster_queryNode, ring_queryNode, ring_query. repeat case_match; eauto.
Qed.
Lemma master_cases key c :
  (∃ b owner, Cluster_isMasterFor key c = Ok b ∧ Cluster_queryNode key c = Ok owner) ∨
  Cluster_isMasterFor key c = UB.
Proof. unfold Cluster_isMasterFor. destruct (query_cases key c) as [[o ->]| ->]; [left; by eexists _, o|by right]. Qed.

Lemma inv_moved ub key s : inv s → (∃ owner, Cluster_queryNode key (cluster s) = Ok owner) → after ub inv (moved_reply key) s.
Proof. intros Hs [o Ho]. unfold moved_reply. apply after_get. rewrite Ho. apply after_lift_bind; done. Qed.

Lemma inv_propose_for ub key cmd s :
  inv s → (∃ owner, Cluster_queryNode key (cluster s) = Ok owner) → after ub inv (propose_for key cmd) s.
Proof.
  intros Hs [o Ho]. unfold propose_for. apply after_get. unfold Server_getGroupForKey. rewrite Ho.
  apply after_lift_bind; [done|done|]. intros gid _. destruct gid as [g|]; [|done].
  apply after_bind; [|done]. apply inv_on_group; [done|done|]. intros n Hn.
  apply after_weaken, inv_propose. by apply (si_groups _ _ _ Hs).
Qed.

Lemma inv_SET args s :
  resp_ok (request "SET" args) = true → inv s → after (undefined_write (cluster s) (str "SET") args) inv (Handler_SET steady (request "SET" args)) s.
Proof.
  intros Hreq Hs.
  assert (∀ key value, args = [SimpleString key; value] →
    ∀ s, inv s → after false inv (on_aof (AOF_append steady (request "SET" args))) s) as Hlog.
  { intros key value -> s1 Hs1. exact (inv_log (key, value) s1 Hreq Hs1). }
  clear Hreq. unfold Handler_SET, request, undefined_write.
  apply after_lift_bind; [done|done|]. intros ? [= <-]. destruct args as [|key [|value [|]]]; try done.
  destruct key as [key| | | |]; try done. apply after_get. change (is_cmd (str "SET") "SET") with true. cbn [andb].
  destruct (master_cases key (cluster s)) as [(b & o & Hm & Ho)|Hm]; rewrite Hm.
  2:{ by apply after_lift_bind. }
  apply after_lift_bind; [done|done|]. intros ? [= <-]. destruct b; cbn [negb andb]; [|apply inv_moved; eauto].
  apply after_lift_bind; [|done|].
  { intros Hv. by destruct value as [|[?|]| | |]. }
  intros text _. apply after_bind; [apply inv_propose_for; eauto|]. intros _ s1 _ Hs1.
  apply after_bind; [apply after_weaken; by eapply Hlog|]. intros _ s2 _ Hs2.
  apply after_bind; [by apply after_weaken, inv_store_set|done].
Qed.

Lemma inv_DEL args s :
  inv s → after (undefined_write (cluster s) (str "DEL") args) inv (Handler_DEL steady (request "DEL" args)) s.
Proof.
  intros Hs. unfold Handler_DEL, request, undefined_write.
  apply after_lift_bind; [done|done|]. intros ? [= <-]. destruct args as [|key [|]]; try done.
  destruct key as [key| | | |]; try done. apply after_get. change (is_cmd (str "DEL") "DEL") with true. cbn [andb].
  destruct (master_cases key (cluster s)) as [(b & o & Hm & Ho)|Hm]; rewrite Hm.
  2:{ by apply after_lift_bind. }
  apply after_lift_bind; [done|done|]. intros ? [= <-]. destruct b; cbn [negb]; [|apply inv_moved; eauto].
  apply after_bind; [apply inv_propose_for; eauto|]. intros _ s1 _ Hs1. by apply after_lift_bind.
Qed.

Lemma inv_GET args s : inv s → after false inv (Handler_GET (request "GET" args)) s.
Proof.
  intros Hs. unfold Handler_GET, request. apply after_lift_bind; [done|done|]. intros ? [= <-].
  destruct args as [|key [|]]; try done. destruct key as [key| | | |]; try done.
  apply after_bind; [by apply inv_store_getValue|]. intros v s1 _ Hs1. by destruct v.
Qed.

Lemma inv_EXIST args s : inv s → after false inv (Handler_EXIST (request "EXIST" args)) s.
Proof.
  intros Hs. unfold Handler_EXIST, request. apply after_lift_bind; [done|done|]. intros ? [= <-].
  destruct args as [|key [|]]; try done. destruct key as [key| | | |]; try done.
  apply after_bind; [by apply inv_store_get|done].
Qed.

Lemma inv_SET_noAOF args s : inv s → after false inv (Handler_SET_noAOF (request "SET" args)) s.
Proof.
  intros Hs. unfold Handler_SET_noAOF, request. apply after_lift_bind; [done|done|]. intros ? [= <-].
  destruct args as [|key [|v [|]]]; try done. destruct key as [key| | | |]; try done.
  apply after_bind; [by apply inv_store_set|done].
Qed.

Lemma inv_DEL_noAOF args s : inv s → after false inv (Handler_DEL_noAOF (request "DEL" args)) s.
Proof.
  intros Hs. unfold Handler_DEL_noAOF, request. apply after_lift_bind; [done|done|]. intros ? [= <-].
  destruct args as [|key [|]]; try done. destruct key as [key| | | |]; try done.
  apply after_bind; [by apply inv_store_del|done].
Qed.

Lemma inv_heartbeat ub fd s : inv s → after ub inv (server_updateHeartbeat wall fd) s.
Proof.
  intros Hs. unfold server_updateHeartbeat. apply after_get. case_match; [|done].
  apply after_bind; [by apply inv_wall|]. intros now s1 _ Hs1. apply inv_on_cluster; [done|].
  apply inv_updateHeartbeat, Hs1.
Qed.

Lemma inv_note_gossip id s : inv s → after false inv (note_gossip wall id) s.
Proof.
  intros Hs. unfold note_gossip. apply after_get. case_match; [done|].
  apply after_bind; [by apply inv_wall|]. intros now s1 _ Hs1. apply after_bind; [|done].
  apply inv_on_cluster; [done|]. apply inv_addGossip, Hs1.
Qed.

Lemma inv_broadcast req s : inv s → after false inv (broadcast req) s.
Proof.
  intros Hs. unfold broadcast. apply after_get. apply after_mfor; [|done]. intros c s1 _ Hs1. by apply inv_push.
Qed.

(** With a node on the ring the transfer of keys always returns. *)
Lemma inv_sendData ub target s : inv s → ub = true ∨ node_hash (cluster s) ≠ [] →
  after ub inv (Server_sendDataToNode false target) s.
Proof.
  intros Hs Hub. set (J := λ s, inv s ∧ (ub = true ∨ node_hash (cluster s) ≠ [])).
  apply (after_mono ub J); [by intros ? [? _]|]. unfold Server_sendDataToNode. apply after_get.
  assert (∀ msg fd s, J s → after ub J (push_queue false msg fd) s) as Hpush.
  { intros msg fd s0 [Hs0 Hr]. apply after_modify. split; [by apply (inv_frame self run s0)|done]. }
  case_match; [done|]. apply after_bind; [|intros; by apply Hpush]. apply after_mfor; [|done].
  intros kv s1 _ [Hs1 Hr]. apply after_get. apply after_lift_bind; [|done|].
  - intros ->. destruct Hr as [?|Hr]; [done|]. destruct (query_total kv.1 (cluster s1) Hr) as (o & ->). done.
  - intros o _. case_match; [by apply Hpush|done].
Qed.
Lemma ring_after_add uuid c : node_hash (Cluster_addNodeToHash uuid c) ≠ [].
Proof.
  intros E. assert (map_find (Cluster_hash uuid) (node_hash (Cluster_addNodeToHash uuid c)) = Some uuid) as H;
    [|by rewrite E in H]. simpl. rewrite ring_add_find, decide_True; [done|].
  unfold node_points. rewrite points_elem. exists 0%nat. split; [vm_compute; lia|done].
Qed.

Lemma inv_join_node node s : inv s → after false inv (join_node node) s.
Proof.
  intros Hs. unfold join_node. apply after_lift_bind; [|done|].
  { intros _. unfold Utils_getNode. by repeat case_match. }
  intros n _. apply after_get. case_match.
  - apply after_bind; [apply inv_on_cluster; [done|apply inv_addNodeToHash, Hs]|]. intros [] s1 E Hs1.
    assert (node_hash (cluster s1) ≠ []) as Hr by (injection E as <-; apply ring_after_add).
    apply after_bind; [apply inv_on_cluster; [done|apply inv_addTopoNode, Hs1]|]. intros [] s2 E2 Hs2.
    assert (node_hash (cluster s2) ≠ []) as Hr2 by (by injection E2 as <-).
    apply after_bind; [by apply inv_sendData; auto|]. intros _ s3 _ Hs3.
    apply after_bind; [by apply inv_push|done].
  - apply after_bind; [by apply inv_push|]. intros _ s1 _ Hs1.
    apply after_bind; [apply inv_on_cluster; [done|apply inv_addNodeToHash, Hs1]|]. intros _ s2 _ Hs2.
    apply after_bind; [apply inv_on_cluster; [done|apply inv_addTopoNode, Hs2]|]. intros _ s3 _ Hs3.
    apply after_bind; [by apply inv_push|done].
Qed.

Lemma inv_NODEIN args s : inv s → after false inv (Handler_NODEIN wall (request "NODEIN" args)) s.
Proof.
  intros Hs. unfold Handler_NODEIN, request. apply after_lift_bind; [done|done|]. intros ? [= <-].
  destruct args as [|u [|node [|]]]; try done. destruct u as [u| | | |]; try done.
  apply after_bind; [by apply inv_note_gossip|]. intros [] s1 _ Hs1; [done|].
  apply after_bind; [by apply inv_broadcast|]. intros _ s2 _ Hs2. by apply inv_join_node.
Qed.

Lemma inv_NODEOUT args s : inv s → after false inv (Handler_NODEOUT wall (request "NODEOUT" args)) s.
Proof.
  intros Hs. unfold Handler_NODEOUT, request. apply after_lift_bind; [done|done|]. intros ? [= <-].
  destruct args as [|u [|node [|]]]; try done. destruct u as [u| | | |]; try done.
  apply after_bind; [by apply inv_note_gossip|]. intros [] s1 _ Hs1; [done|].
  apply after_bind; [by apply inv_broadcast|]. intros _ s2 _ Hs2. destruct node as [node| | | |]; try done.
  apply after_bind; [apply inv_on_cluster; [done|apply inv_delNodeToHash, Hs2]|]. intros _ s3 _ Hs3.
  apply after_bind; [apply inv_on_cluster; [done|apply inv_delTopoNode, Hs3]|]. intros _ s4 _ Hs4.
  apply after_bind; [apply inv_on_cluster; [done|apply inv_delConnection, Hs4]|done].
Qed.

(** A request is sent on to the group as it is encoded: its first part is the
    command. *)
Lemma parts_of_request c args :
  plain c = true → head (parseParts (encode (Array (Some (SimpleString c :: args))))) = Some c.
Proof.
  intros Hc. unfold parseParts. rewrite encode_array, encode_all_cons, encode_simple.
  rewrite (assoc_L app), parse_header; [|unfold plain; rewrite forallb_app; apply plain_to_string|done].
  change (str "+" ++ c ++ CRLF) with (line c). by rewrite parse_line.
Qed.

Lemma is_cmd_true c x : is_cmd c x = true → c = str x.
Proof. unfold is_cmd. by rewrite bool_decide_eq_true. Qed.

Lemma step_ack rnd from raw n :
  head (parseParts raw) = Some (str "RAFT_AER") → RaftNode_step rnd from raw n = handleAppendEntriesReply rnd from raw n.
Proof. unfold RaftNode_step. destruct (parseParts raw) as [|p0 ?]; [done|]. by intros [= ->]. Qed.

(** A heartbeat touches neither the groups nor who is behind which socket. *)
Lemma heartbeat_run fd s :
  ∃ s1, server_updateHeartbeat wall fd s = (Ok tt, s1) ∧ raft_groups s1 = raft_groups s ∧
    fd_to_uuid (cluster s1) = fd_to_uuid (cluster s).
Proof.
  destruct (map_find fd (fd_to_uuid (cluster s))) eqn:E.
  - eexists. split; [|split].
    + unfold server_updateHeartbeat. erewrite M_bind_Ok by done. rewrite E. by erewrite M_bind_Ok by done.
    + done.
    + cbn. unfold Cluster_updateHeartbeat. by case_match.
  - exists s. split; [|done]. unfold server_updateHeartbeat. erewrite M_bind_Ok by done. by rewrite E.
Qed.

(** What a message to a group of this node does with it. *)
Lemma handleRaft_step cmd gid_val args fd s n :
  let req := Array (Some (SimpleString cmd :: gid_val :: args)) in
  Server_getRaftGroup (match gid_val with SimpleString g => Utils_to_uint64_t g | _ => 0 end) s = Some n →
  ∃ rnd, (Handler_handleRaft wall rand req fd s).1 =
    (λ _, []) <$> (RaftNode_step rnd (Cluster_getUuidByFd fd (cluster s)) (encode req) n).1.
Proof.
  intros req Hn. unfold Handler_handleRaft. cbv zeta. erewrite M_bind_Ok by done. cbn match. erewrite M_bind_Ok by done.
  rewrite Hn. destruct (heartbeat_run fd s) as (s1 & Hr & Hg & Hf). rewrite (M_bind_Ok _ _ _ _ _ Hr). erewrite M_bind_Ok by done.
  set (gid := match gid_val with SimpleString g => _ | _ => _ end) in *. exists (rand (rebuilds s1) gid).
  assert (Server_getRaftGroup gid s1 = Some n) as Hn1 by (unfold Server_getRaftGroup in *; by rewrite Hg).
  assert (Cluster_getUuidByFd fd (cluster s1) = Cluster_getUuidByFd fd (cluster s)) as -> by (unfold Cluster_getUuidByFd; by rewrite Hf).
  unfold on_group. unfold mbind at 1, M_bind at 1. erewrite M_bind_Ok by done. rewrite Hn1.
  destruct (RaftNode_step _ _ _ n) as [r n']. erewrite M_bind_Ok by done.
  match goal with |- context [(mfor (sent n') (Server_raftSend false) ≫= _) ?st] =>
    destruct (raft_send_total (sent n') st) as (q & Hq); rewrite (M_bind_Ok _ _ _ _ _ Hq) end.
  by destruct r.
Qed.

Lemma inv_handleRaft cmd args fd s :
  inv s → after true inv (Handler_handleRaft wall rand (Array (Some (SimpleString cmd :: args))) fd) s.
Proof.
  intros Hs. unfold Handler_handleRaft. apply after_lift_bind; [done|done|]. intros ? [= <-].
  destruct args as [|gid_val args]; [done|]. apply after_get. cbv zeta.
  generalize (match gid_val with SimpleString g => Utils_to_uint64_t g | _ => 0 end). intros gid.
  case_match; [|done].
  apply after_bind; [by apply inv_heartbeat|]. intros _ s1 _ Hs1. apply after_get. apply after_bind; [|done].
  apply inv_on_group; [done|done|]. intros n Hn. apply inv_step. by apply (si_groups _ _ _ Hs1).
Qed.

Lemma handleRaft_outcome cmd args fd s :
  inv s → plain cmd = true →
  outcome_is (is_cmd cmd "RAFT_AER" && undefined_ack s fd args)
    (Handler_handleRaft wall rand (Array (Some (SimpleString cmd :: args))) fd s).1.
Proof.
  intros Hs Hp. destruct args as [|gid_val args]; [by rewrite andb_false_r|]. unfold undefined_ack.
  destruct (Server_getRaftGroup _ s) as [n|] eqn:Hn.
  2:{ rewrite andb_false_r. unfold Handler_handleRaft. erewrite M_bind_Ok by done. cbn match. erewrite M_bind_Ok by done. by rewrite Hn. }
  destruct (handleRaft_step cmd gid_val args fd s n Hn) as (rnd & ->).
  pose proof (parts_of_request cmd (gid_val :: args) Hp) as Hh.
  destruct (is_cmd cmd "RAFT_AER") eqn:E; cbn [andb].
  - apply is_cmd_true in E as ->. unfold request. rewrite (step_ack _ _ _ _ Hh).
    pose proof (ack_outcome rnd _ _ _ (Cluster_getUuidByFd fd (cluster s))
      (encode (Array (Some (SimpleString (str "RAFT_AER") :: gid_val :: args)))) n (proj1 (si_groups _ _ _ Hs _ _ Hn))) as Ho.
    revert Ho. destruct (ack_undefined _ _ _); unfold outcome_is; [by intros ->|].
    by destruct (handleAppendEntriesReply _ _ _ _).1.
  - pose proof (step_defined rnd (Cluster_getUuidByFd fd (cluster s))
      (encode (Array (Some (SimpleString cmd :: gid_val :: args)))) n) as Hd. rewrite Hh in Hd. unfold outcome_is.
    destruct (RaftNode_step _ _ _ n).1; try done; apply Hd; intros [= ->]; by vm_compute in E.
Qed.

Lemma inv_SYNCDONE args s : inv s → after false inv (Handler_SYNCDONE (request "SYNCDONE" args)) s.
Proof.
  intros Hs. unfold Handler_SYNCDONE, request. apply after_lift_bind; [done|done|]. intros l _.
  case_match; [done|]. apply after_bind; [|done]. unfold Server_onSyncDone. apply after_get, after_put.
  by apply (inv_frame self run s).
Qed.

Lemma inv_HELLO args fd s : inv s → after false inv (Handler_HELLO (request "HELLO" args) fd) s.
Proof.
  intros Hs. unfold Handler_HELLO, request. apply after_lift_bind; [done|done|]. intros ? [= <-].
  destruct args as [|u [|]]; try done. destruct u as [u| | | |]; try done.
  apply after_bind; [apply inv_on_cluster; [done|apply inv_addConnection, Hs]|done].
Qed.
(** *** Dispatch *)

Lemma undefined_write_other c cmd args :
  is_cmd cmd "SET" = false → is_cmd cmd "DEL" = false → undefined_write c cmd args = false.
Proof. intros H1 H2. unfold undefined_write. rewrite H1, H2. by repeat case_match. Qed.

Lemma raft_cmd_plain cmd : is_raft_cmd cmd = true → plain cmd = true.
Proof. unfold is_raft_cmd. rewrite !orb_true_iff. intros [[[H|H]|H]|H]; by apply is_cmd_true in H as ->. Qed.

Lemma inv_handle req fd s :
  resp_ok req = true → inv s → after (undefined_request s fd req) inv (Handler_handle steady wall rand req fd) s.
Proof.
  intros Hreq Hs.
  assert (∀ args, req = request "SET" args →
    after (undefined_write (cluster s) (str "SET") args) inv (Handler_SET steady (request "SET" args)) s) as HSET
    by (intros args ->; by apply inv_SET).
  clear Hreq. destruct req as [c|[c|]|c|c|[[|[cmd|[?|]|?|?|[?|]] args]|]]; try done.
  { unfold Handler_handle. by case_match. }
  unfold Handler_handle, undefined_request.
  destruct (is_cmd cmd "SYNCDONE") eqn:E1; [apply is_cmd_true in E1 as ->; by apply after_weaken, inv_SYNCDONE|].
  destruct (is_cmd cmd "HEARTBEAT") eqn:E2; [by apply after_bind; [apply inv_heartbeat|]|].
  destruct (is_raft_cmd cmd) eqn:E3.
  { pose proof (inv_handleRaft cmd args fd s Hs) as [_ Hi]. split; [|exact Hi]. intros Hu.
    pose proof (handleRaft_outcome cmd args fd s Hs (raft_cmd_plain _ E3)) as Ho. revert Hu Ho.
    destruct (is_cmd cmd "RAFT_AER"); cbn [andb]; [by intros ->|done]. }
  assert (is_cmd cmd "RAFT_AER" = false) as ->.
  { unfold is_raft_cmd in E3. rewrite !orb_false_iff in E3. apply E3. }
  apply after_get. destruct (syncing s) eqn:Es; cbn [negb andb].
  - destruct (is_data_cmd cmd) eqn:E4; [done|]. unfold is_data_cmd in E4. rewrite !orb_false_iff in E4.
    destruct E4 as [[[A4 A5] A6] A7]. rewrite A4, A5, A6, A7.
    destruct (is_cmd cmd "NODEIN") eqn:E8; [apply is_cmd_true in E8 as ->; by apply after_weaken, inv_NODEIN|].
    destruct (is_cmd cmd "NODEOUT") eqn:E9; [apply is_cmd_true in E9 as ->; by apply after_weaken, inv_NODEOUT|].
    destruct (is_cmd cmd "GETNETWORK"); [done|].
    destruct (is_cmd cmd "HELLO") eqn:E10; [apply is_cmd_true in E10 as ->; by apply after_weaken, inv_HELLO|done].
  - destruct (is_cmd cmd "GET") eqn:E4; [apply is_cmd_true in E4 as ->; by apply after_weaken, inv_GET|].
    destruct (is_cmd cmd "SET") eqn:E5.
    { apply is_cmd_true in E5 as ->. exact (HSET args eq_refl). }
    destruct (is_cmd cmd "DEL") eqn:E6.
    { apply is_cmd_true in E6 as ->. exact (inv_DEL args s Hs). }
    destruct (is_cmd cmd "EXIST") eqn:E7; [apply is_cmd_true in E7 as ->; by apply after_weaken, inv_EXIST|].
    destruct (is_cmd cmd "NODEIN") eqn:E8; [apply is_cmd_true in E8 as ->; by apply after_weaken, inv_NODEIN|].
    destruct (is_cmd cmd "NODEOUT") eqn:E9; [apply is_cmd_true in E9 as ->; by apply after_weaken, inv_NODEOUT|].
    destruct (is_cmd cmd "GETNETWORK"); [done|].
    destruct (is_cmd cmd "HELLO") eqn:E10; [apply is_cmd_true in E10 as ->; by apply after_weaken, inv_HELLO|done].
Qed.

Lemma inv_handle_noAOF req s :
  inv s → req ≠ Array None → after false inv (Handler_handle_noAOF req) s.
Proof.
  intros Hs Hne. destruct req as [c|[c|]|c|c|[[|[cmd|[?|]|?|?|[?|]] args]|]]; try done.
  unfold Handler_handle_noAOF.
  destruct (is_cmd cmd "GET") eqn:E4; [apply is_cmd_true in E4 as ->; by apply inv_GET|].
  destruct (is_cmd cmd "SET") eqn:E5; [apply is_cmd_true in E5 as ->; by apply inv_SET_noAOF|].
  destruct (is_cmd cmd "DEL") eqn:E6; [apply is_cmd_true in E6 as ->; by apply inv_DEL_noAOF|].
  destruct (is_cmd cmd "EXIST") eqn:E7; [apply is_cmd_true in E7 as ->; by apply inv_EXIST|done].
Qed.

(** The listed requests do reach it. *)
Lemma undefined_write_UB cmd args s :
  raft_ready s → undefined_write (cluster s) cmd args = true →
  (cmd = str "SET" ∧ (Handler_SET steady (request "SET" args) s).1 = UB) ∨
  (cmd = str "DEL" ∧ (Handler_DEL steady (request "DEL" args) s).1 = UB).
Proof.
  intros Hr Hu. destruct args as [|[key| | | |] [|v [|]]]; try done; apply andb_true_iff in Hu as [Hc Hu]; apply is_cmd_true in Hc as ->.
  - right. split; [done|]. unfold Handler_DEL, request. erewrite M_bind_Ok by done. cbn match. erewrite M_bind_Ok by done.
    destruct (master_cases key (cluster s)) as [(b & o & Hm & Ho)|Hm]; rewrite Hm in *; [|done]. subst b.
    erewrite M_bind_Ok by done. cbn [negb].
    destruct (propose_for_total key (str "DEL " ++ key) _ s Ho Hr) as (gs & q & s1 & Hp & _).
    by rewrite (M_bind_Ok _ _ _ _ _ Hp).
  - left. split; [done|]. unfold Handler_SET, request. erewrite M_bind_Ok by done. cbn match. erewrite M_bind_Ok by done.
    destruct (master_cases key (cluster s)) as [(b & o & Hm & Ho)|Hm]; rewrite Hm in *; [|done].
    apply andb_true_iff in Hu as [-> Hv]. erewrite M_bind_Ok by done. cbn [negb]. by destruct v as [|[?|]| | |].
Qed.
Lemma handle_undefined req fd s :
  inv s → undefined_request s fd req = true → (Handler_handle steady wall rand req fd s).1 = UB.
Proof.
  intros Hs Hu. destruct req as [c|[c|]|c|c|[[|[cmd|[?|]|?|?|[?|]] args]|]]; try done.
  cbn [undefined_request] in Hu. destruct (is_cmd cmd "RAFT_AER") eqn:E.
  - apply is_cmd_true in E as ->. pose proof (handleRaft_outcome (str "RAFT_AER") args fd s Hs eq_refl) as Ho.
    rewrite Hu in Ho. exact Ho.
  - apply andb_true_iff in Hu as [Hy%negb_true_iff Hu].
    destruct (undefined_write_UB cmd args s (inv_ready self run s Hs) Hu) as [[-> H]|[-> H]].
    + etransitivity; [exact (f_equal fst (handle_SET steady wall rand args fd s Hy))|exact H].
    + etransitivity; [exact (f_equal fst (handle_DEL steady wall rand args fd s Hy))|exact H].
Qed.

Lemma inv_handleCommand sock v s :
  resp_ok v = true → inv s → after (undefined_request s sock v) inv (Server_handleCommand steady wall rand sock v) s.
Proof.
  intros Hv Hs. unfold Server_handleCommand. apply after_bind; [by apply inv_handle|]. intros m s1 _ Hs1.
  destruct m; [done|]. by apply inv_push.
Qed.

Lemma inv_execute v s : inv s → after true inv (execute v) s.
Proof.
  intros Hs. unfold execute. apply after_bind; [|done]. destruct (decide (v = Array None)) as [->|Hne]; [by split|].
  by apply after_weaken, inv_handle_noAOF.
Qed.

Lemma inv_recover s : inv s → after true inv AOF_recover s.
Proof.
  intros Hs. unfold AOF_recover. apply after_get. cbv zeta. generalize (read_blocks (length (file (aof s))) (Z.to_nat AOF_BUFFER_SIZE) (file (aof s))), RespParser_init.
  intros blocks. revert s Hs. induction blocks as [|b blocks IH]; intros s Hs p; [done|]. cbn [recover_loop].
  apply after_lift_bind; [done|done|]. intros p1 _. destruct (drain p1) as [cmds p2].
  apply after_bind; [|intros _ s1 _ Hs1; by apply IH].
  apply after_mfor; [|done]. intros v s1 _ Hs1. by apply inv_execute.
Qed.

(** C6: no request can corrupt the server: whatever value was parsed, on whatever
    socket and in whatever state of synchronisation, the stores, tables, groups,
    the log and the node's identity are well formed afterwards, even if the
    handler throws; and the outcome is known: undefined behaviour exactly for the
    requests that [undefined_request] lists - a nil array; outside synchronisation
    a [SET] of a nil bulk string or a [DEL] at the master of the key, or either on
    an empty ring; an acknowledgement of log entries to a group that this node
    leads, of exactly four parts, or from a peer with a number that makes the
    median point behind the log - and a reply or an exception for all others. *)
Theorem handler_total (req : RespValue) (fd : Z) (s : Server) :
  resp_ok req = true → Server_inv self run s →
  let '(r, s') := Handler_handle steady wall rand req fd s in
  Server_inv self run s' ∧
  (undefined_request s fd req = true → r = UB) ∧
  (undefined_request s fd req = false → (∃ reply, r = Ok reply) ∨ ∃ e, r = Throw e).
Proof.
  intros Hreq Hs. pose proof (inv_handle req fd s Hreq Hs) as [Hd Hi].
  pose proof (handle_undefined req fd s Hs) as Hu.
  destruct (Handler_handle steady wall rand req fd s) as [r s'] eqn:E. cbn [fst snd] in *. split_and!; [done|done|].
  intros Hn. specialize (Hd Hn). destruct r; try done; eauto.
Qed.
End handlers.

(** ** The state a server starts with *)

Lemma inv_new steady uuid addr port content files :
  commands content →
  let s := Server_new steady uuid addr port content files in Server_inv (self_node (cluster s)) false s.
Proof.
  intros Hc. constructor; try done.
  - apply KVStore_init_ok. unfold SHARD_COUNT. lia.
  - constructor; [done|apply commands_nil].
  - constructor; [|done|unfold GOSSIP_CACHE_SIZE; simpl; lia]. constructor; by repeat constructor.
  - by split_and!; constructor.
Qed.

(** A server started on a restorable snapshot, or on none, and a log of commands. *)
Lemma inv_start steady uuid addr port dir content files s :
  restorable dir → commands content → Server_start steady uuid addr port (default ∅ dir) content files = (Ok tt, s) →
  Server_inv (mkCNode addr (u16 (u16 (port + 1) - 1)) uuid) false s.
Proof.
  intros Hd Hc E. pose proof (inv_new steady uuid addr port content files Hc) as Hs. cbv zeta in Hs.
  unfold Server_start in E. apply M_bind_inv in E as ([] & s1 & H & E).
  unfold on_kvstore, mzoom in H. destruct (KVStore_readfromfile _ _) as [r k] eqn:Hk. injection H as -> <-.
  assert (Server_inv (mkCNode addr (u16 (u16 (port + 1) - 1)) uuid) false
    (set_kvstore k (Server_new steady uuid addr port content files))) as Hs1.
  { destruct Hs. constructor; try done. by apply Hd. }
  pose proof (proj2 (inv_recover _ _ _ Hs1)) as Hi. by rewrite E in Hi.
Qed.

Definition solo_node : CNode := mkCNode (str "10.0.0.7") 7800 7.
Lemma solo_inv : Server_inv solo_node false solo.
Proof. exact (proj2 (inv_initRaftGroups solo_node false false (λ _ _ _, 0) _ (inv_new (λ _, 0) 7 (str "10.0.0.7") 7800 [] ∅ commands_nil))). Qed.

(** Four parts, sent by any client to a node that leads the group of itself. *)
Definition short_ack : RespValue :=
  request "RAFT_AER" [SimpleString (str "0"); SimpleString (str "0"); SimpleString (str "1")].

Lemma handler_total_witness :
  undefined_request solo 5 short_ack = true ∧ (Handler_handle (λ _, 0) (λ _, 0) (λ _ _ _, 0) short_ack 5 solo).1 = UB.
Proof.
  pose proof (handler_total (λ _, 0) (λ _, 0) (λ _ _ _, 0) solo_node false short_ack 5 solo eq_refl solo_inv) as H.
  assert (Hu : undefined_request solo 5 short_ack = true) by (vm_compute; reflexivity).
  split; [exact Hu|]. destruct (Handler_handle _ _ _ _ _ _) as [r s']. destruct H as (_ & H & _). exact (H Hu).
Defined.
