(* ===== verification/EventLoop.v ===== *)
(** * The event loop (Server::epoll_step, Server::accept, Server::connect)

    One round of the main thread over the answers of the kernel, as a
    computation on the server and what only the main thread touches: the sockets
    with their parsers ([Server::connections], by descriptor), the tasks given to
    the pool, and the queue of Raft messages.  [wire] records what each
    connection took, [ksend i] are the answers to the [i]-th [Server::send],
    [dial i] and [kreply i] those to the [i]-th outgoing connection and to the
    calls of [Server::recv] that wait for its reply.  The lock of the message
    queue taken before the queue is emptied ([Server.cpp], line 272) is held to
    the end of the function.  [fcntl] and the registration with epoll are taken
    to succeed. *)
From Stdlib Require Import ZArith Ascii String Lia.
From stdpp Require Import base numbers list strings gmap.
From S2P Require Import Prelude CppStd RespValue RespParser StringTable HashTable LRU KVStore Snapshot AOF Socket Ring Cluster.
From S2P Require Import Utils RaftNode Server Handler Heartbeat Membership Recovery.
Local Open Scope Z_scope.

(** What is queued in the thread pool. *)
Inductive task := THandle (sock : Z) (v : RespValue) | TSend (uuid : Z).
#[global] Instance task_eq_dec : EqDecision task.
Proof. solve_decision. Defined.

Record Loop := mkLoop {
  srv : Server;
  socks : list (Z * RespParser);
  pool : list task;
  raft_msg_queue : list (Z * Z * bytes);
  wire : list (Z * bytes);
  sends : nat;
  dials : nat
}.

Definition set_srv x l := mkLoop x (socks l) (pool l) (raft_msg_queue l) (wire l) (sends l) (dials l).
Definition set_socks x l := mkLoop (srv l) x (pool l) (raft_msg_queue l) (wire l) (sends l) (dials l).
Definition set_pool x l := mkLoop (srv l) (socks l) x (raft_msg_queue l) (wire l) (sends l) (dials l).
Definition set_raft_msg_queue x l := mkLoop (srv l) (socks l) (pool l) x (wire l) (sends l) (dials l).
Definition set_wire x k l := mkLoop (srv l) (socks l) (pool l) (raft_msg_queue l) x k (dials l).
Definition set_dials x l := mkLoop (srv l) (socks l) (pool l) (raft_msg_queue l) (wire l) (sends l) x.

Definition on_srv {A} (m : M Server A) : M Loop A := mzoom srv set_srv m.

(** What [epoll_wait] reports. *)
Inductive event :=
  | EvAccept (ks : list accept_answer)
  | EvWake
  | EvClient (client_fd : Z) (ks : list recv_answer).
Inductive epoll_answer := EpollEvents (evs : list event) | EpollIntr | EpollError.

(** The text of a connect message; a value that no extraction stored is read. *)
Definition parse_connect (message : bytes) : res (bytes * Z * Z) :=
  match extract_word message with
  | None => UB
  | Some (ip, r1) =>
      match extract_unsigned 16 r1 with
      | Some (port, true, r2) =>
          match extract_unsigned 64 r2 with
          | Some (uuid, _, _) => Ok (ip, port, uuid)
          | None => UB
          end
      | _ => UB
      end
  end.

Definition hello_command (self : Z) : bytes :=
  str "*2" ++ CRLF ++ str "+HELLO" ++ CRLF ++ str "+" ++ to_string self ++ CRLF.

(** [while (!sock.parser().hasResult()) sock.parser().append(recv(sock));] over
    the answers to the calls of [recv]. *)
Fixpoint wait_reply (calls : list (list recv_answer)) (parser : RespParser) : res RespParser :=
  if RespParser_hasResult parser then Ok parser
  else match calls with
       | [] => OutOfFuel
       | ks :: calls' =>
           r ← Server_recv ks;
           p ← RespParser_append r.1 parser;
           wait_reply calls' p
       end.

(** [makeCommand]: the words of the text, as simple strings. *)
Definition makeCommand (cmd : bytes) : RespValue := Array (Some (map SimpleString (tokens cmd))).

Section epoll.
Context (wall : nat → Z) (rand : nat → Z → nat → Z).
Context (ksend : nat → list send_answer) (dial : nat → bytes → Z → res Z)
  (kreply : nat → list (list recv_answer)).

(** ** The sockets *)

(** [while (accept()) {}] over the answers to [accept]; every round takes one
    answer at least, so the fuel [S (length ks)] is enough. *)
Fixpoint accept_loop (fuel : nat) (ks : list accept_answer) : M Loop unit :=
  match fuel with
  | O => mlift OutOfFuel
  | S f =>
      r ← mlift (Socket_accept ks);
      let '(fd, ks') := r in
      if fd =? -1 then mret tt
      else
        _ ← mmodify (λ l, set_socks (map_assign fd RespParser_init (socks l)) l);
        accept_loop f ks'
  end.

Definition erase_sock (fd : Z) : M Loop unit := mmodify (λ l, set_socks (map_erase fd (socks l)) l).

(** Input on a client socket; [connections[client_fd]] makes the entry if it is
    not there. *)
Definition handle_client (client_fd : Z) (ks : list recv_answer) : M Loop unit :=
  _ ← mmodify (λ l, set_socks (map_emplace client_fd RespParser_init (socks l)) l);
  r ← mlift (Server_recv ks);
  let '(str_, closed) := r in
  _ ← (if closed : bool then erase_sock client_fd else mret tt);
  match str_ with
  | [] => mret tt
  | _ =>
      l ← mget;
      match map_find client_fd (socks l) with
      | None => mret tt
      | Some parser =>
          p1 ← mlift (RespParser_append str_ parser);
          let '(vs, p2) := drain p1 in
          mmodify (λ l, set_pool (pool l ++ map (THandle client_fd) vs)
                          (set_socks (map_assign client_fd p2 (socks l)) l))
      end
  end.

Definition handle_event (e : event) : M Loop unit :=
  match e with
  | EvAccept ks => accept_loop (S (length ks)) ks
  | EvWake => mret tt
  | EvClient client_fd ks => handle_client client_fd ks
  end.

(** ** The message queue *)

(** [Server::send]; tells whether the connection was found closed. *)
Definition loop_send (fd : Z) (data : bytes) : M Loop bool :=
  l ← mget;
  _ ← mput (set_wire (wire l) (S (sends l)) l);
  r ← mlift (Server_send (ksend (sends l)) data);
  _ ← mmodify (λ l, set_wire (wire l ++ [(fd, r.1)]) (sends l) l);
  mret r.2.

Definition Server_connect (ip : bytes) (port uuid : Z) : M Loop unit :=
  l ← mget;
  _ ← mput (set_dials (S (dials l)) l);
  fd ← mlift (dial (dials l) ip port);
  _ ← loop_send fd (hello_command (UUID (self_node (cluster (srv l)))));
  p ← mlift (wait_reply (kreply (dials l)) RespParser_init);
  let '(_, p') := RespParser_getResult p in
  _ ← mmodify (λ l, set_socks (map_assign fd p' (socks l)) l);
  _ ← on_srv (on_cluster (Cluster_addConnection uuid fd));
  mmodify (λ l, set_pool (pool l ++ [TSend uuid]) l).

Definition dispatch_message (message : bytes * Z) : M Loop unit :=
  let '(text, fd) := message in
  if fd =? -1 then
    r ← mlift (parse_connect text);
    let '(ip, port, uuid) := r in Server_connect ip port uuid
  else if fd =? -2 then on_srv (Server_initRaftGroups rand)
  else
    l ← mget;
    match map_find fd (socks l) with
    | Some _ =>
        closed ← loop_send fd text;
        if closed : bool then erase_sock fd else mret tt
    | None => mret tt
    end.

(** While the queue is emptied no thread can push, and the main thread does not. *)
Definition drain_queue : M Loop unit :=
  l ← mget;
  mfor (out_queue (srv l)) (λ message,
    _ ← on_srv (mmodify (λ s, set_out_queue (tail (out_queue s)) s));
    dispatch_message message).

(** ** The Raft messages *)

Definition Server_enqueueRaftMsg (gid sender : Z) (raw : bytes) : M Loop unit :=
  mmodify (λ l, set_raft_msg_queue (raft_msg_queue l ++ [(gid, sender, raw)]) l).

Definition drain_raft : M Loop unit :=
  l ← mget;
  mfor (raft_msg_queue l) (λ m,
    let '(gid, sender, raw) := m in
    _ ← mmodify (λ l, set_raft_msg_queue (tail (raft_msg_queue l)) l);
    on_srv (s ← mget; _ ← on_group true gid (RaftNode_step (rand (rebuilds s) gid) sender raw); mret tt)).

(** ** Liveness, ticks and committed entries *)


(** Refresh the heartbeat of every node whose socket is among [live], the
    sockets of [Server::connections]. *)
Definition epoll_heartbeats (live : list Z) : M Server unit :=
  s ← mget;
  mfor (connections (cluster s)) (λ c,
    if negb (c.2 =? -1) && bool_decide (c.2 ∈ live) then server_updateHeartbeat wall c.2 else mret tt).

(** [cluster.checkTimeouts()], on the main thread. *)
Definition epoll_timeouts : M Server unit := Server_checkTimeouts wall true.

(** One group: tick, then apply the committed entries. *)
Definition epoll_group (gid : Z) : M Server unit :=
  s ← mget;
  _ ← on_group true gid (RaftNode_tick (rand (rebuilds s) gid));
  s ← mget;
  match Server_getRaftGroup gid s with
  | None => mret tt
  | Some n =>
      if hasPendingApply n then
        entries ← on_group true gid takePendingApply;
        mfor (default [] entries) (λ entry, execute (makeCommand (le_command entry)))
      else mret tt
  end.

Definition epoll_tail (live : list Z) : M Server unit :=
  _ ← epoll_heartbeats live;
  _ ← epoll_timeouts;
  s ← mget;
  mfor (map fst (raft_groups s)) epoll_group.

(** ** One round *)

Definition Server_epoll_step (answer : epoll_answer) : M Loop unit :=
  match answer with
  | EpollIntr => mret tt
  | EpollError => mthrow (RuntimeError "Epoll wait error: ")
  | EpollEvents evs =>
      _ ← mfor evs handle_event;
      _ ← drain_queue;
      _ ← drain_raft;
      l ← mget;
      on_srv (epoll_tail (map fst (socks l)))
  end.

(** ** The worker threads

    A worker runs the first task; an exception ends the task and nothing else. *)

Context (steady : nat → Z).

Definition run_task (t : task) : M Server unit :=
  match t with
  | THandle sock v => Server_handleCommand steady wall rand sock v
  | TSend uuid => Server_sendDataToNode false uuid
  end.

Definition catch_all {S} (m : M S unit) : M S unit :=
  λ s, match m s with (Throw _, s') => (Ok tt, s') | r => r end.

Definition worker_step : M Loop unit :=
  l ← mget;
  match pool l with
  | [] => mret tt
  | t :: ts => _ ← mput (set_pool ts l); on_srv (catch_all (run_task t))
  end.
End epoll.

(** ** Extraction reads what is printed *)

Definition is_word (s : bytes) : Prop := s ≠ [] ∧ Forall (λ c, is_space c = false) s.

Lemma skip_word s r : is_word s → skip_spaces (s ++ r) = s ++ r.
Proof. intros [Hne H]. destruct H as [|c s Hc _]; [done|]. simpl. by rewrite Hc. Qed.

Lemma take_word_app s r :
  Forall (λ c, is_space c = false) s → (∀ c r', r = c :: r' → is_space c = true) → take_word (s ++ r) = s.
Proof.
  intros H Hr. induction H as [|c s Hc _ IH]; simpl.
  - destruct r as [|c r]; [done|]. simpl. by rewrite (Hr c r).
  - by rewrite Hc, IH.
Qed.

Lemma extract_word_ok s r : is_word s → (∀ c r', r = c :: r' → is_space c = true) →
  extract_word (s ++ r) = Some (s, r).
Proof.
  intros Hw Hr. unfold extract_word. rewrite skip_word by done.
  assert (Ht : take_word (s ++ r) = s) by (apply take_word_app; [apply Hw|done]).
  destruct s as [|c s]; [by destruct Hw|]. cbn [app] in *. rewrite Ht.
  change (c :: s ++ r) with ((c :: s) ++ r). by rewrite drop_app_length.
Qed.

Lemma digits_word z : 0 <= z → is_word (digits z).
Proof.
  intros Hz. split; [by apply digits_nonempty|].
  apply (Forall_impl _ _ _ (digits_all z Hz)). intros c. apply is_digit_not_space.
Qed.

Lemma to_string_digits z : 0 <= z → to_string z = digits z.
Proof. intros Hz. unfold to_string. destruct (Z.ltb_spec z 0); [lia|done]. Qed.

Lemma extract_unsigned_ok w z r :
  0 <= z < 2 ^ w → (∀ c r', r = c :: r' → is_digit c = false) →
  extract_unsigned w (" "%char :: to_string z ++ r) = Some (z, true, r).
Proof.
  intros Hz Hr. rewrite to_string_digits by lia. unfold extract_unsigned.
  change (skip_spaces (" "%char :: digits z ++ r)) with (skip_spaces (digits z ++ r)).
  rewrite skip_word by (apply digits_word; lia).
  pose proof (digits_all z ltac:(lia)) as Ha. pose proof (dec_val_digits z ltac:(lia)) as Hv.
  pose proof (digits_nonempty z ltac:(lia)) as Hne.
  destruct (digits z) as [|c ds] eqn:E; [done|]. cbn [app].
  assert (Hc : is_digit c = true) by (by inversion Ha).
  assert (48 <= uchar c <= 57) by (unfold is_digit in Hc; breflect; lia).
  destruct (Z.eqb_spec (uchar c) 45); [lia|]. destruct (Z.eqb_spec (uchar c) 43); [lia|].
  change (c :: ds ++ r) with ((c :: ds) ++ r). rewrite take_digits_all, drop_app_length.
  2:{ done. } 2:{ destruct r as [|c' r]; [done|]. by apply (Hr c' r). }
  rewrite Hv. destruct (Z.ltb_spec z (2 ^ w)); [done|lia].
Qed.

(** A node whose address can be sent as one word. *)
Record dialable (n : CNode) : Prop := {
  dl_ip : is_word (ip n);
  dl_port : is_u16 (port n);
  dl_uuid : is_u64 (UUID n)
}.

Lemma parse_connect_message n : dialable n → parse_connect (connect_message n) = Ok (ip n, port n, UUID n).
Proof.
  intros [Hi Hp Hu]. unfold parse_connect, connect_message.
  rewrite extract_word_ok by (done || intros c r' [= <- _]; done).
  change (str " ") with [" "%char]. cbn [app].
  rewrite extract_unsigned_ok by (done || intros c r' [= <- _]; done).
  rewrite <- (app_nil_r (to_string (UUID n))), extract_unsigned_ok by done. done.
Qed.

(** ** Requests reach the pool in the order of the stream *)

(** The bytes [s] make the parser [p] hand out [vs] and leave it as [q]. *)
Definition delivers (p : RespParser) (s : bytes) (vs : list RespValue) (q : RespParser) : Prop :=
  message_queue p = [] ∧ ∃ p', RespParser_append s p = Ok p' ∧ message_queue p' = vs ∧ q = set_queue [] p'.

Lemma delivers_app p s t vs q : delivers p (s ++ t) vs q →
  ∃ p1 v1 v2, delivers p s v1 p1 ∧ delivers p1 t v2 q ∧ vs = v1 ++ v2.
Proof.
  intros (Hq & p' & H & Hv & ->). rewrite RespParser_append_app in H.
  destruct (RespParser_append s p) as [p1| | |] eqn:E1; simplify_eq/=.
  pose proof (append_frame t (message_queue p1) (set_queue [] p1)) as Hf.
  simpl in Hf. rewrite app_nil_r in Hf.
  assert (set_queue (message_queue p1) (set_queue [] p1) = p1) as Hid by (by destruct p1).
  rewrite Hid, H in Hf.
  destruct (RespParser_append t (set_queue [] p1)) as [p2| | |] eqn:E2; simplify_eq/=.
  exists (set_queue [] p1), (message_queue p1), (message_queue p2). split_and!; [| |done].
  - split; [done|]. by exists p1.
  - split; [done|]. by exists p2.
Qed.

Lemma delivers_nil p vs q : delivers p [] vs q → vs = [] ∧ q = p.
Proof. intros (Hq & p' & H & <- & ->). simplify_eq/=. split; [done|]. destruct p'. simpl in *. by subst. Qed.

Lemma delivers_encode vs :
  forallb resp_ok vs = true → delivers RespParser_init (encode_all vs) vs RespParser_init.
Proof. intros H. split; [done|]. eexists. by rewrite append_encode_all. Qed.

Section requests.

(** Input that the kernel hands out in the pieces [bs], the peer staying. *)
Definition data_event (e : Z * list bytes) : event := EvClient e.1 (map Got e.2 ++ [RecvBlocked]).

Lemma map_emplace_found {V} k (v w : V) m : map_find k m = Some w → map_emplace k v m = m.
Proof. unfold map_emplace. by intros ->. Qed.

Lemma handle_client_data e p vs q l :
  map_find e.1 (socks l) = Some p → delivers p (concat e.2) vs q →
  ∃ l', handle_event (data_event e) l = (Ok tt, l') ∧ pool l' = pool l ++ map (THandle e.1) vs ∧
    (∀ j, map_find j (socks l') = if j =? e.1 then Some q else map_find j (socks l)) ∧
    srv l' = srv l ∧ wire l' = wire l.
Proof.
  destruct e as [fd bs]. cbn [fst snd]. intros Hp Hd. cbn [handle_event data_event fst snd]. unfold handle_client.
  rewrite (M_bind_Ok _ _ l tt l).
  2:{ unfold mmodify. rewrite (map_emplace_found _ _ _ _ Hp). by destruct l. }
  assert (Server_recv (map Got bs ++ [RecvBlocked]) = Ok (concat bs, false)) as Hr.
  { unfold Server_recv. by rewrite recv_loop_got. }
  rewrite Hr. erewrite M_bind_Ok by done. cbn match. erewrite M_bind_Ok by done.
  destruct (concat bs) as [|c s] eqn:E.
  - apply delivers_nil in Hd as [-> ->]. exists l. rewrite app_nil_r. split_and!; try done.
    intros j. by destruct (Z.eqb_spec j fd) as [->|].
  - destruct Hd as (_ & p' & Ha & <- & ->). erewrite M_bind_Ok by done. rewrite Hp, Ha.
    erewrite M_bind_Ok by done. rewrite drain_spec. eexists. split_and!; try done.
    intros j. cbn [socks set_pool set_socks]. apply map_find_assign.
Qed.

(** What the events carry for one client, and the requests of one client among
    the tasks. *)
Definition stream (fd : Z) (evs : list (Z * list bytes)) : bytes :=
  concat (map (λ e, if e.1 =? fd then concat e.2 else []) evs).
Definition request_of (fd : Z) (t : task) : option RespValue :=
  match t with THandle sock v => if sock =? fd then Some v else None | TSend _ => None end.
Definition requests_of (fd : Z) (ts : list task) : list RespValue := omap (request_of fd) ts.

Lemma requests_of_app fd ts us : requests_of fd (ts ++ us) = requests_of fd ts ++ requests_of fd us.
Proof. apply omap_app. Qed.
Lemma requests_of_map fd sock vs : requests_of fd (map (THandle sock) vs) = if sock =? fd then vs else [].
Proof.
  induction vs as [|v vs IH]; [by destruct (sock =? fd)|].
  change (requests_of fd (map (THandle sock) (v :: vs))) with
    (match (if sock =? fd then Some v else None) with
     | Some x => x :: requests_of fd (map (THandle sock) vs)
     | None => requests_of fd (map (THandle sock) vs)
     end).
  rewrite IH. by destruct (sock =? fd).
Qed.

Lemma handle_all_data evs (ps qs : Z → RespParser) (reqs : Z → list RespValue) l :
  (∀ fd, fd ∈ evs.*1 → map_find fd (socks l) = Some (ps fd)) →
  (∀ fd, delivers (ps fd) (stream fd evs) (reqs fd) (qs fd)) →
  ∃ l' ts, mfor (map data_event evs) handle_event l = (Ok tt, l') ∧ pool l' = pool l ++ ts ∧
    (∀ fd, requests_of fd ts = reqs fd) ∧ (∀ fd, fd ∈ evs.*1 → map_find fd (socks l') = Some (qs fd)) ∧
    (∀ fd, fd ∉ evs.*1 → map_find fd (socks l') = map_find fd (socks l)) ∧
    srv l' = srv l ∧ wire l' = wire l.
Proof.
  revert ps reqs l. induction evs as [|e evs IH]; intros ps reqs l Hps Hd.
  { exists l, []. split_and!; try done; [by rewrite app_nil_r| |set_solver].
    intros fd. by destruct (delivers_nil _ _ _ (Hd fd)) as [-> _]. }
  pose proof (Hd e.1) as Hd1. unfold stream in Hd1. cbn [map concat] in Hd1.
  rewrite Z.eqb_refl in Hd1. apply delivers_app in Hd1 as (p1 & v1 & v2 & H1 & H2 & Hv).
  destruct (handle_client_data e (ps e.1) v1 p1 l) as (l1 & Hr & Hpool & Hs & Hsrv & Hw); [apply Hps; left|done|].
  destruct (IH (λ fd, if fd =? e.1 then p1 else ps fd) (λ fd, if fd =? e.1 then v2 else reqs fd) l1)
    as (l' & ts & Hr' & Hpool' & Hq & Hin & Hout & Hsrv' & Hw').
  - intros fd Hfd. rewrite Hs. destruct (Z.eqb_spec fd e.1); [done|]. apply Hps. by right.
  - intros fd. specialize (Hd fd). unfold stream in *. cbn [map concat] in Hd.
    destruct (Z.eqb_spec fd e.1) as [->|]; [done|]. destruct (Z.eqb_spec e.1 fd); [congruence|done].
  - exists l', (map (THandle e.1) v1 ++ ts). split_and!; try congruence.
    + cbn [map mfor]. by rewrite (M_bind_Ok _ _ _ _ _ Hr).
    + by rewrite Hpool', Hpool, (assoc_L app).
    + intros fd. rewrite requests_of_app, requests_of_map, Hq.
      destruct (Z.eqb_spec fd e.1) as [->|]; [by rewrite Z.eqb_refl|].
      destruct (Z.eqb_spec e.1 fd); [congruence|done].
    + intros fd Hfd. destruct (decide (fd ∈ evs.*1)) as [Hi|Hn]; [by apply Hin|].
      assert (fd = e.1) as -> by (apply elem_of_cons in Hfd as [|]; done).
      rewrite Hout, Hs, Z.eqb_refl by done. f_equal.
      assert (stream e.1 evs = []) as Hnil.
      { clear -Hn. unfold stream. induction evs as [|d evs IH]; [done|]. cbn [map concat].
        rewrite IH by set_solver. destruct (Z.eqb_spec d.1 e.1); [set_solver|done]. }
      fold (stream e.1 evs) in H2. rewrite Hnil in H2. by destruct (delivers_nil _ _ _ H2).
    + intros fd Hfd. rewrite Hout, Hs by set_solver. destruct (Z.eqb_spec fd e.1); [set_solver|done].
Qed.

(** The events of one round: several clients interleave their requests, each
    stream cut anywhere by the kernel.  All events are handled, and every client's
    tasks are exactly its requests, in order. *)
Theorem events_in_order (evs : list (Z * list bytes)) (reqs : Z → list RespValue) (l : Loop) :
  (∀ fd, fd ∈ evs.*1 → map_find fd (socks l) = Some RespParser_init) →
  (∀ fd, forallb resp_ok (reqs fd) = true ∧ stream fd evs = encode_all (reqs fd)) →
  ∃ l' ts, mfor (map data_event evs) handle_event l = (Ok tt, l') ∧ pool l' = pool l ++ ts ∧
    (∀ fd, requests_of fd ts = reqs fd) ∧
    (∀ fd, map_find fd (socks l') = map_find fd (socks l)) ∧ srv l' = srv l ∧ wire l' = wire l.
Proof.
  intros Hs Hr.
  destruct (handle_all_data evs (λ _, RespParser_init) (λ _, RespParser_init) reqs l Hs)
    as (l' & ts & H1 & H2 & H3 & H4 & H5 & H6 & H7).
  { intros fd. destruct (Hr fd) as [Hok ->]. by apply delivers_encode. }
  exists l', ts. split_and!; try done. intros fd.
  destruct (decide (fd ∈ evs.*1)) as [Hi|Hn]; [by rewrite H4, Hs|by apply H5].
Qed.
End requests.

(** *** Over rounds *)

Section session.
Context (wall : nat → Z) (rand : nat → Z → nat → Z).
Context (ksend : nat → list send_answer) (dial : nat → bytes → Z → res Z)
  (kreply : nat → list (list recv_answer)).
Context (fd : Z).
#[local] Notation round := (Server_epoll_step wall rand ksend dial kreply).

(** An event of a round while the client on [fd] stays: its own events bring
    data and find it there; no other socket gets its descriptor. *)
Definition staying (e : event) : Prop :=
  match e with
  | EvClient c ks => c = fd → ∃ bs, ks = map Got bs ++ [RecvBlocked]
  | EvAccept ks => Accepted fd ∉ ks
  | EvWake => True
  end.

Lemma staying_data c bs : staying (data_event (c, bs)).
Proof. intros _. by exists bs. Qed.

(** The bytes that the events of a round bring for it. *)
Fixpoint got (ks : list recv_answer) : bytes := match ks with Got b :: ks' => b ++ got ks' | _ => [] end.
Definition input_of (e : event) : bytes := match e with EvClient c ks => if c =? fd then got ks else [] | _ => [] end.
Definition round_input (evs : list event) : bytes := concat (map input_of evs).

(** No send to the client between [l] and [l'] found its connection closed: what was
    sent is on the wire, one entry for each send. *)
Definition sends_open (l l' : Loop) : Prop :=
  ∀ j data t, wire l' !! (length (wire l) + j)%nat = Some (fd, t) → Server_send (ksend (sends l + j)%nat) data ≠ Ok (t, true).

(** From [l] to [l'] the server gets the bytes [s] from the client and appends the
    tasks [ts] to its pool, in any number of rounds that return, with any other
    events, while between them other threads take tasks and do what they like to
    the rest of the state. *)
Inductive session : Loop → bytes → list task → Loop → Prop :=
  | session_end l : session l [] [] l
  | session_others l l1 s ts l' : socks l1 = socks l → session l1 s ts l' → session l s ts l'
  | session_round l evs l1 s ts l' :
      Forall staying evs → round (EpollEvents evs) l = (Ok tt, l1) → sends_open l l1 →
      session l1 s ts l' → session l (round_input evs ++ s) (drop (length (pool l)) (pool l1) ++ ts) l'.

(** What does not concern the client: it keeps its parser, unless a send finds it
    closed, and no task is his. *)
Record unconcerned (l l' : Loop) : Prop := {
  un_sorted : map_sorted (socks l) → map_sorted (socks l');
  un_client : (∀ i a p, dial i a p ≠ Ok fd) → map_sorted (socks l) → sends_open l l' →
    map_find fd (socks l') = map_find fd (socks l);
  un_pool : ∃ ts, pool l' = pool l ++ ts ∧ requests_of fd ts = [];
  un_wire : ∃ w, wire l' = wire l ++ w ∧ sends l' = (sends l + length w)%nat
}.

Lemma sends_open_app l1 l2 l3 w1 w2 :
  wire l2 = wire l1 ++ w1 → sends l2 = (sends l1 + length w1)%nat → wire l3 = wire l2 ++ w2 →
  sends_open l1 l3 → sends_open l1 l2 ∧ sends_open l2 l3.
Proof.
  intros H1 H2 H3 Ho. split; intros j data t Hj.
  - apply (Ho j data t). rewrite H3. by apply lookup_app_l_Some.
  - rewrite H2, <- Nat.add_assoc. apply Ho. by rewrite Nat.add_assoc, <- length_app, <- H1.
Qed.

#[local] Instance unconcerned_preorder : PreOrder unconcerned.
Proof.
  split.
  - intros l. split; [done|done|exists []; by rewrite app_nil_r|exists []; by rewrite app_nil_r, Nat.add_0_r].
  - intros l1 l2 l3 [A1 A2 (t1 & A3 & A4) (w1 & A5 & A6)] [B1 B2 (t2 & B3 & B4) (w2 & B5 & B6)]. split; [auto| | |].
    + intros Hd Hs Ho. destruct (sends_open_app _ _ _ _ _ A5 A6 B5 Ho) as [Ho1 Ho2]. rewrite B2; auto.
    + exists (t1 ++ t2). by rewrite B3, A3, (assoc_L app), requests_of_app, A4, B4.
    + exists (w1 ++ w2). rewrite B5, A5, B6, A6, (assoc_L app), length_app. split; [done|lia].
Qed.
Lemma unconcerned_quiet l l' :
  (map_sorted (socks l) → map_sorted (socks l')) →
  ((∀ i a p, dial i a p ≠ Ok fd) → map_sorted (socks l) → map_find fd (socks l') = map_find fd (socks l)) →
  pool l' = pool l → wire l' = wire l → sends l' = sends l → unconcerned l l'.
Proof.
  intros Hs Hc Hp Hw Hk. split; [done|auto|exists []; by rewrite Hp, app_nil_r|].
  exists []. by rewrite Hw, Hk, app_nil_r, Nat.add_0_r.
Qed.
Lemma unconcerned_assign f p l : ((∀ i a p, dial i a p ≠ Ok fd) → f ≠ fd) → unconcerned l (set_socks (map_assign f p (socks l)) l).
Proof.
  intros Hf. apply unconcerned_quiet; try done; [by intros; apply map_assign_sorted|].
  intros Hd _. simpl. rewrite map_find_assign_ne; [done|]. intros ->. by apply Hf.
Qed.
Lemma unconcerned_for {A} (xs : list A) (f : A → M Loop unit) l l' :
  (∀ x l l', f x l = (Ok tt, l') → unconcerned l l') → mfor xs f l = (Ok tt, l') → unconcerned l l'.
Proof.
  intros Hf. revert l. induction xs as [|x xs IH]; intros l H; [by injection H as ->|]. cbn [mfor] in H.
  apply M_bind_inv in H as ([] & l1 & H1 & H2). etrans; [by eapply Hf|by apply IH].
Qed.
Lemma unconcerned_srv {A} (m : M Server A) a l l' : on_srv m l = (Ok a, l') → unconcerned l l'.
Proof. unfold on_srv, mzoom. destruct (m (srv l)). intros [= _ <-]. by apply unconcerned_quiet. Qed.
Lemma loop_send_inv f data b l l' :
  loop_send ksend f data l = (Ok b, l') →
  ∃ t, Server_send (ksend (sends l)) data = Ok (t, b) ∧ l' = set_wire (wire l ++ [(f, t)]) (S (sends l)) l.
Proof.
  unfold loop_send. intros H. apply M_bind_inv in H as (l0 & l1 & [= <- <-] & H).
  apply M_bind_inv in H as ([] & l2 & [= <-] & H). apply M_bind_inv in H as ([t c] & l3 & [= Hs <-] & H).
  apply M_bind_inv in H as ([] & l4 & [= <-] & [= <- <-]). by exists t.
Qed.
Lemma unconcerned_send f data b l l' : loop_send ksend f data l = (Ok b, l') → unconcerned l l'.
Proof.
  intros (t & _ & ->)%loop_send_inv. split; [done|done|exists []; by rewrite app_nil_r|].
  exists [(f, t)]. split; [done|simpl; lia].
Qed.

Lemma unconcerned_dispatch m l l' :
  dispatch_message rand ksend dial kreply m l = (Ok tt, l') → unconcerned l l'.
Proof.
  destruct m as [text f]. unfold dispatch_message. destruct (f =? -1).
  - intros H. apply M_bind_inv in H as ([[a p] u] & l1 & [= _ <-] & H). unfold Server_connect in H.
    apply M_bind_inv in H as (l0 & l2 & [= <- <-] & H). apply M_bind_inv in H as ([] & l3 & [= <-] & H).
    apply M_bind_inv in H as (f' & l4 & [= Hf <-] & H). apply M_bind_inv in H as (b & l5 & Hs & H).
    apply unconcerned_send in Hs. apply M_bind_inv in H as (q & l6 & [= _ <-] & H).
    destruct (RespParser_getResult q) as [v q']. apply M_bind_inv in H as ([] & l7 & [= <-] & H).
    apply M_bind_inv in H as ([] & l8 & Hc%unconcerned_srv & [= <-]).
    etrans; [by apply (unconcerned_quiet l (set_dials (S (dials l)) l))|]. etrans; [exact Hs|].
    etrans; [apply (unconcerned_assign f' q'); intros Hd ->; by destruct (Hd (dials l) a p)|].
    etrans; [exact Hc|]. split; simpl; [done|done|by exists [TSend u]|]. exists []. by rewrite app_nil_r, Nat.add_0_r.
  - destruct (f =? -2); [apply unconcerned_srv|]. intros H'. apply M_bind_inv in H' as (l0 & l1 & [= <- <-] & H').
    destruct (map_find f (socks l)); [|injection H' as <-; reflexivity].
    apply M_bind_inv in H' as (b & l2 & Hs & H'). pose proof (unconcerned_send _ _ _ _ _ Hs) as Hun.
    destruct b; [|by injection H' as <-]. injection H' as <-. destruct Hun as [U1 U2 U3 U4].
    split; [|intros Hd Hso Ho|done|done]; [intros Hso; by apply map_erase_sorted, U1|].
    simpl. rewrite map_find_erase by auto. destruct (Z.eqb_spec fd f) as [<-|]; [|by apply U2].
    apply loop_send_inv in Hs as (t & Ht & ->). destruct (Ho 0%nat text t); [|by rewrite Nat.add_0_r].
    simpl. by rewrite Nat.add_0_r, list_lookup_middle.
Qed.

(** Everything of a round behind its events. *)
Lemma unconcerned_rest l l' :
  (_ ← drain_queue rand ksend dial kreply; _ ← drain_raft rand; l ← mget; on_srv (epoll_tail wall rand (map fst (socks l)))) l
    = (Ok tt, l') → unconcerned l l'.
Proof.
  intros H. apply M_bind_inv in H as ([] & l1 & H1 & H). apply M_bind_inv in H as ([] & l2 & H2 & H).
  apply M_bind_inv in H as (l0 & l3 & [= <- <-] & H3%unconcerned_srv). etrans; [|etrans; [|exact H3]].
  - unfold drain_queue in H1. apply M_bind_inv in H1 as (l0 & l4 & [= <- <-] & H1). revert H1. apply unconcerned_for.
    intros m la lb Hm. apply M_bind_inv in Hm as ([] & lc & Hc%unconcerned_srv & Hm). etrans; [exact Hc|].
    by eapply unconcerned_dispatch.
  - unfold drain_raft in H2. apply M_bind_inv in H2 as (l0 & l4 & [= <- <-] & H2). revert H2. apply unconcerned_for.
    intros [[gid sender] raw] la lb Hm. apply M_bind_inv in Hm as ([] & lc & [= <-] & Hm%unconcerned_srv).
    etrans; [by apply (unconcerned_quiet la (set_raft_msg_queue (tail (raft_msg_queue la)) la))|exact Hm].
Qed.

(** The events of others leave the client's parser as it is. *)
Record elsewhere (l l' : Loop) : Prop := {
  ew_sorted : map_sorted (socks l) → map_sorted (socks l');
  ew_client : map_find fd (socks l') = map_find fd (socks l);
  ew_pool : ∃ ts, pool l' = pool l ++ ts ∧ requests_of fd ts = []
}.
#[local] Instance elsewhere_preorder : PreOrder elsewhere.
Proof.
  split; [intros l; split; auto; exists []; by rewrite app_nil_r|].
  intros l1 l2 l3 [A1 A2 (t1 & A3 & A4)] [B1 B2 (t2 & B3 & B4)]. split; [auto|congruence|].
  exists (t1 ++ t2). by rewrite B3, A3, (assoc_L app), requests_of_app, A4, B4.
Qed.

Lemma elsewhere_assign f p l : f ≠ fd → elsewhere l (set_socks (map_assign f p (socks l)) l).
Proof.
  intros Hf. split; simpl; [by intros; apply map_assign_sorted|by rewrite map_find_assign_ne|exists []; by rewrite app_nil_r].
Qed.

Lemma elsewhere_accept fuel ks l l' : Accepted fd ∉ ks → accept_loop fuel ks l = (Ok tt, l') → elsewhere l l'.
Proof.
  revert ks l. induction fuel as [|fuel IH]; intros ks l Hks H; [done|]. cbn [accept_loop] in H.
  apply M_bind_inv in H as ([f ks'] & l1 & [= Ha <-] & H).
  assert (f ≠ fd ∨ f = -1) as Hf. 2: assert (Accepted fd ∉ ks') as Hks'.
  { clear -Ha Hks. induction ks as [|k ks IH]; [done|]. apply not_elem_of_cons in Hks as [Hk Hks].
    destruct k; simpl in Ha; simplify_eq; auto. left. congruence. }
  { clear -Ha Hks. induction ks as [|k ks IH]; [done|]. apply not_elem_of_cons in Hks as [Hk Hks].
    destruct k; simpl in Ha; simplify_eq; auto. }
  destruct (Z.eqb_spec f (-1)); [injection H as <-; reflexivity|].
  apply M_bind_inv in H as ([] & l2 & [= <-] & H). etrans; [apply (elsewhere_assign f); by destruct Hf|by apply (IH ks')].
Qed.

Lemma elsewhere_client c ks l l' : c ≠ fd → handle_client c ks l = (Ok tt, l') → elsewhere l l'.
Proof.
  intros Hc H. unfold handle_client in H. apply M_bind_inv in H as ([] & l1 & [= <-] & H).
  apply M_bind_inv in H as ([s closed] & l2 & [= _ <-] & H). apply M_bind_inv in H as ([] & l3 & He & H).
  assert (elsewhere l l3) as H3.
  { trans (set_socks (map_emplace c RespParser_init (socks l)) l).
    - unfold map_emplace. destruct (map_find c (socks l)); [|by apply elsewhere_assign].
      split; [done|done|]. exists []. by rewrite app_nil_r.
    - destruct closed; injection He as <-; [|reflexivity].
      split; simpl; [by intros; apply map_erase_sorted|by rewrite map_find_erase_ne|].
      exists []. by rewrite app_nil_r. }
  etrans; [exact H3|]. clear H3 He. destruct s as [|ch s]; [injection H as <-; reflexivity|].
  apply M_bind_inv in H as (l0 & l4 & [= <- <-] & H). destruct (map_find c (socks l3)) as [p|]; [|injection H as <-; reflexivity].
  apply M_bind_inv in H as (p1 & l5 & [= _ <-] & H). destruct (drain p1) as [vs p2]. injection H as <-.
  split; simpl; [by intros; apply map_assign_sorted|by rewrite map_find_assign_ne|].
  exists (map (THandle c) vs). split; [done|]. rewrite requests_of_map. by destruct (Z.eqb_spec c fd).
Qed.

Lemma got_data bs ks : got (map Got bs ++ RecvBlocked :: ks) = concat bs.
Proof. induction bs as [|b bs IH]; [done|]. simpl. by rewrite IH. Qed.

Lemma handle_client_keeps c ks l l' :
  handle_client c ks l = (Ok tt, l') →
  (map_sorted (socks l) → map_sorted (socks l')) ∧ pool l `prefix_of` pool l' ∧ wire l' = wire l ∧ sends l' = sends l.
Proof.
  intros H. unfold handle_client in H. apply M_bind_inv in H as ([] & l1 & [= <-] & H).
  apply M_bind_inv in H as ([s closed] & l2 & [= _ <-] & H). apply M_bind_inv in H as ([] & l3 & He & H).
  assert ((map_sorted (socks l) → map_sorted (socks l3)) ∧ pool l3 = pool l ∧ wire l3 = wire l ∧ sends l3 = sends l)
    as (H3 & <- & <- & <-).
  { destruct closed; injection He as <-; simpl; (split; [|done]); intros Hs; [apply map_erase_sorted|]; by apply map_emplace_sorted. }
  destruct s as [|ch s]; [by injection H as <-|].
  apply M_bind_inv in H as (l0 & l4 & [= <- <-] & H). destruct (map_find c (socks l3)) as [p|]; [|by injection H as <-].
  apply M_bind_inv in H as (p1 & l5 & [= _ <-] & H). destruct (drain p1) as [vs p2]. injection H as <-.
  split_and!; simpl; [intros Hs; by apply map_assign_sorted, H3|by apply prefix_app_r|done|done].
Qed.

Lemma event_keeps e l l' :
  handle_event e l = (Ok tt, l') → pool l `prefix_of` pool l' ∧ wire l' = wire l ∧ sends l' = sends l.
Proof.
  destruct e as [ks| |c ks]; cbn [handle_event]; [|by intros [= <-]|by intros [_ H]%handle_client_keeps].
  generalize (S (length ks)) as fuel. intros fuel. revert ks l. induction fuel as [|fuel IH]; intros ks l H; [done|].
  cbn [accept_loop] in H. apply M_bind_inv in H as ([f ks'] & l1 & [= _ <-] & H). destruct (f =? -1); [by injection H as <-|].
  apply M_bind_inv in H as ([] & l2 & [= <-] & H). by apply IH in H.
Qed.
Lemma events_keep evs l l' :
  mfor evs handle_event l = (Ok tt, l') → pool l `prefix_of` pool l' ∧ wire l' = wire l ∧ sends l' = sends l.
Proof.
  revert l. induction evs as [|e evs IH]; intros l He; [by injection He as ->|]. cbn [mfor] in He.
  apply M_bind_inv in He as ([] & l2 & (P1 & <- & <-)%event_keeps & (P2 & -> & ->)%IH). split; [by etrans|done].
Qed.

(** The events of a round: the client's tasks are what its bytes hold. *)
Lemma session_events evs p vs q l l' :
  Forall staying evs → mfor evs handle_event l = (Ok tt, l') → map_sorted (socks l) →
  map_find fd (socks l) = Some p → delivers p (round_input evs) vs q →
  map_sorted (socks l') ∧ map_find fd (socks l') = Some q ∧ ∃ ts, pool l' = pool l ++ ts ∧ requests_of fd ts = vs.
Proof.
  intros Hst. revert p vs l. induction Hst as [|e evs He _ IH]; intros p vs l H Hso Hp Hd.
  { injection H as <-. destruct (delivers_nil _ _ _ Hd) as [-> ->]. split_and!; [done..|]. exists []. by rewrite app_nil_r. }
  cbn [mfor] in H. apply M_bind_inv in H as ([] & l1 & H1 & H). change (round_input (e :: evs)) with (input_of e ++ round_input evs) in Hd.
  assert (elsewhere l l1 → input_of e = [] → map_sorted (socks l') ∧ map_find fd (socks l') = Some q ∧
    ∃ ts, pool l' = pool l ++ ts ∧ requests_of fd ts = vs) as Helse.
  { intros [E1 E2 (t1 & E3 & E4)] Hnil. rewrite Hnil in Hd.
    destruct (IH p vs l1 H) as (H2 & H3 & ts & H4 & H5); [auto|congruence|done|]. split_and!; [done..|].
    exists (t1 ++ ts). by rewrite H4, E3, (assoc_L app), requests_of_app, E4. }
  destruct e as [ks| |c ks]; cbn [handle_event staying input_of] in *.
  - apply Helse; [by eapply elsewhere_accept|done].
  - apply Helse; [by injection H1 as <-|done].
  - destruct (Z.eqb_spec c fd) as [->|Hc]; [|by apply Helse; [eapply elsewhere_client|]].
    destruct (He eq_refl) as (bs & ->). rewrite got_data in Hd.
    apply delivers_app in Hd as (p1 & v1 & v2 & Hd1 & Hd2 & ->).
    destruct (handle_client_data (fd, bs) p v1 p1 l Hp Hd1) as (l2 & Hr & Hpool & Hs & _).
    change (handle_event (data_event (fd, bs)) l) with (handle_client fd (map Got bs ++ [RecvBlocked]) l) in Hr.
    rewrite H1 in Hr. injection Hr as <-. specialize (Hs fd) as Hs'. cbn [fst] in *. rewrite Z.eqb_refl in Hs'.
    destruct (IH p1 v2 l1 H) as (H2 & H3 & ts & H4 & H5); [|done|done|].
    { by apply (handle_client_keeps _ _ _ _ H1). }
    split_and!; [done..|]. exists (map (THandle fd) v1 ++ ts).
    by rewrite H4, Hpool, (assoc_L app), requests_of_app, requests_of_map, Z.eqb_refl, H5.
Qed.

Lemma session_delivers l s ts l' p vs q :
  (∀ i a p, dial i a p ≠ Ok fd) → session l s ts l' → map_sorted (socks l) → map_find fd (socks l) = Some p →
  delivers p s vs q → requests_of fd ts = vs ∧ map_find fd (socks l') = Some q.
Proof.
  intros Hdial Hse. revert p vs. induction Hse as [l|l l1 s ts l' Hs Hse IH|l evs l1 s ts l' Hst Hr Hlive Hse IH];
    intros p vs Hso Hp Hd.
  - destruct (delivers_nil _ _ _ Hd) as [-> ->]. done.
  - apply (IH p vs); [by rewrite Hs|by rewrite Hs|done].
  - apply delivers_app in Hd as (p1 & v1 & v2 & H1 & H2 & ->). unfold Server_epoll_step in Hr.
    apply M_bind_inv in Hr as ([] & l2 & He & Hr).
    destruct (session_events evs p v1 p1 l l2 Hst He Hso Hp H1) as (Hso2 & Hp2 & t1 & Hpool & Ht1).
    destruct (unconcerned_rest l2 l1 Hr) as [U1 U2 (t2 & U3 & U4) _].
    assert (map_find fd (socks l1) = Some p1) as Hp1.
    { rewrite U2; [done..|]. unfold sends_open in *. destruct (events_keep _ _ _ He) as (_ & -> & ->). exact Hlive. }
    destruct (IH p1 v2 (U1 Hso2) Hp1 H2) as [H3 H4]. split; [|done].
    rewrite U3, Hpool, <- (assoc_L app), drop_app_length, !requests_of_app, Ht1, U4, H3. by rewrite app_nil_r.
Qed.

(** Whoever is concerned, a round only appends to the pool. *)
Lemma round_appends evs l l' : round (EpollEvents evs) l = (Ok tt, l') → pool l `prefix_of` pool l'.
Proof.
  intros H. unfold Server_epoll_step in H. apply M_bind_inv in H as ([] & l1 & He & H).
  destruct (unconcerned_rest l1 l' H) as [_ _ (ts & Hts & _) _]. trans (pool l1); [|rewrite Hts; by apply prefix_app_r].
  by apply (events_keep evs).
Qed.

(** C15: what a client sends is queued in the order it was sent, over any number of
    rounds of the loop that return: its stream cut anywhere by the kernel and
    over the rounds, other clients sending, connecting and leaving as they like,
    replies, connections, Raft messages and ticks handled in between, workers
    taking tasks between the rounds.  As long as the client stays (its socket is
    not found closed and its descriptor is not given away), the tasks that the
    rounds append for it are exactly its requests, in order, none lost, doubled or
    mixed with another's, and its parser is back at its start; and a round never
    takes a task away. *)
Theorem loop_requests_in_order (reqs : list RespValue) (s : bytes) (ts : list task) (l l' : Loop) :
  (∀ i a p, dial i a p ≠ Ok fd) → map_sorted (socks l) → map_find fd (socks l) = Some RespParser_init →
  forallb resp_ok reqs = true → s = encode_all reqs → session l s ts l' →
  requests_of fd ts = reqs ∧ map_find fd (socks l') = Some RespParser_init ∧
  ∀ evs la lb, round (EpollEvents evs) la = (Ok tt, lb) → pool lb = pool la ++ drop (length (pool la)) (pool lb).
Proof.
  intros Hd Hs Hp Hok -> Hse.
  destruct (session_delivers l _ ts l' RespParser_init reqs RespParser_init Hd Hse Hs Hp) as [H1 H2].
  { by apply delivers_encode. }
  split_and!; [done|done|]. intros evs la lb [ts' Hr]%round_appends. by rewrite Hr, drop_app_length.
Qed.
End session.

(** ** Applying committed commands *)

Lemma tokens_aux_app cur a c b : is_space c = true → tokens_aux cur (a ++ c :: b) = tokens_aux cur a ++ tokens b.
Proof.
  intros Hc. revert cur. induction a as [|x a IH]; intros cur; simpl.
  - rewrite Hc. by destruct cur.
  - destruct (is_space x); [destruct cur|]; simpl; by rewrite ?IH.
Qed.
Lemma tokens_app a c b : is_space c = true → tokens (a ++ c :: b) = tokens a ++ tokens b.
Proof. apply tokens_aux_app. Qed.

Lemma tokens_set key text : tokens (str "SET " ++ key ++ str " " ++ text) = str "SET" :: tokens key ++ tokens text.
Proof.
  change (str "SET " ++ key ++ str " " ++ text) with (str "SET" ++ " "%char :: (key ++ " "%char :: text)).
  by rewrite tokens_app, tokens_app.
Qed.
Lemma tokens_del key : tokens (str "DEL " ++ key) = str "DEL" :: tokens key.
Proof. change (str "DEL " ++ key) with (str "DEL" ++ " "%char :: key). by rewrite tokens_app. Qed.

(** What [execute] leaves of a call on the store. *)
Definition store_effect {A} (r : res A * KVStore RespValue) (s : Server) : res unit * Server :=
  ((λ _, tt) <$> r.1, set_kvstore r.2 s).

Definition apply_set (key text : bytes) (s : Server) : res unit * Server :=
  match tokens key ++ tokens text with
  | [k; w] => store_effect (KVStore_set k (SimpleString w) (kvstore s)) s
  | _ => (Throw (RuntimeError "SET: Wrong number of arguments"), s)
  end.

Lemma execute_apply_set key text s :
  execute (makeCommand (str "SET " ++ key ++ str " " ++ text)) s = apply_set key text s.
Proof.
  unfold apply_set, makeCommand. rewrite tokens_set. cbn [map].
  change (execute (Array (Some (SimpleString (str "SET") :: map SimpleString (tokens key ++ tokens text)))) s)
    with ((Handler_SET_noAOF (request "SET" (map SimpleString (tokens key ++ tokens text))) ≫= λ _, mret tt) s).
  destruct (tokens key ++ tokens text) as [|k [|w [|? ?]]]; try done.
  unfold Handler_SET_noAOF, request, elements, mlift. cbn [map].
  unfold mbind, M_bind, on_kvstore, mzoom, store_effect.
  by destruct (KVStore_set k (SimpleString w) (kvstore s)) as [[?| | |] ?].
Qed.

(** A committed command is its words again: applying the entry that [SET]
    proposed stores the text under the key as a simple string when key and text
    are one word each (two words in all), and otherwise throws and changes
    nothing; likewise the entry of [DEL]. *)
Theorem raft_apply_commands (key text : bytes) (s : Server) :
  execute (makeCommand (str "SET " ++ key ++ str " " ++ text)) s = apply_set key text s ∧
  execute (makeCommand (str "DEL " ++ key)) s =
    match tokens key with
    | [k] => store_effect (KVStore_del k (kvstore s)) s
    | _ => (Throw (RuntimeError "DEL_noAOF: Usage: DEL key"), s)
    end.
Proof.
  split; [apply execute_apply_set|]. unfold makeCommand. rewrite tokens_del. cbn [map].
  change (execute (Array (Some (SimpleString (str "DEL") :: map SimpleString (tokens key)))) s)
    with ((Handler_DEL_noAOF (request "DEL" (map SimpleString (tokens key))) ≫= λ _, mret tt) s).
  destruct (tokens key) as [|k [|? ?]]; try done.
  unfold Handler_DEL_noAOF, request, elements, mlift. cbn [map].
  unfold mbind, M_bind, on_kvstore, mzoom, store_effect.
  by destruct (KVStore_del k (kvstore s)) as [[?| | |] ?].
Qed.

(** The group of a single node: its only member leads and has applied all. *)
Record solo_group (g : Z) (n : RaftNode) (cmds : list bytes) (s : Server) : Prop := {
  sg_group : Server_getRaftGroup g s = Some n;
  sg_solo : solo_ok n cmds;
  sg_applied : lastApplied n = commitIndex n;
  sg_sent : sent n = [];
  sg_bound : Z.of_nat (length cmds) < 2 ^ 62
}.

Lemma on_group_silent {A} held gid (m : M RaftNode A) n a n' s :
  Server_getRaftGroup gid s = Some n → m n = (Ok a, n') → sent n' = [] →
  on_group held gid m s = (Ok (Some a),
    set_raft (map_assign gid n' (raft_groups s)) (masterToGroup s) (groupMembers_ s) s).
Proof.
  intros Hg Hm Hs. unfold on_group. erewrite M_bind_Ok by done. rewrite Hg, Hm.
  assert (RaftNode.set_sent [] n' = n') as -> by (destruct n'; simpl in *; by subst).
  erewrite M_bind_Ok by done. by rewrite Hs.
Qed.

Lemma getRaftGroup_assign gid n s :
  Server_getRaftGroup gid (set_raft (map_assign gid n (raft_groups s)) (masterToGroup s) (groupMembers_ s) s) = Some n.
Proof. apply map_find_assign_eq. Qed.

Section apply.
Context (steady wall : nat → Z) (rand : nat → Z → nat → Z).

(** A tick of such a group after one more proposal applies that command. *)
Lemma epoll_group_solo g n cmds cmd s :
  Server_getRaftGroup g s = Some n → solo_ok n (cmds ++ [cmd]) → sent n = [] →
  lastApplied n = Z.of_nat (length cmds) → Z.of_nat (length cmds) < 2 ^ 62 →
  ∃ s2, kvstore s2 = kvstore s ∧ cluster s2 = cluster s ∧
    epoll_group rand g s = (execute (makeCommand cmd) ≫= λ _, mret tt) s2.
Proof.
  intros Hg [Hl Hp Hlog Hc Hd Ht] Hse Ha Hb. rewrite length_app in Hc. cbn [length] in Hc.
  destruct (tick_solo (rand (rebuilds s) g) n Hp Hl) as (n1 & Hr & _ & Hlog1 & Hc1 & Ha1 & Hs1).
  set (s1 := set_raft (map_assign g n1 (raft_groups s)) (masterToGroup s) (groupMembers_ s) s).
  assert (Hg1 : Server_getRaftGroup g s1 = Some n1) by apply getRaftGroup_assign.
  assert (Ht1 : takePendingApply n1 = (Ok [mkLogEntry 0 cmd], set_lastApplied (lastApplied n1 + 1) n1)).
  { unfold takePendingApply. erewrite M_bind_Ok by done. rewrite take_loop_ok by lia.
    rewrite Hc1, Ha1, Hlog1, Hlog, Hc, Ha, Ht.
    replace (Z.to_nat (Z.of_nat (length cmds + 1) - Z.of_nat (length cmds))) with 1%nat by lia.
    rewrite Nat2Z.id. cbn [drop]. rewrite map_app.
    rewrite (drop_app_length' _ _ (length cmds)) by (by rewrite length_map). done. }
  eexists. split_and!.
  3:{ unfold epoll_group. erewrite M_bind_Ok by done.
      rewrite (M_bind_Ok _ _ s (Some tt) s1) by (apply (on_group_silent _ _ _ n tt n1); congruence).
      erewrite M_bind_Ok by done. rewrite Hg1.
      assert (hasPendingApply n1 = true) as -> by (apply Z.ltb_lt; lia).
      erewrite M_bind_Ok by (eapply (on_group_silent _ _ _ n1); [done|exact Ht1|simpl; congruence]).
      reflexivity. }
  - done.
  - done.
Qed.

(** C29: on a single node the master's [SET] is applied a second time by the next
    tick, from the text of the Raft entry: the value just stored is replaced by
    its text as a simple string, and where key and text are not two words in
    all, the tick throws out of the event loop although the client was told
    [+OK]. *)
Theorem solo_set_reapplied (key text : bytes) (v : RespValue) (fd g : Z) (n : RaftNode) (cmds : list bytes) (s : Server) :
  Server_ok s → syncing s = false → Cluster_isMasterFor key (cluster s) = Ok true →
  kv_avail (kvstore s) key → value_text v = Ok text →
  Server_getGroupForKey key s = Ok (Some g) → solo_group g n cmds s →
  ∃ s1 s2, Handler_handle steady wall rand (request "SET" [SimpleString key; v]) fd s = (Ok OK, s1) ∧
    kv_map (kvstore s1) = <[key := v]> (kv_map (kvstore s)) ∧
    kvstore s2 = kvstore s1 ∧ cluster s2 = cluster s ∧
    epoll_group rand g s1 = apply_set key text s2.
Proof.
  intros [Hkv Hc Hraft] Hsync Hm Hav Hv Hgk [Hg Hsolo Ha Hse Hb].
  set (cmd := str "SET " ++ key ++ str " " ++ text).
  destruct (KVStore_set_ok (kvstore s) key v Hkv Hav) as (k & sh & _ & Hk & _ & Hmap).
  destruct (solo_propose n cmds cmd Hsolo ltac:(lia)) as (n1 & Hr & Hsolo1 & Ha1 & Hse1).
  set (s0 := set_raft (map_assign g n1 (raft_groups s)) (masterToGroup s) (groupMembers_ s) s).
  assert (Hp : propose_for key cmd s = (Ok tt, s0)).
  { unfold propose_for. erewrite M_bind_Ok by done. rewrite Hgk. unfold mlift. erewrite M_bind_Ok by done.
    cbn match. erewrite M_bind_Ok by (apply (on_group_silent _ _ _ n tt n1); congruence). done. }
  destruct (AOF_append_text_ok steady (encode (request "SET" [SimpleString key; v])) (aof s0)) as (a & Hl & _).
  set (s1 := set_kvstore k (set_aof a s0)). destruct (epoll_group_solo g n1 cmds cmd s1) as (s2 & Hk2 & Hc2 & Hr2).
  { apply getRaftGroup_assign. } { done. } { congruence. } { rewrite Ha1, Ha. apply Hsolo. } { done. }
  exists s1, s2. split_and!; [|done..|].
  - rewrite handle_SET by done. unfold Handler_SET. erewrite M_bind_Ok by done. cbn match.
    erewrite M_bind_Ok by done. rewrite Hm. erewrite M_bind_Ok by done. cbn [negb].
    rewrite Hv. erewrite M_bind_Ok by done. fold cmd. rewrite (M_bind_Ok _ _ _ _ _ Hp).
    rewrite (M_bind_Ok _ _ _ tt (set_aof a s0)) by (by apply on_aof_run).
    erewrite M_bind_Ok; [done|]. apply on_kvstore_run. exact Hk.
  - rewrite Hr2. unfold cmd. unfold mbind, M_bind. rewrite execute_apply_set.
    destruct (apply_set key text s2) as [[[]| | |] ?]; done.
Qed.
End apply.

(** ** Sending under the lock *)

Lemma raft_send_held msgs m s :
  m ∈ msgs → Cluster_getConnection (target m) (cluster s) ≠ -1 → (mfor msgs (Server_raftSend true) s).1 = UB.
Proof.
  intros Hin Hc. induction msgs as [|m0 msgs IH]; [by apply elem_of_nil in Hin|]. cbn [mfor].
  destruct (Z.eqb_spec (Cluster_getConnection (target m0) (cluster s)) (-1)) as [E|E].
  - rewrite (M_bind_Ok _ _ s tt s).
    2:{ unfold Server_raftSend. erewrite M_bind_Ok by done. by rewrite E. }
    apply IH. apply elem_of_cons in Hin as [->|]; [congruence|done].
  - rewrite (M_bind_UB _ _ s s); [done|]. unfold Server_raftSend. erewrite M_bind_Ok by done.
    destruct (Z.eqb_spec (Cluster_getConnection (target m0) (cluster s)) (-1)); [done|reflexivity].
Qed.

Lemma on_group_held {A} gid (m : M RaftNode A) n r n' msg s :
  Server_getRaftGroup gid s = Some n → m n = (r, n') → msg ∈ sent n' →
  Cluster_getConnection (target msg) (cluster s) ≠ -1 → (on_group true gid m s).1 = UB.
Proof.
  intros Hg Hm Hin Hc. unfold on_group. erewrite M_bind_Ok by done. rewrite Hg, Hm.
  erewrite M_bind_Ok by done. apply M_bind_fst_UB. by eapply raft_send_held.
Qed.

Lemma send_each (f : Z → RaftNode → bytes) ps n :
  ∃ n', mfor ps (λ peer, n ← mget; sendCb peer (f peer n)) n = (Ok tt, n') ∧
    (∀ m, m ∈ sent n → m ∈ sent n') ∧ ∀ p, p ∈ ps → ∃ m, m ∈ sent n' ∧ target m = p.
Proof.
  revert n. induction ps as [|q ps IH]; intros n; [exists n; set_solver|].
  destruct (IH (RaftNode.set_sent (sent n ++ [mkRaftMessage q (f q n)]) n)) as (n' & Hr & Hk & Ha). exists n'.
  split_and!; [exact Hr|intros m Hm; apply Hk; simpl; set_solver|].
  intros p [->|Hp]%elem_of_cons; [|by apply Ha].
  exists (mkRaftMessage q (f q n)). split; [apply Hk; simpl; set_solver|done].
Qed.

(** A follower whose election timer runs out asks every peer for its vote. *)
Lemma tick_requests_votes rand n p :
  state_ n ≠ Leader → electionTimer n <= 1 → p ∈ peers n →
  ∃ n' msg, RaftNode_tick rand n = (Ok tt, n') ∧ msg ∈ sent n' ∧ target msg = p.
Proof.
  intros Hs Ht Hp. set (n1 := (flushDisk n).2).
  assert (peers n1 = peers n ∧ state_ n1 = state_ n ∧ electionTimer n1 = electionTimer n) as (Hp1 & Hs1 & Ht1).
  { subst n1. unfold flushDisk, mmodify. simpl. by destruct (diskBuf_ n). }
  set (n2 := (becomeCandidate rand (set_electionTimer (electionTimer n1 - 1) n1)).2).
  assert (Hp2 : peers n2 = peers n) by (rewrite <- Hp1; reflexivity).
  assert (Hrun : RaftNode_tick rand n = sendRequestVote n2).
  { unfold RaftNode_tick. rewrite (M_bind_Ok _ _ n tt n1) by done. erewrite M_bind_Ok by done.
    rewrite decide_False by congruence. erewrite M_bind_Ok by done. erewrite M_bind_Ok by done.
    destruct (Z.leb_spec (electionTimer (set_electionTimer (electionTimer n1 - 1) n1)) 0) as [_|Hgt];
      [|simpl in Hgt; lia]. by erewrite M_bind_Ok. }
  rewrite Hrun. unfold sendRequestVote. erewrite M_bind_Ok by done.
  destruct (send_each (λ _ n, encodeRequestVote (groupId_ n) (currentTerm n) (lastLogIndex n) (lastLogTerm n))
    (peers n2) n2) as (n' & Hr & _ & Hall).
  rewrite <- Hp2 in Hp. destruct (Hall p Hp) as (msg & Hm & Hpm). by exists n', msg.
Qed.

(** C37: the tail of a round sends while [queueMutex] is held, and the callbacks
    lock it again: when a node has timed out, and when a member of a group calls
    an election with a peer that is connected, the round is undefined (a
    deadlock of the main thread in practice). *)
Theorem loop_relocks_queue (wall : nat → Z) (rand : nat → Z → nat → Z) (gid p : Z) (n : RaftNode) (s : Server) :
  (timed_out (wall (wall_reads s)) (cluster s) ≠ [] → (epoll_timeouts wall s).1 = UB) ∧
  (Server_getRaftGroup gid s = Some n → state_ n ≠ Leader → electionTimer n <= 1 → p ∈ peers n →
   Cluster_getConnection p (cluster s) ≠ -1 → (epoll_group rand gid s).1 = UB).
Proof.
  split.
  - intros Ht. unfold epoll_timeouts, Server_checkTimeouts, wall_now. erewrite M_bind_Ok.
    2:{ erewrite M_bind_Ok by done. erewrite M_bind_Ok by done. reflexivity. }
    erewrite M_bind_Ok by done. cbn [cluster set_wall_reads].
    destruct (timed_out _ _) as [|u us]; [done|reflexivity].
  - intros Hg Hl Ht Hp Hc. unfold epoll_group. erewrite M_bind_Ok by done. apply M_bind_fst_UB.
    destruct (tick_requests_votes (rand (rebuilds s) gid) n p Hl Ht Hp) as (n' & msg & Hr & Hm & Hpm).
    eapply on_group_held; [done..|congruence].
Qed.

(** ** What stops a round *)

Section stops.
Context (wall : nat → Z) (rand : nat → Z → nat → Z).
Context (ksend : nat → list send_answer) (dial : nat → bytes → Z → res Z)
  (kreply : nat → list (list recv_answer)).

(** Input that is not RESP, from any client, throws out of the round: no request
    of it, nor any later event, reaches the pool, and no queued reply is sent. *)
Lemma malformed_event (fd : Z) (bs : list bytes) (p : RespParser) (e : exn) (l : Loop) :
  map_find fd (socks l) = Some p → RespParser_append (concat bs) p = Throw e →
  handle_event (data_event (fd, bs)) l = (Throw e, l).
Proof.
  intros Hp Ha. cbn [handle_event data_event fst snd]. unfold handle_client. rewrite (M_bind_Ok _ _ l tt l).
  2:{ unfold mmodify. rewrite (map_emplace_found _ _ _ _ Hp). by destruct l. }
  assert (Server_recv (map Got bs ++ [RecvBlocked]) = Ok (concat bs, false)) as Hr.
  { unfold Server_recv. by rewrite recv_loop_got. }
  rewrite Hr. erewrite M_bind_Ok by done. cbn match. erewrite M_bind_Ok by done.
  destruct (concat bs) as [|c s] eqn:E; [done|]. erewrite M_bind_Ok by done. rewrite Hp, Ha. done.
Qed.

Lemma malformed_throws (fd : Z) (bs : list bytes) (p : RespParser) (e : exn) (evs1 evs2 : list event) (l l' : Loop) :
  mfor evs1 handle_event l = (Ok tt, l') →
  map_find fd (socks l') = Some p → RespParser_append (concat bs) p = Throw e →
  Server_epoll_step wall rand ksend dial kreply (EpollEvents (evs1 ++ data_event (fd, bs) :: evs2)) l = (Throw e, l').
Proof.
  intros H1 Hp Ha. unfold Server_epoll_step. apply M_bind_Throw. rewrite (mfor_app _ _ _ _ _ H1). cbn [mfor].
  apply M_bind_Throw. by apply (malformed_event fd bs p).
Qed.

Definition popped (l : Loop) : Loop := set_srv (set_out_queue (tail (out_queue (srv l))) (srv l)) l.

Lemma wait_reply_result calls p p' :
  wait_reply calls p = Ok p' → ∃ v, RespParser_getResult p' = (Some v, RespParser_pop p').
Proof.
  revert p. induction calls as [|ks calls IH]; intros p; simpl; destruct (RespParser_hasResult p) eqn:E; try done.
  - intros [= ->]. unfold RespParser_hasResult, RespParser_getResult in *.
    destruct (message_queue p') as [|v q]; [done|by exists v].
  - intros [= ->]. unfold RespParser_hasResult, RespParser_getResult in *.
    destruct (message_queue p') as [|v q]; [done|by exists v].
  - intros H. apply res_bind_inv in H as (r & _ & H). apply res_bind_inv in H as (p1 & _ & H). by eapply IH.
Qed.

(** Calls of [recv] that hand out the pieces [bs], the peer staying. *)
Definition recv_call (bs : list bytes) : list recv_answer := map Got bs ++ [RecvBlocked].

(** A reply arrives whole, however it is cut into calls and pieces. *)
Lemma wait_reply_cut v (css : list (list bytes)) :
  resp_ok v = true → concat (map (@concat ascii) css) = encode v →
  wait_reply (map recv_call css) RespParser_init = Ok (mkRespParser WaitType RespState_default [] [v]).
Proof.
  intros Hv. assert (∀ s p, RespParser_append s RespParser_init = Ok p → message_queue p = [] →
    encode v = s ++ concat (map (@concat ascii) css) →
    wait_reply (map recv_call css) p = Ok (mkRespParser WaitType RespState_default [] [v])) as H.
  2:{ intros He. by apply (H []). }
  induction css as [|bs css IH]; intros s p Hp Hq He; cbn [map concat] in He.
  - rewrite app_nil_r in He. rewrite <- He, append_encode_one in Hp by done. by injection Hp as <-.
  - cbn [map wait_reply]. unfold RespParser_hasResult at 1. rewrite Hq. unfold Server_recv, recv_call.
    rewrite recv_loop_got. cbn [Server_recv_loop mbind res_bind app fst].
    rewrite (assoc_L app) in He. pose proof (RespParser_append_app s (concat bs) RespParser_init) as Ha.
    rewrite Hp in Ha. cbn [mbind res_bind] in Ha.
    destruct (decide (concat (map (@concat ascii) css) = [])) as [E|E].
    + rewrite E, app_nil_r in He. rewrite <- He, append_encode_one in Ha by done. rewrite <- Ha. cbn [mbind res_bind].
      by destruct css.
    + destruct (append_cut v _ _ Hv He E) as (p1 & H1 & H2). rewrite H1 in Ha. rewrite <- Ha. cbn [mbind res_bind].
      by apply (IH (s ++ concat bs)).
Qed.

(** C32: the message that a joining node's announcement leaves in the queue makes
    the main thread connect to exactly the announced address: if the peer
    answers, it is registered under its identifier, greeted, and the transfer of
    its keys is given to the pool; if it cannot be reached, the exception leaves
    the round and the rest of the queue stays. *)
Theorem announced_node_dialled (n : CNode) (q : list (bytes * Z)) (l : Loop) :
  dialable n → out_queue (srv l) = (connect_message n, -1) :: q →
  let hello := hello_command (UUID (self_node (cluster (srv l)))) in
  (∀ e evs, evs = [] → dial (dials l) (ip n) (port n) = Throw e →
     ∃ l', Server_epoll_step wall rand ksend dial kreply (EpollEvents evs) l = (Throw e, l') ∧
       out_queue (srv l') = q ∧ pool l' = pool l) ∧
  (∀ fd p, dial (dials l) (ip n) (port n) = Ok fd → Server_send (ksend (sends l)) hello = Ok (hello, false) →
     wait_reply (kreply (dials l)) RespParser_init = Ok p →
     ∃ l', dispatch_message rand ksend dial kreply (connect_message n, -1) l = (Ok tt, l') ∧
       Cluster_getConnection (UUID n) (cluster (srv l')) = fd ∧
       Cluster_getUuidByFd fd (cluster (srv l')) = UUID n ∧
       wire l' = wire l ++ [(fd, hello)] ∧ pool l' = pool l ++ [TSend (UUID n)] ∧
       map_find fd (socks l') = Some (RespParser_pop p)).
Proof.
  intros Hd Hq hello. split.
  - intros e evs -> Hdial. eexists. split.
    + unfold Server_epoll_step. erewrite M_bind_Ok by done. apply M_bind_Throw.
      unfold drain_queue. erewrite M_bind_Ok by done. rewrite Hq. cbn [mfor]. apply M_bind_Throw.
      erewrite M_bind_Ok by done. unfold dispatch_message. rewrite Z.eqb_refl, parse_connect_message by done.
      erewrite M_bind_Ok by done. cbn match. unfold Server_connect.
      erewrite M_bind_Ok by done. erewrite M_bind_Ok by done. apply M_bind_Throw. cbn [dials set_srv].
      unfold mlift. rewrite Hdial. reflexivity.
    + simpl. by rewrite Hq.
  - intros fd p Hdial Hsend Hw. eexists. split.
    + unfold dispatch_message. rewrite Z.eqb_refl, parse_connect_message by done.
      erewrite M_bind_Ok by done. cbn match. unfold Server_connect.
      erewrite M_bind_Ok by done. erewrite M_bind_Ok by done. erewrite (lift_Ok _ _ _ _ Hdial).
      cbn [srv set_dials]. fold hello.
      erewrite M_bind_Ok.
      2:{ unfold loop_send. erewrite M_bind_Ok by done. erewrite M_bind_Ok by done.
          cbn [sends set_dials]. rewrite Hsend. erewrite M_bind_Ok by done. erewrite M_bind_Ok by done.
          reflexivity. }
      erewrite (lift_Ok _ _ _ _ Hw). destruct (wait_reply_result _ _ _ Hw) as (v & ->). reflexivity.
    + simpl. unfold Cluster_getConnection, Cluster_getUuidByFd. simpl.
      rewrite !map_find_assign, !Z.eqb_refl. split_and!; try done.
Qed.

(** The messages of the queue whose client is still there. *)
Definition deliverable (live : list (Z * RespParser)) (m : bytes * Z) : Prop := is_Some (map_find m.2 live).
#[local] Instance deliverable_dec live m : Decision (deliverable live m).
Proof. unfold deliverable. apply _. Defined.

(** What emptying the queue [q] did between [l] and [l']: [w] holds the messages
    that were given to the kernel, each with the bytes it took. *)
Record replies_sent (q : list (bytes * Z)) (l l' : Loop) (w : list ((bytes * Z) * bytes)) : Prop := {
  rs_order : sublist w.*1 q;
  rs_wire : wire l' = wire l ++ map (λ e, (e.1.2, e.2)) w;
  rs_each : ∀ j m t, w !! j = Some (m, t) → deliverable (socks l) m ∧
    ∃ closed, Server_send (ksend (sends l + j)%nat) m.1 = Ok (t, closed) ∧ t `prefix_of` m.1 ∧
      (closed = true → map_find m.2 (socks l') = None) ∧
      (t = m.1 ∨ closed = true ∨ SendBlocked ∈ ksend (sends l + j)%nat);
  rs_staying : filter (deliverable (socks l')) w.*1 = filter (deliverable (socks l')) q;
  rs_socks : ∀ fd, map_find fd (socks l') = map_find fd (socks l) ∨
    map_find fd (socks l') = None ∧
    ∃ j m t, w !! j = Some (m, t) ∧ m.2 = fd ∧ Server_send (ksend (sends l + j)%nat) m.1 = Ok (t, true)
}.

Lemma replies_none l q l' :
  socks l' = socks l → wire l' = wire l → filter (deliverable (socks l)) q = [] → replies_sent q l l' [].
Proof.
  intros Hs Hw Hq. constructor; [apply sublist_nil_l|by rewrite Hw, app_nil_r|done|by rewrite Hs, Hq|by rewrite Hs; left].
Qed.

(** A message that is dropped, and one that is sent. *)
Lemma replies_drop m q l l1 l' w :
  map_find m.2 (socks l) = None → socks l1 = socks l → wire l1 = wire l → sends l1 = sends l →
  replies_sent q l1 l' w → replies_sent (m :: q) l l' w.
Proof.
  intros Hm Hs Hw Hk [A B C D E]. rewrite Hs, Hw, Hk in *. constructor; try done; [by apply sublist_cons|].
  rewrite D, filter_cons, decide_False; [done|]. unfold deliverable. intros Hl.
  destruct (E m.2) as [H|[H _]]; rewrite H, ?Hm in Hl; by destruct Hl.
Qed.

Lemma replies_send m t closed q l l1 l' w :
  deliverable (socks l) m → Server_send (ksend (sends l)) m.1 = Ok (t, closed) →
  (∀ fd, map_find fd (socks l1) = if closed && (fd =? m.2) then None else map_find fd (socks l)) →
  wire l1 = wire l ++ [(m.2, t)] → sends l1 = S (sends l) →
  replies_sent q l1 l' w → replies_sent (m :: q) l l' ((m, t) :: w).
Proof.
  intros Hm Ht Hs Hw Hk [A B C D E].
  assert (closed = true → map_find m.2 (socks l') = None) as Hcl.
  { intros ->. destruct (E m.2) as [H|[H _]]; [|done]. by rewrite H, Hs, Z.eqb_refl. }
  destruct (Server_send_outcome _ _ _ _ Ht) as [Hpre Hwhole]. constructor.
  - by apply sublist_skip.
  - rewrite B, Hw, <- (assoc_L app). done.
  - intros [|j] m' t' Hj.
    + injection Hj as <- <-. rewrite Nat.add_0_r. split; [done|]. by exists closed.
    + destruct (C j m' t' Hj) as (Hd & c & H1 & H2). rewrite Hk, Nat.add_succ_comm in H1, H2.
      split; [|by exists c]. unfold deliverable in *. rewrite Hs in Hd. by destruct (closed && _); [destruct Hd|].
  - cbn [fmap list_fmap fst]. rewrite !filter_cons. cbn [fst]. case_decide; by rewrite D.
  - intros fd. destruct (E fd) as [H|(H & j & m' & t' & Hj & H1 & H2)].
    + rewrite H, Hs. destruct closed; cbn [andb]; [|by left]. destruct (Z.eqb_spec fd m.2) as [->|]; [|by left].
      right. split; [done|]. exists 0%nat, m, t. rewrite Nat.add_0_r. done.
    + right. split; [done|]. exists (S j), m', t'. rewrite Hk in H2. by rewrite <- Nat.add_succ_comm.
Qed.

Lemma drain_replies q l :
  out_queue (srv l) = q → map_sorted (socks l) →
  (∀ m, m ∈ q → 0 <= m.2 ∧ ∀ i, ∃ r, Server_send (ksend i) m.1 = Ok r) →
  ∃ l' w, drain_queue rand ksend dial kreply l = (Ok tt, l') ∧ out_queue (srv l') = [] ∧ pool l' = pool l ∧
    replies_sent q l l' w.
Proof.
  unfold drain_queue. erewrite M_bind_Ok by done. intros <-. remember (out_queue (srv l)) as q eqn:Hq.
  revert l Hq. induction q as [|[text fd] q IH]; intros l Hq Hso Hm.
  { exists l, []. split_and!; try done. by apply replies_none. }
  destruct (Hm (text, fd)) as [Hfd Hsend]; [left|]. cbn [fst snd] in *.
  assert (∀ l1, out_queue (srv l1) = q → map_sorted (socks l1) → ∃ l' w,
    mfor q (λ message, _ ← on_srv (mmodify (λ s, set_out_queue (tail (out_queue s)) s));
      dispatch_message rand ksend dial kreply message) l1 = (Ok tt, l') ∧
    out_queue (srv l') = [] ∧ pool l' = pool l1 ∧ replies_sent q l1 l' w) as IH'.
  { intros l1 Hq1 Hs1. apply IH; [done|done|]. intros m Hin. apply Hm. by right. }
  clear IH. cbn [mfor].
  assert (∀ o, map_find fd (socks l) = o → dispatch_message rand ksend dial kreply (text, fd) (popped l) =
    match o with
    | Some _ => (closed ← loop_send ksend fd text; if closed : bool then erase_sock fd else mret tt) (popped l)
    | None => (Ok tt, popped l)
    end) as Hd.
  { intros o Ho. unfold dispatch_message. destruct (Z.eqb_spec fd (-1)); [lia|]. destruct (Z.eqb_spec fd (-2)); [lia|].
    erewrite M_bind_Ok by done. cbn [socks popped set_srv]. rewrite Ho. by destruct o. }
  assert (out_queue (srv (popped l)) = q) as Hqp by (simpl; by rewrite <- Hq).
  destruct (map_find fd (socks l)) as [p|] eqn:E.
  - destruct (Hsend (sends l)) as [[t closed] Ht].
    set (l1 := set_wire (wire l ++ [(fd, t)]) (S (sends l)) (popped l)).
    set (l2 := if closed then set_socks (map_erase fd (socks l)) l1 else l1).
    destruct (IH' l2) as (l' & w & Hr & Hout & Hp & Hw).
    { by destruct closed. }
    { destruct closed; [by apply map_erase_sorted|done]. }
    exists l', ((text, fd, t) :: w). split_and!; [|done|rewrite Hp; by destruct closed|].
    + rewrite (M_bind_Ok _ _ l tt l2); [exact Hr|]. erewrite M_bind_Ok by done. etransitivity; [exact (Hd _ eq_refl)|].
      rewrite (M_bind_Ok _ _ _ closed l1); [by destruct closed|]. unfold loop_send.
      erewrite M_bind_Ok by done. erewrite M_bind_Ok by done. cbn [sends popped set_srv].
      erewrite (lift_Ok _ _ _ _ Ht). reflexivity.
    + apply (replies_send _ t closed _ _ l2); try done; [unfold deliverable; cbn [snd]; rewrite E; by eexists|..]; try by destruct closed.
      intros fd'. destruct closed; cbn [andb]; [|done]. by apply map_find_erase.
  - destruct (IH' (popped l) Hqp Hso) as (l' & w & Hr & Hout & Hp & Hw). exists l', w. split_and!; [|done|done|].
    + rewrite (M_bind_Ok _ _ l tt (popped l)); [exact Hr|]. erewrite M_bind_Ok by done. exact (Hd _ eq_refl).
    + by apply (replies_drop _ _ _ (popped l)).
Qed.

(** C31: emptying a queue of replies, where no send fails with an error: every
    reply to a client that is still connected is given to the kernel exactly once,
    on that client's own socket and in the order of the queue, and what arrives is
    a prefix of it: all of it, unless the kernel would not take more at the moment
    (the rest is lost) or the client was found gone.  Only the replies to clients
    that are gone, or are found gone on the way, are not sent; nothing else
    happens to sockets or pool.  If the kernel takes every message whole, every
    reply to a connected client arrives whole. *)
Theorem loop_replies_in_order (l : Loop) :
  let q := out_queue (srv l) in
  map_sorted (socks l) → (∀ m, m ∈ q → 0 <= m.2 ∧ ∀ i, ∃ r, Server_send (ksend i) m.1 = Ok r) →
  ∃ l' w, drain_queue rand ksend dial kreply l = (Ok tt, l') ∧ out_queue (srv l') = [] ∧ pool l' = pool l ∧
    replies_sent q l l' w ∧
    ((∀ m i, m ∈ q → Server_send (ksend i) m.1 = Ok (m.1, false)) →
     wire l' = wire l ++ map (λ m, (m.2, m.1)) (filter (deliverable (socks l)) q) ∧
     ∀ fd, map_find fd (socks l') = map_find fd (socks l)).
Proof.
  intros q Hso Hm. destruct (drain_replies q l eq_refl Hso Hm) as (l' & w & Hr & Hout & Hp & Hw).
  exists l', w. split_and!; try done. intros Hall. destruct Hw as [A B C D E].
  assert (∀ j m t, w !! j = Some (m, t) → m ∈ q ∧ t = m.1) as Hwhole.
  { intros j m t Hj. assert (m ∈ q) as Hin.
    { eapply elem_of_sublist; [|exact A]. apply list_elem_of_fmap. exists (m, t). split; [done|by eapply list_elem_of_lookup_2]. }
    split; [done|]. destruct (C j m t Hj) as (_ & c & H & _). rewrite (Hall m _ Hin) in H. by injection H. }
  assert (∀ fd, map_find fd (socks l') = map_find fd (socks l)) as Hsame.
  { intros fd. destruct (E fd) as [H|(_ & j & m & t & Hj & _ & H)]; [done|].
    rewrite (Hall m _ (proj1 (Hwhole j m t Hj))) in H. done. }
  split; [|done]. rewrite B. f_equal.
  assert (∀ ms : list (bytes * Z), filter (deliverable (socks l')) ms = filter (deliverable (socks l)) ms) as Hf.
  { intros ms. induction ms as [|m ms IH]; [done|]. rewrite !filter_cons, IH.
    assert (deliverable (socks l') m ↔ deliverable (socks l) m) as Hd by (unfold deliverable; by rewrite Hsame).
    repeat case_decide; tauto. }
  rewrite !Hf in D. rewrite <- D. rewrite list_filter_all.
  2:{ apply Forall_lookup. intros j m Hj. rewrite list_lookup_fmap in Hj. destruct (w !! j) as [[m' t]|] eqn:Ej; [|done].
      injection Hj as <-. apply (C j m' t Ej). }
  rewrite <- list_fmap_compose. apply list_eq. intros j. rewrite !list_lookup_fmap.
  destruct (w !! j) as [[m t]|] eqn:Ej; [|done]. simpl. by rewrite (proj2 (Hwhole j m t Ej)).
Qed.

(** [Server::recv] on a closed socket returns nothing each time it is called:
    the wait for the greeting's answer then never ends. *)
Lemma wait_reply_closed k : wait_reply (replicate k [RecvClosed]) RespParser_init = OutOfFuel.
Proof. induction k as [|k IH]; [done|]. exact IH. Qed.
End stops.

(** ** Witnesses *)

(** The single node of [Handler] with two clients. *)
Definition demo_loop : Loop := mkLoop solo [(9, RespParser_init); (10, RespParser_init)] [] [] [] 0 0.
Definition GET_k : RespValue := request "GET" [SimpleString (str "k")].
Definition EXIST_k : RespValue := request "EXIST" [SimpleString (str "k")].

(** Two rounds: the first request of client 9 is cut between them, client 10 and a
    new connection come in between, a worker takes a task. *)
#[local] Notation demo_round evs l :=
  (Server_epoll_step (λ _, 0) (λ _ _ _, 0) (λ _, []) (λ _ _ _, Throw LengthError) (λ _, []) (EpollEvents evs) l).
Definition demo_evs1 : list event := [data_event (9, [take 7 (encode GET_k)]); data_event (10, [encode GET_k])].
Definition demo_evs2 : list event :=
  [EvAccept [Accepted 11; AcceptBlocked]; data_event (9, [drop 7 (encode GET_k); encode EXIST_k]); EvWake].
Definition demo_loop1 : Loop := (demo_round demo_evs1 demo_loop).2.
Definition demo_loop2 : Loop := set_pool (tail (pool demo_loop1)) demo_loop1.
Definition demo_loop3 : Loop := (demo_round demo_evs2 demo_loop2).2.

Lemma socks_set_pool x l : socks (set_pool x l) = socks l.
Proof. reflexivity. Qed.

Lemma loop_requests_in_order_witness :
  ∃ ts, session (λ _, 0) (λ _ _ _, 0) (λ _, []) (λ _ _ _, Throw LengthError) (λ _, []) 9 demo_loop
      (encode GET_k ++ encode EXIST_k) ts demo_loop3 ∧
    requests_of 9 ts = [GET_k; EXIST_k] ∧ requests_of 9 (pool demo_loop3) = [GET_k; EXIST_k].
Proof.
  assert (H1 : demo_round demo_evs1 demo_loop = (Ok tt, demo_loop1)).
  { assert (Hf : (demo_round demo_evs1 demo_loop).1 = Ok tt) by (vm_compute; reflexivity).
    unfold demo_loop1. destruct (demo_round demo_evs1 demo_loop) as [x y]. cbn [fst snd] in *. by rewrite Hf. }
  assert (H2 : demo_round demo_evs2 demo_loop2 = (Ok tt, demo_loop3)).
  { assert (Hf : (demo_round demo_evs2 demo_loop2).1 = Ok tt) by (vm_compute; reflexivity).
    unfold demo_loop3. destruct (demo_round demo_evs2 demo_loop2) as [x y]. cbn [fst snd] in *. by rewrite Hf. }
  assert (Hse : session (λ _, 0) (λ _ _ _, 0) (λ _, []) (λ _ _ _, Throw LengthError) (λ _, []) 9 demo_loop
    (round_input 9 demo_evs1 ++ round_input 9 demo_evs2 ++ []) (drop (length (pool demo_loop)) (pool demo_loop1) ++
      drop (length (pool demo_loop2)) (pool demo_loop3) ++ []) demo_loop3).
  { apply (session_round _ _ _ _ _ 9 demo_loop demo_evs1 demo_loop1).
    - unfold demo_evs1. apply Forall_cons_2; [apply staying_data|]. apply Forall_cons_2; [apply staying_data|constructor].
    - exact H1.
    - intros j data t Hj. vm_compute in Hj. discriminate Hj.
    - refine (session_others _ _ _ _ _ 9 demo_loop1 demo_loop2 _ _ _ (socks_set_pool _ _) _).
      apply (session_round _ _ _ _ _ 9 demo_loop2 demo_evs2 demo_loop3); [|exact H2|intros j data t Hj; vm_compute in Hj; discriminate Hj|constructor].
      unfold demo_evs2. apply Forall_cons_2; [intros E; repeat (apply elem_of_cons in E as [E|E]; [discriminate E|]); by apply elem_of_nil in E|]. apply Forall_cons_2; [apply staying_data|].
      apply Forall_cons_2; [exact I|constructor]. }
  assert (Hin : round_input 9 demo_evs1 ++ round_input 9 demo_evs2 ++ [] = encode GET_k ++ encode EXIST_k)
    by (vm_compute; reflexivity).
  rewrite Hin in Hse. eexists. split; [exact Hse|]. split; [|vm_compute; reflexivity].
  apply (loop_requests_in_order (λ _, 0) (λ _ _ _, 0) (λ _, []) (λ _ _ _, Throw LengthError) (λ _, []) 9
    [GET_k; EXIST_k] (encode GET_k ++ encode EXIST_k) _ demo_loop demo_loop3).
  - intros i a p. discriminate.
  - repeat constructor.
  - reflexivity.
  - vm_compute. reflexivity.
  - vm_compute. reflexivity.
  - exact Hse.
Defined.

Definition solo_member : RaftNode := (RaftNode_init (λ _, 0) 0 7 [] None).2.
Lemma solo_member_group : solo_group 0 solo_member [] solo.
Proof. constructor; [reflexivity|constructor; reflexivity|reflexivity|reflexivity|simpl; lia]. Qed.

Lemma solo_set_reapplied_witness :
  let v := BulkString (Some (str "a b")) in
  ∃ s1 s2, Handler_handle (λ _, 0) (λ _, 0) (λ _ _ _, 0) (request "SET" [SimpleString (str "k"); v]) 9 solo = (Ok OK, s1) ∧
    epoll_group (λ _ _ _, 0) 0 s1 = (Throw (RuntimeError "SET: Wrong number of arguments"), s2).
Proof.
  intros v.
  destruct (solo_set_reapplied (λ _, 0) (λ _, 0) (λ _ _ _, 0) (str "k") (str "a b") v 9 0 solo_member [] solo)
    as (s1 & s2 & Hr & _ & _ & _ & He).
  - exact solo_server_ok.
  - reflexivity.
  - vm_compute. reflexivity.
  - apply solo_avail.
  - reflexivity.
  - vm_compute. reflexivity.
  - exact solo_member_group.
  - exists s1, s2. split; [exact Hr|]. rewrite He. reflexivity.
Defined.

(** A member of a group of three about to call an election, connected to its peer
    2, on a server whose peer 3 was last seen an hour ago. *)
Definition restless : RaftNode := set_electionTimer 1 member.
Definition crowded : Server :=
  set_raft [(7, restless)] [] [] (set_cluster (set_heartbeat_time [(3, 0)] (set_connections [(2, 5)] (cluster solo))) solo).

Lemma loop_relocks_queue_witness :
  (epoll_timeouts (λ _, 3600000) crowded).1 = UB ∧ (epoll_group (λ _ _ _, 0) 7 crowded).1 = UB.
Proof.
  destruct (loop_relocks_queue (λ _, 3600000) (λ _ _ _, 0) 7 2 restless crowded) as [H1 H2]. split.
  - apply H1. vm_compute. discriminate.
  - apply H2; [reflexivity|discriminate|simpl; lia|simpl; left|discriminate].
Defined.

(** The first send is cut by the kernel, the client of the third is gone. *)
Definition slow_kernel : nat → list send_answer := λ i, if (i =? 0)%nat then [Sent 2; SendBlocked] else [Sent 5].

Lemma loop_replies_in_order_witness :
  let l := set_srv (set_out_queue [(OK, 10); (OK, 12); (OK, 9)] solo) demo_loop in
  ∃ l', drain_queue (λ _ _ _, 0) slow_kernel (λ _ _ _, Ok 5) (λ _, []) l = (Ok tt, l') ∧
    pool l' = [] ∧ wire l' = [(10, take 2 OK); (9, OK)].
Proof.
  intros l.
  destruct (loop_replies_in_order (λ _ _ _, 0) slow_kernel (λ _ _ _, Ok 5) (λ _, []) l)
    as (l' & w & Hr & _ & Hp & _).
  - repeat constructor.
  - assert (∀ i, ∃ r, Server_send (slow_kernel i) OK = Ok r) as H.
    { intros [|i]; eexists; reflexivity. }
    intros m Hm. change (m ∈ [(OK, 10); (OK, 12); (OK, 9)]) in Hm.
    assert (m.1 = OK ∧ 0 <= m.2) as [-> Hfd]; [|split; [exact Hfd|exact H]].
    repeat (apply elem_of_cons in Hm as [->|Hm]; [split; [reflexivity|cbn [snd]; lia]|]). by apply elem_of_nil in Hm.
  - exists l'. split; [exact Hr|]. split; [exact Hp|]. apply (f_equal (λ p, wire p.2)) in Hr. cbn [snd] in Hr.
    rewrite <- Hr. vm_compute. reflexivity.
Defined.

Definition newcomer : CNode := mkCNode (str "10.0.0.3") 7803 3.
Lemma announced_node_dialled_witness :
  let l := set_srv (set_out_queue [(connect_message newcomer, -1)] solo) demo_loop in
  ∃ l', dispatch_message (λ _ _ _, 0) (λ _, [Sent 64]) (λ _ ip_ port_, if bool_decide (ip_ = ip newcomer) then Ok port_ else Throw LengthError)
      (λ _, [[Got OK; RecvBlocked]]) (connect_message newcomer, -1) l = (Ok tt, l') ∧
    Cluster_getConnection 3 (cluster (srv l')) = 7803.
Proof.
  intros l. destruct (announced_node_dialled (λ _, 0) (λ _ _ _, 0) (λ _, [Sent 64])
    (λ _ ip_ port_, if bool_decide (ip_ = ip newcomer) then Ok port_ else Throw LengthError)
    (λ _, [[Got OK; RecvBlocked]]) newcomer [] l) as [_ H].
  - constructor; [split; [discriminate|repeat constructor]|split; [discriminate|reflexivity]..].
  - reflexivity.
  - destruct (H 7803 (mkRespParser WaitType RespState_default [] [SimpleString (str "OK")])) as (l' & Hr & Hc & _).
    + reflexivity.
    + vm_compute. reflexivity.
    + vm_compute. reflexivity.
    + exists l'. split; [exact Hr|exact Hc].
Defined.
