(* ===== verification/Lifecycle.v ===== *)
(** * Joining, running and leaving (Server::joinCluster, Server::run, Server::gracefulShutdown)

    The life of a server around its event loop.  The random identifiers of
    gossip messages are arguments; [raw i msg] is the number of bytes that the
    [i]-th plain [::send] takes. *)
From Stdlib Require Import ZArith Ascii String Lia.
From stdpp Require Import base numbers list strings gmap.
From S2P Require Import Prelude CppStd RespValue RespParser StringTable HashTable LRU KVStore Snapshot AOF Socket Ring Cluster.
From S2P Require Import Utils RaftNode Server Handler Membership Recovery EventLoop.
Local Open Scope Z_scope.

Definition set_running (b : bool) (s : Server) : Server :=
  mkServer (kvstore s) (aof s) (cluster s) b (syncing s) (pending_sync_nodes s) (out_queue s)
    (raft_groups s) (masterToGroup s) (groupMembers_ s) (raft_files s) (rebuilds s) (wall_reads s).

Definition network_command : bytes := str "*1" ++ CRLF ++ str "+GETNETWORK" ++ CRLF.
Definition nodein_command (msg_UUID : Z) (node : CNode) : bytes :=
  str "*3" ++ CRLF ++ str "+NODEIN" ++ CRLF ++ str "+" ++ to_string msg_UUID ++ CRLF ++ encodeNode node.
Definition nodeout_command (gossip_uuid self : Z) : bytes :=
  str "*3" ++ CRLF ++ str "+NODEOUT" ++ CRLF ++ str "+" ++ to_string gossip_uuid ++ CRLF ++
  str "+" ++ to_string self ++ CRLF.

Section lifecycle.
Context (wall : nat → Z) (rand : nat → Z → nat → Z).
Context (ksend : nat → list send_answer) (dial : nat → bytes → Z → res Z)
  (kreply : nat → list (list recv_answer)).
Context (raw : nat → bytes → nat).

(** ** Joining *)

(** The nodes of the reply; the connection belongs to the bootstrap node. *)
Definition adopt_node (bootstrap_ip : bytes) (bootstrap_port fd : Z) (node : CNode) (c : Cluster) : Cluster :=
  let c := Cluster_addNodeToHash (UUID node) (Cluster_addTopoNode node c) in
  if bool_decide (ip node = bootstrap_ip) && (port node =? bootstrap_port)
  then Cluster_addConnection (UUID node) fd c else c.

Definition Server_joinCluster (bootstrap_ip : bytes) (bootstrap_port msg_UUID : Z) : M Loop unit :=
  l ← mget;
  let k := dials l in
  _ ← mput (set_dials (S (S k)) l);
  fd ← mlift (dial k bootstrap_ip bootstrap_port);
  _ ← loop_send ksend fd network_command;
  p1 ← mlift (wait_reply (kreply k) RespParser_init);
  let '(reply, p2) := RespParser_getResult p1 in
  value ← mlift (match reply with Some v => Ok v | None => Throw (RuntimeError "bad optional access") end);
  r ← mlift (Utils_getTopoV2 value []);
  let topo_ := r.1 in
  _ ← on_srv (Server_markSyncing (i32 (Z.of_nat (length topo_))));
  _ ← on_srv (mfor topo_ (λ node, on_cluster (adopt_node bootstrap_ip bootstrap_port fd node)));
  l ← mget;
  _ ← loop_send ksend fd (hello_command (UUID (self_node (cluster (srv l)))));
  p3 ← mlift (wait_reply (kreply (S k)) p2);
  _ ← on_srv (now ← wall_now wall; on_cluster (Cluster_addGossip now msg_UUID));
  l ← mget;
  _ ← loop_send ksend fd (nodein_command msg_UUID (self_node (cluster (srv l))));
  mmodify (λ l, set_socks (map_assign fd (RespParser_reset p3) (socks l)) l).

(** ** Leaving *)

Definition raw_send (fd : Z) (msg : bytes) : M Loop unit :=
  mmodify (λ l, set_wire (wire l ++ [(fd, take (raw (sends l) msg) msg)]) (S (sends l)) l).

(** The transfer of one pair: to its new owner, if that is connected. *)
Definition migrate_pair (kv : bytes * RespValue) : M Loop unit :=
  l ← mget;
  owner_uuid ← mlift (Cluster_queryNode kv.1 (cluster (srv l)));
  if owner_uuid =? UUID (self_node (cluster (srv l))) then mret tt
  else
    let target_fd := Cluster_getConnection owner_uuid (cluster (srv l)) in
    if target_fd =? -1 then mret tt else raw_send target_fd (set_command kv.1 kv.2).

Definition Server_gracefulShutdown (gossip_uuid : Z) : M Loop unit :=
  _ ← on_srv (mmodify (set_running false));
  _ ← on_srv (now ← wall_now wall; on_cluster (Cluster_addGossip now gossip_uuid));
  l ← mget;
  let self_uuid := UUID (self_node (cluster (srv l))) in
  _ ← mfor (connections (cluster (srv l))) (λ c,
        if c.1 =? self_uuid then mret tt else raw_send c.2 (nodeout_command gossip_uuid self_uuid));
  _ ← on_srv (on_cluster (Cluster_delNodeToHash self_uuid));
  _ ← on_srv (on_cluster (Cluster_delTopoNode self_uuid));
  mfor (KVStore_forEach (kvstore (srv l))) migrate_pair.

(** ** Running

    [rounds] are the answers to [epoll_wait] until a shutdown is requested. *)
Definition Server_run (rounds : list epoll_answer) (gossip_uuid : Z) : M Loop unit :=
  _ ← on_srv (mmodify (set_running true));
  _ ← on_srv (Server_initRaftGroups rand);
  _ ← catch_all (mfor rounds (Server_epoll_step wall rand ksend dial kreply));
  Server_gracefulShutdown gossip_uuid.
End lifecycle.

(** ** Shutdown hands the keys over *)

Section leave.
Context (wall : nat → Z) (rand : nat → Z → nat → Z).
Context (ksend : nat → list send_answer) (dial : nat → bytes → Z → res Z)
  (kreply : nat → list (list recv_answer)).
Context (raw : nat → bytes → nat).

(** The pair's owner on the ring is another node that is connected as [fd]. *)
Definition goes_to (c : Cluster) (key : bytes) (fd : Z) : Prop :=
  ∃ owner, Cluster_queryNode key c = Ok owner ∧ owner ≠ UUID (self_node c) ∧
    Cluster_getConnection owner c = fd ∧ fd ≠ -1.

(** What the kernel takes of messages that are sent once each, from the [k]-th
    [::send] on: the rest of a message is lost. *)
Definition offered (k : nat) (ms : list (Z * bytes)) : list (Z * bytes) :=
  imap (λ j m, (m.1, take (raw (k + j) m.2) m.2)) ms.

Lemma offered_app k ms ms' : offered k (ms ++ ms') = offered k ms ++ offered (k + length ms) ms'.
Proof.
  unfold offered. rewrite imap_app. f_equal. apply imap_ext. intros j m _. simpl. by rewrite Nat.add_assoc.
Qed.

(** From [l] to [l'] the messages [q] were sent, and nothing else. *)
Record sends_only (l l' : Loop) (q : list (Z * bytes)) : Prop := {
  so_srv : srv l' = srv l;
  so_wire : wire l' = wire l ++ offered (sends l) q;
  so_sends : sends l' = (sends l + length q)%nat
}.

Lemma sends_none l : sends_only l l [].
Proof. constructor; [done|by rewrite app_nil_r|simpl; lia]. Qed.
Lemma sends_one fd msg l : sends_only l (raw_send raw fd msg l).2 [(fd, msg)].
Proof. constructor; simpl; [done| |lia]. unfold offered. simpl. by rewrite Nat.add_0_r. Qed.
Lemma sends_app l1 l2 l3 q q' : sends_only l1 l2 q → sends_only l2 l3 q' → sends_only l1 l3 (q ++ q').
Proof.
  intros [A1 A2 A3] [B1 B2 B3]. constructor; [congruence| |rewrite length_app; lia].
  by rewrite B2, A2, A3, offered_app, (assoc_L app).
Qed.

Lemma migrate_run kv l :
  node_hash (cluster (srv l)) ≠ [] →
  ∃ l' q, migrate_pair raw kv l = (Ok tt, l') ∧ sends_only l l' q ∧
    (∀ fd m, (fd, m) ∈ q ↔ goes_to (cluster (srv l)) kv.1 fd ∧ m = set_command kv.1 kv.2).
Proof.
  intros Hne. destruct (query_total kv.1 (cluster (srv l)) Hne) as (owner & Ho).
  unfold migrate_pair. erewrite M_bind_Ok by done. erewrite (lift_Ok _ _ _ _ Ho).
  destruct (Z.eqb_spec owner (UUID (self_node (cluster (srv l))))) as [E|E].
  { exists l, []. split_and!; [done|apply sends_none|]. intros fd m.
    split; [by intros ?%elem_of_nil|]. intros [(o & Ho' & Hn & _) _]. congruence. }
  destruct (Z.eqb_spec (Cluster_getConnection owner (cluster (srv l))) (-1)) as [E1|E1].
  { exists l, []. split_and!; [done|apply sends_none|]. intros fd m.
    split; [by intros ?%elem_of_nil|]. intros [(o & Ho' & _ & Hc & Hf) _]. congruence. }
  eexists _, [_]. split_and!; [reflexivity|apply sends_one|]. intros fd m. rewrite list_elem_of_singleton. split.
  - intros [= -> ->]. split; [|done]. by exists owner.
  - intros [(o & Ho' & _ & Hc & _) ->]. assert (o = owner) as -> by congruence. by rewrite Hc.
Qed.

Lemma migrate_all kvs l :
  node_hash (cluster (srv l)) ≠ [] →
  ∃ l' q, mfor kvs (migrate_pair raw) l = (Ok tt, l') ∧ sends_only l l' q ∧
    (∀ fd m, (fd, m) ∈ q ↔ ∃ kv, kv ∈ kvs ∧ goes_to (cluster (srv l)) kv.1 fd ∧ m = set_command kv.1 kv.2).
Proof.
  revert l. induction kvs as [|kv kvs IH]; intros l Hne.
  { exists l, []. split_and!; [done|apply sends_none|]. intros fd m.
    split; [by intros ?%elem_of_nil|]. by intros (kv & ?%elem_of_nil & _). }
  destruct (migrate_run kv l Hne) as (l1 & q1 & Hr1 & Hs1 & Hin1). pose proof (so_srv _ _ _ Hs1) as E.
  destruct (IH l1) as (l2 & q2 & Hr2 & Hs2 & Hin2); [congruence|].
  exists l2, (q1 ++ q2). split_and!; [|by eapply sends_app|].
  - cbn [mfor]. by rewrite (M_bind_Ok _ _ _ _ _ Hr1).
  - intros fd m. rewrite elem_of_app, Hin1, Hin2, E. setoid_rewrite elem_of_cons. naive_solver.
Qed.

Lemma nodeout_all (cs : list (Z * Z)) self msg l :
  ∃ l', mfor cs (λ c, if c.1 =? self then mret tt else raw_send raw c.2 msg) l = (Ok tt, l') ∧
    sends_only l l' (map (λ c, (c.2, msg)) (filter (λ c, c.1 ≠ self) cs)).
Proof.
  revert l. induction cs as [|c cs IH]; intros l.
  { exists l. split; [done|apply sends_none]. }
  rewrite filter_cons. cbn [mfor]. destruct (Z.eqb_spec c.1 self) as [E|E].
  - rewrite decide_False by tauto. destruct (IH l) as (l' & Hr & Hs). exists l'. by erewrite M_bind_Ok by done.
  - rewrite decide_True by done. destruct (IH (raw_send raw c.2 msg l).2) as (l' & Hr & Hs). exists l'.
    split; [by erewrite M_bind_Ok by done|]. cbn [map]. exact (sends_app _ _ _ [_] _ (sends_one _ _ _) Hs).
Qed.

(** The cluster state the keys are handed over with. *)
Definition without_self (c : Cluster) : Cluster :=
  Cluster_delTopoNode (UUID (self_node c)) (Cluster_delNodeToHash (UUID (self_node c)) c).

(** The part of the shutdown before the keys. *)
Definition goodbyes (gossip_uuid : Z) (c : Cluster) : list (Z * bytes) :=
  let self := UUID (self_node c) in
  map (λ e, (e.2, nodeout_command gossip_uuid self)) (filter (λ e, e.1 ≠ self) (connections c)).

Lemma shutdown_prefix gossip_uuid l :
  let s1 := set_wall_reads (S (wall_reads (srv l))) (set_running false (srv l)) in
  let c := Cluster_addGossip (wall (wall_reads (srv l))) gossip_uuid (cluster (srv l)) in
  let q := goodbyes gossip_uuid (cluster (srv l)) in
  ∃ l1, srv l1 = set_cluster (without_self c) s1 ∧ wire l1 = wire l ++ offered (sends l) q ∧
    sends l1 = (sends l + length q)%nat ∧
    Server_gracefulShutdown wall raw gossip_uuid l = mfor (KVStore_forEach (kvstore (srv l))) (migrate_pair raw) l1.
Proof.
  intros s1 c q. set (l0 := set_srv (set_cluster c s1) l).
  set (self := UUID (self_node (cluster (srv l)))).
  destruct (nodeout_all (connections (cluster (srv l))) self (nodeout_command gossip_uuid self) l0)
    as (l1 & Hr1 & [Hs1 Hw1 Hk1]).
  exists (set_srv (set_cluster (without_self c) s1) l1). split_and!; [done|exact Hw1|exact Hk1|].
  unfold Server_gracefulShutdown. erewrite M_bind_Ok by done.
  rewrite (M_bind_Ok _ _ _ tt l0) by reflexivity. erewrite M_bind_Ok by done.
  rewrite (M_bind_Ok _ _ l0 tt l1) by exact Hr1. erewrite M_bind_Ok by done. erewrite M_bind_Ok by done.
  change (kvstore (srv l0)) with (kvstore (srv l)). f_equal. unfold set_srv. cbn [srv socks pool raft_msg_queue wire sends dials].
  rewrite Hs1. reflexivity.
Qed.

Lemma goes_to_gossip now g c key fd :
  goes_to (without_self (Cluster_addGossip now g c)) key fd ↔ goes_to (without_self c) key fd.
Proof.
  unfold goes_to, without_self, Cluster_delTopoNode, Cluster_delConnection, Cluster_queryNode,
    Cluster_getConnection, Cluster_addGossip.
  cbn [self_node node_hash connections Cluster_delNodeToHash set_node_hash set_gossip_cache].
  by destruct (_ =? -1).
Qed.

Lemma without_self_ring c :
  node_hash (without_self c) = ring_delNodeToHash (UUID (self_node c)) (node_hash c).
Proof. unfold without_self, Cluster_delTopoNode, Cluster_delConnection. by destruct (_ =? -1). Qed.

(** The last node of a ring cannot shut down cleanly once it holds a key: the
    ring is empty when the owners of the keys are looked up, which dereferences
    the end of an empty map. *)
Lemma shutdown_alone (gossip_uuid : Z) (l : Loop) :
  let s := srv l in
  KVStore_ok (kvstore s) → ring_delNodeToHash (UUID (self_node (cluster s))) (node_hash (cluster s)) = [] →
  kv_map (kvstore s) ≠ ∅ → (Server_gracefulShutdown wall raw gossip_uuid l).1 = UB.
Proof.
  intros s Hok He Hkv. destruct (shutdown_prefix gossip_uuid l) as (l1 & Hs1 & _ & _ & ->).
  change (kvstore (srv l)) with (kvstore s). destruct (KVStore_forEach (kvstore s)) as [|kv kvs] eqn:E.
  { destruct Hkv. apply map_empty. intros k. apply eq_None_not_Some. intros [v Hv].
    apply kv_elem in Hv; [|done]. rewrite E in Hv. by apply elem_of_nil in Hv. }
  cbn [mfor]. apply M_bind_fst_UB. unfold migrate_pair. erewrite M_bind_Ok by done. apply M_bind_fst_UB.
  unfold Cluster_queryNode, ring_queryNode, ring_query. rewrite Hs1. cbn [cluster set_cluster].
  rewrite without_self_ring. cbn [Cluster_addGossip set_gossip_cache node_hash self_node]. unfold s in He.
  by rewrite He.
Qed.


(** C36: one client stops the server for all: in whatever round, after whatever
    events, bytes of a client that are not RESP arrive, the round throws - the
    later events of the round are not handled and no queued reply is sent - and
    [run] goes over to its shutdown at once, whatever the later rounds would be. *)
Theorem malformed_input_stops_server (fd gossip_uuid : Z) (bs : list bytes) (p : RespParser) (e : exn)
    (before after : list epoll_answer) (evs1 evs2 : list event) (l l0 l1 l2 : Loop) :
  on_srv (Server_initRaftGroups rand) (set_srv (set_running true (srv l)) l) = (Ok tt, l0) →
  mfor before (Server_epoll_step wall rand ksend dial kreply) l0 = (Ok tt, l1) →
  mfor evs1 handle_event l1 = (Ok tt, l2) →
  map_find fd (socks l2) = Some p → RespParser_append (concat bs) p = Throw e →
  let round := EpollEvents (evs1 ++ data_event (fd, bs) :: evs2) in
  Server_epoll_step wall rand ksend dial kreply round l1 = (Throw e, l2) ∧
  Server_run wall rand ksend dial kreply raw (before ++ round :: after) gossip_uuid l =
  Server_gracefulShutdown wall raw gossip_uuid l2.
Proof.
  intros Hi Hb Hev Hp Ha round.
  pose proof (malformed_throws wall rand ksend dial kreply fd bs p e evs1 evs2 l1 l2 Hev Hp Ha) as Hthrow.
  split; [done|]. unfold Server_run. erewrite M_bind_Ok by done. rewrite (M_bind_Ok _ _ _ _ _ Hi).
  rewrite (M_bind_Ok _ _ l0 tt l2); [done|]. unfold catch_all. rewrite (mfor_app _ _ _ _ _ Hb). cbn [mfor].
  by erewrite M_bind_Throw.
Qed.
End leave.

(** ** Joining *)

Section join.
Context (steady wall : nat → Z) (rand : nat → Z → nat → Z).
Context (ksend : nat → list send_answer) (dial : nat → bytes → Z → res Z)
  (kreply : nat → list (list recv_answer)).

Definition adopt_all (ip_ : bytes) (port_ fd : Z) (nodes : list CNode) (c : Cluster) : Cluster :=
  foldl (λ c n, adopt_node ip_ port_ fd n c) c nodes.

Lemma adopt_all_run ip_ port_ fd nodes s :
  mfor nodes (λ node, on_cluster (adopt_node ip_ port_ fd node)) s =
    (Ok tt, set_cluster (adopt_all ip_ port_ fd nodes (cluster s)) s).
Proof.
  revert s. induction nodes as [|n nodes IH]; intros s; [by destruct s|]. cbn [mfor].
  erewrite M_bind_Ok by done. by rewrite IH.
Qed.

Lemma adopt_node_fields ip_ port_ fd n c :
  node_hash (adopt_node ip_ port_ fd n c) = ring_addNodeToHash (UUID n) (node_hash c) ∧
  topo (adopt_node ip_ port_ fd n c) = map_assign (UUID n) n (topo c) ∧
  self_node (adopt_node ip_ port_ fd n c) = self_node c ∧
  (∀ u, Cluster_getConnection u (adopt_node ip_ port_ fd n c) =
     if bool_decide (ip n = ip_) && (port n =? port_) && (u =? UUID n) then fd else Cluster_getConnection u c).
Proof.
  unfold adopt_node. destruct (bool_decide _ && _); cbn [andb]; split_and!; try done.
  intros u. unfold Cluster_getConnection, Cluster_addConnection. cbn [connections set_fd_to_uuid set_connections].
  rewrite map_find_assign. by destruct (u =? UUID n).
Qed.

Lemma adopt_all_fields ip_ port_ fd (nodes : list CNode) c :
  NoDup (map UUID nodes) →
  let c' := adopt_all ip_ port_ fd nodes c in
  node_hash c' = foldl (λ r n, ring_addNodeToHash (UUID n) r) (node_hash c) nodes ∧
  (∀ u, u ∉ map UUID nodes → map_find u (topo c') = map_find u (topo c) ∧
     Cluster_getConnection u c' = Cluster_getConnection u c) ∧
  (∀ n, n ∈ nodes → map_find (UUID n) (topo c') = Some n) ∧ self_node c' = self_node c ∧
  (∀ n, n ∈ nodes → ip n = ip_ → port n = port_ → Cluster_getConnection (UUID n) c' = fd).
Proof.
  revert c. induction nodes as [|n nodes IH]; intros c Hnd.
  { split_and!; try done; by intros n ?%elem_of_nil. }
  cbn [map] in Hnd. apply NoDup_cons in Hnd as [Hn Hnd].
  destruct (adopt_node_fields ip_ port_ fd n c) as (H1 & H2 & H3 & H4).
  destruct (IH (adopt_node ip_ port_ fd n c) Hnd) as (I1 & I2 & I3 & I4 & I5). cbv zeta.
  change (adopt_all ip_ port_ fd (n :: nodes) c) with (adopt_all ip_ port_ fd nodes (adopt_node ip_ port_ fd n c)).
  split_and!.
  - rewrite I1, H1. done.
  - intros u Hu. cbn [map] in Hu. apply not_elem_of_cons in Hu as [Hu Hu']. destruct (I2 u Hu') as [-> ->].
    rewrite H2, H4, map_find_assign. destruct (Z.eqb_spec u (UUID n)); [done|].
    by rewrite andb_false_r.
  - intros m [->|Hm]%elem_of_cons; [|by apply I3]. destruct (I2 _ Hn) as [-> _].
    by rewrite H2, map_find_assign_eq.
  - congruence.
  - intros m [->|Hm]%elem_of_cons Hi Hp; [|by apply I5]. destruct (I2 _ Hn) as [_ ->].
    by rewrite H4, bool_decide_true, Hp, !Z.eqb_refl.
Qed.

(** The answers to [SYNCDONE]: the counter goes down, the last one ends the
    synchronisation. *)
Lemma syncdone_all fd us s N :
  syncing s = true → pending_sync_nodes s = Z.of_nat N → (length us < N)%nat → Z.of_nat N < 2 ^ 31 →
  ∃ s', handle_all steady wall rand fd (map (λ u, request "SYNCDONE" [SimpleString u]) us) s = (Ok tt, s') ∧
    syncing s' = true ∧ pending_sync_nodes s' = Z.of_nat (N - length us).
Proof.
  revert s N. induction us as [|u us IH]; intros s N Hs Hp Hl Hb.
  { exists s. rewrite Nat.sub_0_r. done. }
  cbn [length] in Hl. destruct (IH (Server_onSyncDone s).2 (N - 1)%nat) as (s' & Hr & Hs' & Hp').
  - simpl. rewrite Hp. destruct (Z.eqb_spec (Z.of_nat N) 1); [lia|done].
  - simpl. rewrite Hp, i32_small; lia.
  - lia.
  - lia.
  - exists s'. split_and!; [|done|rewrite Hp'; cbn [length]; f_equal; lia].
    unfold handle_all in *. cbn [map mfor]. rewrite (M_bind_Ok _ _ s tt (Server_onSyncDone s).2); [done|].
    by rewrite handle_SYNCDONE.
Qed.

(** What a joining node sends. *)
Definition join_messages (msg_UUID : Z) (self : CNode) : list bytes :=
  [network_command; hello_command (UUID self); nodein_command msg_UUID self].

(** What [joinCluster] leaves, when the peer answers as a node does. *)
Lemma join_run (ip_ : bytes) (port_ msg_UUID fd : Z) (t : list (Z * CNode)) (gm : Groups) (bs1 bs2 : list (list bytes))
    (l : Loop) :
  dial (dials l) ip_ port_ = Ok fd →
  (∀ i m, m ∈ join_messages msg_UUID (self_node (cluster (srv l))) → Server_send (ksend i) m = Ok (m, false)) →
  network_ok t gm → NoDup (map (λ e, UUID e.2) t) →
  concat (map (@concat _) bs1) = Handler_GETNETWORK t gm → concat (map (@concat _) bs2) = OK →
  kreply (dials l) = map recv_call bs1 → kreply (S (dials l)) = map recv_call bs2 →
  let c := adopt_all ip_ port_ fd (map snd t) (cluster (srv l)) in
  ∃ l', Server_joinCluster wall ksend dial kreply ip_ port_ msg_UUID l = (Ok tt, l') ∧
    srv l' = set_cluster (Cluster_addGossip (wall (wall_reads (srv l))) msg_UUID c)
      (set_wall_reads (S (wall_reads (srv l))) (set_sync true (i32 (Z.of_nat (length t))) (srv l))) ∧
    wire l' = wire l ++ map (pair fd) (join_messages msg_UUID (self_node (cluster (srv l)))) ∧
    map_find fd (socks l') = Some RespParser_init.
Proof.
  intros Hd Hsend Hnet Hnd Hb1 Hb2 Hk1 Hk2 c.
  assert (Hself : self_node c = self_node (cluster (srv l))).
  { apply adopt_all_fields. by rewrite map_map. }
  set (v := network_value t gm).
  set (p1 := mkRespParser WaitType RespState_default [] [v]).
  assert (Hw1 : wait_reply (kreply (dials l)) RespParser_init = Ok p1).
  { rewrite Hk1. apply wait_reply_cut; [by apply network_value_ok|]. by rewrite Hb1, GETNETWORK_eq. }
  assert (Hw2 : wait_reply (kreply (S (dials l))) RespParser_init =
    Ok (mkRespParser WaitType RespState_default [] [SimpleString (str "OK")])).
  { rewrite Hk2. by apply wait_reply_cut. }
  assert (Hls : ∀ m (l0 : Loop), m ∈ join_messages msg_UUID (self_node c) →
    loop_send ksend fd m l0 = (Ok false, set_wire (wire l0 ++ [(fd, m)]) (S (sends l0)) l0)).
  { intros m l0 Hm. rewrite Hself in Hm. unfold loop_send. erewrite M_bind_Ok by done. erewrite M_bind_Ok by done.
    erewrite (lift_Ok _ _ _ _ (Hsend _ m Hm)). by erewrite M_bind_Ok. }
  eexists. split.
  - unfold Server_joinCluster. erewrite M_bind_Ok by done. erewrite M_bind_Ok by done.
    erewrite (lift_Ok _ _ _ _ Hd). erewrite M_bind_Ok by (apply Hls; set_solver). erewrite (lift_Ok _ _ _ _ Hw1).
    change (RespParser_getResult p1) with (Some v, RespParser_init). cbn match.
    erewrite (lift_Ok _ v) by done. erewrite (lift_Ok _ _ _ _ (getTopoV2_network t gm Hnet)). cbn [fst].
    erewrite M_bind_Ok by done. erewrite M_bind_Ok.
    2:{ unfold on_srv, mzoom. rewrite adopt_all_run. reflexivity. }
    erewrite M_bind_Ok by done. erewrite M_bind_Ok by (apply Hls; set_solver). erewrite (lift_Ok _ _ _ _ Hw2).
    erewrite M_bind_Ok by reflexivity. erewrite M_bind_Ok by done. erewrite M_bind_Ok by (apply Hls; set_solver).
    reflexivity.
  - rewrite <- Hself. simpl. rewrite length_map, map_find_assign_eq. split_and!; try done.
    by rewrite <- !(assoc_L app).
Qed.

(** A node that joins through a bootstrap node holding topology [t] (of at
    least one node, each with an identifier of its own) ends up with exactly
    those nodes on its ring and in its topology and connected to the bootstrap,
    has asked, greeted and announced itself in this order, and refuses data
    commands until it was told [SYNCDONE] once per node of [t]: after fewer it
    still synchronises, after the last one no more. *)
Theorem join_then_synced (ip_ : bytes) (port_ msg_UUID fd fd' : Z) (t : list (Z * CNode)) (gm : Groups)
    (bs1 bs2 : list (list bytes)) (us : list bytes) (last : bytes) (l : Loop) :
  dial (dials l) ip_ port_ = Ok fd →
  (∀ i m, m ∈ join_messages msg_UUID (self_node (cluster (srv l))) → Server_send (ksend i) m = Ok (m, false)) →
  network_ok t gm → NoDup (map (λ e, UUID e.2) t) → Z.of_nat (length t) < 2 ^ 31 →
  concat (map (@concat _) bs1) = Handler_GETNETWORK t gm → concat (map (@concat _) bs2) = OK →
  kreply (dials l) = map recv_call bs1 → kreply (S (dials l)) = map recv_call bs2 →
  S (length us) = length t →
  let self := self_node (cluster (srv l)) in
  ∃ l' s1 s2, Server_joinCluster wall ksend dial kreply ip_ port_ msg_UUID l = (Ok tt, l') ∧
    wire l' = wire l ++ map (pair fd) (join_messages msg_UUID self) ∧
    node_hash (cluster (srv l')) = foldl (λ r e, ring_addNodeToHash (UUID e.2) r) (node_hash (cluster (srv l))) t ∧
    (∀ e, e ∈ t → map_find (UUID e.2) (topo (cluster (srv l'))) = Some e.2) ∧
    (∀ e, e ∈ t → ip e.2 = ip_ → port e.2 = port_ → Cluster_getConnection (UUID e.2) (cluster (srv l')) = fd) ∧
    handle_all steady wall rand fd' (map (λ u, request "SYNCDONE" [SimpleString u]) us) (srv l') = (Ok tt, s1) ∧
    syncing s1 = true ∧
    Server_handleCommand steady wall rand fd' (request "SYNCDONE" [SimpleString last]) s1 = (Ok tt, s2) ∧
    syncing s2 = false.
Proof.
  intros Hd Hsend Hnet Hnd Hb Hb1 Hb2 Hk1 Hk2 Hlen self.
  destruct (join_run ip_ port_ msg_UUID fd t gm bs1 bs2 l Hd Hsend Hnet Hnd Hb1 Hb2 Hk1 Hk2) as (l' & Hr & Hsrv & Hw & _).
  destruct (adopt_all_fields ip_ port_ fd (map snd t) (cluster (srv l))) as (F1 & _ & F3 & _ & F5).
  { by rewrite map_map. }
  destruct (syncdone_all fd' us (srv l') (length t)) as (s1 & Hr1 & Hs1 & Hp1); [by rewrite Hsrv| |lia|lia|].
  { rewrite Hsrv. cbn [pending_sync_nodes set_cluster set_wall_reads set_sync]. rewrite i32_small; lia. }
  exists l', s1, (Server_onSyncDone s1).2. rewrite Hsrv. split_and!; try done.
  - cbn [cluster set_cluster]. change (node_hash (Cluster_addGossip _ _ ?c)) with (node_hash c). rewrite F1.
    clear. generalize (node_hash (cluster (srv l))). induction t as [|e t IH]; intros r; [done|]. apply IH.
  - intros e He. apply F3. by apply list_elem_of_fmap_2.
  - intros e He. apply F5. by apply list_elem_of_fmap_2.
  - rewrite <- Hsrv. exact Hr1.
  - simpl. rewrite Hp1. by replace (length t - length us)%nat with 1%nat by lia.
Qed.
End join.

(** ** Witnesses *)

(** The single node of [Handler] holding one key. *)
Definition k_value : RespValue := BulkString (Some (str "v")).
Definition store_k : KVStore RespValue := (KVStore_set (str "k") k_value (KVStore_init SHARD_COUNT)).2.
Definition keeper : Server := set_kvstore store_k solo.

Lemma store_k_ok : KVStore_ok store_k ∧ kv_map store_k = {[str "k" := k_value]}.
Proof.
  destruct (KVStore_set_ok (KVStore_init SHARD_COUNT) (str "k") k_value) as (s' & sh & _ & Hr & Hok & Hm).
  - rewrite <- solo_kvstore. apply solo_server_ok.
  - rewrite <- solo_kvstore. apply solo_avail.
  - unfold store_k. rewrite Hr. cbn [snd]. split; [exact Hok|]. rewrite Hm, kv_map_init. by rewrite insert_empty.
Qed.

(** The same node with a neighbour that is connected on socket 5. *)
Definition paired : Server :=
  set_cluster (Cluster_addConnection 1 5 (Cluster_addNodeToHash 1 (cluster solo))) keeper.
Definition loop_of (s : Server) : Loop := mkLoop s [(9, RespParser_init)] [] [] [] 0 0.


(** The second round brings a request of another client and then the bytes. *)
Definition bad_events : list event := [data_event (9, [encode (request "GET" [SimpleString (str "k")])])].

Lemma malformed_input_stops_server_witness :
  let run rounds := Server_run (λ _, 0) (λ _ _ _, 0) (λ _, []) (λ _ _ _, Throw LengthError) (λ _, []) (λ _ _, 0%nat)
      ([EpollIntr] ++ EpollEvents (bad_events ++ data_event (9, [str "GET k"]) :: []) :: rounds) 77 (loop_of solo) in
  run [] = run [EpollEvents []].
Proof.
  intros run.
  set (r := on_srv (Server_initRaftGroups (λ _ _ _, 0)) (set_srv (set_running true (srv (loop_of solo))) (loop_of solo))).
  assert (Hr : r = (Ok tt, r.2)).
  { assert (Hf : r.1 = Ok tt) by (vm_compute; reflexivity). destruct r as [x y]. cbn [fst snd] in *. by rewrite Hf. }
  set (r2 := mfor bad_events handle_event r.2).
  assert (Hr2 : r2 = (Ok tt, r2.2)).
  { assert (Hf : r2.1 = Ok tt) by (vm_compute; reflexivity). destruct r2 as [x y]. cbn [fst snd] in *. by rewrite Hf. }
  assert (H : ∀ rounds, run rounds = Server_gracefulShutdown (λ _, 0) (λ _ _, 0%nat) 77 r2.2).
  { intros rounds.
    destruct (malformed_input_stops_server (λ _, 0) (λ _ _ _, 0) (λ _, []) (λ _ _ _, Throw LengthError) (λ _, [])
      (λ _ _, 0%nat) 9 77 [str "GET k"] RespParser_init ParserError [EpollIntr] rounds bad_events [] (loop_of solo)
      r.2 r.2 r2.2 Hr eq_refl Hr2) as [_ H]; [vm_compute; reflexivity|vm_compute; reflexivity|exact H]. }
  exact (eq_trans (H []) (eq_sym (H [EpollEvents []]))).
Defined.

Lemma join_then_synced_witness :
  let t := [(1, mkCNode (str "10.0.0.1") 7800 1); (2, mkCNode (str "10.0.0.2") 7800 2)] in
  let l := loop_of (Server_new (λ _, 0) 7 (str "10.0.0.7") 7800 [] ∅) in
  ∃ l' s2, Server_joinCluster (λ _, 0) (λ _, [Sent 200]) (λ _ _ _, Ok 4)
      (λ i, match i with O => [[Got (Handler_GETNETWORK t []); RecvBlocked]] | _ => [[Got OK; RecvBlocked]] end)
      (str "10.0.0.1") 7800 99 l = (Ok tt, l') ∧
    Cluster_getConnection 1 (cluster (srv l')) = 4 ∧ syncing s2 = false.
Proof.
  intros t l.
  destruct (join_then_synced (λ _, 0) (λ _, 0) (λ _ _ _, 0) (λ _, [Sent 200]) (λ _ _ _, Ok 4)
    (λ i, match i with O => [[Got (Handler_GETNETWORK t []); RecvBlocked]] | _ => [[Got OK; RecvBlocked]] end)
    (str "10.0.0.1") 7800 99 4 8 t [] [[Handler_GETNETWORK t []]] [[OK]] [str "1"] (str "2") l)
    as (l' & s1 & s2 & Hr & _ & _ & _ & Hc & _ & _ & _ & Hs).
  - reflexivity.
  - intros i m Hm. apply elem_of_cons in Hm as [->|Hm]; [reflexivity|].
    apply elem_of_cons in Hm as [->|Hm]; [vm_compute; reflexivity|].
    apply elem_of_cons in Hm as [->|Hm]; [vm_compute; reflexivity|]. by apply elem_of_nil in Hm.
  - constructor; [repeat constructor; vm_compute; (discriminate || reflexivity)|constructor|constructor|reflexivity..].
  - repeat constructor; set_solver.
  - reflexivity.
  - reflexivity.
  - reflexivity.
  - reflexivity.
  - reflexivity.
  - reflexivity.
  - exists l', s2. split_and!; [exact Hr| |exact Hs].
    apply (Hc (1, mkCNode (str "10.0.0.1") 7800 1)); [left|reflexivity|reflexivity].
Defined.
