(* ===== verification/Gossip.v ===== *)
(** * An announcement in a network of servers (Server::joinCluster, Handler::NODEIN)

    Several servers, each with its own state, clocks and connections, and the
    announcements on their way between them.  A server that is delivered one
    runs the parser and the handler on its bytes; what the handler put into the
    message queue for a connection goes to the other end of it.  Nothing bounds
    how long a message is under way or which is delivered next. *)
From Stdlib Require Import ZArith Ascii String Lia.
From stdpp Require Import base numbers list strings gmap relations.
From S2P Require Import Prelude CppStd RespValue RespParser KVStore AOF Ring Cluster Utils RaftNode Server Handler.
From S2P Require Import Membership Recovery EventLoop Lifecycle.
Local Open Scope Z_scope.

(** The announcement that [joinCluster] sends is the request that the handler
    forwards. *)
Definition announcement (id : Z) (n : CNode) : RespValue := request "NODEIN" [SimpleString (to_string id); node_value n].

Lemma nodein_encode id n : nodein_command id n = encode (announcement id n).
Proof.
  unfold announcement, request. rewrite encode_array, !encode_all_cons, !encode_simple, app_nil_r.
  unfold nodein_command. rewrite encodeNode_eq. by rewrite <- !(assoc_L app).
Qed.

Lemma announcement_ok id n : is_u64 id → node_ok n → resp_ok (announcement id n) = true.
Proof.
  intros Hid Hn. unfold announcement, request. cbn [resp_ok forallb length]. rewrite node_value_ok by done.
  by rewrite to_string_no_CR by apply Hid.
Qed.

Lemma announcement_parsed id n :
  is_u64 id → node_ok n → feed [nodein_command id n] RespParser_init = Ok ([announcement id n], RespParser_init).
Proof.
  intros Hid Hn. rewrite nodein_encode.
  rewrite (feed_append _ _ (mkRespParser WaitType RespState_default [] [announcement id n])); [done| |done].
  cbn [concat]. rewrite app_nil_r. rewrite <- (app_nil_r (encode (announcement id n))).
  apply (append_encode_all [announcement id n]); [|done..]. cbn [forallb]. by rewrite announcement_ok.
Qed.

(** ** The network *)

Record Net := mkNet { nodes : list Server; flight : list (nat * Z * bytes) }.

Section flood.
Context (steady wall : nat → nat → Z) (rand : nat → nat → Z → nat → Z).
(** Which server, and which of its descriptors, is at the other end of a
    descriptor; nobody for descriptors that lead elsewhere. *)
Context (link : nat → Z → option (nat * Z)).

(** A worker of server [i] on what arrived through [fd]. *)
Definition receive (i : nat) (fd : Z) (b : bytes) : M Server unit :=
  r ← mlift (feed [b] RespParser_init);
  handle_all (steady i) (wall i) (rand i) fd r.1.

(** What was queued since, on its way. *)
Definition routed (i : nat) (s s' : Server) : list (nat * Z * bytes) :=
  omap (λ m, match link i m.2 with Some (j, fd) => Some (j, fd, m.1) | None => None end)
    (drop (length (out_queue s)) (out_queue s')).

Inductive deliver (w : Net) : Net → Prop :=
  | deliver_one fl1 i fd b fl2 s s' :
      flight w = fl1 ++ (i, fd, b) :: fl2 → nodes w !! i = Some s → receive i fd b s = (Ok tt, s') →
      deliver w (mkNet (<[i := s']> (nodes w)) (fl1 ++ fl2 ++ routed i s s')).

(** ** One announcement *)

Context (id : Z) (n : CNode).

Definition heard (s : Server) : Prop :=
  Cluster_findGossip id (cluster s) = true ∧
  map_find (UUID n) (topo (cluster s)) = Some n ∧
  ∀ p, p ∈ node_points (UUID n) → map_find p (node_hash (cluster s)) = Some (UUID n).

Record unheard (i : nat) (s : Server) : Prop := {
  uh_cluster : Cluster_ok (cluster s);
  uh_new : Cluster_findGossip id (cluster s) = false;
  uh_room : (length (gossip_cache (cluster s)) < GOSSIP_CACHE_SIZE)%nat;
  uh_clock : is_u64 (wall i (wall_reads s))
}.

(** The new node is not one of the network; nor are the queue's own messages
    sent to anybody. *)
Definition outside (i : nat) (s : Server) : Prop :=
  link i (Cluster_getConnection (UUID n) (cluster s)) = None ∧ link i (-1) = None ∧ link i (-2) = None.

Definition to_peers (i : nat) (conns : list (Z * Z)) : list (nat * Z * bytes) :=
  omap (λ c, match link i c.2 with Some (j, fd) => Some (j, fd, nodein_command id n) | None => None end) conns.

Hypothesis Hid : is_u64 id.
Hypothesis Hn : node_ok n.

Lemma receive_eq i fd s :
  receive i fd (nodein_command id n) s = Server_handleCommand (steady i) (wall i) (rand i) fd (announcement id n) s.
Proof.
  unfold receive. rewrite announcement_parsed by done. erewrite M_bind_Ok by done. unfold handle_all. cbn [mfor fst].
  destruct (Server_handleCommand _ _ _ _ _ s) as [[[]| | |] s'] eqn:E.
  - by rewrite (M_bind_Ok _ _ _ _ _ E).
  - by rewrite (M_bind_Throw _ _ _ _ _ E).
  - by rewrite (M_bind_UB _ _ _ _ E).
  - unfold mbind, M_bind. by rewrite E.
Qed.

Lemma routed_none i (l : list (bytes * Z)) :
  Forall (λ m, link i m.2 = None) l →
  omap (λ m, match link i m.2 with Some (j, fd) => Some (j, fd, m.1) | None => None end) l = [].
Proof. induction 1 as [|m l Hm _ IH]; [done|]. simpl. by rewrite Hm. Qed.

Lemma routed_peers i (conns : list (Z * Z)) :
  omap (λ m, match link i m.2 with Some (j, fd) => Some (j, fd, m.1) | None => None end)
    (map (λ c, (nodein_command id n, c.2)) conns) = to_peers i conns.
Proof.
  unfold to_peers. induction conns as [|c conns IH]; [done|].
  simpl. destruct (link i c.2) as [[j fd]|]; simpl; [f_equal|]; exact IH.
Qed.

(** The first time, a server takes the node up and passes the announcement on. *)
Lemma receive_first i fd s :
  unheard i s → outside i s →
  ∃ s', receive i fd (nodein_command id n) s = (Ok tt, s') ∧ heard s' ∧
    connections (cluster s') = connections (cluster s) ∧ routed i s s' = to_peers i (connections (cluster s)).
Proof.
  intros [H1 H2 H3 H4] (Ho & Ho1 & Ho2).
  destruct (nodein_first (steady i) (wall i) (rand i) id fd (node_value n) n s Hid (getNode_value n Hn) H2)
    as (s' & q & Hr & _ & Hc & Hq & He & _).
  exists s'. split_and!.
  - rewrite receive_eq. unfold Server_handleCommand. by rewrite (M_bind_Ok _ _ _ _ _ Hr).
  - unfold heard. rewrite Hc. split_and!; [by apply addGossip_found; [apply H1|..]|apply map_find_assign_eq|].
    intros p Hp. simpl. by rewrite ring_add_find, decide_True.
  - by rewrite Hc.
  - unfold routed. rewrite Hq, drop_app_length. rewrite !omap_app.
    rewrite (routed_none i q), (routed_none i [_]), !app_nil_r.
    + pose proof (routed_peers i (connections (cluster s))) as Hp. rewrite nodein_encode in Hp. exact Hp.
    + by repeat constructor.
    + rewrite He. destruct (_ =? _); [by repeat constructor|]. apply Forall_forall. intros m (r & -> & _)%list_elem_of_fmap. done.
Qed.

Lemma receive_again i fd s :
  heard s → receive i fd (nodein_command id n) s = (Ok tt, s) ∧ routed i s s = [].
Proof.
  intros [H _]. split.
  - rewrite receive_eq. unfold Server_handleCommand.
    by rewrite (M_bind_Ok _ _ _ _ _ (nodein_again (steady i) (wall i) (rand i) id fd (node_value n) s Hid H)).
  - unfold routed. by rewrite drop_all.
Qed.

(** ** The flood *)

(** The servers as they were, with nothing under way but one announcement. *)
Context (nodes0 : list Server) (origin : nat) (fd0 : Z).
Hypothesis Hstart : ∀ i s, nodes0 !! i = Some s → unheard i s ∧ outside i s.
Hypothesis Hlink : ∀ i fd j fd', link i fd = Some (j, fd') → (j < length nodes0)%nat.
Hypothesis Horigin : (origin < length nodes0)%nat.

Definition start_net : Net := mkNet nodes0 [(origin, fd0, nodein_command id n)].

(** Server [i] has a connection to server [j]. *)
Definition edge (i j : nat) : Prop :=
  ∃ s u fd fd', nodes0 !! i = Some s ∧ (u, fd) ∈ connections (cluster s) ∧ link i fd = Some (j, fd').

Definition heard_at (w : Net) (i : nat) : Prop := ∃ s, nodes w !! i = Some s ∧ heard s.

Record flood_inv (w : Net) : Prop := {
  fi_flight : ∀ i fd b, (i, fd, b) ∈ flight w → b = nodein_command id n ∧ (i < length nodes0)%nat;
  fi_nodes : length (nodes w) = length nodes0;
  fi_each : ∀ i s s0, nodes w !! i = Some s → nodes0 !! i = Some s0 →
    connections (cluster s) = connections (cluster s0) ∧ (s = s0 ∨ heard s);
  fi_edges : ∀ i j, heard_at w i → edge i j → heard_at w j ∨ ∃ fd, (j, fd, nodein_command id n) ∈ flight w;
  fi_origin : heard_at w origin ∨ ∃ fd, (origin, fd, nodein_command id n) ∈ flight w
}.

Lemma to_peers_elem i s0 j :
  nodes0 !! i = Some s0 → edge i j → ∃ fd, (j, fd, nodein_command id n) ∈ to_peers i (connections (cluster s0)).
Proof.
  intros Hs (s & u & fd & fd' & Hs' & Hin & Hl). rewrite Hs in Hs'. injection Hs' as <-. exists fd'.
  apply list_elem_of_omap. exists (u, fd). split; [done|]. simpl. by rewrite Hl.
Qed.

Lemma start_inv : flood_inv start_net.
Proof.
  constructor.
  - intros i fd b [= -> -> ->]%list_elem_of_singleton. by split.
  - done.
  - intros i s s0 Hs Hs0. simpl in Hs. rewrite Hs in Hs0. injection Hs0 as ->. split; [done|by left].
  - intros i j (s & Hs & Hh & _). destruct (Hstart i s Hs) as [[_ Hu _ _] _]. congruence.
  - right. exists fd0. by left.
Qed.

(** What a delivery does to the servers. *)
Lemma deliver_cases w w' :
  flood_inv w → deliver w w' →
  ∃ fl1 i fd fl2 s, flight w = fl1 ++ (i, fd, nodein_command id n) :: fl2 ∧ nodes w !! i = Some s ∧
    ((heard s ∧ w' = mkNet (nodes w) (fl1 ++ fl2)) ∨
     (∃ s0 s', nodes0 !! i = Some s0 ∧ Cluster_findGossip id (cluster s) = false ∧ heard s' ∧
        connections (cluster s') = connections (cluster s0) ∧ connections (cluster s) = connections (cluster s0) ∧
        w' = mkNet (<[i := s']> (nodes w)) (fl1 ++ fl2 ++ to_peers i (connections (cluster s0))))).
Proof.
  intros [F1 F2 F3 F4 F5] [fl1 i fd b fl2 s s' Hf Hs Hr].
  assert (b = nodein_command id n ∧ (i < length nodes0)%nat) as [-> Hi].
  { apply (F1 i fd b). rewrite Hf. apply elem_of_app. right. by left. }
  exists fl1, i, fd, fl2, s. split; [done|]. split; [done|].
  destruct (lookup_lt_is_Some_2 _ _ Hi) as [s0 Hs0]. destruct (F3 i s s0 Hs Hs0) as [Hc [->|Hh]].
  - right. destruct (Hstart i s0 Hs0) as [Hu Ho]. destruct (receive_first i fd s0 Hu Ho) as (s1 & Hr1 & H1 & H2 & H3).
    rewrite Hr1 in Hr. injection Hr as <-. exists s0, s1. rewrite H3. split_and!; try done. apply Hu.
  - left. split; [done|]. destruct (receive_again i fd s Hh) as [Hr1 Hq]. rewrite Hr1 in Hr. injection Hr as <-.
    by rewrite Hq, app_nil_r, list_insert_id.
Qed.

Lemma deliver_inv w w' : flood_inv w → deliver w w' → flood_inv w'.
Proof.
  intros Hi Hd. destruct (deliver_cases w w' Hi Hd) as (fl1 & i & fd & fl2 & s & Hf & Hs & Hcase).
  destruct Hi as [F1 F2 F3 F4 F5].
  assert (Hout : ∀ x, x ∈ flight w → x = (i, fd, nodein_command id n) ∨ x ∈ fl1 ++ fl2).
  { intros x. rewrite Hf, !elem_of_app, elem_of_cons. tauto. }
  assert (Hin : ∀ x, x ∈ fl1 ++ fl2 → x ∈ flight w).
  { intros x. rewrite Hf, !elem_of_app, elem_of_cons. tauto. }
  destruct Hcase as [[Hh ->]|(s0 & s' & Hs0 & Hg & Hh & Hc & Hcs & ->)].
  - (* a message that the server has seen is gone *)
    assert (Hkeep : ∀ j, (heard_at w j ∨ ∃ f, (j, f, nodein_command id n) ∈ flight w) →
      heard_at w j ∨ ∃ f, (j, f, nodein_command id n) ∈ fl1 ++ fl2).
    { intros j [Hj|(f & [[= -> ->]|Hx]%Hout)]; [by left|left; by exists s|right; by exists f]. }
    constructor; simpl; [intros j f b Hb; by apply (F1 j f), Hin|done|done| |by apply Hkeep].
    intros j k Hj He. by apply Hkeep, (F4 j).
  - assert (Hlt : (i < length (nodes w))%nat) by (by eapply lookup_lt_Some).
    set (w' := mkNet (<[i:=s']> (nodes w)) (fl1 ++ fl2 ++ to_peers i (connections (cluster s0)))).
    assert (Hnow : heard_at w' i) by (exists s'; split; [by apply list_lookup_insert_eq|done]).
    assert (Hmono : ∀ j, heard_at w j → heard_at w' j).
    { intros j (t & Ht & Hth). destruct (decide (j = i)) as [->|Hne]; [done|]. exists t. simpl. by rewrite list_lookup_insert_ne. }
    assert (Hkeep : ∀ j, (heard_at w j ∨ ∃ f, (j, f, nodein_command id n) ∈ flight w) →
      heard_at w' j ∨ ∃ f, (j, f, nodein_command id n) ∈ flight w').
    { intros j [Hj|(f & [[= -> ->]|Hx]%Hout)]; [left; by apply Hmono|by left|right; exists f].
      simpl. rewrite app_assoc, elem_of_app. by left. }
    constructor.
    + intros j f b. simpl. rewrite app_assoc. intros [Hb|Hb]%elem_of_app; [by apply (F1 j f), Hin|].
      apply list_elem_of_omap in Hb as ([u g] & _ & Hl). simpl in Hl. destruct (link i g) as [[j' f']|] eqn:E; [|done].
      injection Hl as -> -> <-. split; [done|by apply Hlink in E].
    + simpl. by rewrite length_insert.
    + intros j t t0 Ht Ht0. simpl in Ht. destruct (decide (j = i)) as [->|Hne].
      * rewrite list_lookup_insert_eq in Ht by done. injection Ht as <-. rewrite Hs0 in Ht0. injection Ht0 as <-. by split; [|right].
      * rewrite list_lookup_insert_ne in Ht by done. by apply (F3 j).
    + intros j k Hj He. destruct (decide (j = i)) as [->|Hne].
      * right. destruct (to_peers_elem i s0 k Hs0 He) as [f Hfk]. exists f. simpl. rewrite app_assoc, elem_of_app. by right.
      * apply Hkeep. apply (F4 j); [|done]. destruct Hj as (t & Ht & Hth). simpl in Ht. rewrite list_lookup_insert_ne in Ht by done.
        by exists t.
    + by apply Hkeep.
Qed.

(** What may still be sent: the messages under way, and for each server that has
    not heard one message per connection. *)
Definition weight (s : Server) : nat :=
  if Cluster_findGossip id (cluster s) then 0 else S (length (connections (cluster s))).
Definition pending (w : Net) : nat := (length (flight w) + sum_list_with weight (nodes w))%nat.

Lemma to_peers_length i conns : (length (to_peers i conns) <= length conns)%nat.
Proof.
  unfold to_peers. induction conns as [|c conns IH]; [done|]. simpl.
  destruct (link i c.2) as [[j fd]|]; [apply le_n_S, IH|apply le_S, IH].
Qed.

Lemma sum_insert (l : list Server) i s s' :
  l !! i = Some s → (sum_list_with weight (<[i:=s']> l) + weight s = sum_list_with weight l + weight s')%nat.
Proof.
  revert i. induction l as [|t l IH]; intros [|i] H; try done; simpl in *; [injection H as ->; lia|].
  specialize (IH i H). lia.
Qed.

Lemma deliver_pending w w' : flood_inv w → deliver w w' → (pending w' < pending w)%nat.
Proof.
  intros Hi Hd. destruct (deliver_cases w w' Hi Hd) as (fl1 & i & fd & fl2 & s & Hf & Hs & [[Hh ->]|H]); unfold pending.
  - rewrite Hf. simpl. rewrite !length_app. simpl. lia.
  - destruct H as (s0 & s' & Hs0 & Hg & [Hh _] & Hc & Hcs & ->). rewrite Hf. simpl. rewrite !length_app. simpl.
    pose proof (sum_insert (nodes w) i s s' Hs) as Hw. unfold weight in Hw at 2 4. rewrite Hh, Hg, Hcs in Hw.
    pose proof (to_peers_length i (connections (cluster s0))). lia.
Qed.

Lemma flood_reach k w : nsteps deliver k start_net w → flood_inv w ∧ (k + pending w <= pending start_net)%nat.
Proof.
  assert (∀ w1 w2, nsteps deliver k w1 w2 → flood_inv w1 → flood_inv w2 ∧ (k + pending w2 <= pending w1)%nat) as H.
  { clear w. induction k as [|k IH]; intros w1 w2 Hs Hi; inversion Hs as [|? ? w3 ? H12 H23]; subst; [split; [done|lia]|].
    destruct (IH w3 w2 H23 (deliver_inv _ _ Hi H12)). split; [done|]. pose proof (deliver_pending _ _ Hi H12). lia. }
  intros Hs. by apply H, start_inv.
Qed.

Lemma flood_quiet w : flood_inv w → flight w = [] → ∀ j, rtc edge origin j → heard_at w j.
Proof.
  intros [F1 F2 F3 F4 F5] Hf j Hr.
  assert (heard_at w origin) as Ho by (destruct F5 as [?|(fd & H)]; [done|]; rewrite Hf in H; by apply elem_of_nil in H).
  clear F5. revert Ho Hr. generalize origin. intros o Ho Hr. revert Ho.
  induction Hr as [|a b c Hab _ IH]; [done|]. intros Ha. apply IH.
  destruct (F4 a b Ha Hab) as [?|(fd & H)]; [done|]. rewrite Hf in H. by apply elem_of_nil in H.
Qed.

Lemma flood_progress w : flood_inv w → flight w ≠ [] → ∃ w', deliver w w'.
Proof.
  intros Hi Hne. pose proof Hi as [F1 F2 F3 F4 F5]. destruct (flight w) as [|[[i fd] b] fl] eqn:Hf; [done|].
  destruct (F1 i fd b) as [-> Hlt]; [by left|]. destruct (lookup_lt_is_Some_2 _ _ Hlt) as [s0 Hs0].
  destruct (lookup_lt_is_Some_2 (nodes w) i) as [s Hs]; [by rewrite F2|].
  destruct (F3 i s s0 Hs Hs0) as [_ [->|Hh]].
  - destruct (Hstart i s0 Hs0) as [Hu Ho]. destruct (receive_first i fd s0 Hu Ho) as (s' & Hr & _).
    eexists. by eapply (deliver_one w []).
  - destruct (receive_again i fd s Hh) as [Hr _]. eexists. by eapply (deliver_one w []).
Qed.

(** C4: an announcement floods the network and then it is quiet: whatever order
    messages are delivered in, no more than one message per connection and one
    per server is ever delivered, as long as messages are under way one of them
    can be, and when none is left every server that connections lead to from
    the first one has the new node in its topology and on its ring. *)
Theorem gossip_floods (k : nat) (w : Net) :
  nsteps deliver k start_net w →
  (k <= 1 + sum_list_with (λ s, S (length (connections (cluster s)))) nodes0)%nat ∧
  (flight w ≠ [] → ∃ w', deliver w w') ∧
  (flight w = [] → ∀ j, rtc edge origin j →
     ∃ s, nodes w !! j = Some s ∧ map_find (UUID n) (topo (cluster s)) = Some n ∧
       ∀ p, p ∈ node_points (UUID n) → map_find p (node_hash (cluster s)) = Some (UUID n)).
Proof.
  intros Hs. destruct (flood_reach k w Hs) as [Hi Hk]. split_and!.
  - assert (∀ l, sum_list_with weight l <= sum_list_with (λ s, S (length (connections (cluster s)))) l)%nat as H.
    { induction l as [|s l IH]; simpl; [done|]. unfold weight at 1. destruct (Cluster_findGossip _ _); lia. }
    specialize (H nodes0). unfold pending in Hk at 2. simpl in Hk. lia.
  - by apply flood_progress.
  - intros Hf j Hr. destruct (flood_quiet w Hi Hf j Hr) as (s & H1 & _ & H2 & H3). by exists s.
Qed.
End flood.

(** ** Three servers in a row *)

Definition peer_server (uuid : Z) (conns : list (Z * Z)) : Server :=
  let s := Server_new (λ _, 0) uuid (str "10.0.0.1") 7800 [] ∅ in
  set_cluster (foldr (λ c k, Cluster_addConnection c.1 c.2 k) (cluster s) conns) s.
Definition row : list Server := [peer_server 1 [(2, 5)]; peer_server 2 [(1, 5); (3, 6)]; peer_server 3 [(2, 5)]].
Definition row_link (i : nat) (fd : Z) : option (nat * Z) :=
  match i with
  | 0%nat => if fd =? 5 then Some (1%nat, 5) else None
  | 1%nat => if fd =? 5 then Some (0%nat, 5) else if fd =? 6 then Some (2%nat, 5) else None
  | 2%nat => if fd =? 5 then Some (1%nat, 6) else None
  | _ => None
  end.
Definition new_node : CNode := mkCNode (str "10.0.0.9") 7809 9.

Lemma peer_server_ok uuid conns : Cluster_ok (cluster (peer_server uuid conns)).
Proof.
  unfold peer_server. cbn [cluster set_cluster Server_new].
  induction conns as [|c conns IH]; [by repeat constructor|]. by apply addConnection_ok.
Qed.

Lemma row_unheard i s : row !! i = Some s → unheard (λ _ _, 0) 55 i s ∧ outside row_link new_node i s.
Proof.
  destruct i as [|[|[|i]]]; [| | |done]; intros [= <-]; (split; [constructor; [apply peer_server_ok|vm_compute; reflexivity| |done]|]).
  all: try (apply Nat.ltb_lt; vm_compute; reflexivity).
  all: split; [vm_compute; reflexivity|split; reflexivity].
Qed.

Lemma row_link_lt i fd j fd' : row_link i fd = Some (j, fd') → (j < length row)%nat.
Proof. destruct i as [|[|[|i]]]; simpl; repeat case_match; intros [=]; simpl; lia. Qed.

Lemma row_edges : rtc (edge row_link row) 0%nat 2%nat.
Proof.
  apply rtc_l with 1%nat; [|apply rtc_once].
  - exists (peer_server 1 [(2, 5)]), 2, 5, 5. split; [reflexivity|]. split; [left|reflexivity].
  - exists (peer_server 2 [(1, 5); (3, 6)]), 3, 6, 5. split; [reflexivity|]. split; [right; left|reflexivity].
Qed.

Lemma gossip_floods_witness :
  ∃ k w s, nsteps (deliver (λ _ _, 0) (λ _ _, 0) (λ _ _ _ _, 0) row_link) k (start_net 55 new_node row 0 5) w ∧ flight w = [] ∧
    nodes w !! 2%nat = Some s ∧ map_find 9 (topo (cluster s)) = Some new_node.
Proof.
  assert (Hid : is_u64 55) by (unfold is_u64; lia).
  assert (Hn : node_ok new_node) by (split; [reflexivity|unfold is_u16; cbn; lia|unfold is_u64; cbn; lia]).
  pose proof (gossip_floods (λ _ _, 0) (λ _ _, 0) (λ _ _ _ _, 0) row_link 55 new_node Hid Hn row 0 5 row_unheard row_link_lt
    ltac:(simpl; lia)) as H.
  (* deliver until nothing is left *)
  assert (Hrun : ∀ m k w, (m + k = 10)%nat → nsteps (deliver (λ _ _, 0) (λ _ _, 0) (λ _ _ _ _, 0) row_link) k (start_net 55 new_node row 0 5) w →
    ∃ k' w', nsteps (deliver (λ _ _, 0) (λ _ _, 0) (λ _ _ _ _, 0) row_link) k' (start_net 55 new_node row 0 5) w' ∧ flight w' = []).
  { induction m as [|m IH]; intros k w Hk Hs; destruct (H k w Hs) as (Hb & Hp & _).
    - exfalso. revert Hb. change (sum_list_with _ row) with 7%nat. lia.
    - destruct (decide (flight w = [])) as [He|Hne]; [by exists k, w|]. destruct (Hp Hne) as [w' Hd].
      apply (IH (S k) w'); [lia|]. apply nsteps_r with w; assumption. }
  destruct (Hrun 10%nat 0%nat _ eq_refl (nsteps_O _ _)) as (k & w & Hs & Hf).
  destruct (H k w Hs) as (_ & _ & Hq). destruct (Hq Hf 2%nat row_edges) as (s & H1 & H2 & _).
  exists k, w, s. split; [exact Hs|]. split; [exact Hf|]. split; [exact H1|exact H2].
Defined.
