(* ===== verification/Join.v ===== *)
(** * A node joins a cluster (Server::joinCluster against the handlers of its peer)

    Two servers: number 0 joins, number 1 is its bootstrap node.  Each message of
    [joinCluster] is run through parser and handler of the peer, what those queue
    for the new connection is what the joining node reads, and what the peer sends
    of its data is run through the joining node. *)
From Stdlib Require Import ZArith Ascii String Lia.
From stdpp Require Import base numbers list strings gmap.
From S2P Require Import Prelude CppStd RespValue RespParser StringTable HashTable LRU KVStore Snapshot AOF Socket Ring Cluster.
From S2P Require Import Utils RaftNode Server Handler Membership Recovery EventLoop Lifecycle Gossip.
Local Open Scope Z_scope.

(** What was queued for [fd] since [s]. *)
Definition answers (fd : Z) (s s' : Server) : list bytes :=
  omap (λ m : bytes * Z, if m.2 =? fd then Some m.1 else None) (drop (length (out_queue s)) (out_queue s')).

Lemma answers_app fd s q c :
  answers fd s (set_out_queue (out_queue s ++ q) c) = omap (λ m : bytes * Z, if m.2 =? fd then Some m.1 else None) q.
Proof. unfold answers. cbn [out_queue set_out_queue]. by rewrite drop_app_length. Qed.

Lemma answers_one fd m s : answers fd s (set_out_queue (out_queue s ++ [(m, fd)]) s) = [m].
Proof. rewrite answers_app. simpl. by rewrite Z.eqb_refl. Qed.

Lemma answers_to fd (ms : list bytes) :
  omap (λ m : bytes * Z, if m.2 =? fd then Some m.1 else None) (map (λ m, (m, fd)) ms) = ms.
Proof. induction ms as [|m ms IH]; [done|]. simpl. rewrite Z.eqb_refl. f_equal. exact IH. Qed.

(** A message to everybody reaches a new connection once. *)
Lemma answers_broadcast u fd (m : bytes) (conns : list (Z * Z)) :
  Forall (λ c, c.2 ≠ fd) conns →
  omap (λ m : bytes * Z, if m.2 =? fd then Some m.1 else None) (map (λ c, (m, c.2)) (map_assign u fd conns)) = [m].
Proof.
  assert (∀ l : list (Z * Z), Forall (λ c, c.2 ≠ fd) l →
    omap (λ m : bytes * Z, if m.2 =? fd then Some m.1 else None) (map (λ c, (m, c.2)) l) = []) as Hnone.
  { induction 1 as [|c l Hc _ IH]; [done|]. simpl. destruct (Z.eqb_spec c.2 fd); [done|]. exact IH. }
  induction 1 as [|[k f] l Hc Hl IH]; simpl; [by rewrite Z.eqb_refl|].
  destruct (u <? k); [|destruct (u =? k)]; simpl.
  - rewrite Z.eqb_refl. f_equal. destruct (Z.eqb_spec f fd); [done|]. by apply Hnone.
  - rewrite Z.eqb_refl. f_equal. by apply Hnone.
  - destruct (Z.eqb_spec f fd); [done|]. exact IH.
Qed.

(** ** Rings by their nodes *)

Lemma ring_of_same ids ids' :
  disjoint_points ids → (∀ u, u ∈ ids' ↔ u ∈ ids) → ring_of ids' = ring_of ids.
Proof.
  intros Hd He. apply ring_of_ext; [apply ring_of_sorted|done|]. intros p v.
  rewrite ring_of_find; [by rewrite He|]. eapply disjoint_points_sub; [|done]. intros x. by rewrite He.
Qed.

Lemma add_all_ring (ids pre : list Z) :
  foldl (λ r u, ring_addNodeToHash u r) (ring_of pre) ids = ring_of (reverse ids ++ pre).
Proof.
  revert pre. induction ids as [|u ids IH]; intros pre; [done|]. cbn [foldl]. rewrite reverse_cons, <- (assoc_L app).
  exact (IH (u :: pre)).
Qed.

Lemma foldl_addNodeToHash ids c :
  foldl (λ c uid, Cluster_addNodeToHash uid c) c ids =
  set_node_hash (foldl (λ r u, ring_addNodeToHash u r) (node_hash c) ids) c.
Proof. revert c. induction ids as [|u ids IH]; intros c; [by destruct c|]. cbn [foldl]. by rewrite IH. Qed.

Lemma add_group_keeps rand ids i self offset s s' :
  add_group rand ids i self offset s = (Ok tt, s') →
  cluster s' = cluster s ∧ kvstore s' = kvstore s ∧ syncing s' = syncing s ∧ pending_sync_nodes s' = pending_sync_nodes s.
Proof.
  unfold add_group. intros H. apply M_bind_inv in H as (s0 & s1 & [= <- <-] & H).
  destruct (RaftNode_init _ _ _ _ _) as [r n]. apply M_bind_inv in H as (x & s2 & H1 & H2).
  destruct r; [|done..]. injection H1 as _ <-. by injection H2 as <-.
Qed.

(** What [initRaftGroups] leaves of the rest of the server. *)
Lemma initRaftGroups_keeps rand s s' :
  Server_initRaftGroups rand s = (Ok tt, s') →
  cluster s' = set_node_hash (foldl (λ r u, ring_addNodeToHash u r) (node_hash (cluster s)) (map fst (topo (cluster s))))
    (cluster s) ∧
  kvstore s' = kvstore s ∧ syncing s' = syncing s ∧ pending_sync_nodes s' = pending_sync_nodes s.
Proof.
  intros H. destruct (map fst (topo (cluster s))) as [|u ids] eqn:E.
  { unfold Server_initRaftGroups in H. erewrite M_bind_Ok in H by done. rewrite E in H. injection H as <-.
    by destruct (cluster s). }
  rewrite initRaftGroups_eq in H by (by rewrite E). rewrite E, foldl_addNodeToHash in H.
  revert H. generalize [0; -1; -2]. intros offsets.
  set (c := set_node_hash _ (cluster s)). set (s1 := set_cluster c (close_groups s)).
  assert (Hs1 : cluster s1 = c ∧ kvstore s1 = kvstore s ∧ syncing s1 = syncing s ∧
    pending_sync_nodes s1 = pending_sync_nodes s) by done.
  generalize dependent s1. induction offsets as [|o offsets IH]; intros s1 Hs1 H; cbn [mfor] in H.
  - by injection H as <-.
  - apply M_bind_inv in H as ([] & s2 & H1 & H2). apply add_group_keeps in H1. apply (IH s2); [|done].
    destruct H1 as (-> & -> & -> & ->). exact Hs1.
Qed.

(** ** The two sides *)

(** A server whose tables agree with each other. *)
Record settled (s : Server) : Prop := {
  st_cluster : Cluster_ok (cluster s);
  st_wire : network_ok (topo (cluster s)) (groupMembers_ s);
  st_keys : Forall (λ e, e.1 = UUID e.2) (topo (cluster s));
  st_self : (UUID (self_node (cluster s)), self_node (cluster s)) ∈ topo (cluster s);
  st_ring : node_hash (cluster s) = ring_of (map fst (topo (cluster s)))
}.

Lemma adopt_all_ok ip_ port_ fd nodes c : Cluster_ok c → Cluster_ok (adopt_all ip_ port_ fd nodes c).
Proof.
  revert c. induction nodes as [|n nodes IH]; intros c Hc; [done|]. apply IH. unfold adopt_node.
  assert (Cluster_ok (Cluster_addNodeToHash (UUID n) (Cluster_addTopoNode n c))).
  { destruct Hc. constructor; simpl; eauto using ring_add_sorted with kvjet. }
  destruct (bool_decide _ && _); [by apply addConnection_ok|done].
Qed.

(** A topology whose entries stand under their own identifiers. *)
Lemma topo_keys (t : list (Z * CNode)) : Forall (λ e, e.1 = UUID e.2) t → map UUID (map snd t) = map fst t.
Proof. induction 1 as [|e t He _ IH]; [done|]. cbn [map]. by rewrite IH, He. Qed.

(** What the newcomer [n] has taken over from a peer with topology [t]. *)
Lemma adopted_topo ip_ port_ fd (t : list (Z * CNode)) hp addr u :
  let c := Cluster_init u hp addr in
  map_sorted t → Forall (λ e, e.1 = UUID e.2) t → u ∉ map fst t →
  topo (adopt_all ip_ port_ fd (map snd t) c) = map_assign u (self_node c) t.
Proof.
  intros c Ht Hk Hu. pose proof (topo_keys t Hk) as Hkeys.
  destruct (adopt_all_fields ip_ port_ fd (map snd t) c) as (_ & F2 & F3 & _).
  { rewrite Hkeys. by apply map_sorted_nodup. }
  rewrite Hkeys in F2. apply map_sorted_ext; [|by apply map_assign_sorted|].
  { apply adopt_all_ok. by constructor; repeat constructor. }
  intros v. rewrite map_find_assign. destruct (decide (v ∈ map fst t)) as [Hv|Hv].
  - destruct (Z.eqb_spec v u) as [->|_]; [done|]. apply list_elem_of_fmap in Hv as ([v' n] & -> & Hin).
    assert (v' = UUID n) as -> by (rewrite Forall_forall in Hk; exact (Hk _ Hin)).
    cbn [fst]. rewrite (map_find_elem _ _ _ Ht Hin). apply F3. by apply (list_elem_of_fmap_2 snd _ (UUID n, n)).
  - destruct (F2 v Hv) as [-> _]. unfold c, Cluster_init. cbn [topo map_assign map_find self_node].
    destruct (v =? u); [done|]. destruct (map_find v t) eqn:E; [|done]. destruct Hv. by eapply map_find_Some_key.
Qed.

Lemma adopted_ring ip_ port_ fd (t : list (Z * CNode)) hp addr u :
  map_sorted t → Forall (λ e, e.1 = UUID e.2) t →
  node_hash (adopt_all ip_ port_ fd (map snd t) (Cluster_init u hp addr)) = ring_of (reverse (map fst t)).
Proof.
  intros Ht Hk. pose proof (topo_keys t Hk) as Hkeys.
  destruct (adopt_all_fields ip_ port_ fd (map snd t) (Cluster_init u hp addr)) as (-> & _).
  { rewrite Hkeys. by apply map_sorted_nodup. }
  rewrite <- Hkeys. pose proof (add_all_ring (map UUID (map snd t)) []) as H. rewrite app_nil_r in H. rewrite <- H.
  cbn [node_hash Cluster_init ring_of foldr]. generalize (map snd t) as l. generalize ([] : Ring) as r. clear.
  intros r l. revert r. induction l as [|n l IH]; intros r; [done|]. apply IH.
Qed.

Section join.
Context (steady wall : nat → nat → Z) (rand : nat → nat → Z → nat → Z).
Context (ksend : nat → list send_answer) (dial : nat → bytes → Z → res Z)
  (kreply : nat → list (list recv_answer)).
Notation receive := (receive steady wall rand).

Lemma receive_one i fd b req s s' :
  feed [b] RespParser_init = Ok ([req], RespParser_init) →
  Server_handleCommand (steady i) (wall i) (rand i) fd req s = (Ok tt, s') → receive i fd b s = (Ok tt, s').
Proof.
  intros Hf H. unfold Gossip.receive. rewrite Hf. erewrite M_bind_Ok by done. unfold handle_all. cbn [mfor fst].
  by rewrite (M_bind_Ok _ _ _ _ _ H).
Qed.

(** The peer tells what it knows. *)
Lemma receive_network i fd b :
  let m := Handler_GETNETWORK (topo (cluster b)) (groupMembers_ b) in
  receive i fd network_command b = (Ok tt, set_out_queue (out_queue b ++ [(m, fd)]) b).
Proof.
  intros m. apply (receive_one i fd _ (request "GETNETWORK" [])); [by vm_compute|].
  unfold Server_handleCommand. erewrite (M_bind_Ok _ _ b m b).
  - unfold m, Handler_GETNETWORK. reflexivity.
  - unfold Handler_handle, request. simpl. erewrite M_bind_Ok by done. by rewrite andb_false_r.
Qed.

Lemma hello_encode u : hello_command u = encode (request "HELLO" [SimpleString (to_string u)]).
Proof.
  unfold request. rewrite encode_array, !encode_all_cons, !encode_simple, app_nil_r.
  unfold hello_command. by rewrite <- !(assoc_L app).
Qed.

(** The peer learns whose connection it is. *)
Lemma receive_hello i u fd b :
  is_u64 u →
  receive i fd (hello_command u) b =
    (Ok tt, set_out_queue (out_queue b ++ [(OK, fd)]) (set_cluster (Cluster_addConnection u fd (cluster b)) b)).
Proof.
  intros Hu. apply (receive_one i fd _ (request "HELLO" [SimpleString (to_string u)])).
  - rewrite hello_encode. set (v := request "HELLO" [SimpleString (to_string u)]).
    rewrite (feed_append _ _ (mkRespParser WaitType RespState_default [] [v])); [done| |done].
    cbn [concat]. rewrite app_nil_r. apply append_encode_one. unfold v, request. cbn [resp_ok forallb length].
    rewrite to_string_no_CR by apply Hu. by vm_compute.
  - unfold Server_handleCommand. erewrite M_bind_Ok.
    2:{ unfold Handler_handle, request. simpl. erewrite M_bind_Ok by done. rewrite andb_false_r.
        unfold Handler_HELLO. erewrite M_bind_Ok by done. cbn match. erewrite M_bind_Ok by done. reflexivity. }
    rewrite to_uint64_t_to_string by done. reflexivity.
Qed.

(** What the peer sends once the newcomer announced itself: the announcement to
    everybody, then the newcomer's share of the data and the end mark. *)
Lemma receive_announcement i id n fd pre b :
  is_u64 id → node_ok n → Cluster_findGossip id (cluster b) = false →
  connections (cluster b) = map_assign (UUID n) fd pre → Forall (λ c, c.2 ≠ fd) pre → fd ≠ -1 → fd ≠ -2 →
  ∃ b', receive i fd (nodein_command id n) b = (Ok tt, b') ∧ kvstore b' = kvstore b ∧ syncing b' = syncing b ∧
    cluster b' = Cluster_addTopoNode n (Cluster_addNodeToHash (UUID n)
                   (Cluster_addGossip (wall i (wall_reads b)) id (cluster b))) ∧
    answers fd b b' = map encode (announcement id n :: migration (UUID n) b').
Proof.
  intros Hid Hn Hg Hpre Hother Hfd Hfd2.
  destruct (nodein_first (steady i) (wall i) (rand i) id fd (node_value n) n b Hid (getNode_value n Hn) Hg)
    as (b' & q & Hr & Hk & Hcl & Hq & He & Hsy).
  exists b'. split_and!; [|done|done|done|].
  - apply (receive_one i fd _ (announcement id n)); [by apply announcement_parsed|].
    unfold Server_handleCommand. by rewrite (M_bind_Ok _ _ _ _ _ Hr).
  - assert (Hgc : Cluster_getConnection (UUID n) (cluster b) = fd).
    { unfold Cluster_getConnection. by rewrite Hpre, map_find_assign_eq. }
    assert (Hlast : omap (λ m : bytes * Z, if m.2 =? fd then Some m.1 else None) [(REBUILD_RAFTS, -2)] = []).
    { cbn [omap list_omap snd]. by destruct (Z.eqb_spec (-2) fd). }
    rewrite Hgc in He. destruct (Z.eqb_spec fd (-1)); [done|].
    unfold answers. rewrite Hq, drop_app_length, !omap_app, Hlast, app_nil_r, Hpre, answers_broadcast by done.
    by rewrite He, <- (map_map encode (λ m, (m, fd))), answers_to.
Qed.
(** The newcomer's own handling of what the peer sent: it knows its own
    announcement, refuses every pair and counts the end mark. *)
Lemma newcomer_handles i id fd n (kvs : list (bytes * RespValue)) peer a :
  is_u64 id → Cluster_findGossip id (cluster a) = true → syncing a = true →
  ∃ a', handle_all (steady i) (wall i) (rand i) fd
      (announcement id n :: map (λ kv, request "SET" [SimpleString kv.1; kv.2]) kvs ++ [request "SYNCDONE" [SimpleString peer]])
      a = (Ok tt, a') ∧
    kvstore a' = kvstore a ∧ aof a' = aof a ∧ cluster a' = cluster a ∧ raft_groups a' = raft_groups a ∧
    masterToGroup a' = masterToGroup a ∧
    syncing a' = negb (pending_sync_nodes a =? 1) ∧ pending_sync_nodes a' = i32 (pending_sync_nodes a - 1).
Proof.
  intros Hid Hg Hs.
  destruct (handle_sets_syncing (steady i) (wall i) (rand i) fd kvs a Hs) as (q & Hq & _).
  set (a1 := set_out_queue (out_queue a ++ q) a). fold a1 in Hq.
  exists (Server_onSyncDone a1).2. split.
  - change (announcement id n :: ?rest) with ([announcement id n] ++ rest).
    rewrite (handle_all_app (steady i) (wall i) (rand i) fd _ _ a a).
    2:{ unfold handle_all. cbn [mfor]. rewrite (M_bind_Ok _ _ a tt a); [done|]. unfold Server_handleCommand.
        by rewrite (M_bind_Ok _ _ _ _ _ (nodein_again (steady i) (wall i) (rand i) id fd (node_value n) a Hid Hg)). }
    rewrite (handle_all_app (steady i) (wall i) (rand i) _ _ _ _ _ Hq). unfold handle_all. cbn [mfor].
    rewrite (M_bind_Ok _ _ a1 tt (Server_onSyncDone a1).2); [done|]. by rewrite handle_SYNCDONE.
  - simpl. rewrite Hs. split_and!; done.
Qed.

(** ** The whole join *)

Context (ip_ addr : bytes) (port_ hp u id fd bfd : Z) (bs1 bs2 : list (list bytes)) (l : Loop) (b : Server).
Notation whole bs := (concat (map (@concat ascii) bs)).
Notation self := (mkCNode addr (u16 (hp - 1)) u).
Notation t := (topo (cluster b)).

(** The newcomer: a server that has just been constructed. *)
Record newcomer_ready : Prop := {
  nr_cluster : cluster (srv l) = Cluster_init u hp addr;
  nr_node : node_ok self;
  nr_id : is_u64 id;
  nr_clock : is_u64 (wall 0 (wall_reads (srv l)));
  nr_files : ∀ gid, readable (raft_files (close_groups (srv l)) !! gid);
  nr_dial : dial (dials l) ip_ port_ = Ok fd;
  nr_sends : ∀ i m, m ∈ join_messages id self → Server_send (ksend i) m = Ok (m, false);
  nr_reply1 : kreply (dials l) = map recv_call bs1;
  nr_reply2 : kreply (S (dials l)) = map recv_call bs2
}.

(** The peer: the newcomer and its connection [bfd] are new to it. *)
Record peer_ready : Prop := {
  pr_settled : settled b;
  pr_address : ip (self_node (cluster b)) = ip_ ∧ port (self_node (cluster b)) = port_;
  pr_new : u ∉ map fst t;
  pr_points : disjoint_points (u :: map fst t);
  pr_gossip : Cluster_findGossip id (cluster b) = false;
  pr_fd : Forall (λ c, c.2 ≠ bfd) (connections (cluster b)) ∧ bfd ≠ -1 ∧ bfd ≠ -2;
  pr_size : Z.of_nat (length t) < 2 ^ 31 - 1;
  pr_data : Forall (λ kv, resp_ok (request "SET" [SimpleString kv.1; kv.2]) = true) (KVStore_forEach (kvstore b))
}.

(** What the newcomer is when it starts its event loop. *)
Record has_joined (a : Server) : Prop := {
  hj_ring : node_hash (cluster a) = ring_of (u :: map fst t);
  hj_topo : topo (cluster a) = map_assign u self t;
  hj_self : self_node (cluster a) = self;
  hj_conn : Cluster_getConnection (UUID (self_node (cluster b))) (cluster a) = fd;
  hj_gossip : Cluster_findGossip id (cluster a) = true;
  hj_kv : kvstore a = kvstore (srv l);
  hj_sync : syncing a = true ∧ pending_sync_nodes a = Z.of_nat (length t);
  hj_ok : Cluster_ok (cluster a);
  hj_raft : raft_ready a
}.

Lemma newcomer_joins :
  newcomer_ready → peer_ready → whole bs1 = Handler_GETNETWORK t (groupMembers_ b) → whole bs2 = OK →
  ∃ l' a, Server_joinCluster (wall 0) ksend dial kreply ip_ port_ id l = (Ok tt, l') ∧
    wire l' = wire l ++ map (pair fd) (join_messages id self) ∧
    Server_initRaftGroups (rand 0) (srv l') = (Ok tt, a) ∧ has_joined a.
Proof.
  intros [N1 N2 N3 N4 N5 N6 N7 N8 N9] [[B1 B2 B3 B4 B5] [P1 P1'] P2 P3 P4 _ P6 _] Hb1 Hb2.
  pose proof (topo_keys t B3) as Hkeys.
  destruct (join_run (wall 0) ksend dial kreply ip_ port_ id fd t (groupMembers_ b) bs1 bs2 l N6)
    as (l' & Hr & Hsrv & Hw & _); try done.
  { by rewrite N1. }
  { rewrite <- map_map, Hkeys. apply map_sorted_nodup, B1. }
  rewrite N1 in Hsrv, Hw. set (c := adopt_all ip_ port_ fd (map snd t) (Cluster_init u hp addr)) in Hsrv.
  assert (Htopo : topo c = map_assign u self t) by (by apply (adopted_topo ip_ port_ fd t hp addr u); [apply B1|..]).
  assert (Hring : node_hash c = ring_of (reverse (map fst t))) by (apply adopted_ring; [apply B1|done]).
  assert (Hself : self_node c = self).
  { apply (adopt_all_fields ip_ port_ fd (map snd t) (Cluster_init u hp addr)). rewrite Hkeys. apply map_sorted_nodup, B1. }
  assert (Hcok : Cluster_ok c) by (apply adopt_all_ok; by constructor; repeat constructor).
  destruct (raft_groups_members (rand 0) (srv l')) as (a & Ha & _ & _ & _ & Hgroups & _).
  { rewrite Hsrv. by apply addGossip_ok. }
  { rewrite Hsrv. change (UUID (self_node c) ∈ map fst (topo c)). rewrite Hself, Htopo. apply map_assign_keys. by left. }
  { rewrite Hsrv. change (Z.of_nat (length (map fst (topo c))) < 2 ^ 63). rewrite length_map, Htopo.
    pose proof (map_assign_length u self t). lia. }
  { rewrite Hsrv. exact N5. }
  exists l', a. split_and!; [done|done|done|].
  destruct (initRaftGroups_keeps _ _ _ Ha) as (Hc & Hk & Hs & Hp). rewrite Hsrv in Hc, Hk, Hs, Hp.
  cbn [cluster kvstore syncing pending_sync_nodes set_cluster set_wall_reads set_sync] in Hc, Hk, Hs, Hp.
  change (topo (Cluster_addGossip _ _ c)) with (topo c) in Hc.
  change (node_hash (Cluster_addGossip _ _ c)) with (node_hash c) in Hc.
  constructor.
  - rewrite Hc. cbn [node_hash set_node_hash]. rewrite Hring.
    rewrite add_all_ring. apply ring_of_same; [done|]. intros v.
    rewrite elem_of_app, !elem_of_reverse, Htopo. rewrite map_assign_keys, elem_of_cons. tauto.
  - by rewrite Hc.
  - by rewrite Hc.
  - rewrite Hc. change (Cluster_getConnection (UUID (self_node (cluster b))) c = fd).
    apply (adopt_all_fields ip_ port_ fd (map snd t) (Cluster_init u hp addr)).
    + rewrite Hkeys. apply map_sorted_nodup, B1.
    + by apply (list_elem_of_fmap_2 snd _ _ B4).
    + done.
    + done.
  - rewrite Hc. change (Cluster_findGossip id (Cluster_addGossip (wall 0 (wall_reads (srv l))) id c) = true).
    assert (gossip_cache c = []) as Hg.
    { unfold c. generalize (map snd t) as ns. intros ns. change ([]) with (gossip_cache (Cluster_init u hp addr)).
      generalize (Cluster_init u hp addr) as c0. induction ns as [|n ns IH]; intros c0; [done|].
      change (gossip_cache (adopt_all ip_ port_ fd ns (adopt_node ip_ port_ fd n c0)) = gossip_cache c0).
      rewrite IH. unfold adopt_node. by destruct (bool_decide _ && _). }
    apply addGossip_found; [apply Hcok| |done]. rewrite Hg. apply Nat.ltb_lt. by vm_compute.
  - done.
  - rewrite Hs, Hp. split; [done|]. rewrite i32_small; lia.
  - rewrite Hc. destruct (addGossip_ok (wall 0 (wall_reads (srv l))) id c Hcok). constructor; try done.
    cbn [node_hash set_node_hash]. rewrite Hring, add_all_ring. apply ring_of_sorted.
  - intros gid n Hn. by apply Hgroups in Hn as (_ & _ & Hready & _).
Qed.

(** The peer's three answers, and what the newcomer makes of its share. *)
Lemma exchange_run :
  newcomer_ready → peer_ready → whole bs1 = Handler_GETNETWORK t (groupMembers_ b) → whole bs2 = OK →
  ∃ b1 b2 b3, receive 1 bfd network_command b = (Ok tt, b1) ∧ answers bfd b b1 = [whole bs1] ∧
    receive 1 bfd (hello_command u) b1 = (Ok tt, b2) ∧ answers bfd b1 b2 = [whole bs2] ∧
    receive 1 bfd (nodein_command id self) b2 = (Ok tt, b3) ∧
    node_hash (cluster b3) = ring_of (u :: map fst t) ∧ topo (cluster b3) = map_assign u self t ∧
    self_node (cluster b3) = self_node (cluster b) ∧ Cluster_getConnection u (cluster b3) = bfd ∧
    kvstore b3 = kvstore b ∧ syncing b3 = syncing b ∧
    answers bfd b2 b3 = map encode (announcement id self :: migration u b3).
Proof.
  intros [N1 N2 N3 N4 N5 N6 N7 N8 N9] [[B1 B2 B3 B4 B5] [P1 P1'] P2 P3 P4 (P5 & P5' & P5'') P6 P7] Hb1 Hb2.
  assert (Hu : is_u64 u) by apply N2.
  set (b1 := set_out_queue (out_queue b ++ [(Handler_GETNETWORK t (groupMembers_ b), bfd)]) b).
  set (b2 := set_out_queue (out_queue b1 ++ [(OK, bfd)]) (set_cluster (Cluster_addConnection u bfd (cluster b1)) b1)).
  destruct (receive_announcement 1 id self bfd (connections (cluster b)) b2 N3 N2 P4 eq_refl P5 P5' P5'')
    as (b3 & Hr & Hk & Hs & Hc & Ha).
  exists b1, b2, b3. rewrite Hb1, Hb2. split_and!; [apply receive_network|apply answers_one|by apply receive_hello| |done|..].
  - unfold answers, b2. cbn [out_queue set_out_queue]. rewrite drop_app_length. simpl. by rewrite Z.eqb_refl.
  - rewrite Hc. cbn [node_hash Cluster_addTopoNode set_topo]. cbn. by rewrite B5.
  - by rewrite Hc.
  - by rewrite Hc.
  - rewrite Hc. unfold Cluster_getConnection. cbn. by rewrite map_find_assign_eq.
  - by rewrite Hk.
  - by rewrite Hs.
  - exact Ha.
Qed.
(** The whole exchange: the peer takes the three messages of [joinCluster] and
    answers what the newcomer reads ([b1], [b2], [b3]); the newcomer returns from
    [joinCluster] as [l'], starts its loop as [a], reads [reqs] out of what the
    peer sent since, and is [a'] after handling them. *)
Record exchange (b1 b2 b3 : Server) (l' : Loop) (a a' : Server) (reqs : list RespValue) : Prop := {
  ex_ask : receive 1 bfd network_command b = (Ok tt, b1) ∧ answers bfd b b1 = [whole bs1];
  ex_hello : receive 1 bfd (hello_command u) b1 = (Ok tt, b2) ∧ answers bfd b1 b2 = [whole bs2];
  ex_announce : receive 1 bfd (nodein_command id self) b2 = (Ok tt, b3);
  ex_join : Server_joinCluster (wall 0) ksend dial kreply ip_ port_ id l = (Ok tt, l') ∧
    wire l' = wire l ++ map (pair fd) [network_command; hello_command u; nodein_command id self];
  ex_start : Server_initRaftGroups (rand 0) (srv l') = (Ok tt, a);
  ex_data : feed (answers bfd b2 b3) RespParser_init = Ok (reqs, RespParser_init) ∧
    handle_all (steady 0) (wall 0) (rand 0) fd reqs a = (Ok tt, a')
}.

Lemma migration_readable b3 :
  peer_ready → kvstore b3 = kvstore b → is_u64 (UUID (self_node (cluster b3))) →
  forallb resp_ok (migration u b3) = true.
Proof.
  intros Hp Hk Hu. unfold migration. rewrite forallb_app. apply andb_true_iff. split.
  - rewrite Hk. apply forallb_forall. intros r Hr. rewrite <- list_elem_of_In in Hr.
    apply list_elem_of_fmap in Hr as (kv & -> & Hin). apply list_elem_of_filter in Hin as [_ Hin].
    pose proof (pr_data Hp) as Hd. rewrite Forall_forall in Hd. by apply Hd.
  - cbn [forallb resp_ok request length]. rewrite to_string_no_CR by apply Hu. by vm_compute.
Qed.

Lemma exchange_joined :
  newcomer_ready → peer_ready → whole bs1 = Handler_GETNETWORK t (groupMembers_ b) → whole bs2 = OK →
  ∃ b1 b2 b3 l' a a', exchange b1 b2 b3 l' a a' (announcement id self :: migration u b3) ∧ has_joined a ∧
    node_hash (cluster b3) = ring_of (u :: map fst t) ∧ topo (cluster b3) = map_assign u self t ∧
    Cluster_getConnection u (cluster b3) = bfd ∧ self_node (cluster b3) = self_node (cluster b) ∧
    kvstore b3 = kvstore b ∧ syncing b3 = syncing b ∧
    cluster a' = cluster a ∧ kvstore a' = kvstore (srv l) ∧ raft_ready a' ∧
    syncing a' = negb (length t =? 1)%nat.
Proof.
  intros Hn Hp Hb1 Hb2.
  destruct (newcomer_joins Hn Hp Hb1 Hb2) as (l' & a & Hj & Hw & Hi & Ha).
  destruct (exchange_run Hn Hp Hb1 Hb2) as (b1 & b2 & b3 & R1 & A1 & R2 & A2 & R3 & C1 & C2 & C3 & C4 & C5 & C6 & A3).
  assert (Hpeer : is_u64 (UUID (self_node (cluster b3)))).
  { rewrite C3. destruct (pr_settled Hp) as [_ [Hnodes _ _ _ _] _ Hself _].
    rewrite Forall_forall in Hnodes. apply (Hnodes _ Hself). }
  destruct (newcomer_handles 0 id fd self (filter (owned u (cluster b3)) (KVStore_forEach (kvstore b3)))
    (to_string (UUID (self_node (cluster b3)))) a (nr_id Hn) (hj_gossip _ Ha) (proj1 (hj_sync _ Ha)))
    as (a' & Hr & D1 & D2 & D3 & D4 & D5 & D6 & D7).
  exists b1, b2, b3, l', a, a'.
  split_and!; [|exact Ha|exact C1|exact C2|exact C4|exact C3|exact C5|exact C6|exact D3| | |].
  - constructor; [by split|by split|exact R3|by split|exact Hi|]. rewrite A3. split; [|exact Hr].
    rewrite (feed_append _ _ (mkRespParser WaitType RespState_default [] (announcement id self :: migration u b3)));
      [done| |done].
    change (concat (map encode ?vs)) with (encode_all vs). apply append_encode_all; [|done..].
    cbn [forallb]. rewrite (migration_readable b3 Hp C5 Hpeer).
    by rewrite (announcement_ok id self (nr_id Hn) (nr_node Hn)).
  - rewrite D1. apply Ha.
  - unfold raft_ready, Server_getRaftGroup. rewrite D4. apply Ha.
  - rewrite D6, (proj2 (hj_sync _ Ha)). f_equal. apply eq_true_iff_eq. rewrite Z.eqb_eq, Nat.eqb_eq. lia.
Qed.

(** C7: joining works, from the first byte to the running server: when a freshly
    started server joins through a node whose tables agree with each other, the
    three messages it sends are answered by that node's handlers with what it
    waits for; afterwards both have the same ring and the same topology, so they
    send every key to the same owner, each is connected to the other, and the
    newcomer serves after the first end mark exactly if the cluster was one node. *)
Theorem join_end_to_end :
  newcomer_ready → peer_ready → whole bs1 = Handler_GETNETWORK t (groupMembers_ b) → whole bs2 = OK →
  ∃ b1 b2 b3 l' a a' reqs, exchange b1 b2 b3 l' a a' reqs ∧
    node_hash (cluster a') = node_hash (cluster b3) ∧
    (∀ key, Cluster_queryNode key (cluster a') = Cluster_queryNode key (cluster b3)) ∧
    topo (cluster a') = topo (cluster b3) ∧
    (∀ v, v ∈ map fst (topo (cluster b3)) ↔ v = u ∨ v ∈ map fst t) ∧
    Cluster_getConnection (UUID (self_node (cluster b))) (cluster a') = fd ∧
    Cluster_getConnection u (cluster b3) = bfd ∧
    (syncing a' = false ↔ length t = 1%nat).
Proof.
  intros Hn Hp Hb1 Hb2.
  destruct (exchange_joined Hn Hp Hb1 Hb2)
    as (b1 & b2 & b3 & l' & a & a' & He & Ha & E1 & E2 & E3 & _ & _ & _ & E4 & _ & _ & E5).
  exists b1, b2, b3, l', a, a', (announcement id self :: migration u b3). rewrite E4.
  assert (Hring : node_hash (cluster a) = node_hash (cluster b3)) by (rewrite E1; apply Ha).
  split_and!; try done.
  - intros key. unfold Cluster_queryNode. by rewrite Hring.
  - rewrite E2. apply Ha.
  - intros v. rewrite E2. apply map_assign_keys.
  - apply Ha.
  - rewrite E5, negb_false_iff. apply Nat.eqb_eq.
Qed.

(** C17: joining a single node loses the keys that move: a pair whose key the new
    ring gives to the newcomer was sent to it, the newcomer refused it and then
    stopped synchronising, so it answers [GET] with nil although the pair was
    stored before, and the old node, which still holds it, sends writes of the
    key to the newcomer. *)
Theorem joined_keys_lost (key : bytes) (v w : RespValue) (cfd : Z) :
  newcomer_ready → peer_ready → whole bs1 = Handler_GETNETWORK t (groupMembers_ b) → whole bs2 = OK →
  length t = 1%nat → syncing b = false → KVStore_ok (kvstore b) →
  KVStore_ok (kvstore (srv l)) → kv_avail (kvstore (srv l)) key → kv_map (kvstore (srv l)) !! key = None →
  kv_map (kvstore b) !! key = Some v → ring_queryNode key (ring_of (u :: map fst t)) = Ok u →
  ∃ b1 b2 b3 l' a a' a'' reqs, exchange b1 b2 b3 l' a a' reqs ∧
    request "SET" [SimpleString key; v] ∈ reqs ∧ kv_map (kvstore b3) !! key = Some v ∧
    Handler_handle (steady 0) (wall 0) (rand 0) (request "GET" [SimpleString key]) cfd a' =
      (Ok (encode (BulkString None)), a'') ∧
    Handler_handle (steady 1) (wall 1) (rand 1) (request "SET" [SimpleString key; w]) cfd b3 =
      (Ok (encode (Error (str "MOVED " ++ addr ++ str ":" ++ to_string (u16 (hp - 1))))), b3).
Proof.
  intros Hn Hp Hb1 Hb2 Ht Hsync Hbk Hak Hav Hnone Hv Hq.
  destruct (exchange_joined Hn Hp Hb1 Hb2)
    as (b1 & b2 & b3 & l' & a & a' & He & Ha & E1 & E2 & _ & E6 & E7 & E8 & E4 & E9 & E10 & E5).
  destruct (handler_reads (steady 0) (wall 0) (rand 0) key cfd a') as [(a'' & Hget & _) _].
  { constructor; [by rewrite E9|rewrite E4; apply Ha|done]. }
  { by rewrite E5, Ht. }
  { by rewrite E9. }
  assert (Hmaster : Cluster_isMasterFor key (cluster b3) = Ok false).
  { unfold Cluster_isMasterFor, Cluster_queryNode. rewrite E1, Hq. cbn [mbind res_bind]. rewrite E6.
    f_equal. apply Z.eqb_neq. intros Hu. apply (pr_new Hp). rewrite Hu.
    exact (list_elem_of_fmap_2 fst _ _ (st_self _ (pr_settled Hp))). }
  destruct (handler_moved (steady 1) (wall 1) (rand 1) key w cfd b3) as (owner & addr' & Ho & _ & Haddr & Hset & _).
  { by rewrite E8. }
  { done. }
  exists b1, b2, b3, l', a, a', a'', (announcement id self :: migration u b3). split_and!; try done.
  - right. unfold migration. apply elem_of_app. left. apply list_elem_of_fmap. exists (key, v). split; [done|].
    apply list_elem_of_filter. split; [unfold owned, Cluster_queryNode; by rewrite E1|]. rewrite E7. by apply kv_elem.
  - by rewrite E7.
  - rewrite Hget, E9, Hnone. done.
  - assert (Hu : owner = u) by (unfold Cluster_queryNode in Ho; rewrite E1, Hq in Ho; congruence).
    by rewrite Hset, Haddr, Hu, E2, map_find_assign_eq.
Qed.
End join.

(** ** Witnesses *)

(** Node 9 joins the single node of [Lifecycle], number 7, which holds one key. *)
Definition fresh9 : Loop := loop_of (Server_new (λ _, 0) 9 (str "10.0.0.9") 7800 [] ∅).
Definition pieces (s : Server) : list (list bytes) :=
  let m := Handler_GETNETWORK (topo (cluster s)) (groupMembers_ s) in [[take 5 m; take 15 (drop 5 m)]; []; [drop 20 m]].
Definition peer_answers (i : nat) : list (list recv_answer) :=
  map recv_call (match i with O => pieces keeper | _ => [[OK]] end).

Lemma fresh9_ready :
  newcomer_ready (λ _ _, 0) (λ _, [Sent 200]) (λ _ _ _, Ok 4) peer_answers (str "10.0.0.7") (str "10.0.0.9") 7800 7801 9 55
    4 (pieces keeper) [[OK]] fresh9.
Proof.
  constructor.
  - reflexivity.
  - repeat constructor; vm_compute; (discriminate || reflexivity).
  - unfold is_u64. lia.
  - unfold is_u64. lia.
  - intros gid c Hc. change (raft_files (close_groups (srv fresh9))) with (∅ : gmap Z bytes) in Hc.
    by rewrite lookup_empty in Hc.
  - reflexivity.
  - intros i m Hm. repeat (apply elem_of_cons in Hm as [->|Hm]; [vm_compute; reflexivity|]). by apply elem_of_nil in Hm.
  - reflexivity.
  - reflexivity.
Qed.

Lemma keeper_pairs : KVStore_forEach (kvstore keeper) = [(str "k", k_value)].
Proof. vm_compute. reflexivity. Qed.

Lemma solo_settled : settled solo.
Proof.
  assert (Hg : groupMembers_ solo = [(0, [7])]) by (vm_compute; reflexivity).
  constructor; rewrite solo_cluster, ?Hg.
  - rewrite <- solo_cluster. apply solo_server_ok.
  - constructor; [..|reflexivity|reflexivity].
    + repeat constructor; vm_compute; (discriminate || reflexivity).
    + repeat constructor; vm_compute; (discriminate || reflexivity).
    + repeat constructor.
  - repeat constructor.
  - left.
  - reflexivity.
Qed.

Lemma settled_set_kvstore k s : settled s → settled (set_kvstore k s).
Proof. intros [? ? ? ? ?]. by constructor. Qed.
Lemma keeper_settled : settled keeper.
Proof. unfold keeper. apply settled_set_kvstore, solo_settled. Qed.

Lemma keeper_ready : peer_ready (str "10.0.0.7") 7800 9 55 6 keeper.
Proof.
  constructor.
  - apply keeper_settled.
  - split; reflexivity.
  - change (9 ∉ [7]). rewrite list_elem_of_singleton. discriminate.
  - apply disjoint_pointsb_sound. vm_compute. reflexivity.
  - reflexivity.
  - split; [constructor|]. split; discriminate.
  - reflexivity.
  - rewrite keeper_pairs. repeat constructor.
Qed.

Lemma join_end_to_end_witness :
  ∃ a' b3, (∀ key, Cluster_queryNode key (cluster a') = Cluster_queryNode key (cluster b3)) ∧
    Cluster_getConnection 7 (cluster a') = 4 ∧ Cluster_getConnection 9 (cluster b3) = 6 ∧ syncing a' = false.
Proof.
  destruct (join_end_to_end (λ _ _, 0) (λ _ _, 0) (λ _ _ _ _, 0) (λ _, [Sent 200]) (λ _ _ _, Ok 4) peer_answers
    (str "10.0.0.7") (str "10.0.0.9") 7800 7801 9 55 4 6 (pieces keeper) [[OK]] fresh9 keeper fresh9_ready keeper_ready)
    as (b1 & b2 & b3 & l' & a & a' & reqs & _ & _ & H1 & _ & _ & H2 & H3 & H4).
  - vm_compute. reflexivity.
  - reflexivity.
  - exists a', b3. split; [exact H1|]. split; [exact H2|]. split; [exact H3|]. apply H4. reflexivity.
Defined.

Lemma joined_keys_lost_witness :
  ∃ a' a'', Handler_handle (λ _, 0) (λ _, 0) (λ _ _ _, 0) (request "GET" [SimpleString (str "k")]) 8 a' =
    (Ok (encode (BulkString None)), a'').
Proof.
  destruct store_k_ok as [Hok Hm].
  destruct (joined_keys_lost (λ _ _, 0) (λ _ _, 0) (λ _ _ _ _, 0) (λ _, [Sent 200]) (λ _ _ _, Ok 4) peer_answers
    (str "10.0.0.7") (str "10.0.0.9") 7800 7801 9 55 4 6 (pieces keeper) [[OK]] fresh9 keeper (str "k") k_value k_value 8
    fresh9_ready keeper_ready)
    as (b1 & b2 & b3 & l' & a & a' & a'' & reqs & _ & _ & _ & H & _).
  - vm_compute. reflexivity.
  - reflexivity.
  - reflexivity.
  - reflexivity.
  - exact Hok.
  - change (kvstore (srv fresh9)) with (kvstore solo). apply solo_server_ok.
  - change (kvstore (srv fresh9)) with (kvstore solo). apply solo_avail.
  - change (kvstore (srv fresh9)) with (kvstore solo). rewrite solo_kvstore, kv_map_init. reflexivity.
  - change (kvstore keeper) with store_k. rewrite Hm. apply lookup_singleton_eq.
  - vm_compute. reflexivity.
  - exists a', a''. exact H.
Defined.
