(* ===== verification/Process.v ===== *)
(** * The whole server process

    The threads of a server and how they interleave: the main thread with its
    event loop and its way out ([Server::run], [gracefulShutdown], the
    destructor), the workers of the pool, the heartbeat thread and the snapshot
    thread, as one step relation.  A step is what a thread does between two
    points at which it waits. *)
From Stdlib Require Import ZArith Ascii String Lia.
From stdpp Require Import base numbers list strings gmap relations.
From S2P Require Import Prelude CppStd RespValue RespParser StringTable HashTable LRU KVStore Snapshot AOF Socket Ring Cluster.
From S2P Require Import Utils RaftNode Server Handler Heartbeat Membership Recovery Invariant EventLoop Lifecycle.
Local Open Scope Z_scope.

(** ** What the main thread keeps *)

Record Loop_inv (self : CNode) (run : bool) (l : Loop) : Prop := {
  li_srv : Server_inv self run (srv l);
  li_socks : map_sorted (socks l);
  li_parsers : ∀ fd p, map_find fd (socks l) = Some p → parser_inv p;
  li_tasks : ∀ sock v, THandle sock v ∈ pool l → resp_ok v = true
}.

Section main.
Context (wall : nat → Z) (rand : nat → Z → nat → Z).
Context (ksend : nat → list send_answer) (dial : nat → bytes → Z → res Z)
  (kreply : nat → list (list recv_answer)).
Context (self : CNode) (run : bool).
Implicit Types l : Loop.
#[local] Notation inv := (Loop_inv self run).

Lemma loop_on_srv {A} ub (m : M Server A) l : inv l → after ub (Server_inv self run) m (srv l) → after ub inv (on_srv m) l.
Proof. intros [] Hm. eapply after_zoom; [|exact Hm]. by constructor. Qed.

Lemma loop_assign fd p l : inv l → parser_inv p → inv (set_socks (map_assign fd p (socks l)) l).
Proof.
  intros [H1 H2 H3 H4] Hp. constructor; try done; simpl; [by apply map_assign_sorted|].
  intros j q. rewrite map_find_assign. destruct (j =? fd); [by intros [= <-]|apply H3].
Qed.

Lemma loop_emplace fd l : inv l → inv (set_socks (map_emplace fd RespParser_init (socks l)) l).
Proof.
  intros Hl. unfold map_emplace. destruct (map_find fd (socks l)) eqn:E; [by destruct l|].
  apply loop_assign; [done|apply parser_init_inv].
Qed.

Lemma loop_erase fd l : inv l → after true inv (erase_sock fd) l.
Proof.
  intros [H1 H2 H3 H4]. apply after_modify. constructor; try done; simpl; [by apply map_erase_sorted|].
  intros j q. rewrite map_find_erase by done. destruct (j =? fd); [done|apply H3].
Qed.

Lemma loop_wire w k l : inv l → inv (set_wire w k l).
Proof. intros []. by constructor. Qed.
Lemma loop_dials k l : inv l → inv (set_dials k l).
Proof. intros []. by constructor. Qed.

Lemma loop_accept fuel ks l : inv l → after true inv (accept_loop fuel ks) l.
Proof.
  revert ks l. induction fuel as [|f IH]; intros ks l Hl; [done|]. cbn [accept_loop].
  apply after_lift_bind; [done|done|]. intros [fd ks'] _. case_match; [done|].
  apply after_bind; [|intros _ l1 _ Hl1; by apply IH]. apply after_modify, loop_assign; [done|apply parser_init_inv].
Qed.

Lemma loop_client fd ks l : inv l → after true inv (handle_client fd ks) l.
Proof.
  intros Hl. unfold handle_client. apply after_bind; [by apply after_modify, loop_emplace|]. intros _ l1 _ Hl1.
  apply after_lift_bind; [done|done|]. intros [text closed] _.
  apply after_bind; [destruct closed; [by apply loop_erase|done]|]. intros _ l2 _ Hl2.
  destruct text as [|c text]; [done|]. apply after_get. destruct (map_find fd (socks l2)) as [p|] eqn:Ep; [|done].
  apply after_lift_bind; [done|done|]. intros p1 Ha. rewrite drain_spec. apply after_modify.
  pose proof (append_inv _ _ _ (li_parsers _ _ _ Hl2 fd p Ep) Ha) as [A B C].
  destruct (loop_assign fd (set_queue [] p1) l2 Hl2) as [H1 H2 H3 H4]; [by constructor|]. constructor; try done.
  intros sock v Hin. cbn [pool set_pool] in Hin. apply elem_of_app in Hin as [Hin|Hin]; [by apply (H4 sock)|].
  apply list_elem_of_fmap in Hin as (w & [= _ <-] & Hw). rewrite forallb_forall in C. apply C. by apply list_elem_of_In.
Qed.

Lemma loop_event e l : inv l → after true inv (handle_event e) l.
Proof. intros Hl. destruct e; [by apply loop_accept|done|by apply loop_client]. Qed.

Lemma loop_sending fd data l : inv l → after true inv (loop_send ksend fd data) l.
Proof.
  intros Hl. unfold loop_send. apply after_get. apply after_bind; [by apply after_put, loop_wire|]. intros _ l1 _ Hl1.
  apply after_lift_bind; [done|done|]. intros r _. apply after_bind; [by apply after_modify, loop_wire|done].
Qed.

Lemma wait_reply_inv calls p p' : parser_inv p → wait_reply calls p = Ok p' → parser_inv p'.
Proof.
  revert p. induction calls as [|ks calls IH]; intros p Hp; cbn [wait_reply]; destruct (RespParser_hasResult p);
    try (by intros [= <-]); try done. intros H. apply res_bind_inv in H as (r & _ & H). apply res_bind_inv in H as (p1 & Ha & H).
  apply (IH p1); [|done]. by eapply append_inv.
Qed.

Lemma pop_inv p : parser_inv p → parser_inv (RespParser_getResult p).2.
Proof.
  intros [A B C]. destruct p as [st n stk [|v q]]; [by constructor|]. constructor; try done.
  by apply andb_true_iff in C as [_ C].
Qed.

Lemma loop_connect ip_ port_ uuid l : inv l → after true inv (Server_connect ksend dial kreply ip_ port_ uuid) l.
Proof.
  intros Hl. unfold Server_connect. apply after_get. apply after_bind; [by apply after_put, loop_dials|]. intros _ l1 _ Hl1.
  apply after_lift_bind; [done|done|]. intros fd _. apply after_bind; [by apply loop_sending|]. intros _ l2 _ Hl2.
  apply after_lift_bind; [done|done|]. intros p Hp. apply wait_reply_inv in Hp; [|apply parser_init_inv].
  apply pop_inv in Hp. destruct (RespParser_getResult p) as [v p'].
  apply after_bind; [by apply after_modify, loop_assign|]. intros _ l3 _ Hl3. apply after_bind.
  { apply loop_on_srv; [done|]. apply inv_on_cluster; [apply Hl3|]. apply inv_addConnection, Hl3. }
  intros _ l4 _ [H1 H2 H3 H4]. apply after_modify. constructor; try done.
  intros sock v' Hin. cbn [pool set_pool] in Hin. apply elem_of_app in Hin as [Hin|Hin]; [by apply (H4 sock)|].
  by apply list_elem_of_singleton in Hin.
Qed.

Lemma loop_dispatch m l : inv l → after true inv (dispatch_message rand ksend dial kreply m) l.
Proof.
  intros Hl. destruct m as [text fd]. unfold dispatch_message. case_match.
  { apply after_lift_bind; [done|done|]. intros [[ip_ port_] uuid] _. by apply loop_connect. }
  case_match; [apply loop_on_srv; [done|]; apply inv_initRaftGroups, Hl|]. apply after_get. case_match; [|done].
  apply after_bind; [by apply loop_sending|]. intros closed l1 _ Hl1. destruct closed; [by apply loop_erase|done].
Qed.

Lemma loop_drain l : inv l → after true inv (drain_queue rand ksend dial kreply) l.
Proof.
  intros Hl. unfold drain_queue. apply after_get. apply after_mfor; [|done]. intros m l1 _ Hl1.
  apply after_bind; [|intros _ l2 _ Hl2; by apply loop_dispatch].
  apply loop_on_srv; [done|]. apply after_modify. by apply (inv_frame self run (srv l1)); [apply Hl1|..].
Qed.

Lemma loop_raft l : inv l → after true inv (drain_raft rand) l.
Proof.
  intros Hl. unfold drain_raft. apply after_get. apply after_mfor; [|done]. intros [[gid sender] raw] l1 _ Hl1.
  apply after_bind; [apply after_modify; destruct Hl1; by constructor|]. intros _ l2 _ Hl2.
  apply loop_on_srv; [done|]. apply after_get. apply after_bind; [|done].
  apply inv_on_group; [apply Hl2|done|]. intros n Hn. apply inv_step. by apply (si_groups _ _ _ (li_srv _ _ _ Hl2)).
Qed.
Lemma inv_heartbeats live s : Server_inv self run s → after true (Server_inv self run) (epoll_heartbeats wall live) s.
Proof.
  intros Hs. unfold epoll_heartbeats. apply after_get. apply after_mfor; [|done]. intros c s1 _ Hs1.
  case_match; [by apply inv_heartbeat|done].
Qed.

Lemma inv_checkTimeouts held s : Server_inv self run s → after true (Server_inv self run) (Server_checkTimeouts wall held) s.
Proof.
  intros Hs. unfold Server_checkTimeouts. apply after_bind; [by apply inv_wall|]. intros now s1 _ Hs1. apply after_get.
  apply after_mfor; [|done]. intros u s2 _ Hs2. apply after_bind; [apply inv_on_cluster; [done|apply inv_remove_dead, Hs2]|].
  intros _ s3 _ Hs3. by apply inv_push.
Qed.

Lemma inv_heartbeatRound s : Server_inv self run s → after true (Server_inv self run) (Server_heartbeatRound wall) s.
Proof.
  intros Hs. unfold Server_heartbeatRound. apply after_bind; [|intros _ s1 _ Hs1; by apply inv_checkTimeouts].
  unfold Server_sendHeartbeats. apply after_bind; [by apply inv_wall|]. intros now s1 _ Hs1. apply after_get.
  apply after_mfor; [|done]. intros c s2 _ Hs2. case_match; [done|]. apply after_bind.
  { apply inv_on_cluster; [done|]. destruct (si_cluster _ _ _ Hs2) as [[] ? ?]. constructor; [constructor|done..]; simpl; eauto with kvjet. }
  intros _ s3 _ Hs3. apply after_get. by apply inv_push.
Qed.

Lemma inv_group gid s : Server_inv self run s → after true (Server_inv self run) (epoll_group rand gid) s.
Proof.
  intros Hs. unfold epoll_group. apply after_get. apply after_bind.
  { apply inv_on_group; [done|done|]. intros n Hn. apply after_weaken, inv_tick. by apply (si_groups _ _ _ Hs). }
  intros _ s1 _ Hs1. apply after_get. case_match; [|done]. case_match; [|done]. apply after_bind.
  { apply inv_on_group; [done|done|]. intros n' Hn. apply after_weaken, inv_takePendingApply. by apply (si_groups _ _ _ Hs1). }
  intros es s2 _ Hs2. apply after_mfor; [|done]. intros e s3 _ Hs3. by apply inv_execute.
Qed.

Lemma inv_tail live s : Server_inv self run s → after true (Server_inv self run) (epoll_tail wall rand live) s.
Proof.
  intros Hs. unfold epoll_tail. apply after_bind; [by apply inv_heartbeats|]. intros _ s1 _ Hs1.
  apply after_bind; [by apply inv_checkTimeouts|]. intros _ s2 _ Hs2. apply after_get.
  apply after_mfor; [|done]. intros g s3 _ Hs3. by apply inv_group.
Qed.

Lemma loop_round answer l : inv l → after true inv (Server_epoll_step wall rand ksend dial kreply answer) l.
Proof.
  intros Hl. destruct answer as [evs| |]; [|done|done]. unfold Server_epoll_step.
  apply after_bind; [apply after_mfor; [intros e l1 _ Hl1; by apply loop_event|done]|]. intros _ l1 _ Hl1.
  apply after_bind; [by apply loop_drain|]. intros _ l2 _ Hl2. apply after_bind; [by apply loop_raft|]. intros _ l3 _ Hl3.
  apply after_get. apply loop_on_srv; [done|]. apply inv_tail, Hl3.
Qed.

(** A worker catches every exception of its task. *)
Lemma loop_worker steady l : inv l → after true inv (worker_step wall rand steady) l.
Proof.
  intros Hl. unfold worker_step. apply after_get. destruct (pool l) as [|t ts] eqn:Ep; [done|].
  apply after_bind.
  { apply after_put. destruct Hl as [H1 H2 H3 H4]. constructor; try done. intros sock v Hin. apply (H4 sock). rewrite Ep. by right. }
  intros [] l1 E Hl1. apply loop_on_srv; [done|].
  assert (after true (Server_inv self run) (run_task wall rand steady t) (srv l1)) as [_ Hi].
  { destruct t as [sock v|uuid]; cbn [run_task].
    - destruct (inv_handleCommand steady wall rand self run sock v (srv l1)) as [_ Hi]; [|apply Hl1|by split].
      apply (li_tasks _ _ _ Hl sock). rewrite Ep. by left.
    - apply inv_sendData; [apply Hl1|by left]. }
  unfold after, catch_all. destruct (run_task wall rand steady t (srv l1)) as [[| | |] s']; by split.
Qed.

Lemma loop_raw raw fd msg l : inv l → after true inv (raw_send raw fd msg) l.
Proof. intros Hl. by apply after_modify, loop_wire. Qed.

Lemma inv_adopt ip_ port_ fd n c : Cluster_inv self c → Cluster_inv self (adopt_node ip_ port_ fd n c).
Proof. intros Hc. unfold adopt_node. case_match; eauto using inv_addConnection, inv_addNodeToHash, inv_addTopoNode. Qed.

Lemma loop_join ip_ port_ msg_UUID l :
  inv l → after true inv (Server_joinCluster wall ksend dial kreply ip_ port_ msg_UUID) l.
Proof.
  intros Hl. unfold Server_joinCluster. apply after_get. apply after_bind; [by apply after_put, loop_dials|]. intros _ l1 _ Hl1.
  apply after_lift_bind; [done|done|]. intros fd _. apply after_bind; [by apply loop_sending|]. intros _ l2 _ Hl2.
  apply after_lift_bind; [done|done|]. intros p1 Hp1. apply wait_reply_inv in Hp1; [|apply parser_init_inv].
  apply pop_inv in Hp1. destruct (RespParser_getResult p1) as [reply p2].
  apply after_lift_bind; [done|done|]. intros v _. apply after_lift_bind; [done|done|]. intros r _.
  apply after_bind; [apply loop_on_srv; [done|]; apply after_modify; by apply (inv_frame self run (srv l2)); [apply Hl2|..]|].
  intros _ l3 _ Hl3. apply after_bind.
  { apply loop_on_srv; [done|]. apply after_mfor; [|apply Hl3]. intros n s _ Hs. apply inv_on_cluster; [done|].
    apply inv_adopt, Hs. }
  intros _ l4 _ Hl4. apply after_get. apply after_bind; [by apply loop_sending|]. intros _ l5 _ Hl5.
  apply after_lift_bind; [done|done|]. intros p3 Hp3. apply after_bind.
  { apply loop_on_srv; [done|]. apply after_bind; [apply inv_wall, Hl5|]. intros now s _ Hs.
    apply inv_on_cluster; [done|]. apply inv_addGossip, Hs. }
  intros _ l6 _ Hl6. apply after_get. apply after_bind; [by apply loop_sending|]. intros _ l7 _ Hl7.
  apply after_modify, loop_assign; [done|apply parser_init_inv].
Qed.
End main.

(** The shutdown clears [running] and keeps the rest. *)
Lemma loop_shutdown wall raw gossip self run l : Loop_inv self run l → after true (Loop_inv self false) (Server_gracefulShutdown wall raw gossip) l.
Proof.
  intros Hl. unfold Server_gracefulShutdown.
  apply after_bind; [apply after_modify; destruct Hl as [[] ? ? ?]; by constructor|]. intros _ l1 _ Hl1.
  apply after_bind.
  { apply loop_on_srv; [done|]. apply after_bind; [apply inv_wall, Hl1|]. intros now s _ Hs.
    apply inv_on_cluster; [done|]. apply inv_addGossip, Hs. }
  intros _ l2 _ Hl2. apply after_get. apply after_bind.
  { apply after_mfor; [|done]. intros c l3 _ Hl3. case_match; [done|by apply loop_raw]. }
  intros _ l3 _ Hl3. apply after_bind; [apply loop_on_srv; [done|]; apply inv_on_cluster; [apply Hl3|]; apply inv_delNodeToHash, Hl3|].
  intros _ l4 _ Hl4. apply after_bind; [apply loop_on_srv; [done|]; apply inv_on_cluster; [apply Hl4|]; apply inv_delTopoNode, Hl4|].
  intros _ l5 _ Hl5. apply after_mfor; [|done]. intros kv l6 _ Hl6. unfold migrate_pair. apply after_get.
  apply after_lift_bind; [done|done|]. intros o _. case_match; [done|]. cbv zeta. case_match; [done|by apply loop_raw].
Qed.

(** ** The process *)

Inductive snap_thread := SnapNone | SnapSleeping | SnapWaiting | SnapDone.

(** Where the main thread is: in the loop of [run], before and after
    [gracefulShutdown], in the destructor (waiting for the snapshot thread, then,
    with the Raft groups destroyed, for the heartbeat thread, then with the
    cluster destroyed), and behind it. *)
Inductive phase_t := Looping | Leaving | Left | JoinSnapshot | JoinHeartbeat | ClusterGone | Exited.

#[global] Instance phase_eq_dec : EqDecision phase_t.
Proof. solve_decision. Defined.

Record ServerProcess := mkServerProcess {
  loop : Loop;
  heart : Heart;
  snap : snap_thread;
  disk : option Dir;
  phase : phase_t;
  shutdown_requested : bool
}.

Definition set_loop x p := mkServerProcess x (heart p) (snap p) (disk p) (phase p) (shutdown_requested p).
Definition set_heart x p := mkServerProcess (loop p) x (snap p) (disk p) (phase p) (shutdown_requested p).
Definition set_snap x p := mkServerProcess (loop p) (heart p) x (disk p) (phase p) (shutdown_requested p).
Definition set_disk x p := mkServerProcess (loop p) (heart p) (snap p) x (phase p) (shutdown_requested p).
Definition set_phase x p := mkServerProcess (loop p) (heart p) (snap p) (disk p) x (shutdown_requested p).
Definition set_shutdown x p := mkServerProcess (loop p) (heart p) (snap p) (disk p) (phase p) x.

(** [Server::requestShutdown] *)
Definition Server_requestShutdown (p : ServerProcess) : ServerProcess := set_shutdown true p.

(** [while (running && !shutdown_requested)] *)
Definition run_condition (p : ServerProcess) : bool := running (srv (loop p)) && negb (shutdown_requested p).

Definition set_server (s : Server) (p : ServerProcess) : ServerProcess := set_loop (set_srv s (loop p)) p.

(** The truncation of the log after the wait for the child. *)
Definition truncate_log (s : Server) : Server :=
  set_aof (mkAOF [] (buffer (aof s)) (last_fsync (aof s)) (clock_reads (aof s))) s.

(** The members a task uses are there. *)
Definition members_alive (ph : phase_t) : bool :=
  match ph with JoinHeartbeat | ClusterGone | Exited => false | _ => true end.

Section process.
Context (steady wall : nat → Z) (rand : nat → Z → nat → Z).
Context (ksend : nat → list send_answer) (dial : nat → bytes → Z → res Z)
  (kreply : nat → list (list recv_answer)).
Context (raw : nat → bytes → nat).

(** [run] up to the loop: the heartbeat thread, the groups, the snapshot thread. *)
Definition Server_run_start : M ServerProcess unit :=
  _ ← mmodify (λ p, set_server (set_running true (srv (loop p))) p);
  _ ← mzoom heart set_heart Cluster_start;
  _ ← mzoom loop set_loop (on_srv (Server_initRaftGroups rand));
  mmodify (set_snap SnapSleeping).

Inductive pstep (p : ServerProcess) : ServerProcess → Prop :=
  (** the signal handler *)
  | step_signal : phase p ≠ Exited → pstep p (Server_requestShutdown p)
  (** the loop of [run] *)
  | step_round answer l' :
      phase p = Looping → run_condition p = true →
      Server_epoll_step wall rand ksend dial kreply answer (loop p) = (Ok tt, l') →
      pstep p (set_loop l' p)
  | step_round_throws answer e l' :
      phase p = Looping → run_condition p = true →
      Server_epoll_step wall rand ksend dial kreply answer (loop p) = (Throw e, l') →
      pstep p (set_phase Leaving (set_loop l' p))
  | step_loop_ends :
      phase p = Looping → run_condition p = false → pstep p (set_phase Leaving p)
  | step_leave gossip r l' :
      phase p = Leaving → Server_gracefulShutdown wall raw gossip (loop p) = (r, l') → defined r →
      pstep p (set_phase Left (set_loop l' p))
  (** the destructor *)
  | step_destroy :
      phase p = Left → pstep p (set_phase JoinSnapshot (set_server (set_running false (srv (loop p))) p))
  | step_snapshot_joined :
      phase p = JoinSnapshot → snap p = SnapNone ∨ snap p = SnapDone →
      pstep p (set_phase JoinHeartbeat
        (set_heart (Cluster_stop_request (heart p)) (set_server (close_groups (srv (loop p))) p)))
  | step_heartbeat_joined :
      phase p = JoinHeartbeat → Cluster_stop_joined (heart p) = true → pstep p (set_phase ClusterGone p)
  | step_exit :
      phase p = ClusterGone →
      pstep p (set_phase Exited (set_loop (set_pool []
        (set_srv (set_aof (AOF_destroy steady (aof (srv (loop p)))).2 (srv (loop p))) (loop p))) p))
  (** a worker *)
  | step_worker l' :
      members_alive (phase p) = true → worker_step wall rand steady (loop p) = (Ok tt, l') →
      pstep p (set_loop l' p)
  (** the heartbeat thread *)
  | step_heartbeat h' s' :
      phase p ≠ ClusterGone → phase p ≠ Exited →
      heart_wake wall (heart p) (srv (loop p)) = (Ok tt, (h', s')) → pstep p (set_heart h' (set_server s' p))
  (** the snapshot thread: the child's files are those of the store at the fork *)
  | step_snapshot dir :
      snap p = SnapSleeping → running (srv (loop p)) = true →
      KVStore_writetofileFork (kvstore (srv (loop p))) (disk p) = Ok dir →
      pstep p (set_snap SnapWaiting (set_disk (Some dir) p))
  | step_fork_fails :
      snap p = SnapSleeping → running (srv (loop p)) = true → pstep p (set_snap SnapWaiting p)
  | step_truncate :
      snap p = SnapWaiting → pstep p (set_snap SnapSleeping (set_server (truncate_log (srv (loop p))) p))
  | step_truncate_fails : snap p = SnapWaiting → pstep p (set_snap SnapSleeping p)
  | step_snapshot_ends :
      snap p = SnapSleeping → running (srv (loop p)) = false → pstep p (set_snap SnapDone p).

(** A worker that takes a task now works on destroyed members. *)
Definition worker_fault (p : ServerProcess) : Prop :=
  (phase p = JoinHeartbeat ∨ phase p = ClusterGone) ∧ pool (loop p) ≠ [].
End process.

(** ** The invariant of the process *)

Definition past_run (ph : phase_t) : bool := match ph with Looping | Leaving => false | _ => true end.

Record Process_inv (self : CNode) (p : ServerProcess) : Prop := {
  pi_loop : Loop_inv self (running (srv (loop p))) (loop p);
  pi_left : past_run (phase p) = true → running (srv (loop p)) = false;
  pi_snap : members_alive (phase p) = false → snap p = SnapNone ∨ snap p = SnapDone;
  pi_heart : members_alive (phase p) = false → hb_running (heart p) = false
}.

Lemma loop_inv_run self run l : Loop_inv self run l → Loop_inv self (running (srv l)) l.
Proof. intros Hl. by rewrite (si_running _ _ _ (li_srv _ _ _ Hl)). Qed.

(** A step of a thread that keeps the loop's invariant. *)
Lemma pi_set_loop self p l' :
  Process_inv self p → Loop_inv self (running (srv (loop p))) l' → Process_inv self (set_loop l' p).
Proof.
  intros [H1 H2 H3 H4] Hl. pose proof (si_running _ _ _ (li_srv _ _ _ Hl)) as Hr. constructor; try done.
  - by apply loop_inv_run in Hl.
  - intros Hp. simpl. rewrite Hr. by apply H2.
Qed.

Lemma pi_set_server self p s :
  Process_inv self p → Server_inv self (running (srv (loop p))) s → Process_inv self (set_server s p).
Proof. intros Hp Hs. apply pi_set_loop; [done|]. destruct (pi_loop _ _ Hp). by constructor. Qed.

Lemma inv_truncate self run s : Server_inv self run s → Server_inv self run (truncate_log s).
Proof. intros [? ? [? ?] ? ? ? ?]. constructor; try done. constructor; [apply commands_nil|done]. Qed.

Section reach.
Context (steady wall : nat → Z) (rand : nat → Z → nat → Z).
Context (ksend : nat → list send_answer) (dial : nat → bytes → Z → res Z)
  (kreply : nat → list (list recv_answer)).
Context (raw : nat → bytes → nat) (self : CNode).
#[local] Notation step := (pstep steady wall rand ksend dial kreply raw).

Lemma heart_wake_inv h run s h' s' :
  heart_wake wall h s = (Ok tt, (h', s')) → Server_inv self run s →
  Server_inv self run s' ∧ hb_running h' = hb_running h.
Proof.
  unfold heart_wake. destruct (hb_state h); [by intros [= <- <-]| |by intros [= <- <-]].
  destruct (hb_running h) eqn:E; [|by intros [= <- <-]]. intros H Hs.
  pose proof (inv_heartbeatRound wall self run s Hs) as [_ Hi].
  destruct (Server_heartbeatRound wall s) as [[| | |] s1]; simplify_eq; by rewrite ?E.
Qed.

Lemma process_step p p' : Process_inv self p → step p p' → Process_inv self p'.
Proof.
  intros Hp Hstep. pose proof Hp as [H1 H2 H3 H4].
  destruct Hstep as [Hph|an l' Hph Hc Hr|an e l' Hph Hc Hr|Hph Hc|g r l' Hph Hr Hd|Hph|Hph Hsn|Hph Hj|Hph|l' Hal Hr
    |h' s' Hn1 Hn2 Hr|dir Hsn Hrun Hw|Hsn Hrun|Hsn|Hsn|Hsn Hrun].
  - by constructor.
  - apply pi_set_loop; [done|].
    pose proof (loop_round wall rand ksend dial kreply self _ an _ H1) as [_ Hi]. by rewrite Hr in Hi.
  - pose proof (loop_round wall rand ksend dial kreply self _ an _ H1) as [_ Hi]. rewrite Hr in Hi.
    constructor; [by apply loop_inv_run in Hi|done..].
  - by constructor.
  - pose proof (loop_shutdown wall raw g self _ _ H1) as [_ Hi]. rewrite Hr in Hi. cbn [snd] in Hi.
    constructor; [by apply loop_inv_run in Hi| |done..]. intros _. apply (si_running _ _ _ (li_srv _ _ _ Hi)).
  - constructor; [|done..]. destruct H1 as [[] ? ? ?]. constructor; [by constructor|done..].
  - constructor; [| |done..].
    + destruct H1. constructor; [by apply inv_close_groups|done..].
    + intros _. apply H2. by rewrite Hph.
  - constructor; [done| | |]; intros _; [apply H2|apply H3|apply H4]; by rewrite Hph.
  - constructor; [| | |].
    + destruct H1 as [[] ? ? ?]. constructor; [|done..|by intros ? ? ?%elem_of_nil].
      constructor; try done. by apply (log_flush steady true).
    + intros _. apply H2. by rewrite Hph.
    + intros _. apply H3. by rewrite Hph.
    + intros _. apply H4. by rewrite Hph.
  - apply pi_set_loop; [done|]. pose proof (loop_worker wall rand self _ steady _ H1) as [_ Hi]. by rewrite Hr in Hi.
  - destruct (heart_wake_inv _ _ _ _ _ Hr (li_srv _ _ _ H1)) as [Hs Hb].
    destruct (pi_set_server self p s' Hp Hs). constructor; try done. simpl. by rewrite Hb.
  - constructor; try done. simpl. intros Ha. destruct (H3 Ha); congruence.
  - constructor; try done. simpl. intros Ha. destruct (H3 Ha); congruence.
  - destruct (pi_set_server self p _ Hp (inv_truncate _ _ _ (li_srv _ _ _ H1))). constructor; try done.
    simpl. intros Ha. destruct (H3 Ha); congruence.
  - constructor; try done. simpl. intros Ha. destruct (H3 Ha); congruence.
  - constructor; try done. by right.
Qed.

Lemma process_reach p p' : Process_inv self p → rtc step p p' → Process_inv self p'.
Proof. intros Hp Hs. induction Hs as [|p1 p2 p3 H12 _ IH]; [done|]. by apply IH, (process_step p1). Qed.
End reach.

(** ** Booting *)

Section boot.
Context (steady wall : nat → Z) (rand : nat → Z → nat → Z).
Context (ksend : nat → list send_answer) (dial : nat → bytes → Z → res Z)
  (kreply : nat → list (list recv_answer)).
Context (raw : nat → bytes → nat).
#[local] Notation step := (pstep steady wall rand ksend dial kreply raw).

Definition fresh (dir : option Dir) (s : Server) : ServerProcess :=
  mkServerProcess (mkLoop s [] [] [] [] 0 0) (mkHeart false HbNone) SnapNone dir Looping false.

(** What [main] does before the loop: construct the server on the snapshot
    directory, if there is one, and the log, join if told to, and enter [run]. *)
Inductive booted (uuid : Z) (addr : bytes) (port : Z) (dir : option Dir) (content : bytes) : ServerProcess → Prop :=
  | boot_alone files s0 p :
      Server_start steady uuid addr port (default ∅ dir) content files = (Ok tt, s0) →
      Server_run_start rand (fresh dir s0) = (Ok tt, p) → booted uuid addr port dir content p
  | boot_joined files s0 bootstrap_ip bootstrap_port msg_UUID l p :
      Server_start steady uuid addr port (default ∅ dir) content files = (Ok tt, s0) →
      Server_joinCluster wall ksend dial kreply bootstrap_ip bootstrap_port msg_UUID (loop (fresh dir s0)) = (Ok tt, l) →
      Server_run_start rand (set_loop l (fresh dir s0)) = (Ok tt, p) → booted uuid addr port dir content p.

Lemma run_start_inv self dir l p :
  Loop_inv self false l → Server_run_start rand (set_loop l (fresh dir (srv l))) = (Ok tt, p) → Process_inv self p.
Proof.
  intros Hl H. unfold Server_run_start in H. apply M_bind_inv in H as ([] & p1 & [= <-] & H).
  apply M_bind_inv in H as ([] & p2 & [= <-] & H). apply M_bind_inv in H as ([] & p3 & H & [= <-]).
  set (l1 := set_srv (set_running true (srv l)) l).
  assert (Loop_inv self true l1) as Hl1 by (destruct Hl as [[] ? ? ?]; by constructor).
  pose proof (loop_on_srv self true true (Server_initRaftGroups rand) l1 Hl1
    (inv_initRaftGroups self true true rand _ (li_srv _ _ _ Hl1))) as [_ Hi].
  unfold mzoom in H. cbn [loop set_heart set_server set_loop fresh] in H. fold l1 in H.
  destruct (on_srv (Server_initRaftGroups rand) l1) as [r l2]. injection H as -> <-. cbn [snd] in Hi.
  constructor; [by apply loop_inv_run in Hi|done..].
Qed.

Lemma booted_inv uuid addr port dir content p :
  restorable dir → commands content → booted uuid addr port dir content p →
  Process_inv (mkCNode addr (u16 (u16 (port + 1) - 1)) uuid) p.
Proof.
  intros Hd Hc [files s0 q Hs Hr|files s0 ip_ port_ msg l q Hs Hj Hr]; apply inv_start in Hs; try done.
  - apply (run_start_inv _ dir (loop (fresh dir s0))); [|exact Hr]. constructor; [exact Hs|constructor|done|by intros ? ? ?%elem_of_nil].
  - assert (Loop_inv (mkCNode addr (u16 (u16 (port + 1) - 1)) uuid) false (loop (fresh dir s0))) as Hl.
    { constructor; [exact Hs|constructor|done|by intros ? ? ?%elem_of_nil]. }
    pose proof (loop_join wall ksend dial kreply _ _ ip_ port_ msg _ Hl) as [_ Hi]. rewrite Hj in Hi. cbn [snd] in Hi.
    apply (run_start_inv _ dir l); [exact Hi|exact Hr].
Qed.

Lemma commands_restart b :
  commands b → ∃ kvs, insertions kvs b ∧
    ((N.of_nat (length kvs) <= LRU_MAX_SIZE)%N → ∀ steady' uuid' addr' port' files',
       ∃ s', Server_start steady' uuid' addr' port' ∅ b files' = (Ok tt, s') ∧ KVStore_ok (kvstore s') ∧
         kv_map (kvstore s') = insert_all kvs ∅).
Proof.
  intros (kvs & Hb & Hv). exists kvs. split; [done|]. intros Hl *. rewrite Hb. by apply start_replays.
Qed.

(** C2: no schedule can corrupt a server that starts on a restorable snapshot (or
    on none: the snapshots of stores without tombstones are restorable) and on a
    log of whole insertions, joining a cluster or not: in every state that the main
    thread, the workers, the heartbeat thread, the snapshot thread, signals and the
    destructor can reach by steps in any order, on whatever arrives from the
    network and whatever handlers throw: store, tables, Raft groups and parsers
    are well formed, the node still has the identity it started with, and every
    task holds a value that the log can represent.  The log file, cut off at
    that moment, is again a sequence of whole insertions; if there are at most
    [LRU_MAX_SIZE] of them, a server started on that log alone, without a
    snapshot, holds what they insert, in order. *)
Theorem process_invariant (uuid : Z) (addr : bytes) (port : Z) (dir : option Dir) (content : bytes) (p p' : ServerProcess) :
  restorable dir → commands content → booted uuid addr port dir content p → rtc step p p' →
  let s := srv (loop p') in
  Server_inv (mkCNode addr (u16 (u16 (port + 1) - 1)) uuid) (running s) s ∧
  (∀ fd q, map_find fd (socks (loop p')) = Some q → parser_inv q) ∧
  (∀ sock v, THandle sock v ∈ pool (loop p') → resp_ok v = true) ∧
  (past_run (phase p') = true → running s = false) ∧
  ∃ kvs, insertions kvs (file (aof s)) ∧
    ((N.of_nat (length kvs) <= LRU_MAX_SIZE)%N → ∀ steady' uuid' addr' port' files',
       ∃ s', Server_start steady' uuid' addr' port' ∅ (file (aof s)) files' = (Ok tt, s') ∧ KVStore_ok (kvstore s') ∧
         kv_map (kvstore s') = insert_all kvs ∅).
Proof.
  intros Hd Hc Hb Hr s. apply booted_inv in Hb; [|done..].
  destruct (process_reach _ _ _ _ _ _ _ _ _ _ Hb Hr) as [[H1 H2 H3 H4] H5 _ _].
  split_and!; [done..|]. apply commands_restart, H1.
Qed.
(** *** The way out *)

Definition phase_rank (ph : phase_t) : nat :=
  match ph with Looping => 6 | Leaving => 5 | Left => 4 | JoinSnapshot => 3 | JoinHeartbeat => 2 | ClusterGone => 1 | Exited => 0 end.
Definition snap_rank (sn : snap_thread) : nat := match sn with SnapWaiting => 2 | SnapSleeping => 1 | _ => 0 end.
Definition heart_rank (h : Heart) : nat := match hb_state h with HbSleeping => 1 | _ => 0 end.

(** What is left to do: phases to pass, threads to end, tasks queued. *)
Definition rank (p : ServerProcess) : nat :=
  (phase_rank (phase p) + snap_rank (snap p) + heart_rank (heart p) + length (pool (loop p)))%nat.

Lemma worker_pool l l' r : worker_step wall rand steady l = (r, l') → pool l' = tail (pool l).
Proof.
  unfold worker_step. intros H. unfold mbind, M_bind, mget in H. destruct (pool l) as [|t ts] eqn:E; [by injection H as _ <-|].
  unfold mput, on_srv, mzoom in H. destruct (catch_all _ _) as [r' s']. by injection H as _ <-.
Qed.

Lemma heart_wake_rank h s h' s' r : heart_wake wall h s = (r, (h', s')) → (heart_rank h' <= heart_rank h)%nat.
Proof.
  unfold heart_wake. destruct (hb_state h) eqn:E; try by intros [= _ <- _].
  unfold heart_rank. rewrite E. destruct (hb_state h'); lia.
Qed.

Lemma shutdown_step self p p' :
  Process_inv self p → past_run (phase p) = true → step p p' →
  past_run (phase p') = true ∧ (rank p' <= rank p)%nat.
Proof.
  intros [H1 H2 H3 H4] Hp Hstep. specialize (H2 Hp). unfold rank.
  destruct Hstep as [Hph|an l' Hph Hc Hr|an e l' Hph Hc Hr|Hph Hc|g r l' Hph Hr Hd|Hph|Hph Hsn|Hph Hj|Hph|l' Hal Hr
    |h' s' Hn1 Hn2 Hr|dir Hsn Hrun Hw|Hsn Hrun|Hsn|Hsn|Hsn Hrun]; try (by rewrite Hph in Hp); try congruence; simpl.
  - split; [done|lia].
  - split; [done|]. rewrite Hph. simpl. lia.
  - split; [done|]. rewrite Hph. unfold heart_rank. simpl. lia.
  - split; [done|]. rewrite Hph. simpl. lia.
  - split; [done|]. rewrite Hph. simpl. lia.
  - split; [done|]. rewrite (worker_pool _ _ _ Hr). destruct (pool (loop p)); simpl; lia.
  - split; [done|]. pose proof (heart_wake_rank _ _ _ _ _ Hr). lia.
  - split; [done|]. rewrite Hsn. simpl. lia.
  - split; [done|]. rewrite Hsn. simpl. lia.
  - split; [done|]. rewrite Hsn. simpl. lia.
Qed.

Lemma shutdown_next self p :
  Process_inv self p → past_run (phase p) = true → phase p ≠ Exited →
  ∃ p', step p p' ∧ (rank p' < rank p)%nat.
Proof.
  intros [H1 H2 H3 H4] Hp He. specialize (H2 Hp). unfold rank.
  destruct (phase p) eqn:Hph; try done.
  - eexists. split; [by apply step_destroy|]. simpl. lia.
  - destruct (snap p) eqn:Hsn.
    + eexists. split; [apply step_snapshot_joined; auto|]. unfold heart_rank. simpl. rewrite ?Hsn. simpl. lia.
    + eexists. split; [by apply step_snapshot_ends|]. simpl. rewrite ?Hph. simpl. lia.
    + eexists. split; [by apply step_truncate|]. simpl. rewrite ?Hph. simpl. lia.
    + eexists. split; [apply step_snapshot_joined; auto|]. unfold heart_rank. simpl. rewrite ?Hsn. simpl. lia.
  - specialize (H4 eq_refl). destruct (hb_state (heart p)) eqn:Hh.
    + eexists. split; [apply step_heartbeat_joined; [done|]; unfold Cluster_stop_joined; by rewrite Hh|]. simpl. lia.
    + eexists. split; [eapply step_heartbeat; [by rewrite Hph..|]; unfold heart_wake; by rewrite Hh, H4|].
      unfold heart_rank. simpl. rewrite ?Hph, ?Hh. simpl. lia.
    + eexists. split; [apply step_heartbeat_joined; [done|]; unfold Cluster_stop_joined; by rewrite Hh|]. simpl. lia.
  - eexists. split; [by apply step_exit|]. simpl. lia.
Qed.

(** Behind the destructor nothing of the log is left in memory. *)
Definition flushed (p : ServerProcess) : Prop := phase p = Exited → buffer (aof (srv (loop p))) = [].

Lemma flushed_step self p p' : Process_inv self p → flushed p → step p p' → flushed p'.
Proof.
  intros [_ H2 H3 _] Hf Hstep Hp. assert (phase p = Exited → snap p = SnapNone ∨ snap p = SnapDone) as H3' by (intros He; apply H3; by rewrite He).
  destruct Hstep; simpl in Hp |- *; try congruence; try (by apply Hf);
    try (destruct (H3' Hp); congruence); try (by rewrite Hp in *); done.
Qed.

Lemma flushed_reach self p p' : Process_inv self p → flushed p → rtc step p p' → flushed p'.
Proof.
  intros Hi Hf Hs. revert Hi Hf. induction Hs as [|p1 p2 p3 H12 _ IH]; [done|]. intros Hi Hf.
  apply IH; [by eapply process_step|by eapply flushed_step].
Qed.

Lemma run_start_looping p p' : Server_run_start rand p = (Ok tt, p') → phase p' = phase p.
Proof.
  unfold Server_run_start, mbind, M_bind, mmodify, mzoom. cbn [loop set_heart set_server set_loop].
  repeat (case_match; simplify_eq; try done). by intros [= <-].
Qed.

Lemma booted_looping uuid addr port dir content p : booted uuid addr port dir content p → phase p = Looping.
Proof. intros [files s0 q Hs Hr|files s0 ip_ port_ msg l q Hs Hj Hr]; by apply run_start_looping in Hr. Qed.

Lemma shutdown_reaches self p :
  Process_inv self p → flushed p → past_run (phase p) = true → ∃ p', rtc step p p' ∧ phase p' = Exited ∧ flushed p'.
Proof.
  remember (rank p) as n eqn:Hn. revert p Hn. induction (lt_wf n) as [n _ IH]. intros p -> Hi Hf Hp.
  destruct (decide (phase p = Exited)) as [He|He]; [by exists p|].
  destruct (shutdown_next _ _ Hi Hp He) as (q & Hs & Hlt).
  destruct (IH _ Hlt q eq_refl) as (p' & Hr & H'); [by eapply process_step|by eapply flushed_step| |].
  { by apply (shutdown_step _ _ _ Hi Hp Hs). }
  exists p'. split; [by apply rtc_l with q|done].
Qed.

(** Up to the destruction of the groups no worker need run. *)
Lemma destroy_joins self p :
  Process_inv self p → phase p = JoinSnapshot →
  ∃ p', rtc step p p' ∧ pool (loop p') = pool (loop p) ∧ phase p' = JoinHeartbeat ∧ raft_groups (srv (loop p')) = [].
Proof.
  intros [_ H2 _ _] Hph. assert (running (srv (loop p)) = false) as Hrun by (apply H2; by rewrite Hph).
  assert (∀ q, phase q = JoinSnapshot → snap q = SnapNone ∨ snap q = SnapDone →
    ∃ p', rtc step q p' ∧ pool (loop p') = pool (loop q) ∧ phase p' = JoinHeartbeat ∧ raft_groups (srv (loop p')) = []) as Hend.
  { intros q Hq Hsn. eexists. split; [by apply rtc_once, step_snapshot_joined|done]. }
  assert (∀ q, phase q = JoinSnapshot → running (srv (loop q)) = false → snap q = SnapSleeping →
    ∃ p', rtc step q p' ∧ pool (loop p') = pool (loop q) ∧ phase p' = JoinHeartbeat ∧ raft_groups (srv (loop p')) = []) as Hsleep.
  { intros q Hq Hr Hsn. destruct (Hend (set_snap SnapDone q) Hq) as (p' & H & H'); [by right|].
    exists p'. split; [|done]. eapply rtc_l; [by apply step_snapshot_ends|done]. }
  destruct (snap p) eqn:Hsn; [by apply Hend; auto|by apply Hsleep| |by apply Hend; auto].
  destruct (Hsleep (set_snap SnapSleeping (set_server (truncate_log (srv (loop p))) p))) as (p' & H & H'); [done..|].
  exists p'. split; [|done]. eapply rtc_l; [by apply step_truncate|done].
Qed.

Lemma destroy_reaches self p :
  Process_inv self p → past_run (phase p) = true → phase p = Left ∨ phase p = JoinSnapshot →
  ∃ p', rtc step p p' ∧ pool (loop p') = pool (loop p) ∧ phase p' = JoinHeartbeat ∧ raft_groups (srv (loop p')) = [].
Proof.
  intros Hi Hp [Hph|Hph]; [|by apply (destroy_joins self)].
  assert (step p (set_phase JoinSnapshot (set_server (set_running false (srv (loop p))) p))) as Hs by (by apply step_destroy).
  destruct (destroy_joins self _ (process_step _ _ _ _ _ _ _ _ _ _ Hi Hs) eq_refl) as (p' & Hr & H').
  exists p'. split; [by eapply rtc_l|done].
Qed.

(** C20: a server that has left its loop always gets out: in every reachable
    state behind [gracefulShutdown], no step of any thread adds to what is left
    to do, as long as the process has not exited some step takes from it (so no
    two threads wait for each other, and with a fair scheduler the process
    exits), and an exit is reachable with nothing of the log left in memory. *)
Theorem shutdown_terminates (uuid : Z) (addr : bytes) (port : Z) (dir : option Dir) (content : bytes) (p0 p : ServerProcess) :
  restorable dir → commands content → booted uuid addr port dir content p0 → rtc step p0 p → past_run (phase p) = true →
  (∀ p', step p p' → past_run (phase p') = true ∧ (rank p' <= rank p)%nat) ∧
  (phase p ≠ Exited → ∃ p', step p p' ∧ (rank p' < rank p)%nat) ∧
  (∃ p', rtc step p p' ∧ phase p' = Exited ∧ buffer (aof (srv (loop p'))) = []).
Proof.
  intros Hd Hc Hb Hr Hp. pose proof Hb as Hb0. apply booted_inv in Hb; [|done..].
  pose proof (process_reach _ _ _ _ _ _ _ _ _ _ Hb Hr) as Hi.
  split_and!; [intros p'; by apply (shutdown_step _ p p' Hi)|intros He; by apply (shutdown_next _ p Hi)|].
  assert (flushed p) as Hf.
  { eapply flushed_reach; [exact Hb| |exact Hr]. unfold flushed. by rewrite (booted_looping _ _ _ _ _ _ Hb0). }
  destruct (shutdown_reaches _ p Hi Hf Hp) as (p' & H1 & H2 & H3). exists p'. split_and!; [done|done|by apply H3].
Qed.

(** Nothing stops the workers before the members they work on are gone:
    from every reachable state in which the main thread has entered the
    destructor, the groups can be destroyed with every task still queued, so
    that a worker that takes one runs a handler on destroyed members. *)
Theorem process_destruction_race (uuid : Z) (addr : bytes) (port : Z) (dir : option Dir) (content : bytes) (p0 p : ServerProcess) :
  restorable dir → commands content → booted uuid addr port dir content p0 → rtc step p0 p →
  phase p = Left ∨ phase p = JoinSnapshot →
  ∃ p', rtc step p p' ∧ pool (loop p') = pool (loop p) ∧ (pool (loop p) ≠ [] → worker_fault p') ∧
    members_alive (phase p') = false ∧ raft_groups (srv (loop p')) = [].
Proof.
  intros Hd Hc Hb Hr Hph. apply booted_inv in Hb; [|done..].
  pose proof (process_reach _ _ _ _ _ _ _ _ _ _ Hb Hr) as Hi. clear Hr Hb p0.
  assert (past_run (phase p) = true) as Hp by (by destruct Hph as [->| ->]).
  destruct (destroy_reaches _ p Hi Hp Hph) as (p' & H1 & H2 & H3 & H4). exists p'. split_and!; try done.
  - intros Hn. split; [by left|by rewrite H2].
  - by rewrite H3.
Qed.
End boot.

(** ** A server alone *)

Definition solo_answers : nat → list send_answer := λ _, [].
Definition solo_dial : nat → bytes → Z → res Z := λ _ _ _, Ok 3.
Definition solo_replies : nat → list (list recv_answer) := λ _, [].

Definition solo_start : Server := (Server_start (λ _, 0) 7 (str "10.0.0.7") 7800 ∅ [] ∅).2.
Definition solo_process : ServerProcess := (Server_run_start (λ _ _ _, 0) (fresh None solo_start)).2.

Lemma ok_pair {S} (p : res unit * S) : p.1 = Ok tt → p = (Ok tt, p.2).
Proof. destruct p as [r s]. simpl. by intros ->. Qed.

Lemma solo_start_ok : Server_start (λ _, 0) 7 (str "10.0.0.7") 7800 ∅ [] ∅ = (Ok tt, solo_start).
Proof.
  assert ((Server_start (λ _, 0) 7 (str "10.0.0.7") 7800 ∅ [] ∅).1 = Ok tt) as H by (vm_compute; reflexivity).
  exact (ok_pair _ H).
Qed.

Lemma solo_process_ok : Server_run_start (λ _ _ _, 0) (fresh None solo_start) = (Ok tt, solo_process).
Proof.
  assert ((Server_run_start (λ _ _ _, 0) (fresh None solo_start)).1 = Ok tt) as H by (vm_compute; reflexivity).
  exact (ok_pair _ H).
Qed.

Lemma solo_booted : booted (λ _, 0) (λ _, 0) (λ _ _ _, 0) solo_answers solo_dial solo_replies 7 (str "10.0.0.7") 7800 None [] solo_process.
Proof. exact (boot_alone _ _ _ _ _ _ _ _ _ None _ _ _ _ solo_start_ok solo_process_ok). Qed.

#[local] Notation solo_step :=
  (pstep (λ _, 0) (λ _, 0) (λ _ _ _, 0) solo_answers solo_dial solo_replies (λ _ _, 0%nat)).

(** Asked to shut down, it leaves its loop and says goodbye to nobody. *)
Definition solo_asked : ServerProcess := set_phase Leaving (Server_requestShutdown solo_process).
Definition solo_left : ServerProcess :=
  set_phase Left (set_loop (Server_gracefulShutdown (λ _, 0) (λ _ _, 0%nat) 1 (loop solo_asked)).2 solo_asked).

Lemma solo_leaves : rtc solo_step solo_process solo_left.
Proof.
  apply rtc_l with (Server_requestShutdown solo_process).
  { apply step_signal. vm_compute. discriminate. }
  apply rtc_l with solo_asked. { apply step_loop_ends; vm_compute; reflexivity. }
  apply rtc_once.
  assert ((Server_gracefulShutdown (λ _, 0) (λ _ _, 0%nat) 1 (loop solo_asked)).1 = Ok tt) as H by (vm_compute; reflexivity).
  exact (step_leave _ _ _ _ _ _ _ solo_asked _ _ _ eq_refl (ok_pair _ H) I).
Qed.

(** The snapshot of a store with one key, which another server starts on. *)
Definition kept_kv : KVStore RespValue := (KVStore_set (str "k") (Integer 7) (KVStore_init SHARD_COUNT)).2.
Definition kept_dir : Dir := match KVStore_writetofile kept_kv None with Ok dir => dir | _ => ∅ end.

Lemma kept_restorable : restorable (Some kept_dir).
Proof.
  assert (KVStore_ok kept_kv ∧ shardCount kept_kv = SHARD_COUNT) as [Hok Hc].
  { destruct (KVStore_set_ok (KVStore_init SHARD_COUNT) (str "k") (Integer 7)) as (s' & sh & _ & Hr & Hok & _);
      [exact init_store_ok|apply (store_of_avail SHARD_COUNT (N.to_nat LRU_MAX_SIZE))|].
    split; [unfold kept_kv; by rewrite Hr|vm_compute; reflexivity]. }
  assert (snapshot_ready kept_kv) as Hready by (apply snapshot_readyb_sound; by vm_compute).
  destruct (snapshot_restores kept_kv (KVStore_init SHARD_COUNT) None) as (dir & _ & Hw & _);
    [done|done|exact init_store_ok|by rewrite Hc|].
  unfold kept_dir. rewrite Hw. by apply (restorable_snapshot kept_kv None).
Qed.

Definition kept_start : Server := (Server_start (λ _, 0) 7 (str "10.0.0.7") 7800 kept_dir [] ∅).2.
Definition kept_process : ServerProcess := (Server_run_start (λ _ _ _, 0) (fresh (Some kept_dir) kept_start)).2.

Lemma kept_booted :
  booted (λ _, 0) (λ _, 0) (λ _ _ _, 0) solo_answers solo_dial solo_replies 7 (str "10.0.0.7") 7800 (Some kept_dir) [] kept_process.
Proof.
  assert ((Server_start (λ _, 0) 7 (str "10.0.0.7") 7800 kept_dir [] ∅).1 = Ok tt) as H1 by (vm_compute; reflexivity).
  assert ((Server_run_start (λ _ _ _, 0) (fresh (Some kept_dir) kept_start)).1 = Ok tt) as H2 by (vm_compute; reflexivity).
  exact (boot_alone _ _ _ _ _ _ _ _ _ (Some kept_dir) _ _ _ _ (ok_pair _ H1) (ok_pair _ H2)).
Qed.

Definition kept_asked : ServerProcess := Server_requestShutdown kept_process.
Lemma kept_signalled : rtc solo_step kept_process kept_asked.
Proof. apply rtc_once, step_signal. vm_compute. discriminate. Qed.

(** It has its key back, and a well-formed store. *)
Lemma process_invariant_witness :
  commands [] ∧ (KVStore_get (str "k") (kvstore (srv (loop kept_asked)))).1 = Ok (Some (Integer 7)) ∧
  KVStore_ok (kvstore (srv (loop kept_asked))) ∧ ∃ kvs, insertions kvs (file (aof (srv (loop kept_asked)))).
Proof.
  pose proof (process_invariant (λ _, 0) (λ _, 0) (λ _ _ _, 0) solo_answers solo_dial solo_replies (λ _ _, 0%nat)
    7 (str "10.0.0.7") 7800 (Some kept_dir) [] kept_process kept_asked kept_restorable commands_nil kept_booted kept_signalled)
    as (Hi & _ & _ & _ & kvs & Hf & _).
  split; [exact commands_nil|]. split; [vm_compute; reflexivity|]. split; [exact (si_kv _ _ _ Hi)|]. exists kvs. exact Hf.
Defined.

Lemma shutdown_terminates_witness :
  ∃ p', rtc solo_step solo_left p' ∧ phase p' = Exited ∧ buffer (aof (srv (loop p'))) = [].
Proof.
  destruct (shutdown_terminates (λ _, 0) (λ _, 0) (λ _ _ _, 0) solo_answers solo_dial solo_replies (λ _ _, 0%nat)
    7 (str "10.0.0.7") 7800 None [] solo_process solo_left restorable_missing commands_nil solo_booted solo_leaves eq_refl) as (_ & _ & H).
  exact H.
Defined.

(** A client's request is queued when the server is asked to go. *)
Definition busy_event : event := EvClient 9 [Got (encode (request "GET" [SimpleString (str "k")])); RecvBlocked].
Definition busy_process : ServerProcess :=
  set_loop (Server_epoll_step (λ _, 0) (λ _ _ _, 0) solo_answers solo_dial solo_replies (EpollEvents [busy_event]) (loop solo_process)).2
    solo_process.
Definition busy_asked : ServerProcess := set_phase Leaving (Server_requestShutdown busy_process).
Definition busy_left : ServerProcess :=
  set_phase Left (set_loop (Server_gracefulShutdown (λ _, 0) (λ _ _, 0%nat) 1 (loop busy_asked)).2 busy_asked).

Lemma busy_leaves : rtc solo_step solo_process busy_left.
Proof.
  apply rtc_l with busy_process.
  { assert ((Server_epoll_step (λ _, 0) (λ _ _ _, 0) solo_answers solo_dial solo_replies (EpollEvents [busy_event]) (loop solo_process)).1 = Ok tt)
      as H by (vm_compute; reflexivity).
    exact (step_round _ _ _ _ _ _ _ solo_process _ _ eq_refl eq_refl (ok_pair _ H)). }
  apply rtc_l with (Server_requestShutdown busy_process).
  { apply step_signal. vm_compute. discriminate. }
  apply rtc_l with busy_asked. { apply step_loop_ends; vm_compute; reflexivity. }
  apply rtc_once.
  assert ((Server_gracefulShutdown (λ _, 0) (λ _ _, 0%nat) 1 (loop busy_asked)).1 = Ok tt) as H by (vm_compute; reflexivity).
  exact (step_leave _ _ _ _ _ _ _ busy_asked _ _ _ eq_refl (ok_pair _ H) I).
Qed.

Lemma process_destruction_race_witness : ∃ p', rtc solo_step solo_process p' ∧ worker_fault p'.
Proof.
  destruct (process_destruction_race (λ _, 0) (λ _, 0) (λ _ _ _, 0) solo_answers solo_dial solo_replies (λ _ _, 0%nat)
    7 (str "10.0.0.7") 7800 None [] solo_process busy_left restorable_missing commands_nil solo_booted busy_leaves (or_introl eq_refl)) as (p' & H1 & _ & H2 & _).
  exists p'. split; [etrans; [exact busy_leaves|exact H1]|]. apply H2. vm_compute. discriminate.
Defined.
