(* ===== verification/Figures.v ===== *)
(** * The figures of the benchmarks (client/Client.cpp, end of both benchmarks)

    Doubles are the IEEE binary64 numbers of the Standard Library's
    specification, rounding to nearest even.  A clock hands out nanoseconds. *)
From Stdlib Require Import ZArith Lia SpecFloat.
From stdpp Require Import base numbers list sorting.
From S2P Require Import Prelude.
Local Open Scope Z_scope.

#[warnings="-notation-for-abbreviation"] Notation double := spec_float.

(** [double] arithmetic and the conversion of an integer. *)
Definition d_mul : double → double → double := SFmul 53 1024.
Definition d_div : double → double → double := SFdiv 53 1024.
Definition d_add : double → double → double := SFadd 53 1024.
Definition of_int (z : Z) : double := binary_normalize 53 1024 z 0 false.

(** Conversion to an integer drops the fraction; [int] must be able to hold it. *)
Definition d_trunc (x : double) : option Z :=
  match x with
  | S754_zero _ => Some 0
  | S754_finite s m e =>
      let v := if 0 <=? e then Zpos m * 2 ^ e else Zpos m / 2 ^ (- e) in
      Some (if s then - v else v)
  | _ => None
  end.
Definition to_int (x : double) : res Z :=
  match d_trunc x with
  | Some z => if (- 2 ^ 31 <=? z) && (z <? 2 ^ 31) then Ok z else UB
  | None => UB
  end.

(** The queries per second of [benchmark], whole milliseconds apart. *)
Definition bench_qps (ops start end_ : Z) : double :=
  d_div (d_mul (of_int ops) (of_int 1000)) (of_int (Z.quot (end_ - start) 1000000)).

(** The latency in milliseconds: whole microseconds, divided as doubles. *)
Definition latency_ms (send_time recv_time : Z) : double :=
  d_div (of_int (Z.quot (recv_time - send_time) 1000)) (of_int 1000).

(** [std::sort] by [<]. *)
Fixpoint d_insert (x : double) (l : list double) : list double :=
  match l with
  | [] => [x]
  | y :: l' => if SFltb y x then y :: d_insert x l' else x :: l
  end.
Definition d_sort (l : list double) : list double := foldr d_insert [] l.

(** The [percentile] lambda: [idx] is compared as a [size_t]. *)
Definition percentile (p : double) (latencies : list double) : res double :=
  let size := Z.of_nat (length latencies) in
  idx ← to_int (d_mul (d_div p (of_int 100)) (of_int size));
  let idx := if size <=? u64 idx then i32 (size - 1) else idx in
  match latencies !! Z.to_nat idx with Some x => Ok x | None => UB end.

Record Figures := mkFigures {
  fig_min : double; fig_p50 : double; fig_p90 : double; fig_p99 : double; fig_p999 : double;
  fig_max : double; fig_avg : double
}.

(** [99.9] is the double nearest to it. *)
Definition d_99_9 : double := d_div (of_int 999) (of_int 10).

Definition latency_figures (measured : list double) : res Figures :=
  let latencies := d_sort measured in
  match latencies, last latencies with
  | min_lat :: _, Some max_lat =>
      let sum := foldl d_add (S754_zero false) latencies in
      let avg_lat := d_div sum (of_int (Z.of_nat (length latencies))) in
      p50 ← percentile (of_int 50) latencies;
      p90 ← percentile (of_int 90) latencies;
      p99 ← percentile (of_int 99) latencies;
      p999 ← percentile d_99_9 latencies;
      Ok (mkFigures min_lat p50 p90 p99 p999 max_lat avg_lat)
  | _, _ => UB
  end.

(** ** Shifting right with rounding *)

Lemma iter_pos_nat {A} (f : A → A) p x : SpecFloat.iter_pos f p x = Nat.iter (Pos.to_nat p) f x.
Proof.
  revert x. induction p as [p IH|p IH|]; intros x; cbn [SpecFloat.iter_pos]; [| |done]; rewrite !IH, <- Nat.iter_add.
  - rewrite <- Nat.iter_succ_r. f_equal. lia.
  - f_equal. lia.
Qed.

(** After [S j] steps: the quotient, the next bit and whether anything is below it. *)
Lemma shr_iter m j :
  0 <= m →
  let x := Nat.iter (S j) shr_1 (Build_shr_record m false false) in
  ∃ low, 0 <= low < 2 ^ Z.of_nat j ∧ 0 <= shr_m x ∧ shr_s x = negb (low =? 0) ∧
    m = 2 ^ Z.of_nat (S j) * shr_m x + (if shr_r x then 2 ^ Z.of_nat j else 0) + low.
Proof.
  intros Hm. assert (Hshr : ∀ q r s, 0 <= q → let y := shr_1 (Build_shr_record q r s) in
    0 <= shr_m y ∧ q = 2 * shr_m y + (if shr_r y then 1 else 0) ∧ shr_s y = r || s).
  { intros q r s Hq. destruct q as [|[q|q|]|]; simpl; split_and!; done || lia. }
  induction j as [|j IH].
  - destruct (Hshr m false false Hm) as (H1 & H2 & H3). exists 0. cbv zeta.
    change (Nat.iter 1 shr_1 ?r) with (shr_1 r). rewrite H3. change (Z.of_nat 0) with 0. change (Z.of_nat 1) with 1. split_and!; [done|done|done|done|].
    rewrite H2 at 1. destruct (shr_r _); lia.
  - destruct IH as (low & Hl & Hq & Hs & He). cbv zeta. rewrite Nat.iter_succ.
    destruct (Nat.iter (S j) shr_1 _) as [q r s] eqn:E. cbn [shr_m shr_r shr_s] in *.
    subst s. destruct (Hshr q r (negb (low =? 0)) Hq) as (H1 & H2 & H3).
    pose proof (Z.pow_pos_nonneg 2 (Z.of_nat j) ltac:(lia) ltac:(lia)).
    exists ((if r then 2 ^ Z.of_nat j else 0) + low). rewrite !Nat2Z.inj_succ, !Z.pow_succ_r in * by lia.
    set (y := shr_1 _) in *. clearbody y. split_and!; [destruct r; lia|destruct r; lia|done| |].
    + rewrite H3. destruct r; simpl; [|done]. destruct (Z.eqb_spec (2 ^ Z.of_nat j + low) 0); [lia|done].
    + rewrite He, H2. destruct (shr_r y), r; ring.
Qed.

(** Shifting [m] right by [k] places and rounding: at least the quotient, and at
    most half a unit off. *)
Lemma shr_round m e k :
  0 <= m → 0 <= k →
  let '(x, e') := shr (Build_shr_record m false false) e k in
  let r := round_nearest_even (shr_m x) (loc_of_shr_record x) in
  e' = e + k ∧ m / 2 ^ k <= r ∧ 2 * (2 ^ k * r) <= 2 * m + 2 ^ k ∧ 2 * m <= 2 * (2 ^ k * r) + 2 ^ k ∧
  (m mod 2 ^ k = 0 → r = m / 2 ^ k).
Proof.
  intros Hm Hk. destruct k as [|p|p]; [|clear Hk|lia].
  { cbn [shr shr_m loc_of_shr_record round_nearest_even]. change (2 ^ 0) with 1. rewrite Z.div_1_r. split_and!; lia. }
  unfold shr. rewrite iter_pos_nat. destruct (Pos2Nat.is_succ p) as [j Hj]. rewrite Hj.
  destruct (shr_iter m j Hm) as (low & Hl & Hq & Hs & He).
  destruct (Nat.iter (S j) shr_1 _) as [q r s]. cbn [shr_m shr_r shr_s] in *.
  assert (Zpos p = Z.succ (Z.of_nat j)) as -> by lia.
  rewrite Nat2Z.inj_succ, Z.pow_succ_r in * by lia. set (h := 2 ^ Z.of_nat j) in *.
  assert (m / (2 * h) = q ∧ m mod (2 * h) = (if r then h else 0) + low) as [-> ->].
  { apply and_comm. split; symmetry; [apply (Z.mod_unique_pos m (2 * h) q)|apply (Z.div_unique_pos m (2 * h) q ((if r then h else 0) + low))];
      destruct r; lia. }
  subst m s. destruct (Z.eqb_spec low 0) as [->|Hlow], r; cbn [loc_of_shr_record round_nearest_even negb];
    try destruct (Z.even q); split_and!; lia || nia.
Qed.

Lemma digits2_spec m : 0 < m → 0 < Zdigits2 m ∧ 2 ^ (Zdigits2 m - 1) <= m < 2 ^ Zdigits2 m.
Proof.
  intros Hm. destruct m as [|p|p]; [lia| |lia]. clear Hm. cbn [Zdigits2].
  assert (Hstep : ∀ q, 2 ^ (Zpos (Pos.succ q) - 1) = 2 * 2 ^ (Zpos q - 1) ∧ 2 ^ Zpos (Pos.succ q) = 2 * 2 ^ Zpos q).
  { intros q. rewrite Pos2Z.inj_succ, <- !Z.pow_succ_r by lia. split; f_equal; lia. }
  induction p as [p IH|p IH|]; cbn [digits2_pos]; [| |vm_compute; repeat split; discriminate].
  - destruct (Hstep (digits2_pos p)) as [-> ->]. lia.
  - destruct (Hstep (digits2_pos p)) as [-> ->]. lia.
Qed.

Lemma digits2_unique m d : 0 < d → 2 ^ (d - 1) <= m < 2 ^ d → Zdigits2 m = d.
Proof.
  intros Hd Hm. assert (0 < m) as Hpos by (pose proof (Z.pow_pos_nonneg 2 (d - 1)); lia).
  destruct (digits2_spec m Hpos) as [H1 H2].
  assert (d - 1 < Zdigits2 m) by (apply (Z.pow_lt_mono_r_iff 2); lia).
  assert (Zdigits2 m - 1 < d) by (apply (Z.pow_lt_mono_r_iff 2); lia). lia.
Qed.

Lemma fexp_53 x : -1074 <= x - 53 → fexp 53 1024 x = x - 53.
Proof. unfold fexp, emin. lia. Qed.

(** Rounding a number of at least 53 bits: the value, in units of [2 ^ e], is a
    multiple of the last place and at most half of that off. *)
Lemma round_value M e (k := Zdigits2 M - 53) :
  2 ^ 52 <= M → -1074 <= e → Zdigits2 M + e <= 1000 →
  ∃ m e' r, binary_round_aux 53 1024 false M e loc_Exact = S754_finite false m e' ∧ e <= e' ∧
    Zpos m * 2 ^ (e' - e) = 2 ^ k * r ∧ 2 ^ 52 <= Zpos m /\ M / 2 ^ k <= r ∧
    2 * (2 ^ k * r) <= 2 * M + 2 ^ k ∧ 2 * M <= 2 * (2 ^ k * r) + 2 ^ k ∧ (M mod 2 ^ k = 0 → 2 ^ k * r = M).
Proof.
  intros HM He Hbig. destruct (digits2_spec M ltac:(lia)) as [Hd Hdig].
  assert (Hk : 0 <= k).
  { enough (52 < Zdigits2 M) by lia. apply (Z.pow_lt_mono_r_iff 2); lia. }
  assert (Hpk : 2 ^ Zdigits2 M = 2 ^ k * 2 ^ 53) by (rewrite <- Z.pow_add_r by lia; f_equal; lia).
  assert (Hpk' : 2 ^ (Zdigits2 M - 1) = 2 ^ k * 2 ^ 52) by (rewrite <- Z.pow_add_r by lia; f_equal; lia).
  pose proof (Z.pow_pos_nonneg 2 k ltac:(lia) Hk) as H2k.
  unfold binary_round_aux, shr_fexp. cbn [shr_record_of_loc]. rewrite fexp_53 by lia.
  replace (Zdigits2 M + e - 53 - e) with k by lia.
  pose proof (shr_round M e k ltac:(lia) Hk) as H. destruct (shr (Build_shr_record M false false) e k) as [x e1].
  cbv zeta in H. set (r := round_nearest_even _ _) in *. clearbody r. destruct H as (-> & H1 & H2 & H3 & H4).
  assert (2 ^ 52 <= M / 2 ^ k) by (apply Z.div_le_lower_bound; lia).
  assert (r <= 2 ^ 53) by nia.
  assert (Hexact : M mod 2 ^ k = 0 → 2 ^ k * r = M).
  { intros E. rewrite (H4 E). symmetry. apply Z_div_exact_full_2; lia. }
  destruct (Z.eq_dec r (2 ^ 53)) as [Er|Er].
  - rewrite (digits2_unique r 54) by lia. rewrite fexp_53 by lia. replace (54 + (e + k) - 53 - (e + k)) with 1 by lia.
    rewrite Er. change (shr (Build_shr_record (2 ^ 53) false false) (e + k) 1)
      with (Build_shr_record (2 ^ 52) false false, e + k + 1). cbn [shr_m].
    change (2 ^ 52) with (Zpos (2 ^ 52)). cbv iota.
    destruct (Z.leb_spec (e + k + 1) (1024 - 53)); [|lia].
    exists (2 ^ 52)%positive, (e + k + 1), r. split_and!; try done; try lia.
    replace (e + k + 1 - e) with (k + 1) by lia. rewrite Z.pow_add_r, Er by lia.
    change (Zpos (2 ^ 52)) with (2 ^ 52). lia.
  - rewrite (digits2_unique r 53) by lia. rewrite fexp_53 by lia. replace (53 + (e + k) - 53 - (e + k)) with 0 by lia.
    cbn [shr shr_m]. destruct r as [|m|m] eqn:E; [lia| |lia].
    destruct (Z.leb_spec (e + k) (1024 - 53)); [|lia].
    exists m, (e + k), (Zpos m). split_and!; try done; try lia.
    replace (e + k - e) with k by lia. lia.
Qed.

(** Integers of at most 53 bits are doubles. *)
Lemma of_int_exact n (d := Zdigits2 n) :
  0 < n < 2 ^ 53 → ∃ m, of_int n = S754_finite false m (d - 53) ∧ Zpos m = n * 2 ^ (53 - d).
Proof.
  intros Hn. destruct (digits2_spec n ltac:(lia)) as [Hd Hdig]. fold d in Hd, Hdig.
  assert (d - 1 < 53) by (apply (Z.pow_lt_mono_r_iff 2); lia).
  unfold of_int, binary_normalize. destruct n as [|p|p]; [lia| |lia]. unfold binary_round.
  change (Zpos (digits2_pos p)) with d. rewrite Z.add_0_r, fexp_53 by lia.
  assert (∃ mz, shl_align p 0 (d - 53) = (mz, d - 53) ∧ Zpos mz = Zpos p * 2 ^ (53 - d)) as (mz & -> & Hmz).
  { unfold shl_align. destruct (d - 53 - 0) as [|q|q] eqn:E; [|lia|].
    - exists p. replace (53 - d) with 0 by lia. split; [f_equal; lia|lia].
    - eexists. split; [done|]. replace (53 - d) with (Zpos q) by lia. clear.
      revert p. induction q as [|q IH] using Pos.peano_ind; intros p.
      + cbn [Pos.iter]. change (2 ^ 1) with 2. lia.
      + rewrite Pos.iter_succ, Pos2Z.inj_succ, Z.pow_succ_r by lia. rewrite Pos2Z.inj_xO, IH. lia. }
  assert (Hp : 2 ^ 53 = 2 ^ d * 2 ^ (53 - d)) by (rewrite <- Z.pow_add_r by lia; f_equal; lia).
  assert (Hp' : 2 ^ 52 = 2 ^ (d - 1) * 2 ^ (53 - d)) by (rewrite <- Z.pow_add_r by lia; f_equal; lia).
  pose proof (Z.pow_pos_nonneg 2 (53 - d) ltac:(lia) ltac:(lia)).
  assert (Hmz' : 2 ^ 52 <= Zpos mz < 2 ^ 53) by (rewrite Hmz, Hp, Hp'; nia).
  assert (Hdz : Zdigits2 (Zpos mz) = 53) by (apply digits2_unique; lia).
  destruct (round_value (Zpos mz) (d - 53)) as (m & e' & r & -> & He & Hv & Hm & _ & _ & _ & Hx); [lia|lia|lia|].
  rewrite Hdz in Hv, Hx. change (2 ^ (53 - 53)) with 1 in Hv, Hx. rewrite Z.mod_1_r in Hx. specialize (Hx eq_refl).
  assert (e' = d - 53) as ->.
  { destruct (Z.eq_dec e' (d - 53)); [done|]. exfalso.
    assert (2 <= 2 ^ (e' - (d - 53))) by (change 2 with (2 ^ 1) at 1; apply Z.pow_le_mono_r; lia). nia. }
  exists m. split; [done|]. rewrite Z.sub_diag in Hv. lia.
Qed.

(** ** The index of a percentile *)

(** A fraction [c / 2^53] of [n], rounded and cut off, is [q] thousandths of [n]
    cut off, if [c] is near enough to [q] thousandths of [2^53]. *)
Lemma share_exact (c : positive) (q n : Z) :
  2 ^ 52 <= Zpos c < 2 ^ 53 → 0 <= q → q * 2 ^ 53 - 80 <= 1000 * Zpos c <= q * 2 ^ 53 + 1000 → 0 < n < 2 ^ 31 →
  d_trunc (d_mul (S754_finite false c (-53)) (of_int n)) = Some (q * n / 1000).
Proof.
  intros Hc Hq Hcq Hn. set (d := Zdigits2 n). destruct (digits2_spec n ltac:(lia)) as [Hd Hdig]. fold d in Hd, Hdig.
  assert (d - 1 < 31) by (apply (Z.pow_lt_mono_r_iff 2); lia).
  destruct (of_int_exact n ltac:(lia)) as (mn & -> & Hmn). fold d in Hmn |- *.
  set (t := 2 ^ (53 - d)) in Hmn. unfold d_mul, SFmul. cbn [xorb].
  assert (Ht : 2 ^ 53 = 2 ^ d * t) by (unfold t; rewrite <- Z.pow_add_r by lia; f_equal; lia).
  assert (Ht' : 2 ^ 52 = 2 ^ (d - 1) * t) by (unfold t; rewrite <- Z.pow_add_r by lia; f_equal; lia).
  assert (Hpt : 0 < t) by (by apply Z.pow_pos_nonneg; lia).
  set (M := Zpos (c * mn)). assert (HM : M = Zpos c * n * t) by (unfold M; rewrite Pos2Z.inj_mul, Hmn; ring).
  assert (Hmn' : 2 ^ 52 <= Zpos mn < 2 ^ 53) by nia.
  assert (HMr : 2 ^ 104 <= M < 2 ^ 106) by (unfold M; rewrite Pos2Z.inj_mul; nia).
  destruct (digits2_spec M ltac:(lia)) as [HdM HdigM].
  assert (104 < Zdigits2 M) by (apply (Z.pow_lt_mono_r_iff 2); lia).
  assert (Zdigits2 M - 1 < 106) by (apply (Z.pow_lt_mono_r_iff 2); lia).
  destruct (round_value M (-53 + (d - 53))) as (m & e' & r & -> & He & Hv & Hm & Hr & Hup & Hdown & _); [lia|lia|lia|].
  set (k := Zdigits2 M - 53) in *. assert (Hk : 52 <= k <= 53) by lia.
  set (N := q * n / 1000). pose proof (Z.div_mod (q * n) 1000) as HN. pose proof (Z.mod_pos_bound (q * n) 1000) as HN'.
  fold N in HN.
  (* the value lies between N and N + 1 *)
  assert (Hunit : 2 ^ (106 - d) = 2 ^ 53 * t) by (unfold t; rewrite <- Z.pow_add_r by lia; f_equal; lia).
  assert (H2k : 2 ^ k <= 2 * 2 ^ 52) by (change (2 * 2 ^ 52) with (2 ^ 53); apply Z.pow_le_mono_r; lia).
  assert (H2k' : 2 ^ 52 <= 2 ^ k) by (apply Z.pow_le_mono_r; lia).
  assert (∃ j, 2 ^ 53 * t = 2 ^ k * j) as [j Hj].
  { exists (2 ^ (53 - k + (53 - d))). unfold t. rewrite <- !Z.pow_add_r by lia. f_equal. lia. }
  set (X := Zpos c * n) in *. set (P := 2 ^ k) in *.
  assert (Hnt : 2 ^ 52 <= n * t < 2 ^ 53) by (rewrite Ht, Ht'; split; [apply Z.mul_le_mono_nonneg_r|apply Z.mul_lt_mono_pos_r]; lia).
  assert (HX : 2 ^ 53 * (q * n) - 80 * n <= 1000 * X <= 2 ^ 53 * (q * n) + 1000 * n).
  { unfold X. replace (2 ^ 53 * (q * n) - 80 * n) with ((q * 2 ^ 53 - 80) * n) by ring.
    replace (2 ^ 53 * (q * n) + 1000 * n) with ((q * 2 ^ 53 + 1000) * n) by ring. rewrite Z.mul_assoc.
    split; apply Z.mul_le_mono_nonneg_r; lia. }
  clearbody X P N. clear Hcq Hc.
  assert (Hhi : P * r < (N + 1) * (2 ^ 53 * t)).
  { enough (2 * M + P < 2 * ((N + 1) * (2 ^ 53 * t))) by lia.
    assert (X + n < (N + 1) * 2 ^ 53) by lia.
    assert ((X + n) * t < (N + 1) * 2 ^ 53 * t) by (by apply Z.mul_lt_mono_pos_r). lia. }
  assert (Hlo : N * (2 ^ 53 * t) <= P * r).
  { assert (Hgap : (N * 2 ^ 53 - X) * t < 2 ^ 50).
    { destruct (Z.lt_ge_cases (N * 2 ^ 53 - X) 0); [pose proof (Z.mul_neg_pos (N * 2 ^ 53 - X) t); lia|].
      assert (1000 * (N * 2 ^ 53 - X) <= 80 * n) by lia.
      assert (1000 * (N * 2 ^ 53 - X) * t <= 80 * n * t) by (apply Z.mul_le_mono_nonneg_r; lia). lia. }
    rewrite Hj in *. set (A := N * j) in *. replace (N * (P * j)) with (P * A) in * by (unfold A; ring).
    apply Z.mul_le_mono_nonneg_l; [lia|]. enough (A < r + 1) by lia.
    apply (Z.mul_lt_mono_pos_l P); lia. }
  (* so it is cut off to N *)
  rewrite <- Hv, <- Hunit in Hhi, Hlo. cbn [d_trunc]. f_equal.
  destruct (Z.leb_spec 0 e').
  - assert (E : 2 ^ (e' - (-53 + (d - 53))) = 2 ^ e' * 2 ^ (106 - d)) by (rewrite <- Z.pow_add_r by lia; f_equal; lia).
    rewrite E, Z.mul_assoc in Hhi, Hlo. assert (0 < 2 ^ (106 - d)) by (apply Z.pow_pos_nonneg; lia).
    apply Z.mul_le_mono_pos_r in Hlo; [|done]. apply Z.mul_lt_mono_pos_r in Hhi; [|done]. lia.
  - set (w := 2 ^ (e' - (-53 + (d - 53)))) in *. assert (0 < w) by (by apply Z.pow_pos_nonneg; lia).
    assert (E : 2 ^ (106 - d) = 2 ^ (- e') * w) by (unfold w; rewrite <- Z.pow_add_r by lia; f_equal; lia).
    rewrite E, Z.mul_assoc in Hhi, Hlo. assert (0 < 2 ^ (- e')) by (apply Z.pow_pos_nonneg; lia).
    apply Z.mul_le_mono_pos_r in Hlo; [|done]. apply Z.mul_lt_mono_pos_r in Hhi; [|done].
    symmetry. apply (Z.div_unique_pos _ _ _ (Zpos m - N * 2 ^ (- e'))); lia.
Qed.

(** ** No latency is NaN *)

Lemma shr_nonneg x e n : 0 <= shr_m x → 0 <= shr_m (shr x e n).1.
Proof.
  intros Hx. destruct n as [|p|p]; [done| |done]. unfold shr. cbn [fst]. rewrite iter_pos_nat.
  induction (Pos.to_nat p) as [|k IH]; [done|]. rewrite Nat.iter_succ.
  destruct (Nat.iter k shr_1 x) as [[|[q|q|]|q] r s]; simpl in *; lia.
Qed.

Lemma rounded_not_nan s m e l : 0 <= m → binary_round_aux 53 1024 s m e l ≠ S754_nan.
Proof.
  intros Hm. unfold binary_round_aux, shr_fexp.
  pose proof (shr_nonneg (shr_record_of_loc m l) e (fexp 53 1024 (Zdigits2 m + e) - e)) as H1.
  destruct (shr (shr_record_of_loc m l) e _) as [x e1]. cbn [fst] in H1.
  set (r := round_nearest_even _ _).
  assert (Hr : 0 <= r).
  { assert (0 <= shr_m x) by (apply H1; by destruct l as [|[]]). unfold r, round_nearest_even.
    repeat case_match; lia. }
  pose proof (shr_nonneg (shr_record_of_loc r loc_Exact) e1 (fexp 53 1024 (Zdigits2 r + e1) - e1) Hr) as H2.
  destruct (shr (shr_record_of_loc r loc_Exact) e1 _) as [y e2]. cbn [fst] in H2.
  destruct (shr_m y); [done| |lia]. by destruct (_ <=? _).
Qed.

Lemma of_int_not_nan z : of_int z ≠ S754_nan.
Proof.
  unfold of_int, binary_normalize. destruct z as [|p|p]; [done|..];
    unfold binary_round; destruct (shl_align _ _ _); by apply rounded_not_nan.
Qed.

Lemma latency_not_nan send_time recv_time : latency_ms send_time recv_time ≠ S754_nan.
Proof.
  unfold latency_ms. destruct (of_int_exact 1000) as (m & -> & _); [lia|].
  pose proof (of_int_not_nan (Z.quot (recv_time - send_time) 1000)) as Hx.
  unfold d_div, SFdiv. destruct (of_int _) as [| | |s mx ex]; try done.
  unfold SFdiv_core_binary. set (m' := match _ with Z0 => _ | Zpos _ => _ | Zneg _ => _ end).
  assert (0 <= m') by (unfold m'; repeat case_match; try done; by apply Z.shiftl_nonneg).
  destruct (Z.div_eucl m' (Zpos m)) as [q r] eqn:E. apply rounded_not_nan.
  assert (q = m' / Zpos m) as -> by (unfold Z.div; by rewrite E). by apply Z.div_pos.
Qed.

(** ** Sorting *)

(** Doubles other than NaN are ordered by sign, exponent and mantissa. *)
Definition d_key (x : double) : Z * Z * Z :=
  match x with
  | S754_nan | S754_zero _ => (0, 0, 0)
  | S754_infinity s => (if s then -2 else 2, 0, 0)
  | S754_finite s m e => if s then (-1, - e, Zneg m) else (1, e, Zpos m)
  end.
Definition key_lt (a b : Z * Z * Z) : Prop :=
  a.1.1 < b.1.1 ∨ a.1.1 = b.1.1 ∧ (a.1.2 < b.1.2 ∨ a.1.2 = b.1.2 ∧ a.2 < b.2).

Definition d_le (x y : double) : Prop := SFleb x y = true.

Lemma d_order x y :
  x ≠ S754_nan → y ≠ S754_nan →
  (SFltb x y = true ↔ key_lt (d_key x) (d_key y)) ∧ (d_le x y ↔ ¬ key_lt (d_key y) (d_key x)).
Proof.
  intros Hx Hy. unfold d_le, SFltb, SFleb, key_lt.
  destruct x as [sx|sx| |sx mx ex], y as [sy|sy| |sy my ey]; try done;
    destruct sx; try destruct sy; cbn [SFcompare d_key fst snd]; try (split; split; intros; try done; lia).
  all: change (PosDef.Pos.compare_cont Eq mx my) with (Pos.compare mx my).
  all: destruct (Z.compare_spec ex ey), (Pos.compare_spec mx my); cbn [CompOpp]; split; split; intros; try done; lia.
Qed.

Notation numbers := (Forall (λ x : double, x ≠ S754_nan)).

Lemma d_le_refl x : x ≠ S754_nan → d_le x x.
Proof. intros Hx. apply d_order; [done..|]. unfold key_lt. lia. Qed.
Lemma d_le_trans x y z : x ≠ S754_nan → y ≠ S754_nan → z ≠ S754_nan → d_le x y → d_le y z → d_le x z.
Proof.
  intros Hx Hy Hz. rewrite (proj2 (d_order x y Hx Hy)), (proj2 (d_order y z Hy Hz)), (proj2 (d_order x z Hx Hz)).
  unfold key_lt. lia.
Qed.
(** The comparison that [std::sort] is given. *)
Lemma d_lt_le x y : x ≠ S754_nan → y ≠ S754_nan → SFltb x y = true ↔ ¬ d_le y x.
Proof.
  intros Hx Hy. rewrite (proj1 (d_order x y Hx Hy)), (proj2 (d_order y x Hy Hx)).
  unfold key_lt. lia.
Qed.

Lemma d_insert_perm x l : d_insert x l ≡ₚ x :: l.
Proof.
  induction l as [|y l IH]; [done|]. simpl. destruct (SFltb y x); [|done]. rewrite IH. constructor.
Qed.
Lemma d_sort_perm l : d_sort l ≡ₚ l.
Proof. induction l as [|x l IH]; [done|]. simpl. rewrite d_insert_perm. by rewrite IH. Qed.

Lemma d_insert_sorted x l :
  x ≠ S754_nan → numbers l → StronglySorted d_le l → StronglySorted d_le (d_insert x l).
Proof.
  intros Hx Hl Hs. induction Hs as [|y l Hs IH Hy]; [repeat constructor|]. simpl.
  apply Forall_cons in Hl as [Hny Hl]. destruct (SFltb y x) eqn:E.
  - constructor; [by apply IH|]. rewrite d_insert_perm. constructor; [|done].
    apply d_lt_le in E; [|done..]. apply d_order; [done..|]. rewrite (proj2 (d_order x y Hx Hny)) in E.
    unfold key_lt in *. lia.
  - assert (Hxy : d_le x y).
    { destruct (SFleb x y) eqn:E1; [done|]. exfalso.
      assert (SFltb y x = true); [|congruence]. apply d_lt_le; [done..|]. unfold d_le. by rewrite E1. }
    constructor; [by constructor|]. constructor; [done|].
    rewrite Forall_forall in *. intros z Hz. apply (d_le_trans x y z); auto.
Qed.

Lemma d_sort_sorted l : numbers l → StronglySorted d_le (d_sort l).
Proof.
  induction 1 as [|x l Hx Hl IH]; [constructor|]. simpl. apply d_insert_sorted; [done| |done]. by rewrite d_sort_perm.
Qed.

(** ** Counting *)

(** How many of [l] are at most [x], and how many below it. *)
Definition at_most (x : double) (l : list double) : nat := length (filter (λ y, SFleb y x = true) l).
Definition below (x : double) (l : list double) : nat := length (filter (λ y, SFltb y x = true) l).

Lemma sorted_rank l i x :
  numbers l → StronglySorted d_le l → l !! i = Some x → (below x l <= i)%nat ∧ (i < at_most x l)%nat.
Proof.
  revert i. induction l as [|y l IH]; intros i Hn Hs Hi; [done|].
  apply Forall_cons in Hn as [Hy Hn]. apply StronglySorted_inv in Hs as [Hs Hle]. rewrite Forall_forall in Hle, Hn.
  unfold below, at_most. rewrite !filter_cons. destruct i as [|i].
  - injection Hi as ->. rewrite (decide_True (P := SFleb x x = true)) by (by apply d_le_refl).
    rewrite decide_False by (intros E; apply d_lt_le in E; [|done..]; by destruct (E (d_le_refl x Hy))).
    assert (filter (λ y : double, SFltb y x = true) l = []) as ->; [|simpl; lia].
    apply elem_of_nil_inv. intros z Hz. apply list_elem_of_filter in Hz as [Hlt Hz].
    apply d_lt_le in Hlt; [|by apply Hn|done]. by apply Hlt, Hle.
  - assert (Hx : x ∈ l) by (by eapply list_elem_of_lookup_2). destruct (IH i) as [H1 H2]; [by apply Forall_forall|done|done|].
    unfold below, at_most in H1, H2. split.
    + case_decide; simpl; lia.
    + rewrite decide_True by (by apply Hle). simpl. lia.
Qed.

#[global] Instance at_most_perm x : Proper ((≡ₚ) ==> (=)) (at_most x).
Proof. intros l l' E. unfold at_most. by rewrite E. Qed.
#[global] Instance below_perm x : Proper ((≡ₚ) ==> (=)) (below x).
Proof. intros l l' E. unfold below. by rewrite E. Qed.

(** ** The percentiles *)

Lemma percentile_run p c q l :
  d_div p (of_int 100) = S754_finite false c (-53) → 2 ^ 52 <= Zpos c < 2 ^ 53 →
  q * 2 ^ 53 - 80 <= 1000 * Zpos c <= q * 2 ^ 53 + 1000 → 0 <= q < 1000 → 0 < Z.of_nat (length l) < 2 ^ 31 →
  ∃ x i, percentile p l = Ok x ∧ l !! i = Some x ∧ Z.of_nat i = q * Z.of_nat (length l) / 1000.
Proof.
  intros Hp Hc Hcq Hq Hn. set (n := Z.of_nat (length l)) in *. unfold percentile. fold n.
  assert (Hi : 0 <= q * n / 1000 < n).
  { split; [apply Z.div_pos; nia|apply Z.div_lt_upper_bound; nia]. }
  rewrite Hp. unfold to_int. rewrite (share_exact c q n) by (done || lia).
  set (i := q * n / 1000) in *. destruct (Z.leb_spec (- 2 ^ 31) i); [|lia]. destruct (Z.ltb_spec i (2 ^ 31)); [|lia].
  cbn [andb mbind res_bind]. unfold u64. rewrite Z.mod_small by lia. destruct (Z.leb_spec n i); [lia|].
  destruct (lookup_lt_is_Some_2 l (Z.to_nat i)) as [x Hx]; [lia|]. rewrite Hx. exists x, (Z.to_nat i). split_and!; [done|done|lia].
Qed.

(** [x] is the percentile of [q] thousandths of [l]: it was measured, at most
    that share of [l] is below it and more than that share is not above it. *)
Definition is_percentile (l : list double) (q : Z) (x : double) : Prop :=
  x ∈ l ∧ Z.of_nat (below x l) <= q * Z.of_nat (length l) / 1000 < Z.of_nat (at_most x l).

Lemma sorted_percentile l s i x q :
  numbers l → s ≡ₚ l → StronglySorted d_le s → s !! i = Some x → Z.of_nat i = q * Z.of_nat (length s) / 1000 →
  is_percentile l q x.
Proof.
  intros Hl Hp Hs Hi Hq. destruct (sorted_rank s i x) as [H1 H2]; [by rewrite Hp|done|done|].
  unfold is_percentile. rewrite Hp in Hq, H1, H2. split; [|lia]. rewrite <- Hp. by eapply list_elem_of_lookup_2.
Qed.

Lemma sorted_le s i j x y :
  numbers s → StronglySorted d_le s → s !! i = Some x → s !! j = Some y → (i <= j)%nat → d_le x y.
Proof.
  intros Hn Hs. revert i j. induction Hs as [|z s _ IH Hz]; intros i j Hi Hj Hij; [done|].
  apply Forall_cons in Hn as [Hnz Hn]. destruct i as [|i], j as [|j]; simpl in *; [|  |lia|].
  - simplify_eq. by apply d_le_refl.
  - simplify_eq. rewrite Forall_forall in Hz. apply Hz. by eapply list_elem_of_lookup_2.
  - apply (IH Hn i j); done || lia.
Qed.

(** The figures of any measurements that an [int] can count. *)
Lemma figures_run (times : list (Z * Z)) (l := map (λ t, latency_ms t.1 t.2) times) :
  0 < Z.of_nat (length times) < 2 ^ 31 →
  ∃ f, latency_figures l = Ok f ∧
    is_percentile l 500 (fig_p50 f) ∧ is_percentile l 900 (fig_p90 f) ∧
    is_percentile l 990 (fig_p99 f) ∧ is_percentile l 999 (fig_p999 f) ∧
    (∀ x, x ∈ l → d_le (fig_min f) x ∧ d_le x (fig_max f)) ∧ fig_min f ∈ l ∧ fig_max f ∈ l ∧
    d_le (fig_min f) (fig_p50 f) ∧ d_le (fig_p50 f) (fig_p90 f) ∧ d_le (fig_p90 f) (fig_p99 f) ∧
    d_le (fig_p99 f) (fig_p999 f) ∧ d_le (fig_p999 f) (fig_max f).
Proof.
  intros Hlen. assert (Hl : numbers l).
  { apply Forall_forall. intros x Hx. apply list_elem_of_fmap in Hx as (t & -> & _). apply latency_not_nan. }
  pose proof (d_sort_perm l) as Hp. pose proof (d_sort_sorted l Hl) as Hs. set (s := d_sort l) in *.
  assert (Hn : numbers s) by (by rewrite Hp).
  assert (Hls : length s = length times) by (rewrite Hp; apply length_map).
  rewrite <- Hls in Hlen. set (n := Z.of_nat (length s)) in *.
  destruct (percentile_run (of_int 50) 4503599627370496 500 s) as (x50 & i50 & E50 & L50 & I50); [by vm_compute|lia..|].
  destruct (percentile_run (of_int 90) 8106479329266893 900 s) as (x90 & i90 & E90 & L90 & I90); [by vm_compute|lia..|].
  destruct (percentile_run (of_int 99) 8917127262193582 990 s) as (x99 & i99 & E99 & L99 & I99); [by vm_compute|lia..|].
  destruct (percentile_run d_99_9 8998192055486252 999 s) as (x999 & i999 & E999 & L999 & I999); [by vm_compute|lia..|].
  destruct (lookup_lt_is_Some_2 s 0) as [x0 L0]; [lia|].
  destruct (lookup_lt_is_Some_2 s (pred (length s))) as [x1 L1]; [lia|].
  fold n in I50, I90, I99, I999.
  assert (Hord : (i50 <= i90 <= i99)%nat ∧ (i99 <= i999 <= pred (length s))%nat).
  { pose proof (lookup_lt_Some _ _ _ L999). assert (500 * n / 1000 <= 900 * n / 1000 <= 990 * n / 1000) by (split; apply Z.div_le_mono; lia).
    assert (990 * n / 1000 <= 999 * n / 1000) by (apply Z.div_le_mono; lia). lia. }
  exists (mkFigures x0 x50 x90 x99 x999 x1 (d_div (foldl d_add (S754_zero false) s) (of_int n))). split.
  - unfold latency_figures. cbv zeta. fold s. rewrite E50, E90, E99, E999.
    destruct s as [|y s'] eqn:Es; [done|]. injection L0 as ->. rewrite last_lookup, L1. cbn [mbind res_bind]. reflexivity.
  - cbn [fig_min fig_p50 fig_p90 fig_p99 fig_p999 fig_max].
    pose proof (sorted_percentile l s) as Hperc. pose proof (sorted_le s) as Hle.
    split_and!; [by eapply Hperc..| | | | | | | |].
    + intros x Hx. rewrite <- Hp in Hx. apply list_elem_of_lookup in Hx as [i Hi].
      pose proof (lookup_lt_Some _ _ _ Hi). split; [apply (Hle 0%nat i _ _ Hn Hs L0 Hi); lia|apply (Hle i _ _ _ Hn Hs Hi L1); lia].
    + rewrite <- Hp. by eapply list_elem_of_lookup_2.
    + rewrite <- Hp. by eapply list_elem_of_lookup_2.
    + apply (Hle _ _ _ _ Hn Hs L0 L50); lia.
    + apply (Hle _ _ _ _ Hn Hs L50 L90); lia.
    + apply (Hle _ _ _ _ Hn Hs L90 L99); lia.
    + apply (Hle _ _ _ _ Hn Hs L99 L999); lia.
    + apply (Hle _ _ _ _ Hn Hs L999 L1); lia.
Qed.

(** C40: what the latency benchmark prints is what it says: for any number of
    measurements that an [int] can count, the conversions of the [percentile]
    lambda are defined and the rounding of its products never shifts the index,
    so each printed percentile was measured, at most its share of the latencies
    is below it and more than its share is not above it; minimum and maximum
    bound every latency, and the figures are in order. *)
Theorem latency_percentiles (times : list (Z * Z)) (l := map (λ t, latency_ms t.1 t.2) times) :
  0 < Z.of_nat (length times) < 2 ^ 31 →
  ∃ f, latency_figures l = Ok f ∧
    is_percentile l 500 (fig_p50 f) ∧ is_percentile l 900 (fig_p90 f) ∧
    is_percentile l 990 (fig_p99 f) ∧ is_percentile l 999 (fig_p999 f) ∧
    (∀ x, x ∈ l → d_le (fig_min f) x ∧ d_le x (fig_max f)) ∧ fig_min f ∈ l ∧ fig_max f ∈ l ∧
    d_le (fig_min f) (fig_p50 f) ∧ d_le (fig_p50 f) (fig_p90 f) ∧ d_le (fig_p90 f) (fig_p99 f) ∧
    d_le (fig_p99 f) (fig_p999 f) ∧ d_le (fig_p999 f) (fig_max f).
Proof. exact (figures_run times). Qed.

(** Ten requests of one to ten milliseconds. *)
Definition ten_times : list (Z * Z) := map (λ i, (0, 1000000 * Z.of_nat i)) (reverse (seq 1 10)).

Lemma latency_percentiles_witness :
  ∃ f, latency_figures (map (λ t, latency_ms t.1 t.2) ten_times) = Ok f ∧
    fig_p50 f = of_int 6 ∧ fig_p90 f = of_int 10 ∧ d_le (fig_p50 f) (fig_p90 f).
Proof.
  destruct (latency_percentiles ten_times) as (f & Hf & _ & _ & _ & _ & _ & _ & _ & _ & H & _); [vm_compute; by split|].
  exists f. split; [exact Hf|]. vm_compute in Hf. injection Hf as <-. split; [reflexivity|]. split; [reflexivity|]. exact H.
Defined.
