(* ===== verification/Client.v ===== *)
(** * The client (client/Client.h, client/Client.cpp)

    The client's state and the answers of the world: [ksend i] to the [i]-th
    send, [krecv i] to the [i]-th call of [Client::recv], [kwait i] to the calls
    of [::recv] of the [i]-th loop that waits for replies, [dial i] to the [i]-th
    connection, [pick i n] the [i]-th draw below [n], [rnd i] the [i]-th number
    of the benchmark generator, [clock i] the [i]-th reading of the clock in
    nanoseconds.  [fuel] bounds the ring walk of
    [Cluster::queryReplicas].  [sent_to] and [printed] record what was sent to
    each socket and printed (prompts apart). *)
From Stdlib Require Import ZArith Ascii String Lia.
From stdpp Require Import base numbers list strings gmap.
From S2P Require Import Prelude CppStd RespValue RespParser StringTable HashTable LRU KVStore Snapshot AOF Socket Ring Cluster.
From S2P Require Import Utils RaftNode Server Handler Membership Recovery EventLoop Lifecycle Gossip Join Figures.
Local Open Scope Z_scope.

Record Client := mkClient {
  ccluster : Cluster;
  csocks : list (Z * RespParser);
  last_sent_fd : Z;
  groups_ : Groups;
  sent_to : list (Z * bytes);
  printed : list bytes;
  csends : nat;
  crecvs : nat;
  cwaits : nat;
  cdials : nat;
  cpicks : nat;
  crnds : nat
}.

Definition set_ccluster x c := mkClient x (csocks c) (last_sent_fd c) (groups_ c) (sent_to c) (printed c)
  (csends c) (crecvs c) (cwaits c) (cdials c) (cpicks c) (crnds c).
Definition set_csocks x c := mkClient (ccluster c) x (last_sent_fd c) (groups_ c) (sent_to c) (printed c)
  (csends c) (crecvs c) (cwaits c) (cdials c) (cpicks c) (crnds c).
Definition set_last_sent_fd x c := mkClient (ccluster c) (csocks c) x (groups_ c) (sent_to c) (printed c)
  (csends c) (crecvs c) (cwaits c) (cdials c) (cpicks c) (crnds c).
Definition set_groups x c := mkClient (ccluster c) (csocks c) (last_sent_fd c) x (sent_to c) (printed c)
  (csends c) (crecvs c) (cwaits c) (cdials c) (cpicks c) (crnds c).
Definition set_sent_to x c := mkClient (ccluster c) (csocks c) (last_sent_fd c) (groups_ c) x (printed c)
  (csends c) (crecvs c) (cwaits c) (cdials c) (cpicks c) (crnds c).
Definition set_printed x c := mkClient (ccluster c) (csocks c) (last_sent_fd c) (groups_ c) (sent_to c) x
  (csends c) (crecvs c) (cwaits c) (cdials c) (cpicks c) (crnds c).
(** The indices of the next answers. *)
Definition next_send c := mkClient (ccluster c) (csocks c) (last_sent_fd c) (groups_ c) (sent_to c) (printed c)
  (S (csends c)) (crecvs c) (cwaits c) (cdials c) (cpicks c) (crnds c).
Definition next_recv c := mkClient (ccluster c) (csocks c) (last_sent_fd c) (groups_ c) (sent_to c) (printed c)
  (csends c) (S (crecvs c)) (cwaits c) (cdials c) (cpicks c) (crnds c).
Definition next_wait c := mkClient (ccluster c) (csocks c) (last_sent_fd c) (groups_ c) (sent_to c) (printed c)
  (csends c) (crecvs c) (S (cwaits c)) (cdials c) (cpicks c) (crnds c).
Definition next_dial c := mkClient (ccluster c) (csocks c) (last_sent_fd c) (groups_ c) (sent_to c) (printed c)
  (csends c) (crecvs c) (cwaits c) (S (cdials c)) (cpicks c) (crnds c).
Definition next_pick c := mkClient (ccluster c) (csocks c) (last_sent_fd c) (groups_ c) (sent_to c) (printed c)
  (csends c) (crecvs c) (cwaits c) (cdials c) (S (cpicks c)) (crnds c).
Definition next_rnd c := mkClient (ccluster c) (csocks c) (last_sent_fd c) (groups_ c) (sent_to c) (printed c)
  (csends c) (crecvs c) (cwaits c) (cdials c) (cpicks c) (S (crnds c)).

(** ** Commands *)

Definition HELP_TEXT : bytes := str "Commands:" ++ [LF] ++
  str "    SET key value        Set a key-value pair" ++ [LF] ++
  str "    GET key              Get value by key" ++ [LF] ++
  str "    DEL key              Delete a key" ++ [LF] ++
  str "    EXIST key           Check if key exists" ++ [LF] ++
  str "    HELP                 Show this message" ++ [LF] ++
  str "    EXIT                 Disconnect and exit" ++ [LF; LF] ++
  str "Examples:" ++ [LF] ++ str "    SET mykey hello" ++ [LF] ++ str "    GET mykey" ++ [LF] ++
  str "    DEL mykey" ++ [LF] ++ str "    EXIST mykey".

(** A request of simple strings. *)
Definition simple_request (words : list bytes) : RespValue := Array (Some (map SimpleString words)).

(** [reqv[0]] of an empty vector is undefined. *)
Definition Client_handle (req : bytes) : res RespValue :=
  let reqv := tokens req in
  match reqv with
  | [] => UB
  | cmd :: args =>
      if is_cmd cmd "GET" then
        Ok (match args with [_] => simple_request reqv | _ => Error (str "Usage: GET key") end)
      else if is_cmd cmd "SET" then
        Ok (match args with
            | [key; value] => Array (Some [SimpleString cmd; SimpleString key; BulkString (Some value)])
            | _ => Error (str "Usage: SET key value")
            end)
      else if is_cmd cmd "DEL" then
        Ok (match args with [_] => simple_request reqv | _ => Error (str "Usage: DEL key") end)
      else if is_cmd cmd "EXIST" then
        Ok (match args with [_] => simple_request reqv | _ => Error (str "Usage: EXIST key") end)
      else if is_cmd cmd "HELP" then Ok (Error HELP_TEXT)
      else if is_cmd cmd "EXIT" then Ok (Error (str "GoodBye."))
      else if is_cmd cmd "GETNETWORK" then Ok (simple_request [cmd])
      else Ok (Error (str "Unknown command. Type HELP for assistance."))
  end.

Definition extractKeyFromRequest (req : RespValue) : res bytes :=
  match req with
  | Array (Some (_ :: key :: _)) =>
      match key with SimpleString k => Ok k | _ => Throw (RuntimeError "Key is not a SimpleString") end
  | _ => Ok []
  end.

Definition isReadCommand (cmd : bytes) : bool := is_cmd cmd "GET" || is_cmd cmd "EXIST".
Definition isWriteCommand (cmd : bytes) : bool := is_cmd cmd "SET" || is_cmd cmd "DEL".

(** The word of the first element; other elements are dereferenced as null. *)
Definition command_word (req : RespValue) : res bytes :=
  match req with Array (Some (SimpleString c :: _)) => Ok c | _ => UB end.

(** [resp.rfind("-MOVED", 0) == 0] *)
Definition isMovedResponse (resp : bytes) : bool := bool_decide (take 6 resp = str "-MOVED").

Section Client.
Context (ksend : nat → list send_answer) (krecv : nat → recv_answer) (kwait : nat → list recv_answer)
  (dial : nat → bytes → Z → res Z) (pick : nat → nat → nat) (rnd : nat → Z) (fuel : nat) (clock : nat → Z).

Definition print (s : bytes) : M Client unit := mmodify (λ c, set_printed (printed c ++ [s]) c).

(** ** Routing *)

(** The first group that [master] leads. *)
Fixpoint group_of (master : Z) (gs : Groups) : option (list Z) :=
  match gs with
  | [] => None
  | (_, members) :: gs' =>
      match members with
      | m0 :: _ => if m0 =? master then Some members else group_of master gs'
      | [] => group_of master gs'
      end
  end.

Definition getReplicasForKey (key : bytes) (c : Client) : res (list Z) :=
  master ← Cluster_queryNode key (ccluster c);
  match group_of master (groups_ c) with
  | Some members => Ok members
  | None => Cluster_queryReplicas fuel key 2 (ccluster c)
  end.

Definition routeRead (key : bytes) : M Client Z :=
  c ← mget;
  replicas ← mlift (getReplicasForKey key c);
  _ ← mput (next_pick c);
  match replicas with
  | [] => mlift (Cluster_randomNode (pick (cpicks c) (length (topo (ccluster c)))) (ccluster c))
  | _ => match replicas !! pick (cpicks c) (length replicas) with Some u => mret u | None => mub end
  end.

Definition routeWrite (key : bytes) : M Client Z := c ← mget; mlift (Cluster_queryNode key (ccluster c)).

Definition routeTarget (cmd key : bytes) : M Client Z :=
  if isReadCommand cmd then routeRead key else routeWrite key.

Definition getSocket (fd : Z) : M Client RespParser :=
  c ← mget;
  match map_find fd (csocks c) with
  | Some p => mret p
  | None => mthrow (RuntimeError "Socket not found for fd: ")
  end.

(** ** Sending and receiving *)

(** The send loop; what it sent before an exception is not kept.
    [SendBlocked] stands for EAGAIN and EWOULDBLOCK. *)
Fixpoint client_send_loop (ks : list send_answer) (data sent : bytes) : res bytes :=
  match data with
  | [] => Ok sent
  | _ =>
      match ks with
      | [] => OutOfFuel
      | Sent n :: ks' => client_send_loop ks' (drop n data) (sent ++ take n data)
      | SendClosed :: _ => Throw (RuntimeError "Connection closed")
      | SendIntr :: ks' => client_send_loop ks' data sent
      | SendBlocked :: _ => Ok sent
      | SendError :: _ => Throw (RuntimeError "Send error: ")
      end
  end.

Definition Client_send (request key : bytes) (is_read : bool) : M Client unit :=
  target_uuid ← (if is_read then routeRead key else routeWrite key);
  c ← mget;
  let target_fd := Cluster_getConnection target_uuid (ccluster c) in
  if target_fd =? -1 then mthrow (RuntimeError "Failed to get connection for node UUID: ")
  else
    _ ← mmodify (set_last_sent_fd target_fd);
    _ ← getSocket target_fd;
    c ← mget;
    _ ← mput (next_send c);
    taken ← mlift (client_send_loop (ksend (csends c)) request []);
    mmodify (λ c, set_sent_to (sent_to c ++ [(target_fd, taken)]) c).

Definition Client_recv (target_fd : Z) : M Client bytes :=
  if target_fd =? -1 then mthrow (RuntimeError "Invalid target fd")
  else
    _ ← getSocket target_fd;
    c ← mget;
    _ ← mput (next_recv c);
    match krecv (crecvs c) with
    | Got b => mret b
    | RecvClosed => mthrow (RuntimeError "Connection closed")
    | RecvBlocked => mret []
    | RecvError _ => mthrow (RuntimeError "Recv error: ")
    end.

(** ** Topology *)

(** [GETNETWORK] on socket [fd]: every failure of [::send] throws. *)
Fixpoint network_send_loop (ks : list send_answer) (data : bytes) : res unit :=
  match data with
  | [] => Ok tt
  | _ =>
      match ks with
      | [] => OutOfFuel
      | Sent n :: ks' => network_send_loop ks' (drop n data)
      | _ => Throw (RuntimeError "Failed to send GETNETWORK")
      end
  end.

(** [while (!parser.hasResult()) parser.append(recv)]. *)
Fixpoint network_wait (ks : list recv_answer) (parser : RespParser) : res RespParser :=
  if RespParser_hasResult parser then Ok parser
  else match ks with
       | [] => OutOfFuel
       | Got b :: ks' => p ← RespParser_append b parser; network_wait ks' p
       | _ => Throw (RuntimeError "Failed to recv GETNETWORK")
       end.

(** Ask [fd], whose parser is [parser], for the topology. *)
Definition ask_network (fd : Z) (parser : RespParser) : M Client (list CNode * RespParser) :=
  c ← mget;
  _ ← mput (next_wait (next_send c));
  _ ← mlift (network_send_loop (ksend (csends c)) network_command);
  _ ← mmodify (λ c, set_sent_to (sent_to c ++ [(fd, network_command)]) c);
  p ← mlift (network_wait (kwait (cwaits c)) parser);
  let '(reply, p') := RespParser_getResult p in
  value ← mlift (match reply with Some v => Ok v | None => Throw (RuntimeError "bad optional access") end);
  c ← mget;
  r ← mlift (Utils_getTopoV2 value (groups_ c));
  _ ← mmodify (set_groups r.2);
  mret (r.1, p').

Definition load_node (node : CNode) : M Client unit :=
  mmodify (λ c, set_ccluster (Cluster_addNodeToHash (UUID node) (Cluster_addTopoNode node (ccluster c))) c).

Definition connected_line (node : CNode) : bytes :=
  str "Connected to " ++ ip node ++ str ":" ++ to_string (port node) ++ str " (UUID: " ++ to_string (UUID node) ++ str ")".

(** Open a connection to [node]. *)
Definition connect_node (node : CNode) : M Client unit :=
  c ← mget;
  _ ← mput (next_dial c);
  fd ← mlift (dial (cdials c) (ip node) (port node));
  _ ← mmodify (λ c, set_csocks (map_assign fd RespParser_init (csocks c))
                      (set_ccluster (Cluster_addConnection (UUID node) fd (ccluster c)) c));
  print (connected_line node).

(** The constructor's second loop; [fd] is the descriptor of [sock], [-1] once
    it was moved. *)
Fixpoint connect_all (ip_ : bytes) (port_ fd : Z) (nodes : list CNode) : M Client unit :=
  match nodes with
  | [] => mret tt
  | node :: nodes' =>
      if bool_decide (ip node = ip_) && (port node =? port_) then
        _ ← mmodify (λ c, set_csocks (map_assign fd RespParser_init (csocks c))
                            (set_ccluster (Cluster_addConnection (UUID node) fd (ccluster c)) c));
        connect_all ip_ port_ (-1) nodes'
      else _ ← connect_node node; connect_all ip_ port_ fd nodes'
  end.

Definition groups_line (gs : Groups) : bytes :=
  str "Group info loaded: " ++ to_string (Z.of_nat (length gs)) ++ str " groups.".

Definition Client_init (uuid : Z) (ip_ : bytes) (port_ : Z) : res unit * Client :=
  (c ← mget;
   _ ← mput (next_dial c);
   fd ← mlift (dial (cdials c) ip_ port_);
   _ ← print (str "Connected to " ++ ip_ ++ str ":" ++ to_string port_);
   r ← ask_network fd RespParser_init;
   _ ← mfor r.1 load_node;
   _ ← connect_all ip_ port_ fd r.1;
   c ← mget;
   match groups_ c with [] => mret tt | gs => print (groups_line gs) end)
  (mkClient (Cluster_client_init uuid) [] (-1) [] [] [] 0 0 0 0 0 0).

(** A node of the refreshed topology without an open socket is connected. *)
Definition refresh_node (node : CNode) : M Client unit :=
  c ← mget;
  if existsb (λ e, Cluster_getConnection (UUID node) (ccluster c) =? e.1) (csocks c)
  then mret tt else connect_node node.

Definition Client_refreshTopology : M Client unit :=
  c ← mget;
  match csocks c with
  | [] => mret tt
  | (any_fd, _) :: _ =>
      r ← ask_network any_fd (RespParser_reset RespParser_init);
      _ ← mmodify (λ c, set_csocks (map_assign any_fd r.2 (csocks c)) c);
      _ ← mfor r.1 load_node;
      _ ← mfor r.1 refresh_node;
      print (str "Topology refreshed.")
  end.

(** ** The interactive loop *)

(** Send a request and print its reply, after one retry if it was redirected. *)
Definition Client_request (req : RespValue) : M Client bool :=
  key ← mlift (extractKeyFromRequest req);
  cmd ← mlift (command_word req);
  let is_read := isReadCommand cmd in
  let encoded := encode req in
  _ ← Client_send encoded key is_read;
  c ← mget;
  resp ← Client_recv (last_sent_fd c);
  if isMovedResponse resp then
    _ ← print (resp ++ str " (retrying...)");
    _ ← Client_refreshTopology;
    _ ← Client_send encoded key is_read;
    c ← mget;
    resp ← Client_recv (last_sent_fd c);
    _ ← print resp; mret false
  else _ ← print resp; mret false.

(** One line; [true] ends the loop. *)
Definition Client_command (input : bytes) : M Client bool :=
  req ← mlift (Client_handle input);
  match req with
  | Error e => _ ← print e; mret (bool_decide (e = str "GoodBye."))
  | _ => Client_request req
  end.

Definition Client_line (input : bytes) : M Client bool :=
  match input with [] => mret false | _ => Client_command input end.

Fixpoint Client_run (lines : list bytes) : M Client unit :=
  match lines with
  | [] => mret tt
  | input :: lines' =>
      quit ← Client_line input;
      if quit : bool then mret tt else Client_run lines'
  end.

(** ** Benchmarks *)

(** [rnd() % 100000] *)
Definition draw : M Client Z := c ← mget; _ ← mput (next_rnd c); mret (rnd (crnds c) mod 100000).

Definition set_op : M Client (bytes * bool) :=
  k ← draw; v ← draw; mret (str "SET key" ++ to_string k ++ str " value" ++ to_string v, false).
Definition get_op : M Client (bytes * bool) := k ← draw; mret (str "GET key" ++ to_string k, true).

(** The operation of round [i], and whether it reads.  (The order of the two
    draws of a [SET] is not specified.) *)
Definition bench_op (op_type : bytes) (i : nat) : M Client (bytes * bool) :=
  if is_cmd op_type "set" then set_op
  else if is_cmd op_type "get" then get_op
  else if (i mod 2 =? 0)%nat then get_op else set_op.

(** Count [remaining] replies down on one socket; any failure ends the loop. *)
Fixpoint take_replies (ks : list recv_answer) (remaining : Z) (parser : RespParser) : res RespParser :=
  if remaining <=? 0 then Ok parser
  else match ks with
       | [] => OutOfFuel
       | Got b :: ks' =>
           p ← RespParser_append b parser;
           let '(vs, p') := drain p in
           take_replies ks' (remaining - Z.of_nat (length vs)) p'
       | _ => Ok parser
       end.

(** Send a batch, then wait for as many replies on the socket of [uuid]. *)
Definition bench_flush (uuid : Z) (batch : list (bytes * bytes)) (is_read : bool) : M Client unit :=
  _ ← mfor batch (λ e, Client_send e.1 e.2 is_read);
  c ← mget;
  let target_fd := Cluster_getConnection uuid (ccluster c) in
  parser ← getSocket target_fd;
  _ ← mput (next_wait c);
  p ← mlift (take_replies (kwait (cwaits c)) (Z.of_nat (length batch)) parser);
  mmodify (λ c, set_csocks (map_assign target_fd p (csocks c)) c).

Definition batch_size : nat := 5000.

(** One round of the loop of [benchmark]: [pending] by node. *)
Definition bench_round (op_type : bytes) (i : nat) (pending : list (Z * list (bytes * bytes)))
    : M Client (list (Z * list (bytes * bytes))) :=
  op ← bench_op op_type i;
  let '(req, is_read) := op in
  request ← mlift (Client_handle req);
  key ← mlift (extractKeyFromRequest request);
  target_uuid ← (if is_read : bool then routeRead key else routeWrite key);
  let batch := default [] (map_find target_uuid pending) ++ [(encode request, key)] in
  if (batch_size <=? length batch)%nat then
    _ ← bench_flush target_uuid batch is_read; mret (map_assign target_uuid [] pending)
  else mret (map_assign target_uuid batch pending).

Fixpoint bench_rounds (op_type : bytes) (is_ : list nat) (pending : list (Z * list (bytes * bytes)))
    : M Client (list (Z * list (bytes * bytes))) :=
  match is_ with
  | [] => mret pending
  | i :: is' => pending' ← bench_round op_type i pending; bench_rounds op_type is' pending'
  end.

(** The rest of every batch is sent as writes.  The clock is read before the
    first round and behind the last; the result is what is printed. *)
Definition Client_benchmark (ops : Z) (op_type : bytes) : M Client double :=
  _ ← print (str "Start benchmark...");
  pending ← bench_rounds op_type (seq 0 (Z.to_nat ops)) [];
  _ ← mfor pending (λ e, bench_flush e.1 e.2 false);
  mret (bench_qps ops (clock 0%nat) (clock 1%nat)).

(** The wait of [latencyBenchmark]: a failure ends it without a reply. *)
Fixpoint latency_wait (ks : list recv_answer) (parser : RespParser) : res RespParser :=
  if RespParser_hasResult parser then Ok parser
  else match ks with
       | [] => OutOfFuel
       | Got b :: ks' => p ← RespParser_append b parser; latency_wait ks' p
       | _ => Ok parser
       end.

(** [(i + 1) % (ops / 10)]: dividing by zero is undefined. *)
Definition latency_progress (ops : Z) (i : nat) : res bool :=
  let step := Z.quot ops 10 in
  if step =? 0 then UB else Ok ((Z.rem (Z.of_nat i + 1) step =? 0) || (i =? 0)%nat).

(** Round [i] reads the clock before it sends and behind the wait. *)
Definition round_latency (i : nat) : double := latency_ms (clock (2 * i)%nat) (clock (S (2 * i))).

Definition latency_round (ops : Z) (op_type : bytes) (i : nat) : M Client double :=
  op ← bench_op op_type i;
  let '(req, is_read) := op in
  request ← mlift (Client_handle req);
  key ← mlift (extractKeyFromRequest request);
  _ ← Client_send (encode request) key is_read;
  c ← mget;
  parser ← getSocket (last_sent_fd c);
  _ ← mput (next_wait c);
  p ← mlift (latency_wait (kwait (cwaits c)) (RespParser_reset parser));
  _ ← mmodify (λ c, set_csocks (map_assign (last_sent_fd c) (RespParser_pop p) (csocks c)) c);
  report ← mlift (latency_progress ops i);
  _ ← (if report : bool
       then print (str "Progress: " ++ to_string (Z.of_nat i + 1) ++ str "/" ++ to_string ops) else mret tt);
  mret (round_latency i).

Fixpoint latency_rounds (ops : Z) (op_type : bytes) (is_ : list nat) : M Client (list double) :=
  match is_ with
  | [] => mret []
  | i :: is' =>
      x ← latency_round ops op_type i;
      xs ← latency_rounds ops op_type is';
      mret (x :: xs)
  end.

Definition latency_line (ops : Z) : bytes :=
  str "Starting latency benchmark (" ++ to_string ops ++ str " operations)...".

(** [reserve] of a negative number throws. *)
Definition Client_latencyBenchmark (ops : Z) (op_type : bytes) : M Client Figures :=
  _ ← print (latency_line ops);
  if ops <? 0 then mthrow LengthError
  else
    latencies ← latency_rounds ops op_type (seq 0 (Z.to_nat ops));
    mlift (latency_figures latencies).
End Client.

(** ** Requests *)

Lemma tokens_aux_words cur s :
  Forall (λ c, is_space c = false) cur → Forall is_word (tokens_aux cur s).
Proof.
  revert cur. induction s as [|c s IH]; intros cur Hc; simpl.
  - destruct cur; repeat constructor; done || by inversion Hc.
  - destruct (is_space c) eqn:E.
    + destruct cur as [|d cur]; [by apply IH|]. constructor; [by split|by apply IH].
    + apply IH, Forall_app. split; [done|]. by repeat constructor.
Qed.
Lemma tokens_words s : Forall is_word (tokens s).
Proof. by apply tokens_aux_words. Qed.

Lemma tokens_aux_length cur s w : w ∈ tokens_aux cur s → (length w <= length cur + length s)%nat.
Proof.
  revert cur. induction s as [|c s IH]; intros cur; simpl.
  - destruct cur; [by intros ?%elem_of_nil|]. intros ->%list_elem_of_singleton. simpl. lia.
  - destruct (is_space c).
    + destruct cur as [|d cur]; [intros H%IH; simpl in *; lia|].
      intros [->|H%IH]%elem_of_cons; simpl in *; lia.
    + intros H%IH. rewrite length_app in H. simpl in H. lia.
Qed.

Lemma word_no_CR w : is_word w → no_CR w = true.
Proof.
  intros [_ H]. unfold no_CR. apply forallb_forall. intros c Hc. rewrite <- list_elem_of_In in Hc.
  rewrite Forall_forall in H. specialize (H c Hc). apply negb_true_iff, Ascii.eqb_neq. intros ->. done.
Qed.

Lemma is_cmd_eq c s : is_cmd c s = true → c = str s.
Proof. apply bool_decide_eq_true. Qed.

(** The requests of the command line, with the key they are routed by. *)
Inductive client_request : RespValue → bytes → Prop :=
  | cr_get key : client_request (request "GET" [SimpleString key]) key
  | cr_set key value : client_request (request "SET" [SimpleString key; BulkString (Some value)]) key
  | cr_del key : client_request (request "DEL" [SimpleString key]) key
  | cr_exist key : client_request (request "EXIST" [SimpleString key]) key
  | cr_network : client_request (request "GETNETWORK" []) [].

Lemma handle_outcome input :
  match Client_handle input with
  | Ok (Error _) => tokens input ≠ []
  | Ok v => resp_ok v = true ∨ string_fits (Z.of_nat (length input)) = false
  | UB => tokens input = []
  | _ => False
  end ∧ ∀ v, Client_handle input = Ok v → (∃ e, v = Error e) ∨ ∃ key, client_request v key.
Proof.
  unfold Client_handle. pose proof (tokens_words input) as Hw.
  assert (Hlen : ∀ w, w ∈ tokens input → (length w <= length input)%nat) by (intros w; apply (tokens_aux_length [])).
  destruct (tokens input) as [|cmd args]; [split; [done|by intros v H]|].
  apply Forall_cons in Hw as [Hcmd Hargs].
  repeat match goal with |- context [if is_cmd cmd ?s then _ else _] => destruct (is_cmd cmd s) eqn:?E end;
    try (split; [done|intros v [= <-]; eauto; fail]).
  all: repeat match goal with H : is_cmd _ _ = false |- _ => clear H end.
  all: match goal with H : is_cmd _ _ = true |- _ => apply is_cmd_eq in H; subst cmd end.
  all: destruct args as [|a [|b [|? ?]]]; try (split; [done|intros v [= <-]; eauto; fail]).
  all: repeat match goal with H : Forall _ (_ :: _) |- _ => apply Forall_cons in H as [? H] end.
  all: split; [|intros v [= <-]; right; eexists; constructor].
  all: cbn [resp_ok simple_request map forallb length]; rewrite ?word_no_CR by done.
  all: lazymatch goal with
    | |- context [string_fits (Z.of_nat (length ?b)) && _] =>
        destruct (string_fits (Z.of_nat (length b))) eqn:Hb; [left; vm_compute; reflexivity|right];
        apply not_true_is_false; intros Hf; rewrite (string_fits_le (Z.of_nat (length b)) (Z.of_nat (length input))) in Hb by
          (exact Hf || (pose proof (Hlen b ltac:(set_solver)); lia)); discriminate
    | |- _ => left; vm_compute; reflexivity
    end.
Qed.

(** C34: what the command line turns into a request the server can read: for any
    input line, the line is undefined exactly when it is blank ([reqv[0]] of an
    empty vector), otherwise it is a message for the user or one of the five
    requests, with its key in place, whose encoding parses back to it. *)
Theorem client_requests_wellformed (input : bytes) :
  string_fits (Z.of_nat (length input)) = true →
  (Client_handle input = UB ↔ tokens input = []) ∧
  (tokens input ≠ [] → ∃ v, Client_handle input = Ok v ∧
     ((∃ e, v = Error e) ∨
      ∃ key, client_request v key ∧ extractKeyFromRequest v = Ok key ∧ resp_ok v = true ∧
        RespParser_append (encode v) RespParser_init = Ok (mkRespParser WaitType RespState_default [] [v]))).
Proof.
  intros Hlen. destruct (handle_outcome input) as [H1 H2]. split.
  - split; [intros H; by rewrite H in H1|]. unfold Client_handle. by intros ->.
  - intros Hne. destruct (Client_handle input) as [v|e| |] eqn:E; try done.
    exists v. split; [done|]. destruct (H2 v eq_refl) as [He|[key Hk]]; [by left|right].
    assert (Hok : resp_ok v = true) by (destruct Hk; destruct H1; done || congruence).
    exists key. split_and!; [done|by destruct Hk|done|by apply append_encode_one].
Qed.

(** ** A line, from the prompt to the reply *)

Section line.
Context (ksend : nat → list send_answer) (krecv : nat → recv_answer) (kwait : nat → list recv_answer)
  (dial : nat → bytes → Z → res Z) (pick : nat → nat → nat) (fuel : nat).

Lemma Client_handle_SET key value :
  is_word key → is_word value →
  Client_handle (str "SET " ++ key ++ str " " ++ value) =
    Ok (request "SET" [SimpleString key; BulkString (Some value)]).
Proof.
  intros Hk Hv. unfold Client_handle. rewrite tokens_set.
  assert (Ht : ∀ w, is_word w → tokens w = [w]).
  { intros w [Hne Hw]. unfold tokens.
    enough (∀ cur, tokens_aux cur w = match cur ++ w with [] => [] | u => [u] end) as ->.
    { by destruct w. }
    clear Hne. induction Hw as [|c w Hc _ IH]; intros cur; simpl.
    - rewrite app_nil_r. by destruct cur.
    - rewrite Hc, IH, <- (assoc_L app). done. }
  rewrite (Ht key Hk), (Ht value Hv). reflexivity.
Qed.

Lemma Client_send_write req key owner fd c :
  Cluster_queryNode key (ccluster c) = Ok owner → Cluster_getConnection owner (ccluster c) = fd → fd ≠ -1 →
  is_Some (map_find fd (csocks c)) → client_send_loop (ksend (csends c)) req [] = Ok req →
  ∃ c', Client_send ksend pick fuel req key false c = (Ok tt, c') ∧ sent_to c' = sent_to c ++ [(fd, req)] ∧
    last_sent_fd c' = fd ∧ csocks c' = csocks c ∧ crecvs c' = crecvs c ∧ printed c' = printed c ∧
    ccluster c' = ccluster c ∧ csends c' = S (csends c) ∧ cwaits c' = cwaits c.
Proof.
  intros Hq Hc Hfd [p Hp] Hs. eexists. split.
  - unfold Client_send, routeWrite. erewrite M_bind_Ok.
    2:{ erewrite M_bind_Ok by done. rewrite Hq. reflexivity. }
    erewrite M_bind_Ok by done. rewrite Hc. destruct (Z.eqb_spec fd (-1)); [done|].
    erewrite M_bind_Ok by done. erewrite M_bind_Ok.
    2:{ unfold getSocket. erewrite M_bind_Ok by done. cbn [csocks set_last_sent_fd]. rewrite Hp. reflexivity. }
    erewrite M_bind_Ok by done. erewrite M_bind_Ok by done. cbn [csends set_last_sent_fd].
    erewrite (lift_Ok _ _ _ _ Hs). reflexivity.
  - done.
Qed.

Lemma Client_recv_got fd b c :
  fd ≠ -1 → is_Some (map_find fd (csocks c)) → krecv (crecvs c) = Got b →
  Client_recv krecv fd c = (Ok b, next_recv c).
Proof.
  intros Hfd [p Hp] Hr. unfold Client_recv. destruct (Z.eqb_spec fd (-1)); [done|].
  erewrite M_bind_Ok. 2:{ unfold getSocket. erewrite M_bind_Ok by done. rewrite Hp. reflexivity. }
  erewrite M_bind_Ok by done. erewrite M_bind_Ok by done. by rewrite Hr.
Qed.

(** A [SET] typed at the client takes effect at the right node: if client
    and node have the same ring and the node is the key's owner on it, the
    client sends exactly one request, to the connection of that node; the node
    reads that request out of the bytes, does not redirect it, stores the value
    under the key and answers [+OK], which the client prints. *)
Theorem client_set_end_to_end (steady wall : nat → Z) (rand : nat → Z → nat → Z)
    (key value : bytes) (fd sfd : Z) (c : Client) (s : Server) :
  let req := request "SET" [SimpleString key; BulkString (Some value)] in
  let owner := UUID (self_node (cluster s)) in
  is_word key → is_word value → string_fits (Z.of_nat (length value)) = true →
  node_hash (ccluster c) = node_hash (cluster s) → Cluster_queryNode key (ccluster c) = Ok owner →
  Server_ok s → syncing s = false → kv_avail (kvstore s) key →
  Cluster_getConnection owner (ccluster c) = fd → fd ≠ -1 → is_Some (map_find fd (csocks c)) →
  client_send_loop (ksend (csends c)) (encode req) [] = Ok (encode req) → krecv (crecvs c) = Got OK →
  ∃ c' s', Client_line ksend krecv kwait dial pick fuel (str "SET " ++ key ++ str " " ++ value) c = (Ok false, c') ∧
    sent_to c' = sent_to c ++ [(fd, encode req)] ∧ printed c' = printed c ++ [OK] ∧
    RespParser_append (encode req) RespParser_init = Ok (mkRespParser WaitType RespState_default [] [req]) ∧
    Handler_handle steady wall rand req sfd s = (Ok OK, s') ∧
    kv_map (kvstore s') = <[key := BulkString (Some value)]> (kv_map (kvstore s)).
Proof.
  intros req owner Hk Hv Hlen Hring Hq [Hkv Hcl Hraft] Hsync Hav Hc Hfd Hs Hsend Hrecv.
  destruct (KVStore_set_ok (kvstore s) key (BulkString (Some value)) Hkv Hav) as (k & sh & _ & Hset & _ & Hmap).
  assert (Hm : Cluster_isMasterFor key (cluster s) = Ok true).
  { unfold Cluster_isMasterFor, Cluster_queryNode in *. rewrite <- Hring, Hq. cbn [mbind res_bind].
    by rewrite Z.eqb_refl. }
  destruct (SET_run steady wall rand key (BulkString (Some value)) sfd s _ k Hraft Hsync Hm eq_refl Hset)
    as (s' & Hr & Hk' & _).
  destruct (Client_send_write (encode req) key owner fd c Hq Hc Hfd Hs Hsend)
    as (c1 & Hr1 & Hsent & Hlast & Hsocks & Hrecvs & Hprint & _).
  exists (set_printed (printed c1 ++ [OK]) (next_recv c1)), s'. split_and!.
  - change (Client_line ksend krecv kwait dial pick fuel (str "SET " ++ key ++ str " " ++ value) c)
      with (Client_command ksend krecv kwait dial pick fuel (str "SET " ++ key ++ str " " ++ value) c).
    unfold Client_command. erewrite (lift_Ok _ _ _ _ (Client_handle_SET key value Hk Hv)).
    enough (Client_request ksend krecv kwait dial pick fuel req c =
      (Ok false, set_printed (printed c1 ++ [OK]) (next_recv c1))) as He by exact He.
    unfold Client_request. rewrite (lift_Ok (extractKeyFromRequest req) key) by done.
    rewrite (lift_Ok (command_word req) (str "SET")) by done. cbv zeta.
    change (isReadCommand (str "SET")) with false. cbn match. rewrite (M_bind_Ok _ _ _ _ _ Hr1).
    erewrite M_bind_Ok by done. rewrite Hlast.
    rewrite (M_bind_Ok _ _ c1 OK (next_recv c1)) by (apply Client_recv_got; [done|by rewrite Hsocks|by rewrite Hrecvs]).
    reflexivity.
  - exact Hsent.
  - simpl. by rewrite Hprint.
  - apply append_encode_one. unfold req, request. cbn [resp_ok forallb length request].
    rewrite (word_no_CR key Hk), Hlen. by vm_compute.
  - exact Hr.
  - by rewrite Hk'.
Qed.
End line.

(** ** Starting: the client learns what a server knows *)

Section start.
Context (ksend : nat → list send_answer) (krecv : nat → recv_answer) (kwait : nat → list recv_answer)
  (dial : nat → bytes → Z → res Z) (pick : nat → nat → nat) (fuel : nat).

(** A reply arrives whole, however it is cut. *)
Lemma network_wait_cut v bs :
  resp_ok v = true → concat bs = encode v →
  network_wait (map Got bs) RespParser_init = Ok (mkRespParser WaitType RespState_default [] [v]).
Proof.
  intros Hv. assert (∀ s p, RespParser_append s RespParser_init = Ok p → message_queue p = [] → encode v = s ++ concat bs →
    network_wait (map Got bs) p = Ok (mkRespParser WaitType RespState_default [] [v])) as H.
  2:{ intros He. by apply (H []). }
  induction bs as [|b bs IH]; intros s p Hp Hq He; cbn [concat] in He.
  - rewrite app_nil_r in He. rewrite <- He, append_encode_one in Hp by done. by injection Hp as <-.
  - cbn [map network_wait]. unfold RespParser_hasResult at 1. rewrite Hq. rewrite (assoc_L app) in He.
    pose proof (RespParser_append_app s b RespParser_init) as Ha. rewrite Hp in Ha. cbn [mbind res_bind] in Ha.
    destruct (decide (concat bs = [])) as [E|E].
    + rewrite E, app_nil_r in He. rewrite <- He, append_encode_one in Ha by done. rewrite <- Ha. cbn [mbind res_bind].
      by destruct bs.
    + destruct (append_cut v _ _ Hv He E) as (p1 & H1 & H2). rewrite H1 in Ha. rewrite <- Ha. cbn [mbind res_bind].
      by apply (IH (s ++ b)).
Qed.

Lemma ask_network_run fd p0 (t : list (Z * CNode)) gm bs c :
  network_ok t gm → concat bs = Handler_GETNETWORK t gm → p0 = RespParser_init →
  network_send_loop (ksend (csends c)) network_command = Ok tt → kwait (cwaits c) = map Got bs →
  ask_network ksend kwait fd p0 c = (Ok (map snd t, RespParser_init),
    set_groups (foldl (λ g e, map_assign e.1 (trimmed e.2) g) (groups_ c) gm)
      (set_sent_to (sent_to c ++ [(fd, network_command)]) (next_wait (next_send c)))).
Proof.
  intros Hok Hbs -> Hs Hw. unfold ask_network. erewrite M_bind_Ok by done. erewrite M_bind_Ok by done.
  rewrite (lift_Ok _ _ _ _ Hs). erewrite M_bind_Ok by done. rewrite Hw.
  assert (Hc : concat bs = encode (network_value t gm)) by (by rewrite Hbs, GETNETWORK_eq).
  rewrite (lift_Ok _ _ _ _ (network_wait_cut _ _ (network_value_ok t gm Hok) Hc)).
  change (RespParser_getResult _) with (Some (network_value t gm), RespParser_init). cbn match.
  erewrite (lift_Ok _ (network_value t gm)) by done. erewrite M_bind_Ok by done.
  cbn [groups_ set_sent_to next_wait next_send]. by rewrite (lift_Ok _ _ _ _ (getTopoV2_merge t gm _ Hok)).
Qed.

Definition load_all (ns : list CNode) (c : Cluster) : Cluster :=
  foldl (λ c n, Cluster_addNodeToHash (UUID n) (Cluster_addTopoNode n c)) c ns.

Lemma load_run ns c : mfor ns load_node c = (Ok tt, set_ccluster (load_all ns (ccluster c)) c).
Proof. revert c. induction ns as [|n ns IH]; intros c; [by destruct c|]. cbn [mfor]. erewrite M_bind_Ok by done. by rewrite IH. Qed.

Lemma load_all_spec ns c :
  topo (load_all ns c) = foldl (λ m n, map_assign (UUID n) n m) (topo c) ns ∧
  node_hash (load_all ns c) = foldl (λ r v, ring_addNodeToHash v r) (node_hash c) (map UUID ns) ∧
  connections (load_all ns c) = connections c.
Proof.
  revert c. induction ns as [|n ns IH]; intros c; [done|]. cbn [map foldl].
  exact (IH (Cluster_addNodeToHash (UUID n) (Cluster_addTopoNode n c))).
Qed.

(** On an empty cluster state, nodes under their own identifiers in order. *)
Lemma load_all_fields (t : list (Z * CNode)) u :
  map_sorted t → Forall (λ e, e.1 = UUID e.2) t →
  let c := load_all (map snd t) (Cluster_client_init u) in
  topo c = t ∧ node_hash c = ring_of (reverse (map fst t)) ∧ connections c = [].
Proof.
  intros Hs Hk c. destruct (load_all_spec (map snd t) (Cluster_client_init u)) as (Ht & Hr & Hcn). subst c. rewrite Ht, Hr, Hcn, topo_keys by done.
  split_and!; [| |done].
  - transitivity (map (λ e : Z * CNode, (e.1, id e.2)) t).
    2:{ clear. induction t as [|[k n] t IH]; [done|]. cbn [map]. by rewrite IH. }
    pose proof (foldl_assign_sorted_map (id : CNode → CNode) t [] Hs) as E. cbn [app] in E.
    rewrite <- E by (by intros e e' He%elem_of_nil).
    cbn [topo Cluster_client_init]. clear -Hk. generalize ([] : list (Z * CNode)) as m.
    induction Hk as [|e t He _ IH]; intros m; [done|]. cbn [map foldl]. by rewrite IH, He.
  - cbn [node_hash Cluster_client_init]. pose proof (add_all_ring (map fst t) []) as E. rewrite app_nil_r in E. exact E.
Qed.
(** ** Its connections *)

(** The rest of the client stays as it is while connections are opened. *)
Definition same_rest (c d : Client) : Prop :=
  node_hash (ccluster d) = node_hash (ccluster c) ∧ topo (ccluster d) = topo (ccluster c) ∧ groups_ d = groups_ c ∧
  sent_to d = sent_to c ∧ csends d = csends c ∧ crecvs d = crecvs c ∧
  (∀ f, is_Some (map_find f (csocks c)) → is_Some (map_find f (csocks d))).

Definition at_address (ip_ : bytes) (port_ : Z) (n : CNode) : bool := bool_decide (ip n = ip_) && (port n =? port_).

(** [u]'s connection in [d] is open: [fd] or a dialled one. *)
Definition connected (d : Client) (u fd : Z) : Prop :=
  Cluster_getConnection u (ccluster d) = fd ∧ is_Some (map_find fd (csocks d)).

Lemma add_connected u fd c :
  let d := set_csocks (map_assign fd RespParser_init (csocks c)) (set_ccluster (Cluster_addConnection u fd (ccluster c)) c) in
  same_rest c d ∧ connected d u fd ∧
  ∀ v, v ≠ u → Cluster_getConnection v (ccluster d) = Cluster_getConnection v (ccluster c).
Proof.
  cbv zeta. split; [|split].
  - split_and!; try done. intros f Hf. cbn [csocks set_csocks]. rewrite map_find_assign. by destruct (f =? fd).
  - split; [unfold Cluster_getConnection; cbn; by rewrite map_find_assign_eq|].
    cbn [csocks set_csocks]. rewrite map_find_assign_eq. by eexists.
  - intros v Hv. unfold Cluster_getConnection. cbn [ccluster set_csocks set_ccluster Cluster_addConnection connections set_connections set_fd_to_uuid].
    by rewrite map_find_assign_ne.
Qed.

(** Keeping to one socket: the connection to the address that was dialled first
    is the first one, the other nodes get one of their own. *)
Lemma connect_all_run (fds : nat → Z) ip_ port_ fd ns c :
  (∀ i a p, dial i a p = Ok (fds i)) → NoDup (map UUID ns) → NoDup (map (λ n, (ip n, port n)) ns) →
  ∃ d, connect_all dial ip_ port_ fd ns c = (Ok tt, d) ∧ same_rest c d ∧
    (∀ v, v ∉ map UUID ns → Cluster_getConnection v (ccluster d) = Cluster_getConnection v (ccluster c)) ∧
    (∀ n, n ∈ ns → ∃ f, connected d (UUID n) f ∧
       if at_address ip_ port_ n then f = fd else ∃ i, (cdials c <= i)%nat ∧ f = fds i) ∧
    printed d = printed c ++ map connected_line (filter (λ n, at_address ip_ port_ n = false) ns).
Proof.
  intros Hd. revert fd c. induction ns as [|n ns IH]; intros fd c Hu Ha.
  { exists c. split_and!; try done; [by intros n ?%elem_of_nil|by rewrite app_nil_r]. }
  apply NoDup_cons in Hu as [Hn Hu]. apply NoDup_cons in Ha as [Hn' Ha].
  set (own := at_address ip_ port_ n). set (f := if own then fd else fds (cdials c)).
  set (c0 := if own then c else next_dial c).
  destruct (add_connected (UUID n) f c0) as (S1 & C1 & K1). cbv zeta in S1, C1, K1.
  set (c1' := set_csocks _ _) in S1, C1, K1.
  set (c1 := if own then c1' else set_printed (printed c1' ++ [connected_line n]) c1').
  destruct (IH (if own then -1 else fd) c1 Hu Ha) as (d & Hr & S2 & K2 & C2 & P2).
  assert (S1' : same_rest c0 c1) by (unfold c1; by destruct own).
  assert (C1' : connected c1 (UUID n) f) by (unfold c1; by destruct own).
  assert (K1' : ∀ v, v ≠ UUID n → Cluster_getConnection v (ccluster c1) = Cluster_getConnection v (ccluster c0))
    by (unfold c1; by destruct own).
  clear S1 C1 K1. rename S1' into S1, C1' into C1, K1' into K1.
  assert (Hc0 : same_rest c c0 ∧ (cdials c <= cdials c0)%nat ∧ ccluster c0 = ccluster c).
  { unfold c0. destruct own; cbn; split_and!; done || lia. }
  exists d. split_and!.
  - cbn [connect_all]. fold (at_address ip_ port_ n). fold own. destruct own eqn:Eo.
    + erewrite M_bind_Ok by done. exact Hr.
    + unfold connect_node. erewrite M_bind_Ok; [exact Hr|]. erewrite M_bind_Ok by done. erewrite M_bind_Ok by done.
      by erewrite (lift_Ok _ _ _ _ (Hd _ _ _)).
  - destruct Hc0 as (S0 & _). destruct S0 as (? & ? & ? & ? & ? & ? & E0), S1 as (? & ? & ? & ? & ? & ? & E1),
      S2 as (? & ? & ? & ? & ? & ? & E2). unfold same_rest. split_and!; try congruence. intros g Hg. by apply E2, E1, E0.
  - intros v Hv. cbn [map] in Hv. apply not_elem_of_cons in Hv as [Hv1 Hv2]. rewrite (K2 v Hv2), (K1 v Hv1).
    by destruct Hc0 as (_ & _ & ->).
  - intros m [->|Hm]%elem_of_cons.
    + exists f. split.
      * split; [rewrite (K2 _ Hn); apply C1|]. apply S2, C1.
      * fold own. unfold f. destruct own; [done|]. exists (cdials c). split; [lia|done].
    + destruct (C2 m Hm) as (g & Hg & Hcase). exists g. split; [done|].
      destruct (at_address ip_ port_ m) eqn:Em.
      * destruct own eqn:Eo; [|exact Hcase]. exfalso. apply Hn'. unfold own, at_address in Eo. unfold at_address in Em.
        rewrite andb_true_iff, bool_decide_eq_true, Z.eqb_eq in Eo, Em. destruct Eo, Em.
        apply list_elem_of_fmap. exists m. split; [congruence|done].
      * destruct Hcase as (i & Hi & ->). exists i. split; [|done].
        etransitivity; [|exact Hi]. etransitivity; [apply Hc0|]. unfold c1. by destruct own.
  - rewrite P2. unfold c1, c1', c0. rewrite filter_cons. fold own. destruct own; [done|].
    cbn [printed set_printed set_csocks set_ccluster next_dial]. cbn [decide map]. by rewrite <- (assoc_L app).
Qed.

(** What the constructor prints when it starts at [s]. *)
Definition welcome (s : Server) : list bytes :=
  let n := self_node (cluster s) in
  (str "Connected to " ++ ip n ++ str ":" ++ to_string (port n)) ::
  map connected_line (filter (λ m, at_address (ip n) (port n) m = false) (map snd (topo (cluster s)))) ++
  match groupMembers_ s with [] => [] | gs => [groups_line gs] end.

(** What a client that has just started has in common with the server [s] that
    it asked: the topology, the ring, and an open connection to every node. *)
Record agrees (s : Server) (fd : Z) (c : Client) : Prop := {
  ag_topo : topo (ccluster c) = topo (cluster s);
  ag_ring : node_hash (ccluster c) = node_hash (cluster s);
  ag_groups : groups_ c = map (λ e, (e.1, trimmed e.2)) (groupMembers_ s);
  ag_conns : ∀ u, u ∈ map fst (topo (cluster s)) → ∃ f, f ≠ -1 ∧ connected c u f;
  ag_server : connected c (UUID (self_node (cluster s))) fd;
  ag_sent : sent_to c = [(fd, network_command)];
  ag_rest : printed c = welcome s ∧ csends c = 1%nat ∧ crecvs c = 0%nat
}.

(** A server that a client can ask: nodes with addresses and ring points of
    their own, and answers that get through. *)
Record reachable_server (fds : nat → Z) (bs : list bytes) (s : Server) : Prop := {
  rs_settled : settled s;
  rs_points : disjoint_points (map fst (topo (cluster s)));
  rs_addresses : NoDup (map (λ e, (ip e.2, port e.2)) (topo (cluster s)));
  rs_dial : ∀ i a p, dial i a p = Ok (fds i) ∧ fds i ≠ -1;
  rs_send : network_send_loop (ksend 0) network_command = Ok tt;
  rs_reply : kwait 0%nat = map Got bs;
  rs_whole : concat bs = Handler_GETNETWORK (topo (cluster s)) (groupMembers_ s)
}.

Lemma Client_init_run fds bs s uuid :
  reachable_server fds bs s →
  let n := self_node (cluster s) in
  ∃ c, Client_init ksend kwait dial uuid (ip n) (port n) = (Ok tt, c) ∧ agrees s (fds 0%nat) c.
Proof.
  intros [[S1 S2 S3 S4 S5] R1 R2 R3 R4 R5 R6] n. set (t := topo (cluster s)) in *.
  pose proof (topo_keys t S3) as Hkeys. assert (Hnd : NoDup (map fst t)) by (apply map_sorted_nodup, S1).
  set (c0 := mkClient (Cluster_client_init uuid) [] (-1) [] [] [] 0 0 0 0 0 0).
  set (c1 := set_groups (foldl (λ g e, map_assign e.1 (trimmed e.2) g) [] (groupMembers_ s))
    (set_sent_to [(fds 0%nat, network_command)] (next_wait (next_send
      (set_printed [str "Connected to " ++ ip n ++ str ":" ++ to_string (port n)] (next_dial c0)))))).
  destruct (load_all_fields t uuid) as (L1 & L2 & L3); [apply S1|done|].
  set (c2 := set_ccluster (load_all (map snd t) (Cluster_client_init uuid)) c1).
  destruct (connect_all_run fds (ip n) (port n) (fds 0%nat) (map snd t) c2) as (c & Hr & Hrest & _ & Hconn & Hpr).
  { intros i a p. apply R3. }
  { by rewrite Hkeys. }
  { by rewrite map_map. }
  exists (match groups_ c with [] => c | gs => set_printed (printed c ++ [groups_line gs]) c end). split.
  - unfold Client_init. fold c0. erewrite M_bind_Ok by done. erewrite M_bind_Ok by done.
    erewrite (lift_Ok _ _ _ _ (proj1 (R3 _ _ _))).
    erewrite M_bind_Ok by done.
    erewrite M_bind_Ok by (apply (ask_network_run _ _ t (groupMembers_ s) bs); done).
    cbn [fst]. erewrite M_bind_Ok by apply load_run. erewrite M_bind_Ok by exact Hr. erewrite M_bind_Ok by done.
    by destruct (groups_ c).
  - destruct Hrest as (E1 & E2 & E3 & E4 & E6 & E7 & _).
    assert (Hg : groups_ c = map (λ e, (e.1, trimmed e.2)) (groupMembers_ s)).
    { rewrite E3. change (groups_ c2) with (foldl (λ g e, map_assign e.1 (trimmed e.2) g) [] (groupMembers_ s)).
      rewrite (foldl_assign_sorted_map trimmed (groupMembers_ s) []); [done|apply S2|by intros e e' He%elem_of_nil]. }
    enough (agrees s (fds 0%nat) (set_printed (welcome s) c)) as Ha.
    { assert (printed c ++ match groups_ c with [] => [] | gs => [groups_line gs] end = welcome s) as Hw.
      { rewrite Hpr. unfold welcome. fold n. fold t. cbn [app]. f_equal. f_equal. rewrite Hg. unfold groups_line.
        destruct (groupMembers_ s); [done|]. cbn [map]. by rewrite !length_cons, length_map. }
      rewrite <- Hw in Ha. destruct (groups_ c); [|exact Ha]. rewrite app_nil_r in Ha. by destruct c. }
    constructor; cbn [ccluster groups_ sent_to csends crecvs printed set_printed].
    + by rewrite E2.
    + rewrite E1, S5. etransitivity; [exact L2|]. apply ring_of_same; [done|]. intros u. apply elem_of_reverse.
    + exact Hg.
    + intros u Hu. change (u ∈ map fst t) in Hu. rewrite <- Hkeys in Hu. apply list_elem_of_fmap in Hu as (m & -> & Hm).
      destruct (Hconn m Hm) as (f & Hf & Hcase). exists f. split; [|done].
      destruct (at_address _ _ _); [subst f; apply (R3 0%nat [] 0)|]. destruct Hcase as (i & _ & ->). apply (R3 i [] 0).
    + destruct (Hconn n) as (f & Hf & Hcase); [by apply (list_elem_of_fmap_2 snd _ (UUID n, n))|].
      unfold at_address in Hcase. rewrite bool_decide_true, Z.eqb_refl in Hcase by done. simpl in Hcase. by subst f.
    + by rewrite E4.
    + by rewrite E6, E7.
Qed.

(** C16: a client that starts at any node of a cluster routes like that node: the
    constructor returns, and then topology and ring are the server's, so for
    every key both compute the same owner, each node is connected by an open
    socket, and the first socket belongs to the node it was opened to. *)
Theorem client_routes_as_server (fds : nat → Z) (bs : list bytes) (s : Server) (uuid : Z) :
  reachable_server fds bs s →
  let n := self_node (cluster s) in
  ∃ c, Client_init ksend kwait dial uuid (ip n) (port n) = (Ok tt, c) ∧
    topo (ccluster c) = topo (cluster s) ∧
    (∀ key, routeWrite key c = (Cluster_queryNode key (cluster s), c)) ∧
    (∀ key, Cluster_queryNode key (ccluster c) = Cluster_queryNode key (cluster s)) ∧
    (∀ u, u ∈ map fst (topo (cluster s)) → ∃ f, f ≠ -1 ∧ connected c u f) ∧
    connected c (UUID n) (fds 0%nat) ∧ sent_to c = [(fds 0%nat, network_command)].
Proof.
  intros Hs n. destruct (Client_init_run fds bs s uuid Hs) as (c & Hr & [A1 A2 A3 A4 A5 A6 A7]).
  assert (Hq : ∀ key, Cluster_queryNode key (ccluster c) = Cluster_queryNode key (cluster s)).
  { intros key. unfold Cluster_queryNode. by rewrite A2. }
  exists c. split_and!; try done. intros key. unfold routeWrite. erewrite M_bind_Ok by done. unfold mlift. by rewrite Hq.
Qed.
(** C10: from nothing to a stored pair: a client that starts at a node and is then
    given the line [SET key value] (key and value words, the node the key's owner,
    not synchronising, with room for the key in its shard, the kernel taking and
    delivering the messages whole) sends that node exactly two messages, the
    question for the topology and the request; the node reads the request out of
    the bytes, does not redirect it, stores the value under the key and answers
    [+OK]; and the client prints its greeting lines - the connections it opened and
    the groups it learned - and then the answer, nothing else. *)
Theorem client_session_end_to_end (steady wall : nat → Z) (rand : nat → Z → nat → Z)
    (fds : nat → Z) (bs : list bytes) (s : Server) (uuid sfd : Z) (key value : bytes) :
  reachable_server fds bs s →
  let n := self_node (cluster s) in let req := request "SET" [SimpleString key; BulkString (Some value)] in
  is_word key → is_word value → string_fits (Z.of_nat (length value)) = true →
  Cluster_queryNode key (cluster s) = Ok (UUID n) → Server_ok s → syncing s = false → kv_avail (kvstore s) key →
  client_send_loop (ksend 1%nat) (encode req) [] = Ok (encode req) → krecv 0%nat = Got OK →
  ∃ c c' s', Client_init ksend kwait dial uuid (ip n) (port n) = (Ok tt, c) ∧
    Client_line ksend krecv kwait dial pick fuel (str "SET " ++ key ++ str " " ++ value) c = (Ok false, c') ∧
    sent_to c' = [(fds 0%nat, network_command); (fds 0%nat, encode req)] ∧ printed c' = welcome s ++ [OK] ∧
    RespParser_append (encode req) RespParser_init = Ok (mkRespParser WaitType RespState_default [] [req]) ∧
    Handler_handle steady wall rand req sfd s = (Ok OK, s') ∧
    kv_map (kvstore s') = <[key := BulkString (Some value)]> (kv_map (kvstore s)).
Proof.
  intros Hs n req Hk Hv Hlen Hq Hok Hsync Hav Hsend Hrecv.
  destruct (Client_init_run fds bs s uuid Hs) as (c & Hr & [A1 A2 A3 A4 [A5 A5'] A6 (A7 & A8 & A9)]).
  destruct (client_set_end_to_end ksend krecv kwait dial pick fuel steady wall rand key value (fds 0%nat) sfd c s)
    as (c' & s' & Hl & Hsent & Hp & Happ & Hh & Hm); try done.
  { unfold Cluster_queryNode. by rewrite A2. }
  { apply (rs_dial _ _ _ Hs 0%nat [] 0). }
  { by rewrite A8. }
  { by rewrite A9. }
  exists c, c', s'. rewrite A6 in Hsent. rewrite A7 in Hp. split_and!; done.
Qed.
End start.

(** ** Refreshing only adds *)

(** Every node, ring point and connection of [c] is still there in [d]. *)
Record grows (c d : Client) : Prop := {
  gr_topo : ∀ u, is_Some (map_find u (topo (ccluster c))) → is_Some (map_find u (topo (ccluster d)));
  gr_ring : ∀ p, is_Some (map_find p (node_hash (ccluster c))) → is_Some (map_find p (node_hash (ccluster d)));
  gr_conn : ∀ u, is_Some (map_find u (connections (ccluster c))) → is_Some (map_find u (connections (ccluster d)))
}.
#[global] Instance grows_preorder : PreOrder grows.
Proof. split; [by split; auto|]. intros a b c [A1 A2 A3] [B1 B2 B3]. split; auto. Qed.

(** A computation that only adds, whatever its outcome. *)
Definition growing {A} (m : M Client A) : Prop := ∀ c, grows c (m c).2.

Lemma growing_bind {A B} (m : M Client A) (f : A → M Client B) :
  growing m → (∀ a, growing (f a)) → growing (m ≫= f).
Proof.
  intros Hm Hf c. unfold mbind, M_bind. pose proof (Hm c) as H. destruct (m c) as [[a| | |] c1]; try done.
  etrans; [exact H|apply Hf].
Qed.
Lemma growing_same {A} (m : M Client A) : (∀ c, ccluster (m c).2 = ccluster c) → growing m.
Proof. intros H c. split; by rewrite H. Qed.
Lemma growing_get {B} (f : Client → M Client B) : (∀ c, grows c (f c c).2) → growing (mget ≫= f).
Proof. intros Hf c. exact (Hf c). Qed.
Lemma growing_put {B} c d (f : unit → M Client B) :
  ccluster d = ccluster c → growing (f tt) → grows c ((mput d ≫= f) c).2.
Proof. intros Hd Hf. change ((mput d ≫= f) c) with (f tt d). etrans; [|apply Hf]. split; by rewrite Hd. Qed.
Lemma growing_for {A} (l : list A) (f : A → M Client unit) : (∀ a, growing (f a)) → growing (mfor l f).
Proof. intros Hf. induction l as [|a l IH]; [by apply growing_same|]. apply growing_bind; auto. Qed.

Lemma map_assign_some {V} k k' (v : V) m : is_Some (map_find k m) → is_Some (map_find k (map_assign k' v m)).
Proof. intros H. rewrite map_find_assign. by destruct (k =? k'). Qed.

Section refresh.
Context (ksend : nat → list send_answer) (kwait : nat → list recv_answer) (dial : nat → bytes → Z → res Z).

Lemma growing_load node : growing (load_node node).
Proof.
  intros c. split; simpl; intros u Hu; try done; [by apply map_assign_some|].
  rewrite ring_add_find. by case_decide.
Qed.

Lemma growing_connect_step node fd c :
  grows c (set_csocks (map_assign fd RespParser_init (csocks c))
             (set_ccluster (Cluster_addConnection (UUID node) fd (ccluster c)) c)).
Proof. split; simpl; intros u Hu; try done. by apply map_assign_some. Qed.

Lemma growing_lift {A} (r : res A) : growing (mlift r).
Proof. by apply growing_same. Qed.

Lemma growing_connect node : growing (connect_node dial node).
Proof.
  apply growing_get. intros c0. apply growing_put; [done|]. apply growing_bind; [apply growing_lift|].
  intros fd. apply growing_bind; [intros c; apply growing_connect_step|]. intros _. by apply growing_same.
Qed.

Lemma growing_ask fd p : growing (ask_network ksend kwait fd p).
Proof.
  apply growing_get. intros c0. apply growing_put; [done|]. apply growing_bind; [apply growing_lift|].
  intros _. apply growing_bind; [by apply growing_same|]. intros _. apply growing_bind; [apply growing_lift|].
  intros p1. destruct (RespParser_getResult p1) as [reply p']. apply growing_bind; [apply growing_lift|].
  intros v. apply growing_bind; [by apply growing_same|]. intros c1. apply growing_bind; [apply growing_lift|].
  intros r. apply growing_bind; [by apply growing_same|]. intros _. by apply growing_same.
Qed.

(** Refreshing the topology only adds: whatever the reply and the outcome, no
    node, no point of the ring and no connection the client knows is removed, so
    a node that left or died keeps its keys on the client's ring. *)
Theorem client_refresh_only_adds (c : Client) :
  grows c (Client_refreshTopology ksend kwait dial c).2.
Proof.
  revert c. apply growing_get. intros c. destruct (csocks c) as [|[any_fd p] es]; [reflexivity|].
  revert c. apply growing_bind; [apply growing_ask|]. intros r.
  apply growing_bind; [by apply growing_same|]. intros _.
  apply growing_bind; [apply growing_for, growing_load|]. intros _.
  apply growing_bind; [|intros _; by apply growing_same].
  apply growing_for. intros node. apply growing_get. intros c.
  destruct (existsb _ _); [reflexivity|apply growing_connect].
Qed.
End refresh.

(** ** Benchmarks *)

Section benchmarks.
Context (ksend : nat → list send_answer) (kwait : nat → list recv_answer)
  (pick : nat → nat → nat) (rnd : nat → Z) (fuel : nat) (clock : nat → Z).

Lemma latency_round_not_ok ops op_type i c x :
  0 <= ops < 10 → (latency_round ksend kwait pick rnd fuel clock ops op_type i c).1 ≠ Ok x.
Proof.
  intros Hops. unfold latency_round. apply bind_not_ok. intros [req is_read] c1.
  do 8 (apply bind_not_ok; intros ? ?). unfold latency_progress.
  by rewrite (Z.quot_small ops 10) by lia.
Qed.

(** A latency benchmark of fewer than ten operations never returns a result:
    the progress report divides by [ops / 10], and with no operation the
    minimum of no latencies is read. *)
Theorem latency_small_never_returns (ops : Z) (op_type : bytes) (c : Client) (f : Figures) :
  ops < 10 → (Client_latencyBenchmark ksend kwait pick rnd fuel clock ops op_type c).1 ≠ Ok f.
Proof.
  intros Hops. unfold Client_latencyBenchmark. apply bind_not_ok. clear c. intros _ c.
  destruct (Z.ltb_spec ops 0); [done|]. destruct (Z.eq_dec ops 0) as [->|Hne]; [done|].
  assert (∃ k, Z.to_nat ops = S k) as [k ->] by (exists (pred (Z.to_nat ops)); lia).
  cbn [seq]. match goal with |- (?m c).1 ≠ _ => destruct (m c) as [r d] eqn:H' end. cbn [fst]. intros ->.
  apply M_bind_inv in H' as (xs & c1 & H1 & _).
  apply M_bind_inv in H1 as (x & c2 & H2 & _). by apply (latency_round_not_ok ops op_type 0 c x ltac:(lia)); rewrite H2.
Qed.

(** What the rounds measured, in order. *)
Lemma latency_rounds_measured ops op_type is_ c xs d :
  latency_rounds ksend kwait pick rnd fuel clock ops op_type is_ c = (Ok xs, d) → xs = map (round_latency clock) is_.
Proof.
  revert c xs d. induction is_ as [|i is_ IH]; intros c xs d H; cbn [latency_rounds] in H.
  { by injection H as <- _. }
  apply M_bind_inv in H as (x & c1 & H1 & H). apply M_bind_inv in H as (xs' & c2 & H2 & H). injection H as <- _.
  cbn [map]. rewrite (IH _ _ _ H2). f_equal. unfold latency_round in H1.
  repeat (apply M_bind_inv in H1 as (? & ? & _ & H1); try case_match); by injection H1.
Qed.

(** A latency benchmark whose rounds get their replies returns, with the figures
    of what its rounds took. *)
Theorem latency_benchmark_figures (ops : Z) (op_type : bytes) (c d : Client) (xs : list double) :
  0 < ops < 2 ^ 31 →
  latency_rounds ksend kwait pick rnd fuel clock ops op_type (seq 0 (Z.to_nat ops))
    (set_printed (printed c ++ [latency_line ops]) c) = (Ok xs, d) →
  ∃ f, Client_latencyBenchmark ksend kwait pick rnd fuel clock ops op_type c = (Ok f, d) ∧
    let l := map (round_latency clock) (seq 0 (Z.to_nat ops)) in
    is_percentile l 500 (fig_p50 f) ∧ is_percentile l 900 (fig_p90 f) ∧ is_percentile l 990 (fig_p99 f) ∧
    is_percentile l 999 (fig_p999 f) ∧ (∀ x, x ∈ l → d_le (fig_min f) x ∧ d_le x (fig_max f)).
Proof.
  intros Hops H. pose proof (latency_rounds_measured _ _ _ _ _ _ H) as Hxs.
  destruct (figures_run (map (λ i, (clock (2 * i)%nat, clock (S (2 * i)))) (seq 0 (Z.to_nat ops))))
    as (f & Hf & P1 & P2 & P3 & P4 & P5 & _).
  { rewrite length_map, length_seq. lia. }
  rewrite map_map in Hf, P1, P2, P3, P4, P5. exists f. split; [|done].
  unfold Client_latencyBenchmark. erewrite M_bind_Ok by done. destruct (Z.ltb_spec ops 0); [lia|]. rewrite (M_bind_Ok _ _ _ _ _ H).
  unfold mlift. rewrite Hxs. exact (f_equal (λ r, (r, d)) Hf).
Qed.
End benchmarks.

(** ** Witnesses *)

(** A client of the single node of [Handler], connected on socket 4. *)
Definition demo_client : Client :=
  mkClient (Cluster_addConnection 7 4 (set_node_hash (node_hash (cluster solo)) (Cluster_client_init 99)))
    [(4, RespParser_init)] (-1) [] [] [] 0 0 0 0 0 0.

Lemma client_requests_wellformed_witness :
  Client_handle (str " ") = UB ∧
  ∃ v key, Client_handle (str "SET k v") = Ok v ∧ client_request v key ∧
    RespParser_append (encode v) RespParser_init = Ok (mkRespParser WaitType RespState_default [] [v]).
Proof.
  split.
  - apply (client_requests_wellformed (str " ")); [vm_compute; reflexivity|reflexivity].
  - destruct (client_requests_wellformed (str "SET k v")) as [_ H]; [vm_compute; reflexivity|].
    destruct H as (v & Hv & [(e & He)|(key & Hk & _ & _ & Hp)]).
    + vm_compute. discriminate.
    + rewrite He in Hv. vm_compute in Hv. discriminate.
    + exists v, key. split_and!; [exact Hv|exact Hk|exact Hp].
Defined.

Lemma client_set_end_to_end_witness :
  ∃ c' s', Client_line (λ _, [Sent 100]) (λ _, Got OK) (λ _, []) (λ _ _ _, Ok 5) (λ _ _, 0%nat) 0 (str "SET k v") demo_client
      = (Ok false, c') ∧ printed c' = [OK] ∧
    kv_map (kvstore s') !! str "k" = Some (BulkString (Some (str "v"))).
Proof.
  destruct (client_set_end_to_end (λ _, [Sent 100]) (λ _, Got OK) (λ _, []) (λ _ _ _, Ok 5) (λ _ _, 0%nat) 0
    (λ _, 0) (λ _, 0) (λ _ _ _, 0) (str "k") (str "v") 4 9 demo_client solo)
    as (c' & s' & Hr & _ & Hp & _ & _ & Hm).
  - split; [discriminate|repeat constructor].
  - split; [discriminate|repeat constructor].
  - vm_compute. reflexivity.
  - reflexivity.
  - vm_compute. reflexivity.
  - exact solo_server_ok.
  - reflexivity.
  - apply solo_avail.
  - reflexivity.
  - discriminate.
  - eexists. reflexivity.
  - vm_compute. reflexivity.
  - reflexivity.
  - exists c', s'. split_and!; [exact Hr|exact Hp|]. rewrite Hm. apply lookup_insert_eq.
Defined.

Lemma latency_small_never_returns_witness :
  (Client_latencyBenchmark (λ _, [Sent 100]) (λ _, [Got OK]) (λ _ _, 0%nat) (λ _, 1) 0 (λ _, 0) 1 (str "set") demo_client).1
    ≠ Ok (mkFigures (of_int 0) (of_int 0) (of_int 0) (of_int 0) (of_int 0) (of_int 0) (of_int 0)).
Proof. apply (latency_small_never_returns (λ _, [Sent 100]) (λ _, [Got OK]) (λ _ _, 0%nat) (λ _, 1) 0 (λ _, 0)). lia. Defined.

(** The single node of [Handler], asked by a client whose sockets are 4, 5, ... *)
Definition solo_network : bytes := Handler_GETNETWORK (topo (cluster solo)) (groupMembers_ solo).
Definition solo_pieces : list bytes := [take 3 solo_network; take 30 (drop 3 solo_network); drop 33 solo_network].

Lemma solo_reachable :
  reachable_server (λ _, [Sent 100]) (λ _, map Got solo_pieces) (λ i _ _, Ok (Z.of_nat i + 4)) (λ i, Z.of_nat i + 4)
    solo_pieces solo.
Proof.
  constructor.
  - exact solo_settled.
  - apply disjoint_pointsb_sound. vm_compute. reflexivity.
  - rewrite solo_cluster. apply NoDup_singleton.
  - intros i a p. split; [reflexivity|lia].
  - reflexivity.
  - reflexivity.
  - vm_compute. reflexivity.
Qed.

Lemma client_routes_as_server_witness :
  ∃ c, (∀ key, Cluster_queryNode key (ccluster c) = Cluster_queryNode key (cluster solo)) ∧ connected c 7 4.
Proof.
  destruct (client_routes_as_server (λ _, [Sent 100]) (λ _, map Got solo_pieces) (λ i _ _, Ok (Z.of_nat i + 4))
    (λ i, Z.of_nat i + 4) solo_pieces solo 99 solo_reachable) as (c & _ & _ & _ & Hq & _ & Hc & _).
  exists c. split; [exact Hq|exact Hc].
Defined.

Lemma client_session_end_to_end_witness :
  ∃ c c' s', Client_init (λ _, [Sent 100]) (λ _, map Got solo_pieces) (λ i _ _, Ok (Z.of_nat i + 4)) 99
      (ip (self_node (cluster solo))) (port (self_node (cluster solo))) = (Ok tt, c) ∧
    Client_line (λ _, [Sent 100]) (λ _, Got OK) (λ _, map Got solo_pieces) (λ i _ _, Ok (Z.of_nat i + 4)) (λ _ _, 0%nat) 0
      (str "SET k v") c = (Ok false, c') ∧ printed c' = [str "Connected to 10.0.0.7:7800"; str "Group info loaded: 1 groups."; OK] ∧
    kv_map (kvstore s') !! str "k" = Some (BulkString (Some (str "v"))).
Proof.
  destruct (client_session_end_to_end (λ _, [Sent 100]) (λ _, Got OK) (λ _, map Got solo_pieces)
    (λ i _ _, Ok (Z.of_nat i + 4)) (λ _ _, 0%nat) 0 (λ _, 0) (λ _, 0) (λ _ _ _, 0) (λ i, Z.of_nat i + 4) solo_pieces solo
    99 9 (str "k") (str "v") solo_reachable)
    as (c & c' & s' & H1 & H2 & _ & H3 & _ & _ & Hm).
  - split; [discriminate|repeat constructor].
  - split; [discriminate|repeat constructor].
  - vm_compute. reflexivity.
  - vm_compute. reflexivity.
  - exact solo_server_ok.
  - reflexivity.
  - apply solo_avail.
  - vm_compute. reflexivity.
  - reflexivity.
  - exists c, c', s'. split; [exact H1|]. split; [exact H2|]. split; [rewrite H3; vm_compute; reflexivity|]. rewrite Hm. apply lookup_insert_eq.
Defined.
