(* ===== verification/Redirect.v ===== *)
(** * A redirected request (Client::run, Client::refreshTopology against two servers)

    A client whose ring is out of date sends a [SET] to the node that used to
    own the key, is redirected, learns the topology from that node and repeats
    the request at the new owner. *)
From Stdlib Require Import ZArith Ascii String Lia.
From stdpp Require Import base numbers list strings gmap.
From S2P Require Import Prelude CppStd RespValue RespParser StringTable HashTable LRU KVStore Snapshot AOF Socket Ring Cluster.
From S2P Require Import Utils RaftNode Server Handler Membership Recovery EventLoop Lifecycle Gossip Join Client.
Local Open Scope Z_scope.

Section redirect.
Context (ksend : nat → list send_answer) (krecv : nat → recv_answer) (kwait : nat → list recv_answer)
  (dial : nat → bytes → Z → res Z) (pick : nat → nat → nat) (fuel : nat).
Context (fds : nat → Z).
Hypothesis Hdial : ∀ i a p, dial i a p = Ok (fds i).

(** ** Refreshing the topology *)

Lemma has_socket f c : existsb (λ e : Z * RespParser, f =? e.1) (csocks c) = true → is_Some (map_find f (csocks c)).
Proof.
  induction (csocks c) as [|[g p] l IH]; [done|]. cbn [existsb map_find fst].
  destruct (Z.eqb_spec f g); [by eexists|]. exact IH.
Qed.
Lemma no_socket f c : existsb (λ e : Z * RespParser, f =? e.1) (csocks c) = false → map_find f (csocks c) = None.
Proof.
  induction (csocks c) as [|[g p] l IH]; [done|]. cbn [existsb map_find fst].
  destruct (Z.eqb_spec f g); [done|]. exact IH.
Qed.

(** Whether [n]'s connection is an open socket. *)
Definition opened (c : Client) (n : CNode) : bool :=
  existsb (λ e, Cluster_getConnection (UUID n) (ccluster c) =? e.1) (csocks c).

Lemma opened_mono c d n :
  (∀ f, is_Some (map_find f (csocks c)) → is_Some (map_find f (csocks d))) →
  Cluster_getConnection (UUID n) (ccluster d) = Cluster_getConnection (UUID n) (ccluster c) →
  opened d n = false → opened c n = false.
Proof.
  unfold opened. intros Hs -> Hd%no_socket. apply not_true_is_false. intros Hc%has_socket%Hs. rewrite Hd in Hc. by destruct Hc.
Qed.

Lemma connect_node_run n c :
  ∃ d, connect_node dial n c = (Ok tt, d) ∧ same_rest c d ∧ connected d (UUID n) (fds (cdials c)) ∧
    printed d = printed c ++ [connected_line n] ∧
    (∀ f, is_Some (map_find f (csocks d)) → is_Some (map_find f (csocks c)) ∨ ∃ i, f = fds i) ∧
    (∀ v, v ≠ UUID n → Cluster_getConnection v (ccluster d) = Cluster_getConnection v (ccluster c)).
Proof.
  destruct (add_connected (UUID n) (fds (cdials c)) (next_dial c)) as (S1 & C1 & K1). cbv zeta in S1, C1, K1.
  set (d := set_csocks _ _) in S1, C1, K1. exists (set_printed (printed d ++ [connected_line n]) d). split_and!.
  - unfold connect_node. erewrite M_bind_Ok by done. erewrite M_bind_Ok by done.
    erewrite (lift_Ok _ _ _ _ (Hdial _ _ _)). by erewrite M_bind_Ok by done.
  - exact S1.
  - exact C1.
  - done.
  - intros f. change (csocks (set_printed _ d)) with (map_assign (fds (cdials c)) RespParser_init (csocks c)).
    rewrite map_find_assign. destruct (Z.eqb_spec f (fds (cdials c))); eauto.
  - exact K1.
Qed.

Lemma filter_opened ns c d n :
  n ∉ map UUID ns → (∀ v, v ≠ n → (∀ f, is_Some (map_find f (csocks c)) → is_Some (map_find f (csocks d))) ∧
    Cluster_getConnection v (ccluster d) = Cluster_getConnection v (ccluster c)) →
  sublist (filter (λ m, opened d m = false) ns) (filter (λ m, opened c m = false) ns).
Proof.
  intros Hn Hcd. induction ns as [|m ns IH]; [done|]. cbn [map] in Hn. apply not_elem_of_cons in Hn as [Hm Hn].
  destruct (Hcd (UUID m) (λ E, Hm (eq_sym E))) as [Hs Hg]. rewrite !filter_cons.
  destruct (decide (opened d m = false)) as [E|E].
  - rewrite decide_True by (by apply (opened_mono c d)). by apply sublist_skip, IH.
  - case_decide; [by apply sublist_cons, IH|by apply IH].
Qed.

Lemma filter_opened_same ns c d :
  (∀ m, opened d m = false → opened c m = false) →
  sublist (filter (λ m, opened d m = false) ns) (filter (λ m, opened c m = false) ns).
Proof.
  intros H. induction ns as [|m ns IH]; [done|]. rewrite !filter_cons. repeat case_decide.
  - by apply sublist_skip.
  - by destruct (H m).
  - by apply sublist_cons.
  - done.
Qed.

(** The second loop: a node without an open socket gets one, nobody loses his. *)
Lemma refresh_nodes_run ns c :
  NoDup (map UUID ns) →
  ∃ d, mfor ns (refresh_node dial) c = (Ok tt, d) ∧ same_rest c d ∧
    (∀ f, is_Some (map_find f (csocks d)) → is_Some (map_find f (csocks c)) ∨ ∃ i, f = fds i) ∧
    (∀ v, v ∉ map UUID ns → Cluster_getConnection v (ccluster d) = Cluster_getConnection v (ccluster c)) ∧
    (∀ n, n ∈ ns → ∃ f, connected d (UUID n) f ∧ (connected c (UUID n) f ∨ ∃ i, f = fds i)) ∧
    ∃ new, sublist new (filter (λ n, opened c n = false) ns) ∧ printed d = printed c ++ map connected_line new.
Proof.
  revert c. induction ns as [|n ns IH]; intros c Hnd.
  { exists c. split_and!; try done; [by left|by intros n ?%elem_of_nil|]. exists []. by rewrite app_nil_r. }
  apply NoDup_cons in Hnd as [Hn Hnd]. set (f := Cluster_getConnection (UUID n) (ccluster c)).
  assert (∃ d g, refresh_node dial n c = (Ok tt, d) ∧ same_rest c d ∧ connected d (UUID n) g ∧
    (connected c (UUID n) g ∨ ∃ i, g = fds i) ∧
    (∀ f, is_Some (map_find f (csocks d)) → is_Some (map_find f (csocks c)) ∨ ∃ i, f = fds i) ∧
    (∀ v, v ≠ UUID n → Cluster_getConnection v (ccluster d) = Cluster_getConnection v (ccluster c)) ∧
    printed d = printed c ++ map connected_line (filter (λ n, opened c n = false) [n]))
    as (c1 & g & R1 & S1 & C1 & G1 & N1 & K1 & P1).
  { unfold refresh_node. rewrite filter_cons, filter_nil. unfold opened. fold f.
    destruct (existsb (λ e : Z * RespParser, f =? e.1) (csocks c)) eqn:E.
    - exists c, f. assert (connected c (UUID n) f) by (split; [done|by apply has_socket]).
      split_and!; try done; [|by left|by left|by rewrite app_nil_r]. erewrite M_bind_Ok by done. fold f. by rewrite E.
    - destruct (connect_node_run n c) as (d & R & S & C & P & N & K). exists d, (fds (cdials c)). split_and!; try done; [|by right; eexists].
      erewrite M_bind_Ok by done. fold f. by rewrite E. }
  destruct (IH c1 Hnd) as (d & R2 & S2 & N2 & K2 & C2 & new & P2 & P2'). exists d. split_and!.
  - cbn [mfor]. by rewrite (M_bind_Ok _ _ _ _ _ R1).
  - destruct S1 as (? & ? & ? & ? & ? & ? & E1), S2 as (? & ? & ? & ? & ? & ? & E2).
    unfold same_rest. split_and!; try congruence. intros h Hh. by apply E2, E1.
  - intros h Hh. destruct (N2 h Hh) as [H|H]; [by apply N1|by right].
  - intros v Hv. cbn [map] in Hv. apply not_elem_of_cons in Hv as [Hv1 Hv2]. by rewrite (K2 v Hv2), (K1 v Hv1).
  - intros m [->|Hm]%elem_of_cons.
    + exists g. split; [|done]. split; [rewrite (K2 _ Hn); apply C1|]. apply S2, C1.
    + destruct (C2 m Hm) as (h & Hh & [[Hc Hs]|Hi]); exists h; (split; [done|]); [|by right].
      destruct (decide (UUID m = UUID n)) as [E|E]; [destruct Hn; apply list_elem_of_fmap; by exists m|].
      rewrite (K1 _ E) in Hc. destruct (N1 h Hs) as [Hs'|Hi]; [left; by split|by right].
  - exists (filter (λ n, opened c n = false) [n] ++ new). split.
    + change (n :: ns) with ([n] ++ ns). rewrite filter_app. apply sublist_app; [done|]. etrans; [exact P2|].
      apply (filter_opened ns c c1 (UUID n)); [done|]. intros v Hv. split; [apply S1|]. by apply K1.
    + by rewrite P2', P1, map_app, (assoc_L app).
Qed.


(** ** The whole refresh *)

Lemma refresh_run c any_fd p es (t : list (Z * CNode)) gm bs :
  csocks c = (any_fd, p) :: es → network_ok t gm → NoDup (map (λ e, UUID e.2) t) → concat bs = Handler_GETNETWORK t gm →
  network_send_loop (ksend (csends c)) network_command = Ok tt → kwait (cwaits c) = map Got bs →
  ∃ d, Client_refreshTopology ksend kwait dial c = (Ok tt, d) ∧
    node_hash (ccluster d) = foldl (λ r v, ring_addNodeToHash v r) (node_hash (ccluster c)) (map (λ e, UUID e.2) t) ∧
    sent_to d = sent_to c ++ [(any_fd, network_command)] ∧ csends d = S (csends c) ∧
    crecvs d = crecvs c ∧
    (∀ f, is_Some (map_find f (csocks d)) → is_Some (map_find f (csocks c)) ∨ ∃ i, f = fds i) ∧
    (∀ e, e ∈ t → connected d (UUID e.2) (Cluster_getConnection (UUID e.2) (ccluster d))) ∧
    ∃ new, sublist new (filter (λ n, opened c n = false) (map snd t)) ∧
      printed d = printed c ++ map connected_line new ++ [str "Topology refreshed."].
Proof.
  intros Hs Hok Hnd Hbs Hsend Hw.
  set (c1 := set_groups (foldl (λ g e, map_assign e.1 (trimmed e.2) g) (groups_ c) gm)
    (set_sent_to (sent_to c ++ [(any_fd, network_command)]) (next_wait (next_send c)))).
  set (c2 := set_csocks (map_assign any_fd RespParser_init (csocks c1)) c1).
  set (c3 := set_ccluster (load_all (map snd t) (ccluster c2)) c2).
  destruct (load_all_spec (map snd t) (ccluster c2)) as (_ & L2 & L3). rewrite map_map in L2.
  destruct (refresh_nodes_run (map snd t) c3) as (d & Hr & (E1 & E2 & E3 & E4 & E6 & E7 & _) & Hn & _ & Hc & new & P1 & P2).
  { by rewrite map_map. }
  exists (set_printed (printed d ++ [str "Topology refreshed."]) d). split_and!.
  - unfold Client_refreshTopology. erewrite M_bind_Ok by done. rewrite Hs.
    rewrite (M_bind_Ok _ _ _ _ _ (ask_network_run ksend kwait any_fd _ t gm bs c Hok Hbs eq_refl Hsend Hw)).
    fold c1. erewrite M_bind_Ok by done. cbn [fst snd]. fold c2.
    rewrite (M_bind_Ok _ _ _ _ _ (load_run (map snd t) c2)). by rewrite (M_bind_Ok _ _ _ _ _ Hr).
  - cbn [ccluster set_printed]. rewrite E1. exact L2.
  - cbn [sent_to set_printed]. by rewrite E4.
  - cbn [csends set_printed]. by rewrite E6.
  - cbn [crecvs set_printed]. by rewrite E7.
  - intros f Hf. destruct (Hn f Hf) as [H|H]; [left|by right]. revert H. cbn [c3 c2 csocks set_ccluster set_csocks].
    change (csocks c3) with (map_assign any_fd RespParser_init (csocks c)). rewrite map_find_assign.
    destruct (Z.eqb_spec f any_fd) as [->|_]; [|done]. intros _. rewrite Hs. cbn [map_find]. rewrite Z.eqb_refl. by eexists.
  - intros e He. destruct (Hc e.2) as (f & [Hf Hf'] & _); [by apply list_elem_of_fmap_2|]. split; [done|]. cbn [ccluster csocks set_printed]. by rewrite Hf.
  - exists new. split; [|cbn [printed set_printed]; by rewrite P2, <- (assoc_L app)]. etrans; [exact P1|].
    apply filter_opened_same. intros m. apply opened_mono.
    + intros f Hf. change (csocks c3) with (map_assign any_fd RespParser_init (csocks c)). by apply map_assign_some.
    + unfold Cluster_getConnection. change (ccluster c3) with (load_all (map snd t) (ccluster c2)). by rewrite L3.
Qed.

Lemma moved_is_moved addr : isMovedResponse (encode (Error (str "MOVED " ++ addr))) = true.
Proof. unfold isMovedResponse. apply bool_decide_eq_true. reflexivity. Qed.

Context (steady wall : nat → nat → Z) (rand : nat → nat → Z → nat → Z).

End redirect.

(** ** Witness *)

(** Nodes 7 and 9 after 9 joined, and a client that knows node 7 only. *)
Definition node9 : CNode := mkCNode (str "10.0.0.9") 7800 9.
Definition old7 : Server := set_cluster (Cluster_addTopoNode node9 (Cluster_addNodeToHash 9 (cluster solo))) solo.
Definition new9 : Server :=
  set_cluster (set_node_hash (node_hash (cluster old7)) (Cluster_init 9 7801 (str "10.0.0.9"))) solo.
Definition stale_client : Client :=
  mkClient (Cluster_addConnection 7 4 (Cluster_addNodeToHash 7 (Cluster_client_init 99))) [(4, RespParser_init)] 4
    [] [] [] 1 0 1 1 0 0.
Definition old7_network : list bytes := [Handler_GETNETWORK (topo (cluster old7)) (groupMembers_ old7)].
Definition moved_to_9 : bytes := encode (Error (str "MOVED 10.0.0.9:7800")).

Lemma disjoint_79 : disjoint_points [7; 9].
Proof. apply disjoint_pointsb_sound. vm_compute. reflexivity. Qed.

Lemma old7_cluster :
  cluster old7 = Cluster_addTopoNode node9 (Cluster_addNodeToHash 9
    (set_node_hash (ring_addNodeToHash 7 []) (Cluster_init 7 (u16 7801) (str "10.0.0.7")))).
Proof. rewrite <- solo_cluster. reflexivity. Qed.

Lemma old7_settled : settled old7.
Proof.
  assert (Hg : groupMembers_ old7 = [(0, [7])]) by (vm_compute; reflexivity).
  constructor; rewrite old7_cluster, ?Hg.
  - constructor; [apply (ring_add_sorted 9), (ring_add_sorted 7); constructor|by repeat constructor..].
  - constructor; [..|reflexivity|reflexivity].
    + repeat constructor; vm_compute; (discriminate || reflexivity).
    + repeat constructor; vm_compute; (discriminate || reflexivity).
    + repeat constructor.
  - repeat constructor.
  - left.
  - change (ring_of [9; 7] = ring_of [7; 9]). apply ring_of_perm; [apply disjoint_79|]. apply perm_swap.
Qed.

Lemma new9_any r s :
  KVStore_ok (kvstore s) → raft_ready s → map_sorted r →
  Server_ok (set_cluster (set_node_hash r (Cluster_init 9 7801 (str "10.0.0.9"))) s).
Proof. intros H1 H3 Hr. constructor; [exact H1| |exact H3]. constructor; [exact Hr|by repeat constructor..]. Qed.

Lemma new9_ok : Server_ok new9.
Proof.
  unfold new9. destruct solo_server_ok as [H1 _ H3]. pose proof (cok_ring _ (st_cluster _ old7_settled)) as Hr.
  revert Hr. generalize (node_hash (cluster old7)). intros r Hr. by apply new9_any.
Qed.

Lemma kvstore_set_cluster c s : kvstore (set_cluster c s) = kvstore s.
Proof. reflexivity. Qed.
Lemma new9_kvstore : kvstore new9 = kvstore solo.
Proof. unfold new9. apply kvstore_set_cluster. Qed.

