(* ===== verification/Main.v ===== *)
(** * The entry points (server_main.cpp, client_main.cpp)

    What the two programs make of their command lines, and in which order they
    start what the other files model.  [argv] is the list of arguments with the
    name of the program in front; the kernel's answers, clocks and random draws
    are the parameters of the parts that are started. *)
From Stdlib Require Import ZArith Ascii String Lia.
From stdpp Require Import base numbers list strings gmap relations.
From S2P Require Import Prelude CppStd RespValue RespParser StringTable HashTable LRU KVStore Snapshot AOF Socket Ring Cluster.
From S2P Require Import Utils RaftNode Server Handler Heartbeat Membership Recovery Invariant EventLoop Lifecycle Process Figures Client.
Local Open Scope Z_scope.

(** [std::atoi]: zero for what is no number; undefined for what is no [int]. *)
Definition atoi (s : bytes) : res Z :=
  let s := skip_spaces s in
  let '(neg, s) :=
    match s with
    | c :: s' =>
        if uchar c =? 45 then (true, s')
        else if uchar c =? 43 then (false, s') else (false, s)
    | [] => (false, [])
    end in
  let v := dec_val 0 (take_digits s) in
  let z := if neg : bool then - v else v in
  if (- 2 ^ 31 <=? z) && (z <? 2 ^ 31) then Ok z else UB.

Definition arg (i : nat) (argv : list bytes) : bytes := nth i argv [].

(** ** The server *)

Record ServerArgs := mkServerArgs {
  server_ip : bytes; server_port : Z; bootstrap_ip : bytes; bootstrap_port : Z
}.

(** [None]: the usage is printed. *)
Definition server_args (argv : list bytes) : res (option ServerArgs) :=
  if (length argv <? 3)%nat then Ok None
  else
    port ← atoi (arg 2 argv);
    if (6 <=? length argv)%nat && bool_decide (arg 3 argv = str "--join") then
      bport ← atoi (arg 5 argv);
      Ok (Some (mkServerArgs (arg 1 argv) (u16 port) (arg 4 argv) (u16 bport)))
    else Ok (Some (mkServerArgs (arg 1 argv) (u16 port) [] 0)).

(** Where the process of the server is after its start: ended with an exit code,
    or in the loop of [run]. *)
Inductive started := ExitCode (code : Z) | Running (p : ServerProcess).

(** [catch (const std::exception &e)] *)
Definition exit_code_of {A} (r : res A) : res started :=
  match r with Ok _ => Ok (ExitCode 0) | Throw _ => Ok (ExitCode 1) | UB => UB | OutOfFuel => OutOfFuel end.

Section server.
Context (steady wall : nat → Z) (rand : nat → Z → nat → Z).
Context (ksend : nat → list send_answer) (dial : nat → bytes → Z → res Z)
  (kreply : nat → list (list recv_answer)).

(** [main] up to the loop: the construction of the server on the files [dir],
    [content] and [files], the join if there is somebody to join. *)
Definition server_main (argv : list bytes) (uuid : Z) (dir : option Dir) (content : bytes) (files : gmap Z bytes)
    (msg_UUID : Z) : res started :=
  a ← server_args argv;
  match a with
  | None => Ok (ExitCode 1)
  | Some a =>
      match Server_start steady uuid (server_ip a) (server_port a) (default ∅ dir) content files with
      | (Ok _, s0) =>
          match (if bool_decide (bootstrap_ip a = []) then (Ok tt, loop (fresh dir s0))
                 else Server_joinCluster wall ksend dial kreply (bootstrap_ip a) (bootstrap_port a) msg_UUID (loop (fresh dir s0))) with
          | (Ok _, l) =>
              match Server_run_start rand (set_loop l (fresh dir s0)) with
              | (Ok _, p) => Ok (Running p)
              | (r, _) => exit_code_of r
              end
          | (r, _) => exit_code_of r
          end
      | (r, _) => exit_code_of r
      end
  end.
End server.

(** The handler of [SIGINT]: the pointer to the server is null before the
    server is constructed, and dangles once its scope was left. *)
Inductive g_server := GNull | GServer | GDangling.
Definition SIGINT : Z := 2.
Definition request_shutdown (sig : Z) (g : g_server) (p : ServerProcess) : res ServerProcess :=
  if negb (sig =? SIGINT) then Ok p
  else match g with
       | GNull => Ok p
       | GServer => Ok (Server_requestShutdown p)
       | GDangling => UB
       end.

(** ** The client *)

Record ClientArgs := mkClientArgs {
  c_ip : bytes; c_port : Z; enable_benchmark : bool; enable_latency : bool;
  benchmark_ops : Z; benchmark_type : bytes; num_threads : Z
}.

(** The first [--threads] that has a word behind it, from the third argument on. *)
Fixpoint find_threads (args : list bytes) : res Z :=
  match args with
  | a :: (n :: _) as rest => if bool_decide (a = str "--threads") then atoi n else find_threads rest
  | _ => Ok 1
  end.

Definition client_args (argv : list bytes) : res (option ClientArgs) :=
  if (length argv <? 3)%nat then Ok None
  else
    port ← atoi (arg 2 argv);
    if (5 <=? length argv)%nat then
      let cmd := arg 3 argv in
      let bench := bool_decide (cmd = str "--benchmark") in
      let lat := negb bench && bool_decide (cmd = str "--latency") in
      ops ← (if bench || lat then atoi (arg 4 argv) else Ok 10000);
      let type := if (bench || lat) && (6 <=? length argv)%nat then arg 5 argv else str "set" in
      threads ← find_threads (drop 3 argv);
      Ok (Some (mkClientArgs (arg 1 argv) (u16 port) bench lat ops type threads))
    else Ok (Some (mkClientArgs (arg 1 argv) (u16 port) false false 10000 (str "set") 1)).

(** What a run does: the interactive loop, or one of the benchmarks. *)
Inductive client_mode := Interactive | Benchmark | Latency.

Definition main_mode (a : ClientArgs) : client_mode * bool :=
  if enable_benchmark a && (1 <? num_threads a) then (Benchmark, true)
  else if enable_latency a && (1 <? num_threads a) then (Latency, true)
  else if enable_latency a then (Latency, false)
  else if enable_benchmark a then (Benchmark, false)
  else (Interactive, false).

(** The threads, one after the other in the list: what one throws it reports
    itself. *)
Fixpoint join_threads (rs : list (res unit)) : res unit :=
  match rs with
  | [] => Ok tt
  | (Ok _ | Throw _) :: rs => join_threads rs
  | UB :: _ => UB
  | OutOfFuel :: _ => OutOfFuel
  end.

(** [int total_ops = benchmark_ops * num_threads] *)
Definition total_ops (a : ClientArgs) : res Z :=
  let n := benchmark_ops a * num_threads a in
  if (- 2 ^ 31 <=? n) && (n <? 2 ^ 31) then Ok n else UB.

(** What is printed about all threads together: operations, milliseconds, and
    operations per second. *)
Record Totals := mkTotals { tot_ops : Z; tot_ms : Z; tot_qps : double }.

Definition total_figures (a : ClientArgs) (start end_ : Z) : res Totals :=
  n ← total_ops a; Ok (mkTotals n (Z.quot (end_ - start) 1000000) (bench_qps n start end_)).

Section client.
(** [run i mode a]: what client [i] does, from its constructor on; the clock is
    read before the threads start and behind the last join. *)
Context (run : nat → client_mode → ClientArgs → res unit) (start end_ : Z).

(** The exit code, and the totals that were printed. *)
Definition client_main (argv : list bytes) : res (Z * option Totals) :=
  a ← client_args argv;
  match a with
  | None => Ok (1, None)
  | Some a =>
      match main_mode a with
      | (mode, true) =>
          _ ← join_threads (map (λ i, run i mode a) (seq 0 (Z.to_nat (num_threads a))));
          match mode with Benchmark => f ← total_figures a start end_; Ok (0, Some f) | _ => Ok (0, None) end
      | (mode, false) =>
          match run 0 mode a with Ok _ => Ok (0, None) | Throw _ => Ok (1, None) | UB => UB | OutOfFuel => OutOfFuel end
      end
  end.
End client.

(** A client: the constructor, then what was asked for. *)
Definition run_client (ksend : nat → list send_answer) (krecv : nat → recv_answer) (kwait : nat → list recv_answer)
    (dial : nat → bytes → Z → res Z) (pick : nat → nat → nat) (rnd : nat → Z) (fuel : nat) (clock : nat → Z)
    (uuid : Z) (lines : list bytes) (mode : client_mode) (a : ClientArgs) : res unit :=
  match Client_init ksend kwait dial uuid (c_ip a) (c_port a) with
  | (Ok _, c) =>
      (match mode with
       | Interactive => Client_run ksend krecv kwait dial pick fuel lines
       | Benchmark => _ ← Client_benchmark ksend kwait pick rnd fuel clock (benchmark_ops a) (benchmark_type a); mret tt
       | Latency => _ ← Client_latencyBenchmark ksend kwait pick rnd fuel clock (benchmark_ops a) (benchmark_type a); mret tt
       end c).1
  | (r, _) => r
  end.

(** ** Numbers on the command line *)

Lemma atoi_to_string z : 0 <= z < 2 ^ 31 → atoi (to_string z) = Ok z.
Proof.
  intros Hz. unfold to_string. destruct (Z.ltb_spec z 0); [lia|].
  pose proof (digits_all z ltac:(lia)) as Hall. pose proof (dec_val_digits z ltac:(lia)) as Hval.
  pose proof (take_digits_all (digits z) [] Hall I) as Htake. rewrite app_nil_r in Htake. unfold atoi.
  destruct (digits z) as [|c s] eqn:E; [by destruct (digits_nonempty z)|]. apply Forall_cons_1 in Hall as [Hc _].
  unfold skip_spaces. rewrite is_digit_not_space by done.
  assert ((uchar c =? 45) = false ∧ (uchar c =? 43) = false) as [-> ->].
  { unfold is_digit in Hc. breflect. split; apply Z.eqb_neq; lia. }
  rewrite Htake, Hval. destruct (Z.leb_spec (- 2 ^ 31) z); [|lia]. by destruct (Z.ltb_spec z (2 ^ 31)); [|lia].
Qed.

Lemma to_string_not_option z s : 0 <= z → to_string z ≠ str (String "-" s).
Proof.
  intros Hz. unfold to_string. destruct (Z.ltb_spec z 0); [lia|]. pose proof (digits_all z Hz) as Hall.
  destruct (digits z) as [|c t]; [done|]. apply Forall_cons_1 in Hall as [Hc _]. intros [= -> _]. done.
Qed.

Lemma u16_port z : 0 <= z < 65536 → u16 z = z ∧ u16 (u16 (z + 1) - 1) = z.
Proof. unfold u16. intros H. split; [by rewrite Z.mod_small|]. rewrite Zminus_mod_idemp_l. rewrite Z.mod_small; lia. Qed.

(** ** Command lines that say what they mean *)

Definition is_port (z : Z) : Prop := 0 <= z < 65536.
Definition is_count (z : Z) : Prop := 0 <= z < 2 ^ 31.

(** The usage of the server, filled in. *)
Definition server_line (prog : bytes) (a : ServerArgs) : list bytes :=
  [prog; server_ip a; to_string (server_port a)] ++
  match bootstrap_ip a with [] => [] | ip => [str "--join"; ip; to_string (bootstrap_port a)] end.

Record server_args_ok (a : ServerArgs) : Prop := {
  sa_port : is_port (server_port a);
  sa_bport : is_port (bootstrap_port a);
  sa_alone : bootstrap_ip a = [] → bootstrap_port a = 0
}.

Lemma server_args_line prog a : server_args_ok a → server_args (server_line prog a) = Ok (Some a).
Proof.
  intros [H1 H2 H3]. destruct a as [ip p bip bp]; simpl in *. destruct (u16_port p H1) as [Hu _].
  destruct (u16_port bp H2) as [Hv _]. unfold is_port in *.
  unfold server_line, server_args, arg. destruct bip as [|c bip]; cbn [server_ip server_port bootstrap_ip bootstrap_port app length Nat.ltb Nat.leb nth andb].
  - rewrite atoi_to_string by lia. cbn [mbind]. unfold mbind, res_bind. by rewrite Hu, H3.
  - rewrite !atoi_to_string by lia. unfold mbind, res_bind. rewrite bool_decide_eq_true_2 by done. by rewrite Hu, Hv.
Qed.

(** The usage of the client, filled in. *)
Definition client_line (prog : bytes) (a : ClientArgs) : list bytes :=
  [prog; c_ip a; to_string (c_port a)] ++
  (if enable_benchmark a || enable_latency a
   then [if enable_benchmark a then str "--benchmark" else str "--latency"; to_string (benchmark_ops a); benchmark_type a]
   else []) ++
  [str "--threads"; to_string (num_threads a)].

Record client_args_ok (a : ClientArgs) : Prop := {
  ca_port : is_port (c_port a);
  ca_ops : is_count (benchmark_ops a);
  ca_threads : is_count (num_threads a);
  ca_mode : enable_benchmark a && enable_latency a = false;
  ca_plain : enable_benchmark a || enable_latency a = false → benchmark_ops a = 10000 ∧ benchmark_type a = str "set";
  ca_type : benchmark_type a ≠ str "--threads"
}.

Lemma find_threads_line ops n ty opt :
  to_string ops ≠ str "--threads" → ty ≠ str "--threads" → is_count n → opt ≠ str "--threads" →
  find_threads [opt; to_string ops; ty; str "--threads"; to_string n] = Ok n.
Proof. intros H1 H2 H3 H4. cbn [find_threads]. rewrite !bool_decide_eq_false_2, bool_decide_eq_true_2 by done. by apply atoi_to_string. Qed.

(** The client reads its command line as the usage has it: mode, number of
    operations, operation type and threads come out as they were put in, for
    every number that fits, and each combination starts exactly the run that
    belongs to it. *)
Theorem client_line_roundtrip (prog : bytes) (a : ClientArgs) (run : nat → client_mode → ClientArgs → res unit)
    (start end_ : Z) :
  client_args_ok a →
  client_args (client_line prog a) = Ok (Some a) ∧
  client_main run start end_ (client_line prog a) =
    (if (1 <? num_threads a) && (enable_benchmark a || enable_latency a) then
       let mode := if enable_benchmark a then Benchmark else Latency in
       _ ← join_threads (map (λ i, run i mode a) (seq 0 (Z.to_nat (num_threads a))));
       if enable_benchmark a then f ← total_figures a start end_; Ok (0, Some f) else Ok (0, None)
     else
       let mode := if enable_benchmark a then Benchmark else if enable_latency a then Latency else Interactive in
       match run 0%nat mode a with Ok _ => Ok (0, None) | Throw _ => Ok (1, None) | UB => UB | OutOfFuel => OutOfFuel end).
Proof.
  intros [H1 H2 H3 H4 H5 H6]. assert (client_args (client_line prog a) = Ok (Some a)) as Ha.
  { destruct a as [ip p b l ops ty n]; simpl in *. destruct (u16_port p H1) as [Hu _]. unfold is_port, is_count in *.
    pose proof (to_string_not_option ops "-threads" ltac:(lia)) as Ho. pose proof (λ opt, find_threads_line ops n ty opt Ho H6 H3) as Hf.
    unfold client_line, client_args, arg.
    destruct b, l; try done; cbn [orb app length Nat.ltb Nat.leb nth drop c_ip c_port enable_benchmark enable_latency benchmark_ops benchmark_type num_threads].
    - rewrite Hf by done. rewrite !atoi_to_string by lia. unfold mbind, res_bind. by rewrite Hu.
    - rewrite Hf by done. rewrite !atoi_to_string by lia. unfold mbind, res_bind. by rewrite Hu.
    - destruct (H5 eq_refl) as [-> ->].
      assert (find_threads [str "--threads"; to_string n] = Ok n) as -> by (cbn [find_threads]; rewrite bool_decide_eq_true_2 by done; by apply atoi_to_string).
      rewrite !atoi_to_string by lia. unfold mbind, res_bind. by rewrite Hu. }
  split; [done|]. unfold client_main. rewrite Ha. unfold main_mode. destruct a as [ip p b l ops ty n]; cbn in *.
  destruct b, l; try done; by destruct (1 <? n).
Qed.

Section boot.
Context (steady wall : nat → Z) (rand : nat → Z → nat → Z).
Context (ksend : nat → list send_answer) (dial : nat → bytes → Z → res Z)
  (kreply : nat → list (list recv_answer)) (raw : nat → bytes → nat).
#[local] Notation main := (server_main steady wall rand ksend dial kreply).
#[local] Notation step := (pstep steady wall rand ksend dial kreply raw).

(** What the command line asks for is what is started. *)
Lemma server_main_booted argv uuid dir content files msg p :
  main argv uuid dir content files msg = Ok (Running p) →
  ∃ a, server_args argv = Ok (Some a) ∧
    booted steady wall rand ksend dial kreply uuid (server_ip a) (server_port a) dir content p.
Proof.
  unfold server_main. intros H. apply res_bind_inv in H as ([a|] & Ha & H); [|done]. exists a. split; [done|].
  destruct (Server_start steady uuid (server_ip a) (server_port a) (default ∅ dir) content files) as [[[]| | |] s0] eqn:Hs; try done.
  case_bool_decide as Hb.
  - destruct (Server_run_start rand (set_loop (loop (fresh dir s0)) (fresh dir s0))) as [[[]| | |] q] eqn:Hr; try done.
    injection H as <-. by eapply boot_alone.
  - destruct (Server_joinCluster _ _ _ _ _ _ _ _) as [[[]| | |] l] eqn:Hj; try done.
    destruct (Server_run_start rand (set_loop l (fresh dir s0))) as [[[]| | |] q] eqn:Hr; try done.
    injection H as <-. by eapply boot_joined.
Qed.

Lemma server_main_exits argv uuid dir content files msg c :
  main argv uuid dir content files msg = Ok (ExitCode c) → c = 1.
Proof.
  unfold server_main. intros H. apply res_bind_inv in H as ([a|] & Ha & H); [|by injection H].
  repeat (case_match; simplify_eq/=; try done); unfold exit_code_of in *; by simplify_eq.
Qed.

(** C22: a server started from a well-formed command line, on a restorable
    snapshot or none and on a log of whole insertions: if its start ends at all,
    then either with exit code 1 and nothing running, or in the event loop of a
    server that has the address and the port of the command line; and from there
    no schedule of its threads can make it lose its invariant. *)
Theorem server_main_safe (prog : bytes) (a : ServerArgs) (uuid : Z) (dir : option Dir) (content : bytes) (files : gmap Z bytes)
    (msg : Z) (r : started) :
  server_args_ok a → restorable dir → commands content →
  main (server_line prog a) uuid dir content files msg = Ok r →
  r = ExitCode 1 ∨
  ∃ p, r = Running p ∧ phase p = Looping ∧
    ∀ p', rtc step p p' → Process_inv (mkCNode (server_ip a) (server_port a) uuid) p' ∧
      self_node (cluster (srv (loop p'))) = mkCNode (server_ip a) (server_port a) uuid.
Proof.
  intros Ha Hd Hc H. destruct r as [c|p]; [left; f_equal; by apply server_main_exits in H|right].
  exists p. split; [done|]. apply server_main_booted in H as (a' & Ha' & Hb).
  rewrite server_args_line in Ha' by done. injection Ha' as <-.
  split; [by eapply booted_looping|]. intros p' Hr. apply booted_inv in Hb; [|done..].
  rewrite (proj2 (u16_port _ (sa_port _ Ha))) in Hb. pose proof (process_reach _ _ _ _ _ _ _ _ _ _ Hb Hr) as Hi.
  split; [done|]. apply Hi.
Qed.
End boot.

(** ** At concrete command lines *)

Lemma client_line_roundtrip_witness :
  client_main (λ _ m _, match m with Benchmark => Throw (RuntimeError "Connect error!!!: ") | _ => Ok tt end) 0 2000000000
    [str "client"; str "10.0.0.1"; str "7800"; str "--benchmark"; str "1000"; str "set"; str "--threads"; str "4"] = Ok (0, Some (mkTotals 4000 2000 (of_int 2000))).
Proof.
  destruct (client_line_roundtrip (str "client") (mkClientArgs (str "10.0.0.1") 7800 true false 1000 (str "set") 4)
    (λ _ m _, match m with Benchmark => Throw (RuntimeError "Connect error!!!: ") | _ => Ok tt end) 0 2000000000) as [_ H].
  - constructor; unfold is_port, is_count; cbn; try lia; try reflexivity; try discriminate.
  - etransitivity; [exact H|]. vm_compute. reflexivity.
Defined.

Lemma server_main_safe_witness :
  ∃ p, server_main (λ _, 0) (λ _, 0) (λ _ _ _, 0) solo_answers solo_dial solo_replies
      (server_line (str "server") (mkServerArgs (str "10.0.0.7") 7800 [] 0)) 7 None [] ∅ 1 = Ok (Running p) ∧
    self_node (cluster (srv (loop p))) = solo_node.
Proof.
  assert (H : server_main (λ _, 0) (λ _, 0) (λ _ _ _, 0) solo_answers solo_dial solo_replies
      (server_line (str "server") (mkServerArgs (str "10.0.0.7") 7800 [] 0)) 7 None [] ∅ 1 = Ok (Running solo_process)).
  { unfold server_main. rewrite server_args_line by (constructor; cbn; unfold is_port; try lia; reflexivity).
    unfold mbind, res_bind. cbn [server_ip server_port bootstrap_ip bootstrap_port].
    cbn [from_option id]. rewrite solo_start_ok. rewrite bool_decide_eq_true_2 by reflexivity.
    change (set_loop (loop (fresh None solo_start)) (fresh None solo_start)) with (fresh None solo_start).
    rewrite solo_process_ok. reflexivity. }
  exists solo_process. split; [exact H|].
  destruct (server_main_safe (λ _, 0) (λ _, 0) (λ _ _ _, 0) solo_answers solo_dial solo_replies (λ _ _, 0%nat)
    (str "server") (mkServerArgs (str "10.0.0.7") 7800 [] 0) 7 None [] ∅ 1 (Running solo_process)) as [Hr|(p & Hr & _ & Hp)].
  - constructor; cbn; unfold is_port; try lia; reflexivity.
  - exact restorable_missing.
  - exact commands_nil.
  - exact H.
  - discriminate.
  - injection Hr as <-. exact (proj2 (Hp solo_process (rtc_refl _ _))).
Defined.
